(** * Unit and tech relocation between genie data stores

    A shallow embedding of [tools/dat_implant_units.py] and
    [tools/dat_implant_techs.py]: copying a range of records from a source
    store into a target store, rewriting the unit-ID references of the
    copies, the finalisation passes and the coherence check.

    Python integers are [Z].  Lists are [list] with Python's indexing
    written out (negative indices count from the end, anything else out of
    range raises [IndexError]).  Dictionaries and sets keyed by integers are
    [gmap Z Z] and [gset Z].  Unit objects are mutated in place by the
    finalisation passes, so they live in an object store and the slots of a
    store hold references to them; [copy.deepcopy] allocates. *)

From stdpp Require Import gmap strings list fin_maps pretty sorting.

#[global] Set Warnings "-clear-no-such-hyp".

Open Scope string_scope.
Open Scope list_scope.
Open Scope Z_scope.

(** ** Records of the data file

    The field lists follow the genieutils dataclasses as far as the tools
    read them.  The dataclass schema fixes which attributes exist and that
    the ID attributes hold integers, so the [hasattr] and [isinstance]
    guards of the tools pass on schema fields; the sub-structures that a
    unit may lack are [option]s.  One attribute that the tools look for is
    no schema field: the [Projectile] dataclass has no
    [projectile_unit_id], the unit that is fired is
    [type_50.projectile_unit_id].  A projectile object carries the
    attribute or not, [Some] or [None], and [hasattr] tells which; the
    objects that genieutils builds do not.  Floating point payload that
    the tools never inspect is kept as its raw bit pattern. *)

Module BuildingAnnex.
Record t := mk {
  unit_id : Z;
  misplacement_x : Z;
  misplacement_y : Z
}.
Definition set_unit_id (v : Z) (a : t) : t :=
  mk v (misplacement_x a) (misplacement_y a).
End BuildingAnnex.

Module Building.
Record t := mk {
  construction_graphic_id : Z;
  stack_unit_id : Z;
  head_unit : Z;
  transform_unit : Z;
  pile_unit : Z;
  tech_id : Z;
  annexes : list BuildingAnnex.t
}.
Definition set_stack_unit_id (v : Z) (b : t) : t :=
  mk (construction_graphic_id b) v (head_unit b) (transform_unit b)
     (pile_unit b) (tech_id b) (annexes b).
Definition set_head_unit (v : Z) (b : t) : t :=
  mk (construction_graphic_id b) (stack_unit_id b) v (transform_unit b)
     (pile_unit b) (tech_id b) (annexes b).
Definition set_transform_unit (v : Z) (b : t) : t :=
  mk (construction_graphic_id b) (stack_unit_id b) (head_unit b) v
     (pile_unit b) (tech_id b) (annexes b).
Definition set_pile_unit (v : Z) (b : t) : t :=
  mk (construction_graphic_id b) (stack_unit_id b) (head_unit b)
     (transform_unit b) v (tech_id b) (annexes b).
Definition set_annexes (v : list BuildingAnnex.t) (b : t) : t :=
  mk (construction_graphic_id b) (stack_unit_id b) (head_unit b)
     (transform_unit b) (pile_unit b) (tech_id b) v.
End Building.

Module Projectile.
Record t := mk {
  projectile_type : Z;
  projectile_unit_id : option Z
}.
Definition set_projectile_unit_id (v : Z) (p : t) : t :=
  mk (projectile_type p) (Some v).
End Projectile.

(** The combat data of a unit, which no tool reads. *)
Module Type50.
Record t := mk {
  base_armor : Z;
  projectile_unit_id : Z
}.
End Type50.

Module DeadFish.
Record t := mk {
  walking_graphic : Z;
  tracking_unit : Z;
  tracking_unit_mode : Z
}.
Definition set_tracking_unit (v : Z) (d : t) : t :=
  mk (walking_graphic d) v (tracking_unit_mode d).
End DeadFish.

Module TrainLocation.
Record t := mk {
  train_time : Z;
  unit_id : Z;
  button_id : Z
}.
Definition set_unit_id (v : Z) (l : t) : t :=
  mk (train_time l) v (button_id l).
End TrainLocation.

Module Creatable.
Record t := mk {
  hero_mode : Z;
  train_locations : list TrainLocation.t
}.
Definition set_train_locations (v : list TrainLocation.t) (c : t) : t :=
  mk (hero_mode c) v.
End Creatable.

Module Unit.
Record t := mk {
  id : Z;
  name : string;
  hit_points : Z;
  standing_graphic : Z;
  copy_id : Z;
  base_id : Z;
  dead_unit_id : Z;
  blood_unit_id : Z;
  building : option Building.t;
  projectile : option Projectile.t;
  dead_fish : option DeadFish.t;
  creatable : option Creatable.t;
  type_50 : option Type50.t
}.
Definition set_id (v : Z) (u : t) : t :=
  mk v (name u) (hit_points u) (standing_graphic u) (copy_id u) (base_id u)
     (dead_unit_id u) (blood_unit_id u) (building u) (projectile u)
     (dead_fish u) (creatable u) (type_50 u).
Definition set_copy_id (v : Z) (u : t) : t :=
  mk (id u) (name u) (hit_points u) (standing_graphic u) v (base_id u)
     (dead_unit_id u) (blood_unit_id u) (building u) (projectile u)
     (dead_fish u) (creatable u) (type_50 u).
Definition set_base_id (v : Z) (u : t) : t :=
  mk (id u) (name u) (hit_points u) (standing_graphic u) (copy_id u) v
     (dead_unit_id u) (blood_unit_id u) (building u) (projectile u)
     (dead_fish u) (creatable u) (type_50 u).
Definition set_dead_unit_id (v : Z) (u : t) : t :=
  mk (id u) (name u) (hit_points u) (standing_graphic u) (copy_id u)
     (base_id u) v (blood_unit_id u) (building u) (projectile u)
     (dead_fish u) (creatable u) (type_50 u).
Definition set_blood_unit_id (v : Z) (u : t) : t :=
  mk (id u) (name u) (hit_points u) (standing_graphic u) (copy_id u)
     (base_id u) (dead_unit_id u) v (building u) (projectile u)
     (dead_fish u) (creatable u) (type_50 u).
Definition set_building (v : option Building.t) (u : t) : t :=
  mk (id u) (name u) (hit_points u) (standing_graphic u) (copy_id u)
     (base_id u) (dead_unit_id u) (blood_unit_id u) v (projectile u)
     (dead_fish u) (creatable u) (type_50 u).
Definition set_projectile (v : option Projectile.t) (u : t) : t :=
  mk (id u) (name u) (hit_points u) (standing_graphic u) (copy_id u)
     (base_id u) (dead_unit_id u) (blood_unit_id u) (building u) v
     (dead_fish u) (creatable u) (type_50 u).
Definition set_dead_fish (v : option DeadFish.t) (u : t) : t :=
  mk (id u) (name u) (hit_points u) (standing_graphic u) (copy_id u)
     (base_id u) (dead_unit_id u) (blood_unit_id u) (building u)
     (projectile u) v (creatable u) (type_50 u).
Definition set_creatable (v : option Creatable.t) (u : t) : t :=
  mk (id u) (name u) (hit_points u) (standing_graphic u) (copy_id u)
     (base_id u) (dead_unit_id u) (blood_unit_id u) (building u)
     (projectile u) (dead_fish u) v (type_50 u).
End Unit.

Module UnitHeaders.
Record t := mk {
  exists_ : Z;
  task_list : option (list Z)
}.
End UnitHeaders.

Module Effect.
Record t := mk {
  name : string;
  commands : list Z
}.
End Effect.

Module Tech.
Record t := mk {
  name : string;
  effect_id : Z;
  required_techs : list Z;
  research_time : Z
}.
Definition set_effect_id (v : Z) (x : t) : t :=
  mk (name x) v (required_techs x) (research_time x).
Definition set_required_techs (v : list Z) (x : t) : t :=
  mk (name x) (effect_id x) v (research_time x).
End Tech.

(** A unit object is named by its address in the object store. *)
Abbreviation loc := nat.

Module Civ.
Record t := mk {
  name : string;
  units : list (option loc)
}.
Definition set_units (v : list (option loc)) (c : t) : t := mk (name c) v.
End Civ.

Module DatFile.
Record t := mk {
  unit_headers : list UnitHeaders.t;
  civs : list Civ.t;
  techs : list Tech.t;
  effects : list Effect.t
}.
Definition set_unit_headers (v : list UnitHeaders.t) (d : t) : t :=
  mk v (civs d) (techs d) (effects d).
Definition set_civs (v : list Civ.t) (d : t) : t :=
  mk (unit_headers d) v (techs d) (effects d).
Definition set_techs (v : list Tech.t) (d : t) : t :=
  mk (unit_headers d) (civs d) v (effects d).
Definition set_effects (v : list Effect.t) (d : t) : t :=
  mk (unit_headers d) (civs d) (techs d) v.
End DatFile.

(** ** Rewriting the references of one unit *)

Section remap.
Variable id_mapping : gmap Z Z.

(** The local helper [do] of [_remap_unit_id_refs_in_unit]: the value to
    store and how many rewrites it counts for. *)
Definition do (v : Z) : Z * Z :=
  match id_mapping !! v with
  | Some w => (w, 1)
  | None => (v, 0)
  end.

(** One [getattr] / [do] / conditional [setattr] round on the attribute
    read by [get] and written by [set]; [n] is the running count. *)
Definition remap_attr {A} (get : A → Z) (set : Z → A → A)
    (acc : A * Z) : A * Z :=
  let '(x, n) := acc in
  let '(new_val, c) := do (get x) in
  if bool_decide (c ≠ 0) then (set new_val x, n + c) else (x, n).

(** The same round behind [hasattr]: an attribute that the object does not
    have is skipped. *)
Definition remap_attr_if_present {A} (get : A → option Z) (set : Z → A → A)
    (acc : A * Z) : A * Z :=
  match get acc.1 with
  | Some val => remap_attr (λ _, val) set acc
  | None => acc
  end.

(** The same round on every element of a list of sub-structures
    ([for annex in annexes], [for tl in train_locations]). *)
Fixpoint remap_each {A} (get : A → Z) (set : Z → A → A)
    (l : list A) (n : Z) : list A * Z :=
  match l with
  | [] => ([], n)
  | a :: rest =>
      let '(a', n1) := remap_attr get set (a, n) in
      let '(rest', n2) := remap_each get set rest n1 in
      (a' :: rest', n2)
  end.

Definition remap_building (b : Building.t) (n : Z) : Building.t * Z :=
  let acc := remap_attr Building.stack_unit_id Building.set_stack_unit_id (b, n) in
  let acc := remap_attr Building.head_unit Building.set_head_unit acc in
  let acc := remap_attr Building.transform_unit Building.set_transform_unit acc in
  let '(b, n) := remap_attr Building.pile_unit Building.set_pile_unit acc in
  let '(annexes, n) :=
    remap_each BuildingAnnex.unit_id BuildingAnnex.set_unit_id
      (Building.annexes b) n in
  (Building.set_annexes annexes b, n).

Definition remap_creatable (c : Creatable.t) (n : Z) : Creatable.t * Z :=
  let '(tls, n) :=
    remap_each TrainLocation.unit_id TrainLocation.set_unit_id
      (Creatable.train_locations c) n in
  (Creatable.set_train_locations tls c, n).

(** The whole walk of [_remap_unit_id_refs_in_unit] over the contents of
    one unit: the rewritten contents and the number of rewrites. *)
Definition remap_unit_fields (u : Unit.t) : Unit.t * Z :=
  let acc := remap_attr Unit.copy_id Unit.set_copy_id (u, 0) in
  let acc := remap_attr Unit.base_id Unit.set_base_id acc in
  let acc := remap_attr Unit.dead_unit_id Unit.set_dead_unit_id acc in
  let '(u, n) := remap_attr Unit.blood_unit_id Unit.set_blood_unit_id acc in
  let '(u, n) :=
    match Unit.building u with
    | Some b =>
        let '(b', n') := remap_building b n in
        (Unit.set_building (Some b') u, n')
    | None => (u, n)
    end in
  let '(u, n) :=
    match Unit.projectile u with
    | Some p =>
        let '(p', n') :=
          remap_attr_if_present Projectile.projectile_unit_id
            Projectile.set_projectile_unit_id (p, n) in
        (Unit.set_projectile (Some p') u, n')
    | None => (u, n)
    end in
  let '(u, n) :=
    match Unit.dead_fish u with
    | Some d =>
        let '(d', n') :=
          remap_attr DeadFish.tracking_unit DeadFish.set_tracking_unit (d, n) in
        (Unit.set_dead_fish (Some d') u, n')
    | None => (u, n)
    end in
  match Unit.creatable u with
  | Some c =>
      let '(c', n') := remap_creatable c n in
      (Unit.set_creatable (Some c') u, n')
  | None => (u, n)
  end.

End remap.

(** The relocation map of one implant:
    [{source_start + j: target_start + j for j in range(implant_count)}]. *)
Definition range (n : Z) : list Z := seqZ 0 n.

Definition id_mapping_of (source_start target_start implant_count : Z)
    : gmap Z Z :=
  list_to_map
    ((λ j, (source_start + j, target_start + j)) <$> range implant_count).

(** ** Python lists *)

Definition len {A} (l : list A) : Z := Z.of_nat (length l).

(** The position a Python index denotes, if any: non-negative indices count
    from the front, negative ones from the end. *)
Definition py_index {A} (l : list A) (i : Z) : option nat :=
  if bool_decide (0 ≤ i < len l) then Some (Z.to_nat i)
  else if bool_decide (- len l ≤ i < 0) then Some (Z.to_nat (len l + i))
  else None.

(** [while len(lst) < length: lst.append(blank_fill)].  The loop runs
    [length - len(lst)] times when that is positive, which is the fuel. *)
Fixpoint ensure_length_loop {A} (fuel : nat) (lst : list A) (n : Z)
    (blank_fill : A) : list A :=
  match fuel with
  | O => lst
  | S fuel' =>
      if bool_decide (len lst < n)
      then ensure_length_loop fuel' (lst ++ [blank_fill]) n blank_fill
      else lst
  end.

Definition _ensure_length {A} (lst : list A) (n : Z) (blank_fill : A)
    : list A :=
  ensure_length_loop (Z.to_nat (n - len lst)) lst n blank_fill.

Definition enumerate {A} (l : list A) : list (Z * A) :=
  zip (range (len l)) l.

(** ** Effects: the object store, the target store, standard output *)

Inductive exn :=
| ValueError
| IndexError
| DanglingReference.

(** What the tools print, by message. *)
Inductive line :=
| NoteExtend (n_target_before need_len : Z)
| NoteRange (source_start implant_count target_start : Z)
| NoteOverwrite (indices : list Z)
| NoteSelfIds (n : Z)
| NoteGlobalRemap (total : Z)
| NoteExtendEffects (n_target_effects need_effect_len : Z)
| NoteExtendTechs (n_target_techs need_tech_len : Z)
| NoteTechRange (source_start implant_count target_tech_start tech_offset : Z)
| NoteEffectsHeader
| NoteEffectSlot (idx : Z) (name : string)
| NoteTechsHeader
| NoteTechSlot (idx : Z) (name : string).

(** [objs] holds every unit object, of the source and of the target alike;
    an address that is not below [length objs] names no object, and
    following one is the fault [DanglingReference], which Python cannot
    produce.  [target_data] is the store being modified in place. *)
Record state := mkState {
  objs : list Unit.t;
  target_data : DatFile.t;
  stdout : list line
}.

Definition set_objs (v : list Unit.t) (s : state) : state :=
  mkState v (target_data s) (stdout s).
Definition set_target_data (v : DatFile.t) (s : state) : state :=
  mkState (objs s) v (stdout s).
Definition set_stdout (v : list line) (s : state) : state :=
  mkState (objs s) (target_data s) v.

Inductive outcome (A : Type) :=
| Returned (a : A) (s : state)
| Raised (e : exn) (s : state).
Arguments Returned {A} a s.
Arguments Raised {A} e s.

Definition M (A : Type) : Type := state → outcome A.

#[global] Instance M_ret : MRet M := λ A a s, Returned a s.
#[global] Instance M_bind : MBind M := λ A B k m s,
  match m s with
  | Returned a s' => k a s'
  | Raised e s' => Raised e s'
  end.

Definition raise {A} (e : exn) : M A := λ s, Raised e s.
Definition gets {A} (f : state → A) : M A := λ s, Returned (f s) s.
Definition modify (f : state → state) : M unit := λ s, Returned tt (f s).
Definition print (l : line) : M unit :=
  modify (λ s, set_stdout (stdout s ++ [l]) s).
Definition when (b : bool) (m : M unit) : M unit :=
  if b then m else mret tt.

(** [for x in l: acc = body(x, acc)]. *)
Fixpoint for_fold {A B} (l : list A) (body : A → B → M B) (acc : B) : M B :=
  match l with
  | [] => mret acc
  | x :: rest => acc' ← body x acc; for_fold rest body acc'
  end.

Definition for_ {A} (l : list A) (body : A → M unit) : M unit :=
  for_fold l (λ x _, body x) tt.

Definition getitem {A} (l : list A) (i : Z) : M A :=
  match py_index l i ≫= (l !!.) with
  | Some x => mret x
  | None => raise IndexError
  end.

(** [l[i] = x], as the list that results. *)
Definition setitem {A} (l : list A) (i : Z) (x : A) : M (list A) :=
  match py_index l i with
  | Some k => mret (<[k:=x]> l)
  | None => raise IndexError
  end.

Definition load (l : loc) : M Unit.t := λ s,
  match objs s !! l with
  | Some u => Returned u s
  | None => Raised DanglingReference s
  end.

Definition store (l : loc) (u : Unit.t) : M unit :=
  modify (λ s, set_objs (<[l:=u]> (objs s)) s).

(** A new object, at the first address not in use. *)
Definition alloc (u : Unit.t) : M loc := λ s,
  Returned (length (objs s)) (set_objs (objs s ++ [u]) s).

(** [copy.deepcopy(u)]: a new object with the contents of [u]. *)
Definition deepcopy (l : loc) : M loc :=
  u ← load l; alloc u.

Definition modify_target (f : DatFile.t → DatFile.t) : M unit :=
  modify (λ s, set_target_data (f (target_data s)) s).

(** [_remap_unit_id_refs_in_unit(unit, id_mapping)]: the object is
    rewritten in place, the count is returned. *)
Definition _remap_unit_id_refs_in_unit (unit : loc) (id_mapping : gmap Z Z)
    : M Z :=
  u ← load unit;
  let '(u', n) := remap_unit_fields id_mapping u in
  store unit u';;
  mret n.

(** ** [implant_units_from_dat] *)

Definition _blank_unit_header : UnitHeaders.t := UnitHeaders.mk 0 None.

Definition _is_blank_header (h : UnitHeaders.t) : bool :=
  bool_decide (UnitHeaders.exists_ h = 0).

(** The range checks shared by the implanters: [ValueError] or the number
    of records to implant. *)
Definition implant_range (n_source source_start : Z)
    (source_end count : option Z) : M Z :=
  if bool_decide (source_start >= n_source) then raise ValueError else
  implant_count ←
    match count with
    | Some count => mret (Z.min count (n_source - source_start))
    | None =>
        match source_end with
        | Some source_end =>
            if bool_decide (source_end < source_start) then raise ValueError
            else if bool_decide (source_end >= n_source) then raise ValueError
            else mret (source_end - source_start + 1)
        | None => mret (n_source - source_start)
        end
    end;
  if bool_decide (implant_count ≤ 0) then raise ValueError
  else mret implant_count.

(** The number of unit slots of a store: the units of the first
    civilisation, or the unit headers when there is none. *)
Definition n_unit_slots (d : DatFile.t) : Z :=
  match DatFile.civs d with
  | civ0 :: _ => len (Civ.units civ0)
  | [] => len (DatFile.unit_headers d)
  end.

(** The inner loop of step 3: does some civilisation hold a unit at [idx]?
    ([break] at the first one that does). *)
Fixpoint civs_occupied (civs : list Civ.t) (idx : Z) : M bool :=
  match civs with
  | [] => mret false
  | civ :: rest =>
      if bool_decide (idx < len (Civ.units civ)) then
        u ← getitem (Civ.units civ) idx;
        match u with
        | Some _ => mret true
        | None => civs_occupied rest idx
        end
      else civs_occupied rest idx
  end.

(** Step 3: the destination slots that hold something before the copy. *)
Definition collect_overwritten (target_start implant_count : Z)
    : M (gset Z) :=
  for_fold (range implant_count) (λ i overwritten_indices,
    let idx := target_start + i in
    target ← gets target_data;
    if bool_decide (idx >= len (DatFile.unit_headers target))
    then mret overwritten_indices
    else
      h ← getitem (DatFile.unit_headers target) idx;
      if negb (_is_blank_header h)
      then mret ({[idx]} ∪ overwritten_indices)
      else
        occupied ← civs_occupied (DatFile.civs target) idx;
        mret (if occupied : bool then {[idx]} ∪ overwritten_indices
              else overwritten_indices)) ∅.

(** [target_data.unit_headers[tgt_idx] = h]. *)
Definition set_target_header (tgt_idx : Z) (h : UnitHeaders.t) : M unit :=
  target ← gets target_data;
  headers ← setitem (DatFile.unit_headers target) tgt_idx h;
  modify_target (DatFile.set_unit_headers headers).

(** [target_data.civs[c].units[tgt_idx] = v]. *)
Definition set_target_unit (c tgt_idx : Z) (v : option loc) : M unit :=
  target ← gets target_data;
  civ ← getitem (DatFile.civs target) c;
  units ← setitem (Civ.units civ) tgt_idx v;
  civs ← setitem (DatFile.civs target) c (Civ.set_units units civ);
  modify_target (DatFile.set_civs civs).

(** The source unit copied into civilisation [c]: that civilisation's own,
    or the first civilisation's when the source has fewer civilisations
    (or a shorter unit list) and [copy_extra_civs_from_first] is set. *)
Definition source_unit (source_data : DatFile.t)
    (copy_extra_civs_from_first : bool) (c src_idx : Z) : M (option loc) :=
  let n_source_civs := len (DatFile.civs source_data) in
  own ← (if bool_decide (c < n_source_civs) then
           civ ← getitem (DatFile.civs source_data) c;
           mret (bool_decide (src_idx < len (Civ.units civ)))
         else mret false);
  if own : bool then
    civ ← getitem (DatFile.civs source_data) c;
    getitem (Civ.units civ) src_idx
  else if copy_extra_civs_from_first && bool_decide (n_source_civs > 0) then
    civ0 ← getitem (DatFile.civs source_data) 0;
    if bool_decide (src_idx < len (Civ.units civ0))
    then getitem (Civ.units civ0) src_idx
    else mret None
  else mret None.

(** Step 4 for one source slot and one target civilisation. *)
Definition implant_unit (source_data : DatFile.t)
    (copy_extra_civs_from_first : bool) (id_mapping : gmap Z Z)
    (src_idx tgt_idx c : Z) : M unit :=
  u ← source_unit source_data copy_extra_civs_from_first c src_idx;
  match u with
  | Some u =>
      clone ← deepcopy u;
      x ← load clone;
      store clone (Unit.set_id tgt_idx x);;
      _remap_unit_id_refs_in_unit clone id_mapping;;
      set_target_unit c tgt_idx (Some clone)
  | None => set_target_unit c tgt_idx None
  end.

(** [implant_units_from_dat] with [output_path=None]: the caller saves.
    The function returns the number of units implanted. *)
Definition implant_units_from_dat (source_data : DatFile.t)
    (source_start : Z) (source_end count : option Z) (target_start : Z)
    (warn_overwrite copy_extra_civs_from_first : bool) : M Z :=
  let n_source := n_unit_slots source_data in
  implant_count ← implant_range n_source source_start source_end count;
  n_target_before ← gets (λ s, n_unit_slots (target_data s));
  let need_len := target_start + implant_count in
  when (bool_decide (need_len > n_target_before))
    (print (NoteExtend n_target_before need_len));;
  print (NoteRange source_start implant_count target_start);;
  (* 1) unit headers *)
  modify_target (λ d,
    DatFile.set_unit_headers
      (_ensure_length (DatFile.unit_headers d) need_len _blank_unit_header) d);;
  (* 2) the units of every civilisation *)
  modify_target (λ d,
    DatFile.set_civs
      ((λ civ, Civ.set_units (_ensure_length (Civ.units civ) need_len None) civ)
         <$> DatFile.civs d) d);;
  (* 3) what is about to be overwritten *)
  overwritten_indices ← collect_overwritten target_start implant_count;
  when (bool_decide (overwritten_indices ≠ ∅) && warn_overwrite)
    (print (NoteOverwrite (merge_sort Z.le (elements overwritten_indices))));;
  (* 4) copy, renumber, rewrite, plug in *)
  n_target_civs ← gets (λ s, len (DatFile.civs (target_data s)));
  let n_source_headers := len (DatFile.unit_headers source_data) in
  let id_mapping := id_mapping_of source_start target_start implant_count in
  for_ (range implant_count) (λ i,
    let src_idx := source_start + i in
    let tgt_idx := target_start + i in
    (if bool_decide (src_idx < n_source_headers) then
       h ← getitem (DatFile.unit_headers source_data) src_idx;
       set_target_header tgt_idx h
     else set_target_header tgt_idx _blank_unit_header);;
    for_ (range n_target_civs)
      (implant_unit source_data copy_extra_civs_from_first id_mapping
         src_idx tgt_idx));;
  mret implant_count.

(** ** The finalisation passes *)

Definition fix_implanted_unit_self_ids (unit_indices : gset Z) : M Z :=
  civs ← gets (λ s, DatFile.civs (target_data s));
  n ← for_fold civs (λ civ n,
         let units := Civ.units civ in
         for_fold (elements unit_indices) (λ i n,
           if bool_decide (i < len units) then
             slot ← getitem units i;
             match slot with
             | Some u =>
                 x ← load u;
                 if bool_decide (Unit.id x ≠ i)
                 then store u (Unit.set_id i x);; mret (n + 1)
                 else mret n
             | None => mret n
             end
           else mret n) n) 0;
  when (bool_decide (n ≠ 0)) (print (NoteSelfIds n));;
  mret n.

Definition remap_unit_copy_base_ids_global (id_mapping : gmap Z Z) : M Z :=
  civs ← gets (λ s, DatFile.civs (target_data s));
  total ← for_fold civs (λ civ total,
             for_fold (Civ.units civ) (λ u total,
               match u with
               | Some u =>
                   n ← _remap_unit_id_refs_in_unit u id_mapping;
                   mret (total + n)
               | None => mret total
               end) total) 0;
  when (bool_decide (total ≠ 0)) (print (NoteGlobalRemap total));;
  mret total.

Definition finalize_unit_id_migration (id_mapping : gmap Z Z)
    (implanted_indices : gset Z) : M (Z * Z) :=
  n_id ← fix_implanted_unit_self_ids implanted_indices;
  n_refs ← remap_unit_copy_base_ids_global id_mapping;
  mret (n_id, n_refs).

(** ** [check_unit_id_coherence] *)

(** The walk of [_iter_unit_id_refs_for_check] over the contents of one
    unit: every unit-ID field with its path. *)
Definition unit_id_refs (u : Unit.t) : list (string * Z) :=
  [("copy_id", Unit.copy_id u); ("base_id", Unit.base_id u);
   ("dead_unit_id", Unit.dead_unit_id u);
   ("blood_unit_id", Unit.blood_unit_id u)]
  ++ match Unit.building u with
     | Some b =>
         [("building.stack_unit_id", Building.stack_unit_id b);
          ("building.head_unit", Building.head_unit b);
          ("building.transform_unit", Building.transform_unit b);
          ("building.pile_unit", Building.pile_unit b)]
         ++ imap (λ i annex,
                    ("building.annexes[" +:+ pretty i +:+ "].unit_id",
                     BuildingAnnex.unit_id annex))
              (Building.annexes b)
     | None => []
     end
  ++ match Unit.projectile u with
     | Some p =>
         match Projectile.projectile_unit_id p with
         | Some v => [("projectile.projectile_unit_id", v)]
         | None => []
         end
     | None => []
     end
  ++ match Unit.dead_fish u with
     | Some d => [("dead_fish.tracking_unit", DeadFish.tracking_unit d)]
     | None => []
     end
  ++ match Unit.creatable u with
     | Some c =>
         imap (λ i tl,
                 ("creatable.train_locations[" +:+ pretty i +:+ "].unit_id",
                  TrainLocation.unit_id tl))
           (Creatable.train_locations c)
     | None => []
     end.

Definition _iter_unit_id_refs_for_check (unit : option loc)
    : M (list (string * Z)) :=
  match unit with
  | None => mret []
  | Some unit => u ← load unit; mret (unit_id_refs u)
  end.

(** [(unit_index, civ_index, field_path, bad_value, message)]. *)
Definition issue : Type := Z * Z * string * Z * string.

Definition self_id_issue (ui civ_idx vid : Z) : issue :=
  (ui, civ_idx, "id", vid,
   "单位[" +:+ pretty ui +:+ "] 文明" +:+ pretty civ_idx +:+ " .id="
     +:+ pretty vid +:+ "，应为 " +:+ pretty ui).

Definition stale_ref_issue (ui civ_idx : Z) (path : string) (val : Z) : issue :=
  (ui, civ_idx, path, val,
   "单位[" +:+ pretty ui +:+ "] 文明" +:+ pretty civ_idx +:+ " " +:+ path
     +:+ "=" +:+ pretty val +:+ "，已迁移区间不应再引用").

Definition check_unit_id_coherence (implanted_indices : gset Z)
    (migrated_old_ids : gset Z) : M (list issue) :=
  civs ← gets (λ s, DatFile.civs (target_data s));
  for_fold (enumerate civs) (λ '(civ_idx, civ) (issues : list issue),
    let units := Civ.units civ in
    for_fold (elements implanted_indices) (λ ui (issues : list issue),
      if bool_decide (ui >= len units) then mret issues else
      slot ← getitem units ui;
      match slot with
      | None => mret issues
      | Some u =>
          x ← load u;
          let vid := Unit.id x in
          let issues : list issue :=
            if bool_decide (vid ≠ ui)
            then issues ++ [self_id_issue ui civ_idx vid] else issues in
          refs ← _iter_unit_id_refs_for_check (Some u);
          for_fold refs (λ '(path, val) (issues : list issue),
            if bool_decide (val ∈ migrated_old_ids)
            then mret (issues ++ [stale_ref_issue ui civ_idx path val])
            else mret issues) issues
      end) issues) [].

(** ** [implant_techs_from_dat]

    Techs and effects are only ever replaced whole, never modified once
    stored, so the slots hold them by value and [copy.deepcopy] is the
    identity on them. *)

(** [max(...)] of a non-empty sequence; Python raises [ValueError] on an
    empty one. *)
Definition py_max (l : list Z) : M Z :=
  match l with
  | [] => raise ValueError
  | x :: rest => mret (foldl Z.max x rest)
  end.

Definition implant_techs_from_dat (source_data : DatFile.t)
    (source_start : Z) (source_end count : option Z) (target_tech_start : Z)
    (warn_overwrite : bool) : M Z :=
  let n_source_techs := len (DatFile.techs source_data) in
  let n_source_effects := len (DatFile.effects source_data) in
  n_target_techs ← gets (λ s, len (DatFile.techs (target_data s)));
  n_target_effects ← gets (λ s, len (DatFile.effects (target_data s)));
  implant_count ← implant_range n_source_techs source_start source_end count;
  let tech_offset := target_tech_start - source_start in
  let source_tech_end := source_start + implant_count - 1 in
  (* the effects the techs refer to *)
  effect_ids_to_implant ←
    for_fold (range implant_count) (λ i (acc : gset Z),
      tech ← getitem (DatFile.techs source_data) (source_start + i);
      let eid := Tech.effect_id tech in
      if bool_decide (eid < 0) || bool_decide (eid >= n_source_effects)
      then raise ValueError
      else mret ({[eid]} ∪ acc)) ∅;
  max_effect_idx ←
    py_max ((λ eid, eid + tech_offset) <$> elements effect_ids_to_implant);
  let need_effect_len := max_effect_idx + 1 in
  let need_tech_len := target_tech_start + implant_count in
  placeholder_effect ←
    (target ← gets target_data; getitem (DatFile.effects target) 0);
  placeholder_tech ←
    (target ← gets target_data; getitem (DatFile.techs target) 0);
  when (bool_decide (need_effect_len > n_target_effects))
    (print (NoteExtendEffects n_target_effects need_effect_len));;
  when (bool_decide (need_tech_len > n_target_techs))
    (print (NoteExtendTechs n_target_techs need_tech_len));;
  print (NoteTechRange source_start implant_count target_tech_start tech_offset);;
  modify_target (λ d,
    DatFile.set_effects
      (_ensure_length (DatFile.effects d) need_effect_len placeholder_effect) d);;
  modify_target (λ d,
    DatFile.set_techs
      (_ensure_length (DatFile.techs d) need_tech_len placeholder_tech) d);;
  (* what is about to be overwritten *)
  overwritten_effects ←
    for_fold (elements effect_ids_to_implant) (λ eid (acc : gmap Z string),
      let tgt_idx := eid + tech_offset in
      target ← gets target_data;
      e ← getitem (DatFile.effects target) tgt_idx;
      mret (<[tgt_idx := Effect.name e]> acc)) ∅;
  overwritten_techs ←
    for_fold (range implant_count) (λ i (acc : list (Z * string)),
      let tgt_idx := target_tech_start + i in
      target ← gets target_data;
      t ← getitem (DatFile.techs target) tgt_idx;
      mret (acc ++ [(tgt_idx, Tech.name t)])) [];
  when ((bool_decide (overwritten_effects ≠ ∅)
         || bool_decide (overwritten_techs ≠ [])) && warn_overwrite)
    (when (bool_decide (overwritten_effects ≠ ∅))
       (print NoteEffectsHeader;;
        for_ (merge_sort Z.le (elements (dom overwritten_effects)))
          (λ idx, print (NoteEffectSlot idx
                           (default "" (overwritten_effects !! idx)))));;
     when (bool_decide (overwritten_techs ≠ []))
       (print NoteTechsHeader;;
        for_ overwritten_techs (λ '(idx, name), print (NoteTechSlot idx name))));;
  (* the effects first, at their new ids *)
  for_ (elements effect_ids_to_implant) (λ eid,
    let tgt_idx := eid + tech_offset in
    e ← getitem (DatFile.effects source_data) eid;
    target ← gets target_data;
    effects ← setitem (DatFile.effects target) tgt_idx e;
    modify_target (DatFile.set_effects effects));;
  (* then the techs, with effect_id and required_techs rewritten *)
  for_ (range implant_count) (λ i,
    let src_idx := source_start + i in
    let tgt_idx := target_tech_start + i in
    tech ← getitem (DatFile.techs source_data) src_idx;
    let tech := Tech.set_effect_id (Tech.effect_id tech + tech_offset) tech in
    let req := Tech.required_techs tech in
    let new_req :=
      (λ r, if bool_decide (source_start ≤ r ≤ source_tech_end)
            then r + tech_offset else r) <$> req in
    let tech := Tech.set_required_techs new_req tech in
    target ← gets target_data;
    techs ← setitem (DatFile.techs target) tgt_idx tech;
    modify_target (DatFile.set_techs techs));;
  mret implant_count.

(** ** Vocabulary of the statements *)

(** A reference field holding [old] before the rewrite holds [new] after
    it: the mapped value when [old] is a key of the map, [old] itself
    otherwise. *)
Definition rewritten (m : gmap Z Z) (old new : Z) : Prop :=
  match m !! old with
  | Some w => new = w
  | None => new = old
  end.

Definition relocate (m : gmap Z Z) (v : Z) : Z := default v (m !! v).

Definition hits (m : gmap Z Z) (v : Z) : Z :=
  match m !! v with Some _ => 1 | None => 0 end.

Definition annex_rewritten (m : gmap Z Z) (a a' : BuildingAnnex.t) : Prop :=
  rewritten m (BuildingAnnex.unit_id a) (BuildingAnnex.unit_id a')
  ∧ BuildingAnnex.misplacement_x a' = BuildingAnnex.misplacement_x a
  ∧ BuildingAnnex.misplacement_y a' = BuildingAnnex.misplacement_y a.

Definition building_rewritten (m : gmap Z Z) (b b' : Building.t) : Prop :=
  rewritten m (Building.stack_unit_id b) (Building.stack_unit_id b')
  ∧ rewritten m (Building.head_unit b) (Building.head_unit b')
  ∧ rewritten m (Building.transform_unit b) (Building.transform_unit b')
  ∧ rewritten m (Building.pile_unit b) (Building.pile_unit b')
  ∧ Forall2 (annex_rewritten m) (Building.annexes b) (Building.annexes b')
  ∧ Building.construction_graphic_id b' = Building.construction_graphic_id b
  ∧ Building.tech_id b' = Building.tech_id b.

(** The projectile's reference takes part where the object has the
    attribute. *)
Definition projectile_rewritten (m : gmap Z Z) (p p' : Projectile.t) : Prop :=
  option_Forall2 (rewritten m) (Projectile.projectile_unit_id p)
    (Projectile.projectile_unit_id p')
  ∧ Projectile.projectile_type p' = Projectile.projectile_type p.

Definition dead_fish_rewritten (m : gmap Z Z) (d d' : DeadFish.t) : Prop :=
  rewritten m (DeadFish.tracking_unit d) (DeadFish.tracking_unit d')
  ∧ DeadFish.walking_graphic d' = DeadFish.walking_graphic d
  ∧ DeadFish.tracking_unit_mode d' = DeadFish.tracking_unit_mode d.

Definition train_location_rewritten (m : gmap Z Z)
    (l l' : TrainLocation.t) : Prop :=
  rewritten m (TrainLocation.unit_id l) (TrainLocation.unit_id l')
  ∧ TrainLocation.train_time l' = TrainLocation.train_time l
  ∧ TrainLocation.button_id l' = TrainLocation.button_id l.

Definition creatable_rewritten (m : gmap Z Z) (c c' : Creatable.t) : Prop :=
  Forall2 (train_location_rewritten m)
    (Creatable.train_locations c) (Creatable.train_locations c')
  ∧ Creatable.hero_mode c' = Creatable.hero_mode c.

(** [u'] is [u] with every unit-ID reference field rewritten by [m] and
    every other field as it was. *)
Definition unit_rewritten (m : gmap Z Z) (u u' : Unit.t) : Prop :=
  rewritten m (Unit.copy_id u) (Unit.copy_id u')
  ∧ rewritten m (Unit.base_id u) (Unit.base_id u')
  ∧ rewritten m (Unit.dead_unit_id u) (Unit.dead_unit_id u')
  ∧ rewritten m (Unit.blood_unit_id u) (Unit.blood_unit_id u')
  ∧ option_Forall2 (building_rewritten m) (Unit.building u) (Unit.building u')
  ∧ option_Forall2 (projectile_rewritten m)
      (Unit.projectile u) (Unit.projectile u')
  ∧ option_Forall2 (dead_fish_rewritten m)
      (Unit.dead_fish u) (Unit.dead_fish u')
  ∧ option_Forall2 (creatable_rewritten m)
      (Unit.creatable u) (Unit.creatable u')
  ∧ Unit.id u' = Unit.id u
  ∧ Unit.name u' = Unit.name u
  ∧ Unit.hit_points u' = Unit.hit_points u
  ∧ Unit.standing_graphic u' = Unit.standing_graphic u
  ∧ Unit.type_50 u' = Unit.type_50 u.

(** The rewrite written as one expression per record, and the number of
    reference fields it changes. *)
Definition relocate_annex (m : gmap Z Z) (a : BuildingAnnex.t)
    : BuildingAnnex.t :=
  BuildingAnnex.set_unit_id (relocate m (BuildingAnnex.unit_id a)) a.

Definition relocate_building (m : gmap Z Z) (b : Building.t) : Building.t :=
  Building.mk (Building.construction_graphic_id b)
    (relocate m (Building.stack_unit_id b))
    (relocate m (Building.head_unit b))
    (relocate m (Building.transform_unit b))
    (relocate m (Building.pile_unit b))
    (Building.tech_id b)
    (relocate_annex m <$> Building.annexes b).

Definition relocate_projectile (m : gmap Z Z) (p : Projectile.t)
    : Projectile.t :=
  Projectile.mk (Projectile.projectile_type p)
    (relocate m <$> Projectile.projectile_unit_id p).

Definition relocate_dead_fish (m : gmap Z Z) (d : DeadFish.t) : DeadFish.t :=
  DeadFish.set_tracking_unit (relocate m (DeadFish.tracking_unit d)) d.

Definition relocate_train_location (m : gmap Z Z) (l : TrainLocation.t)
    : TrainLocation.t :=
  TrainLocation.set_unit_id (relocate m (TrainLocation.unit_id l)) l.

Definition relocate_creatable (m : gmap Z Z) (c : Creatable.t) : Creatable.t :=
  Creatable.set_train_locations
    (relocate_train_location m <$> Creatable.train_locations c) c.

Definition relocate_unit (m : gmap Z Z) (u : Unit.t) : Unit.t :=
  Unit.mk (Unit.id u) (Unit.name u) (Unit.hit_points u)
    (Unit.standing_graphic u)
    (relocate m (Unit.copy_id u)) (relocate m (Unit.base_id u))
    (relocate m (Unit.dead_unit_id u)) (relocate m (Unit.blood_unit_id u))
    (relocate_building m <$> Unit.building u)
    (relocate_projectile m <$> Unit.projectile u)
    (relocate_dead_fish m <$> Unit.dead_fish u)
    (relocate_creatable m <$> Unit.creatable u)
    (Unit.type_50 u).

Definition sum_hits (m : gmap Z Z) (vs : list Z) : Z :=
  foldr (λ v acc, hits m v + acc) 0 vs.

Definition hits_unit (m : gmap Z Z) (u : Unit.t) : Z :=
  sum_hits m ((unit_id_refs u).*2).

(** Slot [i] of a store array: what it holds, for the slots that exist. *)
Definition slot {A} (l : list A) (i : Z) : option A :=
  if bool_decide (0 ≤ i) then l !! Z.to_nat i else None.

(** The unit reference held by slot [i] of civilisation [c], if any. *)
Definition unit_at (d : DatFile.t) (c i : Z) : option loc :=
  civ ← slot (DatFile.civs d) c; mjoin (slot (Civ.units civ) i).

(** Every unit reference of the store names an object. *)
Definition allocated (os : list Unit.t) (d : DatFile.t) : Prop :=
  Forall (λ civ,
    Forall (λ o, from_option (λ l, (l < length os)%nat) True o)
      (Civ.units civ))
    (DatFile.civs d).

(** The unit object of slot [i] of civilisation [c] is no other slot's. *)
Definition sole_owner (d : DatFile.t) (c i : Z) (l : loc) : Prop :=
  unit_at d c i = Some l
  ∧ ∀ c' i', unit_at d c' i' = Some l → c' = c ∧ i' = i.

(** The store with slot [j] of civilisation [c] set to [v]. *)
Definition plug (d : DatFile.t) (c j : Z) (v : option loc) : DatFile.t :=
  match slot (DatFile.civs d) c with
  | Some civ =>
      DatFile.set_civs
        (<[Z.to_nat c := Civ.set_units (<[Z.to_nat j := v]> (Civ.units civ)) civ]>
           (DatFile.civs d)) d
  | None => d
  end.

(** The source slot that [source_unit] reads for civilisation [c]. *)
Definition source_slot (source_data : DatFile.t)
    (copy_extra_civs_from_first : bool) (c src_idx : Z) : option loc :=
  let fallback :=
    if copy_extra_civs_from_first then
      match DatFile.civs source_data with
      | civ0 :: _ => mjoin (slot (Civ.units civ0) src_idx)
      | [] => None
      end
    else None in
  match slot (DatFile.civs source_data) c with
  | Some civ =>
      if bool_decide (src_idx < len (Civ.units civ))
      then mjoin (slot (Civ.units civ) src_idx)
      else fallback
  | None => fallback
  end.

(** Names and lengths of the civilisations of a store. *)
Definition civ_shape (d : DatFile.t) : list (string * Z) :=
  (λ civ, (Civ.name civ, len (Civ.units civ))) <$> DatFile.civs d.

(** The header written to the target for source slot [src_idx]. *)
Definition implanted_header (source_data : DatFile.t) (src_idx : Z)
    : UnitHeaders.t :=
  default _blank_unit_header (slot (DatFile.unit_headers source_data) src_idx).

Section implant_invariant.
Variables (source_data : DatFile.t) (copy_extra_civs_from_first : bool).
Variables (source_start target_start implant_count : Z).
Variable s0 : state.

(** Slot [target_start + i] of civilisation [c] holds what step 4 puts
    there: nothing when the source has nothing to copy, and otherwise a
    fresh object with the contents of the source unit, renumbered and with
    its references rewritten. *)
Definition implanted (s : state) (i c : Z) : Prop :=
  match source_slot source_data copy_extra_civs_from_first c
          (source_start + i) with
  | Some u =>
      ∃ l us,
        unit_at (target_data s) c (target_start + i) = Some l
        ∧ (length (objs s0) ≤ l)%nat
        ∧ objs s0 !! u = Some us
        ∧ objs s !! l
          = Some (relocate_unit
                    (id_mapping_of source_start target_start implant_count)
                    (Unit.set_id (target_start + i) us))
  | None => unit_at (target_data s) c (target_start + i) = None
  end.

(** The state [s] reached from [s0] once the header of the offsets in [PH]
    and the unit of the (offset, civilisation) pairs in [P] are copied. *)
Record implant_inv (P : Z → Z → Prop) (PH : Z → Prop) (s : state) : Prop := {
  inv_stdout : stdout s = stdout s0;
  inv_techs : DatFile.techs (target_data s) = DatFile.techs (target_data s0);
  inv_effects :
    DatFile.effects (target_data s) = DatFile.effects (target_data s0);
  inv_shape : civ_shape (target_data s) = civ_shape (target_data s0);
  inv_objs : objs s0 `prefix_of` objs s;
  inv_hlen :
    len (DatFile.unit_headers (target_data s))
    = len (DatFile.unit_headers (target_data s0));
  inv_hdone : ∀ i, PH i →
    slot (DatFile.unit_headers (target_data s)) (target_start + i)
    = Some (implanted_header source_data (source_start + i));
  inv_hframe : ∀ j, ¬ PH (j - target_start) →
    slot (DatFile.unit_headers (target_data s)) j
    = slot (DatFile.unit_headers (target_data s0)) j;
  inv_frame : ∀ c j, ¬ P (j - target_start) c →
    unit_at (target_data s) c j = unit_at (target_data s0) c j;
  inv_clone : ∀ i c, P i c → implanted s i c;
  inv_inj : ∀ i c i' c' l, P i c → P i' c' →
    unit_at (target_data s) c (target_start + i) = Some l →
    unit_at (target_data s) c' (target_start + i') = Some l →
    i = i' ∧ c = c'
}.

End implant_invariant.

(** The number of records the selectors ask for: [count] when given
    (clamped to what the source holds from [source_start] on), else up to
    [source_end] inclusive, else everything from [source_start] on. *)
Definition selected_count (n_source source_start : Z)
    (source_end count : option Z) : Z :=
  match count, source_end with
  | Some count, _ => Z.min count (n_source - source_start)
  | None, Some source_end => source_end - source_start + 1
  | None, None => n_source - source_start
  end.

(** The inputs the range checks reject. *)
Definition range_error (n_source source_start : Z)
    (source_end count : option Z) : Prop :=
  n_source ≤ source_start
  ∨ (count = None
     ∧ ∃ e, source_end = Some e ∧ (e < source_start ∨ n_source ≤ e))
  ∨ selected_count n_source source_start source_end count ≤ 0.

(** Slot [j] holds a non-empty record: a header that exists, or a unit in
    some civilisation. *)
Definition occupied (d : DatFile.t) (j : Z) : Prop :=
  (∃ h, slot (DatFile.unit_headers d) j = Some h ∧ UnitHeaders.exists_ h ≠ 0)
  ∨ (∃ c l, unit_at d c j = Some l).

(** The store after steps 1 and 2 of the implant. *)
Definition extended (d : DatFile.t) (need_len : Z) : DatFile.t :=
  DatFile.set_civs
    ((λ civ, Civ.set_units (_ensure_length (Civ.units civ) need_len None) civ)
       <$> DatFile.civs d)
    (DatFile.set_unit_headers
       (_ensure_length (DatFile.unit_headers d) need_len _blank_unit_header) d).

Section global_remap_invariant.
Variables (m : gmap Z Z) (s : state).

(** Every unit of the store is already as the rewrite would leave it. *)
Definition settled : Prop :=
  ∀ c j l u,
    unit_at (target_data s) c j = Some l → objs s !! l = Some u →
    relocate_unit m u = u ∧ hits_unit m u = 0.

(** The state [s'] reached from [s] by the global pass once the slots in
    [V] are visited, with [total] rewrites counted so far.  An object has
    been rewritten once per visited slot that holds it. *)
Record remap_inv (V : Z → Z → Prop) (total : Z) (s' : state) : Prop := {
  rinv_target : target_data s' = target_data s;
  rinv_stdout : stdout s' = stdout s;
  rinv_length : length (objs s') = length (objs s);
  rinv_objs : ∀ l u, objs s !! l = Some u →
    ∃ k, objs s' !! l = Some (Nat.iter k (relocate_unit m) u)
      ∧ (∀ c j, V c j → unit_at (target_data s) c j = Some l → (1 ≤ k)%nat)
      ∧ ((∀ c j, V c j → unit_at (target_data s) c j ≠ Some l) → k = 0%nat)
      ∧ (∀ c j, sole_owner (target_data s) c j l → (k ≤ 1)%nat);
  rinv_settled : settled → total = 0 ∧ objs s' = objs s
}.

End global_remap_invariant.

(** The state [s'] reached from [s] inside [fix_implanted_unit_self_ids]:
    an object is as it was, or renumbered to a slot of [indices] that holds
    it. *)
Record fix_inv (indices : gset Z) (s s' : state) : Prop := {
  finv_target : target_data s' = target_data s;
  finv_stdout : stdout s' = stdout s;
  finv_length : length (objs s') = length (objs s);
  finv_objs : ∀ l u, objs s !! l = Some u →
    ∃ u', objs s' !! l = Some u'
      ∧ (u' = u
         ∨ ∃ c j, j ∈ indices ∧ unit_at (target_data s) c j = Some l
                  ∧ u' = Unit.set_id j u)
}.

(** ** A small store, for the worked examples *)

Definition ex_unit (i base : Z) : Unit.t :=
  Unit.mk i "villager" 25 100 (-1) base (-1) (-1) None None None None None.

Definition ex_barracks (i : Z) : Unit.t :=
  Unit.mk i "barracks" 1200 200 1 i 2 (-1)
    (Some (Building.mk 7 (-1) 2 9 (-1) 12
             [BuildingAnnex.mk 2 0 0; BuildingAnnex.mk (-1) 0 0]))
    (Some (Projectile.mk 0 None))
    (Some (DeadFish.mk 5 3 0))
    (Some (Creatable.mk 0 [TrainLocation.mk 30 2 1; TrainLocation.mk 30 8 2]))
    (Some (Type50.mk 3 1)).

Definition ex_header : UnitHeaders.t := UnitHeaders.mk 1 (Some []).

(** Four source slots in two civilisations (objects 0 to 5), with two
    techs and two effects, and a target of two slots in three civilisations
    (objects 6 and 7), with one tech and two effects. *)
Definition ex_source : DatFile.t :=
  DatFile.mk [ex_header; ex_header; ex_header; ex_header]
    [Civ.mk "britons" [Some 0%nat; Some 1%nat; None; Some 2%nat];
     Civ.mk "franks" [Some 3%nat; Some 4%nat; None; Some 5%nat]]
    [Tech.mk "loom" 1 [-1] 25; Tech.mk "wheelbarrow" 0 [0; 7] 75]
    [Effect.mk "carry more" [3]; Effect.mk "armour" [1; 2]].

Definition ex_target : DatFile.t :=
  DatFile.mk [ex_header; ex_header]
    [Civ.mk "britons" [Some 6%nat; None];
     Civ.mk "franks" [None; Some 7%nat];
     Civ.mk "goths" [None; None]]
    [Tech.mk "town watch" 1 [] 25]
    [Effect.mk "empty" []; Effect.mk "line of sight" [4]].

Definition ex_state : state :=
  mkState
    [ex_unit 0 1; ex_barracks 1; ex_unit 3 1;
     ex_unit 0 1; ex_unit 1 3; ex_unit 3 0;
     ex_unit 0 1; ex_unit 1 3]
    ex_target [].

(** The selector conditions read without the precedence of [count]: an end
    before the start, or past the source, fails whatever [count] says. *)
Definition range_error_ignoring_precedence (n_source source_start : Z)
    (source_end count : option Z) : Prop :=
  n_source ≤ source_start
  ∨ (∃ e, source_end = Some e ∧ (e < source_start ∨ n_source ≤ e))
  ∨ selected_count n_source source_start source_end count ≤ 0.

(** The record in slot [j] of civilisation [c], if the slot holds one. *)
Definition slot_record (s : state) (c j : Z) : option Unit.t :=
  l ← unit_at (target_data s) c j; objs s !! l.

(** The issues the check raises for the record [u] found at slot [ui] of
    civilisation [civ_idx]. *)
Definition slot_issues (migrated_old_ids : gset Z) (ui civ_idx : Z)
    (u : Unit.t) : list issue :=
  (if bool_decide (Unit.id u ≠ ui)
   then [self_id_issue ui civ_idx (Unit.id u)] else [])
  ++ ((λ pv, stale_ref_issue ui civ_idx pv.1 pv.2)
        <$> filter (λ pv, pv.2 ∈ migrated_old_ids) (unit_id_refs u)).

(** ** Vocabulary of the tech implant *)

(** The effect ids the techs at source slots [[S, S+K)] refer to. *)
Definition migrated_effect_ids (source_data : DatFile.t) (S K : Z) : gset Z :=
  list_to_set
    (omap (λ i, Tech.effect_id <$> slot (DatFile.techs source_data) (S + i))
       (range K)).

(** The copy of a tech that the implant stores: [effect_id] moved by the
    offset, and the required techs that lie in the migrated range too. *)
Definition rewritten_tech (S K D : Z) (tech : Tech.t) : Tech.t :=
  Tech.set_required_techs
    ((λ r, if bool_decide (S ≤ r ≤ S + K - 1) then r + D else r)
       <$> Tech.required_techs tech)
    (Tech.set_effect_id (Tech.effect_id tech + D) tech).

(** The lines of an overwrite notice. *)
Definition is_overwrite_line (l : line) : bool :=
  match l with
  | NoteOverwrite _ | NoteEffectsHeader | NoteEffectSlot _ _
  | NoteTechsHeader | NoteTechSlot _ _ => true
  | _ => false
  end.

(** The notice of the tech implant: every destination effect slot in
    increasing order, then every destination tech slot, each with the name
    of what the (already extended) target holds there. *)
Definition tech_notice (effects techs : list (Z * string)) : list line :=
  [NoteEffectsHeader] ++ (uncurry NoteEffectSlot <$> effects)
  ++ [NoteTechsHeader] ++ (uncurry NoteTechSlot <$> techs).

(** ** The rest of the tools *)

Section self_id_invariant.
Variables (indices : gset Z) (s : state).

(** The state [s'] reached from [s] inside [fix_implanted_unit_self_ids]
    once the slots in [V] are visited: the object of a visited slot is
    numbered after it, every other object is as it was. *)
Record aligned_inv (V : Z → Z → Prop) (s' : state) : Prop := {
  ainv_target : target_data s' = target_data s;
  ainv_stdout : stdout s' = stdout s;
  ainv_length : length (objs s') = length (objs s);
  ainv_objs : ∀ l u, objs s !! l = Some u →
    objs s' !! l = Some u
    ∨ ∃ c j, V c j ∧ j ∈ indices ∧ unit_at (target_data s) c j = Some l
             ∧ objs s' !! l = Some (Unit.set_id j u);
  ainv_done : ∀ c j l u, V c j → j ∈ indices →
    unit_at (target_data s) c j = Some l → objs s !! l = Some u →
    objs s' !! l = Some (Unit.set_id j u)
}.

End self_id_invariant.

(** Slot [j] of civilisation [c] holds, after the implant that led from
    [s] to [s1], a copy of the source unit [src]: a new object with the
    contents of the source object, numbered [j], its references rewritten
    by [m], the source object itself being as it was; or nothing when
    there is no source unit. *)
Definition copy_of (m : gmap Z Z) (s s1 : state) (src : option loc)
    (c j : Z) : Prop :=
  match src with
  | Some u0 =>
      ∃ l us u',
        unit_at (target_data s1) c j = Some l
        ∧ (length (objs s) ≤ l)%nat
        ∧ objs s !! u0 = Some us ∧ objs s1 !! u0 = Some us
        ∧ objs s1 !! l = Some u'
        ∧ Unit.id u' = j
        ∧ unit_rewritten m (Unit.set_id j us) u'
  | None => unit_at (target_data s1) c j = None
  end.

(** ** A state and exception monad over any state

    The tools below work on parts of the data file, or on a scenario, that
    the state of the implanters does not hold; their state is their own. *)

Inductive res (St A : Type) :=
| Done (a : A) (s : St)
| Fail (e : exn) (s : St).
Arguments Done {St A} a s.
Arguments Fail {St A} e s.

Definition SM (St A : Type) : Type := St → res St A.

#[global] Instance SM_ret St : MRet (SM St) := λ A a s, Done a s.
#[global] Instance SM_bind St : MBind (SM St) := λ A B k m s,
  match m s with
  | Done a s' => k a s'
  | Fail e s' => Fail e s'
  end.

Definition sraise {St A} (e : exn) : SM St A := λ s, Fail e s.
Definition sgets {St A} (f : St → A) : SM St A := λ s, Done (f s) s.
Definition smodify {St} (f : St → St) : SM St unit := λ s, Done tt (f s).
Definition swhen {St} (b : bool) (m : SM St unit) : SM St unit :=
  if b then m else mret tt.

Fixpoint sfor_fold {St A B} (l : list A) (body : A → B → SM St B) (acc : B)
    : SM St B :=
  match l with
  | [] => mret acc
  | x :: rest => acc' ← body x acc; sfor_fold rest body acc'
  end.

Definition sfor {St A} (l : list A) (body : A → SM St unit) : SM St unit :=
  sfor_fold l (λ x _, body x) tt.

Definition sgetitem {St A} (l : list A) (i : Z) : SM St A :=
  match py_index l i ≫= (l !!.) with
  | Some x => mret x
  | None => sraise IndexError
  end.

Definition ssetitem {St A} (l : list A) (i : Z) (x : A) : SM St (list A) :=
  match py_index l i with
  | Some k => mret (<[k:=x]> l)
  | None => sraise IndexError
  end.

(** ** [tools/dat_implant_graphics.py] *)

Module Graphic.
Record t := mk {
  name : string;
  file_name : string;
  slp : Z;
  id : Z
}.
End Graphic.

(** What [implant_graphics_from_dat] prints. *)
Inductive gline :=
| GNoteHeader
| GNoteSlot (idx : Z) (name : string)
| GNoteMore (n : Z).

(** The graphics of the target, modified in place, and standard output. *)
Record gstate := mkGState {
  graphics : list (option Graphic.t);
  gout : list gline
}.

Definition set_graphics (v : list (option Graphic.t)) (s : gstate) : gstate :=
  mkGState v (gout s).
Definition gprint (l : gline) : SM gstate unit :=
  smodify (λ s, mkGState (graphics s) (gout s ++ [l])).

(** The comprehension that collects what is about to be overwritten:
    [(t_start + i, name)] for the slots of the footprint that hold a
    graphic. *)
Definition overwritten_graphics (t_start implant_count : Z)
    : SM gstate (list (Z * string)) :=
  sfor_fold (range implant_count) (λ i (acc : list (Z * string)),
    gs ← sgets graphics;
    g ← sgetitem gs (t_start + i);
    match g with
    | Some _ =>
        gs ← sgets graphics;
        g ← sgetitem gs (t_start + i);
        mret (acc ++ [(t_start + i, from_option Graphic.name "" g)])
    | None => mret acc
    end) [].

(** [implant_graphics_from_dat] with [output_path=None].  Graphics are
    replaced whole and never modified once stored, so the slots hold them
    by value and [copy.deepcopy] is the identity. *)
Definition implant_graphics_from_dat
    (source_graphics : list (option Graphic.t))
    (source_start : Z) (source_end target_start : option Z)
    (warn_overwrite : bool) : SM gstate Z :=
  let n_source := len source_graphics in
  if bool_decide (source_start >= n_source) then sraise ValueError else
  source_end ←
    match source_end with
    | None => mret (n_source - 1)
    | Some source_end =>
        if bool_decide (source_end < source_start) then sraise ValueError
        else if bool_decide (source_end >= n_source) then sraise ValueError
        else mret source_end
    end;
  let implant_count := source_end - source_start + 1 in
  '(t_start, overwritten) ←
    match target_start with
    | Some target_start =>
        let t_start := target_start in
        let need_len := t_start + implant_count in
        smodify (λ s,
          set_graphics (_ensure_length (graphics s) need_len None) s);;
        overwritten ← overwritten_graphics t_start implant_count;
        mret (t_start, overwritten)
    | None =>
        let t_start := source_start in
        let need_len := source_end + 1 in
        smodify (λ s,
          set_graphics (_ensure_length (graphics s) need_len None) s);;
        overwritten ← overwritten_graphics source_start implant_count;
        mret (t_start, overwritten)
    end;
  swhen (bool_decide (overwritten ≠ []) && warn_overwrite)
    (gprint GNoteHeader;;
     sfor (take 20 overwritten) (λ '(idx, name), gprint (GNoteSlot idx name));;
     swhen (bool_decide (len overwritten > 20))
       (gprint (GNoteMore (len overwritten))));;
  sfor (range implant_count) (λ i,
    let src_idx := source_start + i in
    let tgt_idx := t_start + i in
    g ← sgetitem source_graphics src_idx;
    gs ← sgets graphics;
    gs ← ssetitem gs tgt_idx g;
    smodify (set_graphics gs));;
  mret implant_count.

(** The slots of [[t_start, t_start + implant_count)] that hold a graphic,
    in increasing order, each with the graphic's name. *)
Definition held_graphics (gs : list (option Graphic.t))
    (t_start implant_count : Z) : list (Z * string) :=
  omap (λ i, (λ g, (t_start + i, Graphic.name g))
               <$> mjoin (slot gs (t_start + i)))
    (range implant_count).

(** The overwrite notice for the slots [overwritten]: a header, the first
    twenty slots, and the total when there are more. *)
Definition graphics_notice (overwritten : list (Z * string)) : list gline :=
  [GNoteHeader] ++ (uncurry GNoteSlot <$> take 20 overwritten)
  ++ (if bool_decide (len overwritten > 20)
      then [GNoteMore (len overwritten)] else []).

(** A source of three graphics and a target of two. *)
Definition ex_graphics_source : list (option Graphic.t) :=
  [Some (Graphic.mk "archer_stand" "a.slp" 10 0); None;
   Some (Graphic.mk "archer_walk" "b.slp" 12 2)].

Definition ex_gstate : gstate :=
  mkGState [Some (Graphic.mk "old_stand" "o.slp" 1 0); None] [].

(** The selectors that [implant_graphics_from_dat] rejects. *)
Definition graphics_range_error (n_source source_start : Z)
    (source_end : option Z) : Prop :=
  n_source ≤ source_start
  ∨ ∃ e, source_end = Some e ∧ (e < source_start ∨ n_source ≤ e).

(** ** [mod_sync_to_official.py]: the id mappings

    A Python [dict] keeps its keys in insertion order and the scenario
    tools iterate over [items()], so a mapping is the list of its items;
    assigning to a key that is present keeps the key's place. *)

Definition UNIT_OFFSET : Z := 600.
Definition TECH_OFFSET : Z := 600.

Definition pydict : Type := list (Z * Z).

(** [d[k] = v]. *)
Fixpoint dict_set (d : pydict) (k v : Z) : pydict :=
  match d with
  | [] => [(k, v)]
  | (k', v') :: rest =>
      if bool_decide (k' = k) then (k, v) :: rest
      else (k', v') :: dict_set rest k v
  end.

(** [d.get(k)]. *)
Fixpoint dict_get (d : pydict) (k : Z) : option Z :=
  match d with
  | [] => None
  | (k', v') :: rest => if bool_decide (k' = k) then Some v' else dict_get rest k
  end.

(** [range(start, stop)]. *)
Definition range2 (start stop : Z) : list Z := seqZ start (stop - start).

Definition build_unit_id_mapping (data : DatFile.t) : pydict :=
  let n_units := n_unit_slots data in
  let mapping :=
    foldl (λ mapping i, dict_set mapping i (i + UNIT_OFFSET)) []
      (range2 2601 n_units) in
  let mapping := dict_set mapping 46 46 in
  dict_set mapping 557 557.

Definition build_tech_id_mapping : pydict :=
  [(904, 904 + TECH_OFFSET); (905, 905 + TECH_OFFSET);
   (906, 906 + TECH_OFFSET); (907, 907 + TECH_OFFSET);
   (908, 908 + TECH_OFFSET); (909, 909 + TECH_OFFSET);
   (910, 910 + TECH_OFFSET); (911, 911 + TECH_OFFSET);
   (912, 912 + TECH_OFFSET)].

(** ** The scenario tools

    [tools/batch_replace_map_unit_id.py],
    [tools/batch_replace_trigger_unit_id.py] and
    [tools/batch_replace_trigger_tech_id.py] work on the objects of
    AoE2ScenarioParser.  The records hold the attributes the tools read or
    write and, beside them, attributes they must leave alone; the classes
    define every one of them, so the [hasattr] guards of the tools pass.
    An attribute that the scenario's format does not support (reading it
    raises [UnsupportedAttributeError]) is [None]. *)

Module MapUnit.
Record t := mk {
  unit_const : Z;
  reference_id : Z;
  x : Z;
  y : Z;
  garrisoned_in_id : Z
}.
Definition set_unit_const (v : Z) (u : t) : t :=
  mk v (reference_id u) (x u) (y u) (garrisoned_in_id u).
End MapUnit.

Module TriggerEffect.
Record t := mk {
  effect_type : Z;
  object_list_unit_id : Z;
  object_list_unit_id_2 : Z;
  technology : Z;
  force_research_technology : Z;
  local_technology : option Z;
  location_object_reference : Z;
  selected_object_ids : list Z
}.
Definition set_object_list_unit_id (v : Z) (e : t) : t :=
  mk (effect_type e) v (object_list_unit_id_2 e) (technology e)
     (force_research_technology e) (local_technology e)
     (location_object_reference e) (selected_object_ids e).
Definition set_object_list_unit_id_2 (v : Z) (e : t) : t :=
  mk (effect_type e) (object_list_unit_id e) v (technology e)
     (force_research_technology e) (local_technology e)
     (location_object_reference e) (selected_object_ids e).
Definition set_technology (v : Z) (e : t) : t :=
  mk (effect_type e) (object_list_unit_id e) (object_list_unit_id_2 e) v
     (force_research_technology e) (local_technology e)
     (location_object_reference e) (selected_object_ids e).
Definition set_force_research_technology (v : Z) (e : t) : t :=
  mk (effect_type e) (object_list_unit_id e) (object_list_unit_id_2 e)
     (technology e) v (local_technology e)
     (location_object_reference e) (selected_object_ids e).
Definition set_local_technology (v : option Z) (e : t) : t :=
  mk (effect_type e) (object_list_unit_id e) (object_list_unit_id_2 e)
     (technology e) (force_research_technology e) v
     (location_object_reference e) (selected_object_ids e).
End TriggerEffect.

Module TriggerCondition.
Record t := mk {
  condition_type : Z;
  object_list : Z;
  technology : Z;
  local_technology : option Z;
  unit_object : Z
}.
Definition set_object_list (v : Z) (c : t) : t :=
  mk (condition_type c) v (technology c) (local_technology c) (unit_object c).
Definition set_technology (v : Z) (c : t) : t :=
  mk (condition_type c) (object_list c) v (local_technology c) (unit_object c).
Definition set_local_technology (v : option Z) (c : t) : t :=
  mk (condition_type c) (object_list c) (technology c) v (unit_object c).
End TriggerCondition.

Module Trigger.
Record t := mk {
  name : string;
  effects : list TriggerEffect.t;
  conditions : list TriggerCondition.t
}.
End Trigger.

Module Scenario.
Record t := mk {
  triggers : list Trigger.t;
  units : list (list MapUnit.t)
}.
End Scenario.

Section scenario_tools.

(** [value_is_valid] of AoE2ScenarioParser, which the tools import. *)
Variable value_is_valid : Z → bool.

(** *** [batch_replace_map_unit_id.py] *)

Definition _count_map_units_by_const (units : list (list MapUnit.t))
    (unit_const : Z) : Z :=
  foldl (λ n player_units,
    foldl (λ n unit,
      if bool_decide (MapUnit.unit_const unit = unit_const) then n + 1 else n)
      n player_units) 0 units.

(** The objects are modified in place; the scenario that results and the
    number of units replaced. *)
Definition apply_map_unit_id_in_scenario (scenario : Scenario.t)
    (old_unit_id new_unit_id : Z) : Scenario.t * Z :=
  let '(units, replaced) :=
    foldl (λ '(done, replaced) player_units,
      let '(player_units, replaced) :=
        foldl (λ '(done, replaced) unit,
          if bool_decide (MapUnit.unit_const unit = old_unit_id)
          then (done ++ [MapUnit.set_unit_const new_unit_id unit],
                replaced + 1)
          else (done ++ [unit], replaced)) ([], replaced) player_units in
      (done ++ [player_units], replaced)) ([], 0) (Scenario.units scenario) in
  (Scenario.mk (Scenario.triggers scenario) units, replaced).

(** *** [batch_replace_trigger_unit_id.py] *)

(** One [getattr] / test / [setattr] round on a unit-type attribute. *)
Definition replace_unit_type_attr {A} (get : A → Z) (set : Z → A → A)
    (old_unit_id new_unit_id : Z) (acc : A * Z) : A * Z :=
  let '(x, count) := acc in
  let val := get x in
  if value_is_valid val && bool_decide (val = old_unit_id)
  then (set new_unit_id x, count + 1) else (x, count).

Definition count_unit_type_attr {A} (get : A → Z) (unit_id : Z)
    (x : A) (count : Z) : Z :=
  let val := get x in
  if value_is_valid val && bool_decide (val = unit_id)
  then count + 1 else count.

Definition _count_unit_type_in_effects (effects : list TriggerEffect.t)
    (unit_id : Z) : Z :=
  foldl (λ count effect,
    let count :=
      count_unit_type_attr TriggerEffect.object_list_unit_id unit_id
        effect count in
    count_unit_type_attr TriggerEffect.object_list_unit_id_2 unit_id
      effect count) 0 effects.

Definition _count_unit_type_in_conditions
    (conditions : list TriggerCondition.t) (unit_id : Z) : Z :=
  foldl (λ count condition,
    count_unit_type_attr TriggerCondition.object_list unit_id condition count)
    0 conditions.

Definition _replace_unit_type_in_effects (effects : list TriggerEffect.t)
    (old_unit_id new_unit_id : Z) : list TriggerEffect.t * Z :=
  foldl (λ '(done, count) effect,
    let acc :=
      replace_unit_type_attr TriggerEffect.object_list_unit_id
        TriggerEffect.set_object_list_unit_id old_unit_id new_unit_id
        (effect, count) in
    let '(effect, count) :=
      replace_unit_type_attr TriggerEffect.object_list_unit_id_2
        TriggerEffect.set_object_list_unit_id_2 old_unit_id new_unit_id acc in
    (done ++ [effect], count)) ([], 0) effects.

Definition _replace_unit_type_in_conditions
    (conditions : list TriggerCondition.t) (old_unit_id new_unit_id : Z)
    : list TriggerCondition.t * Z :=
  foldl (λ '(done, count) condition,
    let '(condition, count) :=
      replace_unit_type_attr TriggerCondition.object_list
        TriggerCondition.set_object_list old_unit_id new_unit_id
        (condition, count) in
    (done ++ [condition], count)) ([], 0) conditions.

Definition apply_unit_id_in_scenario (scenario : Scenario.t)
    (old_unit_id new_unit_id : Z) (replace_in_conditions : bool)
    : Scenario.t * (Z * Z) :=
  let '(triggers, total_effect, total_condition) :=
    foldl (λ '(done, total_effect, total_condition) trigger,
      let '(effects, n) :=
        _replace_unit_type_in_effects (Trigger.effects trigger)
          old_unit_id new_unit_id in
      let total_effect := total_effect + n in
      let '(conditions, total_condition) :=
        if replace_in_conditions then
          let '(conditions, n) :=
            _replace_unit_type_in_conditions (Trigger.conditions trigger)
              old_unit_id new_unit_id in
          (conditions, total_condition + n)
        else (Trigger.conditions trigger, total_condition) in
      (done ++ [Trigger.mk (Trigger.name trigger) effects conditions],
       total_effect, total_condition))
      ([], 0, 0) (Scenario.triggers scenario) in
  (Scenario.mk triggers (Scenario.units scenario),
   (total_effect, total_condition)).

(** *** [mod_sync_to_official.apply_scenario_unit_mapping] *)

(** [(old_id, new_id, effects, conditions, map units)]. *)
Definition unit_report : Type := Z * Z * Z * Z * Z.

(** What the scenario functions of [mod_sync_to_official] print, by
    message. *)
Inductive sline :=
| SNoteUnitsHeader
| SNoteUnitLine (r : unit_report)
| SNoteNoUnits
| SNoteTechTotals (total_effect total_condition : Z)
| SNoteTechsHeader
| SNoteTechLine (old_id new_id e c : Z)
| SNoteNoTechs.

(** The function on a scenario that is already loaded: reading and
    writing the file are the caller's.  It returns the scenario as
    modified, the report and what it printed. *)
Definition apply_scenario_unit_mapping (scenario : Scenario.t)
    (unit_mapping : pydict) (print_summary : bool)
    : Scenario.t * list unit_report * list sline :=
  let '(scenario, report) :=
    foldl (λ '(scenario, report) '(old_id, new_id),
      if bool_decide (old_id = new_id) then (scenario, report) else
      let '(scenario, (eff, cond)) :=
        apply_unit_id_in_scenario scenario old_id new_id true in
      let '(scenario, map_count) :=
        apply_map_unit_id_in_scenario scenario old_id new_id in
      if bool_decide (eff > 0) || bool_decide (cond > 0)
         || bool_decide (map_count > 0)
      then (scenario, report ++ [(old_id, new_id, eff, cond, map_count)])
      else (scenario, report))
      (scenario, ([] : list unit_report)) unit_mapping in
  let printed :=
    if print_summary then
      SNoteUnitsHeader
      :: (if bool_decide (report ≠ []) then SNoteUnitLine <$> report
          else [SNoteNoUnits])
    else [] in
  (scenario, report, printed).

End scenario_tools.

(** *** Vocabulary *)

(** The value of a unit-type attribute after one replacement. *)
Definition rename_type (valid : Z → bool) (old new x : Z) : Z :=
  if valid x && bool_decide (x = old) then new else x.

(** Whether an attribute counts as an occurrence of [k]. *)
Definition hit (valid : Z → bool) (k x : Z) : Z :=
  if valid x && bool_decide (x = k) then 1 else 0.

Definition total {A} (c : A → Z) (l : list A) : Z :=
  foldr (λ x acc, c x + acc) 0 l.

(** An effect, a condition, a trigger, a map unit and a scenario with [f]
    applied to the unit-type attributes of the triggers and [g] to the
    type of the map units, and everything else as it is. *)
Definition map_effect (f : Z → Z) (e : TriggerEffect.t) : TriggerEffect.t :=
  TriggerEffect.mk (TriggerEffect.effect_type e)
    (f (TriggerEffect.object_list_unit_id e))
    (f (TriggerEffect.object_list_unit_id_2 e))
    (TriggerEffect.technology e) (TriggerEffect.force_research_technology e)
    (TriggerEffect.local_technology e)
    (TriggerEffect.location_object_reference e)
    (TriggerEffect.selected_object_ids e).

Definition map_condition (f : Z → Z) (c : TriggerCondition.t)
    : TriggerCondition.t :=
  TriggerCondition.mk (TriggerCondition.condition_type c)
    (f (TriggerCondition.object_list c)) (TriggerCondition.technology c)
    (TriggerCondition.local_technology c) (TriggerCondition.unit_object c).

Definition map_trigger (f : Z → Z) (in_conditions : bool) (t : Trigger.t)
    : Trigger.t :=
  Trigger.mk (Trigger.name t) (map_effect f <$> Trigger.effects t)
    (if in_conditions then map_condition f <$> Trigger.conditions t
     else Trigger.conditions t).

Definition map_unit_const (g : Z → Z) (u : MapUnit.t) : MapUnit.t :=
  MapUnit.mk (g (MapUnit.unit_const u)) (MapUnit.reference_id u)
    (MapUnit.x u) (MapUnit.y u) (MapUnit.garrisoned_in_id u).

Definition effect_hits (valid : Z → bool) (k : Z) (e : TriggerEffect.t) : Z :=
  hit valid k (TriggerEffect.object_list_unit_id e)
  + hit valid k (TriggerEffect.object_list_unit_id_2 e).

Definition condition_hits (valid : Z → bool) (k : Z)
    (c : TriggerCondition.t) : Z :=
  hit valid k (TriggerCondition.object_list c).

(** The occurrences of type [k] in the effects and in the conditions of
    all triggers, and among the map units. *)
Definition scenario_hits (valid : Z → bool) (k : Z) (s : Scenario.t)
    : Z * Z * Z :=
  (total (λ t, total (effect_hits valid k) (Trigger.effects t))
     (Scenario.triggers s),
   total (λ t, total (condition_hits valid k) (Trigger.conditions t))
     (Scenario.triggers s),
   total (total (λ u, hit (λ _, true) k (MapUnit.unit_const u)))
     (Scenario.units s)).

(** The type id that [x] has become once every entry of the mapping has
    been applied at once: the value of the entry with key [x] when there
    is one whose value differs from the key, [x] otherwise. *)
Definition renamed (mapping : pydict) (x : Z) : Z :=
  default x (dict_get mapping x).

(** No value of an entry is the key of a later entry, entries that map an
    id to itself apart: applying the entries one after the other moves no
    id twice. *)
Definition chain_free (mapping : pydict) : Prop :=
  ∀ i j k v k' v',
    (i < j)%nat → mapping !! i = Some (k, v) → mapping !! j = Some (k', v') →
    k ≠ v → k' ≠ v' → v ≠ k'.

Definition map_scenario (f g : Z → Z) (s : Scenario.t) : Scenario.t :=
  Scenario.mk (map_trigger f true <$> Scenario.triggers s)
    ((λ player_units : list MapUnit.t, map_unit_const g <$> player_units)
       <$> Scenario.units s).

(** The value of an attribute once the entries of the mapping have been
    applied one after the other. *)
Definition seq_rename (valid : Z → bool) (mapping : pydict) (x : Z) : Z :=
  foldl (λ x '(k, v), if bool_decide (k = v) then x else rename_type valid k v x)
    x mapping.

(** The line of the report for one entry of the mapping, from the
    occurrences of the old id in the scenario [s]: none for an entry that
    maps an id to itself, and none when the id does not occur. *)
Definition report_entry (valid : Z → bool) (s : Scenario.t) (item : Z * Z)
    : option unit_report :=
  let '(old_id, new_id) := item in
  if bool_decide (old_id = new_id) then None else
  let '(eff, cond, map_count) := scenario_hits valid old_id s in
  if bool_decide (eff > 0) || bool_decide (cond > 0)
     || bool_decide (map_count > 0)
  then Some (old_id, new_id, eff, cond, map_count) else None.

(** A scenario of one trigger and two players' units. *)
Definition ex_scenario : Scenario.t :=
  Scenario.mk
    [Trigger.mk "spawn"
       [TriggerEffect.mk 11 2601 (-1) 904 (-1) None 17 [17; 18];
        TriggerEffect.mk 11 46 2602 (-1) 905 (Some 904) (-1) []]
       [TriggerCondition.mk 3 2601 904 None 17;
        TriggerCondition.mk 3 (-1) (-1) (Some 912) 2601]]
    [[MapUnit.mk 4 0 1 1 (-1)];
     [MapUnit.mk 2601 17 5 5 (-1); MapUnit.mk 46 18 6 5 17;
      MapUnit.mk 2602 19 7 5 (-1)]].

(** An old mod with two units of its own, in slots 2601 and 2602. *)
Definition ex_old_mod : DatFile.t :=
  DatFile.mk [] [Civ.mk "Britons" (replicate 2603 None)] [] [].

(** ** [mod_sync_to_official.run_dat_sync]: the units

    The first stage of [run_dat_sync], from the count of the old mod's
    unit slots to the coherence check, on stores that are already parsed:
    the implant of the mod's own units at [2601 + UNIT_OFFSET], the
    implants of 46 and 557 in place, the finalisation and the check.  The
    issues are returned where [run_dat_sync] goes on to print them. *)
Definition run_dat_sync_units (source_data : DatFile.t)
    (warn_overwrite : bool) : M (list issue) :=
  let n_units := n_unit_slots source_data in
  when (bool_decide (n_units > 2601))
    (implant_units_from_dat source_data 2601 (Some (n_units - 1)) None
       (2601 + UNIT_OFFSET) warn_overwrite true;;
     mret tt);;
  implant_units_from_dat source_data 46 None (Some 1) 46 warn_overwrite true;;
  implant_units_from_dat source_data 557 None (Some 1) 557 warn_overwrite true;;
  let _implanted_indices : gset Z :=
    if bool_decide (n_units > 2601)
    then {[46; 557]}
         ∪ list_to_set (range2 (2601 + UNIT_OFFSET) (n_units + UNIT_OFFSET))
    else {[46; 557]} in
  let _unit_id_map : gmap Z Z :=
    if bool_decide (n_units > 2601)
    then list_to_map ((λ i, (i, i + UNIT_OFFSET)) <$> range2 2601 n_units)
    else ∅ in
  finalize_unit_id_migration _unit_id_map _implanted_indices;;
  let _migrated_old : gset Z :=
    if bool_decide (n_units > 2601) then list_to_set (range2 2601 n_units)
    else ∅ in
  check_unit_id_coherence _implanted_indices _migrated_old.

(** ** [tools/batch_replace_trigger_tech_id.py] *)

(** A tech attribute of an effect or a condition: how it is read, [None]
    when the scenario's format does not have it, and how it is written. *)
Definition tech_attr (A : Type) : Type := (A → option Z) * (Z → A → A).

Definition EFFECT_TECH_ATTRS : list (tech_attr TriggerEffect.t) :=
  [(λ e, Some (TriggerEffect.technology e), TriggerEffect.set_technology);
   (λ e, Some (TriggerEffect.force_research_technology e),
    TriggerEffect.set_force_research_technology);
   (TriggerEffect.local_technology,
    λ v, TriggerEffect.set_local_technology (Some v))].

Definition CONDITION_TECH_ATTRS : list (tech_attr TriggerCondition.t) :=
  [(λ c, Some (TriggerCondition.technology c), TriggerCondition.set_technology);
   (TriggerCondition.local_technology,
    λ v, TriggerCondition.set_local_technology (Some v))].

(** [d[k] = d.get(k, 0) + n]. *)
Definition dict_add (d : pydict) (k n : Z) : pydict :=
  dict_set d k (default 0 (dict_get d k) + n).

(** [{old id: (replacements in effects, replacements in conditions)}], the
    keys in the order of insertion. *)
Definition tech_detail : Type := list (Z * (Z * Z)).

Fixpoint detail_get (d : tech_detail) (k : Z) : option (Z * Z) :=
  match d with
  | [] => None
  | (k', v') :: rest =>
      if bool_decide (k' = k) then Some v' else detail_get rest k
  end.

Section scenario_tech_tools.

Variable value_is_valid : Z → bool.

(** The object as it is afterwards, and the old id when the attribute has
    been replaced. *)
Definition _get_tech_val_and_set {A} (attr : tech_attr A)
    (mapping : pydict) (obj : A) : A * option Z :=
  let '(get, set) := attr in
  match get obj with
  | None => (obj, None)
  | Some val =>
      if negb (value_is_valid val) then (obj, None) else
      match dict_get mapping val with
      | None => (obj, None)
      | Some new_id => (set new_id obj, Some val)
      end
  end.

(** The loop that [_apply_tech_mapping_in_effects] and
    [_apply_tech_mapping_in_conditions] share, over the objects and their
    tech attributes. *)
Definition apply_tech_mapping_in {A} (attrs : list (tech_attr A))
    (objects : list A) (mapping : pydict) : list A * (Z * pydict) :=
  let '(done, total, by_old_id) :=
    foldl (λ '(done, total, by_old_id) obj,
      let '(obj, total, by_old_id) :=
        foldl (λ '(obj, total, by_old_id) attr,
          let '(obj, old_id) := _get_tech_val_and_set attr mapping obj in
          match old_id with
          | Some old_id => (obj, total + 1, dict_add by_old_id old_id 1)
          | None => (obj, total, by_old_id)
          end) (obj, total, by_old_id) attrs in
      (done ++ [obj], total, by_old_id))
      ([], 0, ([] : pydict)) objects in
  (done, (total, by_old_id)).

Definition _apply_tech_mapping_in_effects (effects : list TriggerEffect.t)
    (mapping : pydict) : list TriggerEffect.t * (Z * pydict) :=
  apply_tech_mapping_in EFFECT_TECH_ATTRS effects mapping.

Definition _apply_tech_mapping_in_conditions
    (conditions : list TriggerCondition.t) (mapping : pydict)
    : list TriggerCondition.t * (Z * pydict) :=
  apply_tech_mapping_in CONDITION_TECH_ATTRS conditions mapping.

(** The scenario as modified, the two totals and the detail. *)
Definition apply_tech_mapping_in_scenario (scenario : Scenario.t)
    (tech_id_mapping : pydict) : Scenario.t * (Z * Z * tech_detail) :=
  let '(triggers, total_effect, total_condition, effect_by_id,
        condition_by_id) :=
    foldl (λ '(done, total_effect, total_condition, effect_by_id,
               condition_by_id) trigger,
      let '(effects, (te, be)) :=
        _apply_tech_mapping_in_effects (Trigger.effects trigger)
          tech_id_mapping in
      let '(conditions, (tc, bc)) :=
        _apply_tech_mapping_in_conditions (Trigger.conditions trigger)
          tech_id_mapping in
      (done ++ [Trigger.mk (Trigger.name trigger) effects conditions],
       total_effect + te, total_condition + tc,
       foldl (λ d '(k, v), dict_add d k v) effect_by_id be,
       foldl (λ d '(k, v), dict_add d k v) condition_by_id bc))
      ([], 0, 0, ([] : pydict), ([] : pydict)) (Scenario.triggers scenario) in
  let all_old_ids : gset Z :=
    list_to_set effect_by_id.*1 ∪ list_to_set condition_by_id.*1 in
  let detail :=
    (λ old_id,
       (old_id, (default 0 (dict_get effect_by_id old_id),
                 default 0 (dict_get condition_by_id old_id))))
      <$> merge_sort Z.le (elements all_old_ids) in
  (Scenario.mk triggers (Scenario.units scenario),
   (total_effect, total_condition, detail)).

End scenario_tech_tools.

(** *** [mod_sync_to_official.apply_scenario_tech_mapping] *)

(** The summary of the tech replacement; [None] is the [KeyError] of
    [detail[old_id]] or [tech_mapping[old_id]]. *)
Definition tech_summary (total_effect total_condition : Z)
    (detail : tech_detail) (tech_mapping : pydict) : option (list sline) :=
  rest ←
    (if bool_decide (detail ≠ []) then
       lines ← mapM (λ old_id,
                  '(e, c) ← detail_get detail old_id;
                  new_id ← dict_get tech_mapping old_id;
                  Some (SNoteTechLine old_id new_id e c))
                (merge_sort Z.le detail.*1);
       Some (SNoteTechsHeader :: lines)
     else Some [SNoteNoTechs]);
  Some (SNoteTechTotals total_effect total_condition :: rest).

(** On a scenario that is already loaded; [None] is a [KeyError]. *)
Definition apply_scenario_tech_mapping (value_is_valid : Z → bool)
    (scenario : Scenario.t) (tech_mapping : pydict) (print_summary : bool)
    : option (Scenario.t * (Z * Z) * list sline) :=
  let '(scenario, (total_effect, total_condition, detail)) :=
    apply_tech_mapping_in_scenario value_is_valid scenario tech_mapping in
  printed ←
    (if print_summary
     then tech_summary total_effect total_condition detail tech_mapping
     else Some []);
  Some (scenario, (total_effect, total_condition), printed).

(** *** [mod_sync_to_official.apply_scenario_mappings] *)

Definition apply_scenario_mappings (value_is_valid : Z → bool)
    (scenario : Scenario.t) (unit_mapping tech_mapping : pydict)
    (print_summary : bool)
    : option (Scenario.t * (list unit_report * (Z * Z)) * list sline) :=
  let '(scenario, report) :=
    foldl (λ '(scenario, report) '(old_id, new_id),
      if bool_decide (old_id = new_id) then (scenario, report) else
      let '(scenario, (eff, cond)) :=
        apply_unit_id_in_scenario value_is_valid scenario old_id new_id true in
      let '(scenario, map_count) :=
        apply_map_unit_id_in_scenario scenario old_id new_id in
      if bool_decide (eff > 0) || bool_decide (cond > 0)
         || bool_decide (map_count > 0)
      then (scenario, report ++ [(old_id, new_id, eff, cond, map_count)])
      else (scenario, report))
      (scenario, ([] : list unit_report)) unit_mapping in
  let '(scenario, (total_effect, total_condition, tech_detail)) :=
    apply_tech_mapping_in_scenario value_is_valid scenario tech_mapping in
  printed ←
    (if print_summary then
       techs ← tech_summary total_effect total_condition tech_detail
                 tech_mapping;
       Some (SNoteUnitsHeader
             :: (if bool_decide (report ≠ []) then SNoteUnitLine <$> report
                 else [SNoteNoUnits])
             ++ techs)
     else Some []);
  Some (scenario, (report, (total_effect, total_condition)), printed).

(** *** Vocabulary *)

(** An effect and a condition with [f] applied to the tech attributes. *)
Definition map_effect_tech (f : Z → Z) (e : TriggerEffect.t)
    : TriggerEffect.t :=
  TriggerEffect.mk (TriggerEffect.effect_type e)
    (TriggerEffect.object_list_unit_id e)
    (TriggerEffect.object_list_unit_id_2 e)
    (f (TriggerEffect.technology e))
    (f (TriggerEffect.force_research_technology e))
    (f <$> TriggerEffect.local_technology e)
    (TriggerEffect.location_object_reference e)
    (TriggerEffect.selected_object_ids e).

Definition map_condition_tech (f : Z → Z) (c : TriggerCondition.t)
    : TriggerCondition.t :=
  TriggerCondition.mk (TriggerCondition.condition_type c)
    (TriggerCondition.object_list c) (f (TriggerCondition.technology c))
    (f <$> TriggerCondition.local_technology c)
    (TriggerCondition.unit_object c).

Definition map_scenario_tech (f : Z → Z) (s : Scenario.t) : Scenario.t :=
  Scenario.mk
    ((λ t, Trigger.mk (Trigger.name t)
             (map_effect_tech f <$> Trigger.effects t)
             (map_condition_tech f <$> Trigger.conditions t))
       <$> Scenario.triggers s)
    (Scenario.units s).

(** Whether an attribute is replaced: it is there, [valid] accepts it and
    it is a key of the mapping; and whether it is a replaced occurrence of
    [k]. *)
Definition tech_replaced (valid : Z → bool) (mapping : pydict)
    (x : option Z) : Z :=
  match x with
  | Some v => if valid v && bool_decide (is_Some (dict_get mapping v))
              then 1 else 0
  | None => 0
  end.

Definition tech_hit (valid : Z → bool) (mapping : pydict) (k : Z)
    (x : option Z) : Z :=
  match x with
  | Some v => if bool_decide (v = k) then tech_replaced valid mapping x else 0
  | None => 0
  end.

(** The sum of [c] over the tech attributes of all effects, and of all
    conditions, of a scenario. *)
Definition effect_techs (c : option Z → Z) (s : Scenario.t) : Z :=
  total (λ t,
    total (λ e,
      c (Some (TriggerEffect.technology e))
      + c (Some (TriggerEffect.force_research_technology e))
      + c (TriggerEffect.local_technology e)) (Trigger.effects t))
    (Scenario.triggers s).

Definition condition_techs (c : option Z → Z) (s : Scenario.t) : Z :=
  total (λ t,
    total (λ x,
      c (Some (TriggerCondition.technology x))
      + c (TriggerCondition.local_technology x)) (Trigger.conditions t))
    (Scenario.triggers s).

(** A dict of counts: no key twice and every count positive. *)
Definition count_dict (d : pydict) : Prop :=
  NoDup d.*1 ∧ ∀ k v, (k, v) ∈ d → 0 < v.

(** [d.get(k, 0)]. *)
Definition count_of (d : pydict) (k : Z) : Z := default 0 (dict_get d k).

(** The id after the tech replacement: the mapped id where [valid]
    accepts the old one and the mapping has it. *)
Definition retech (valid : Z → bool) (mapping : pydict) (x : Z) : Z :=
  if valid x then renamed mapping x else x.

(** ** [mod_sync_to_official.run_dat_sync]: the techs

    The two tech implants of [run_dat_sync]: tech 490 in place, then the
    techs 904 to 912 at [904 + TECH_OFFSET]. *)
Definition run_dat_sync_techs (source_data : DatFile.t)
    (warn_overwrite : bool) : M unit :=
  implant_techs_from_dat source_data 490 (Some 490) None 490 warn_overwrite;;
  implant_techs_from_dat source_data 904 (Some 912) None (904 + TECH_OFFSET)
    warn_overwrite;;
  mret tt.

(** An old mod of 913 techs that all use effect 0. *)
Definition ex_tech_mod : DatFile.t :=
  DatFile.mk [] []
    (replicate 913 (Tech.mk "mod tech" 0 [904; -1] 40))
    [Effect.mk "mod effect" [5]].

(** * Properties *)

(** ** The state and error monad *)

Lemma bind_returned {A B} (m : M A) (k : A → M B) s a s' :
  m s = Returned a s' → (m ≫= k) s = k a s'.
Proof. intros H. unfold mbind, M_bind. by rewrite H. Qed.

Lemma bind_raised {A B} (m : M A) (k : A → M B) s e s' :
  m s = Raised e s' → (m ≫= k) s = Raised e s'.
Proof. intros H. unfold mbind, M_bind. by rewrite H. Qed.

Lemma bind_inv_returned {A B} (m : M A) (k : A → M B) s b s2 :
  (m ≫= k) s = Returned b s2 →
  ∃ a s1, m s = Returned a s1 ∧ k a s1 = Returned b s2.
Proof.
  unfold mbind, M_bind. destruct (m s) as [a s1|e s1]; [eauto|done].
Qed.

(** ** Rewriting one unit *)

Section remap_facts.
Context (m : gmap Z Z).

Lemma rewritten_relocate v : rewritten m v (relocate m v).
Proof. unfold rewritten, relocate. by destruct (m !! v). Qed.

Lemma remap_attr_relocate {A} (get : A → Z) (set : Z → A → A) x n :
  (∀ y, set (get y) y = y) →
  remap_attr m get set (x, n)
  = (set (relocate m (get x)) x, n + hits m (get x)).
Proof.
  intros Hset. unfold remap_attr, do, relocate, hits.
  destruct (m !! get x); simpl; [done|]. by rewrite Hset, Z.add_0_r.
Qed.

End remap_facts.

Section remap_walk.
Context (m : gmap Z Z).

Lemma remap_each_relocate {A} (get : A → Z) (set : Z → A → A) l n :
  (∀ y, set (get y) y = y) →
  remap_each m get set l n
  = ((λ a, set (relocate m (get a)) a) <$> l, n + sum_hits m (get <$> l)).
Proof.
  intros Hset. revert n. induction l as [|a l IH]; intros n.
  - simpl. by rewrite Z.add_0_r.
  - cbn [remap_each]. rewrite remap_attr_relocate by done. rewrite IH.
    cbn [fmap list_fmap sum_hits foldr]. f_equal. fold (sum_hits m (get <$> l)). lia.
Qed.

Lemma fmap_snd_imap {A} (f : nat → string) (g : A → Z) (l : list A) :
  (imap (λ i a, (f i, g a)) l).*2 = g <$> l.
Proof.
  revert f. induction l as [|a l IH]; intros f; simpl; [done|].
  f_equal. apply (IH (f ∘ S)).
Qed.

Lemma sum_hits_app l1 l2 : sum_hits m (l1 ++ l2) = sum_hits m l1 + sum_hits m l2.
Proof. induction l1 as [|v l1 IH]; simpl; [done|]. rewrite IH. lia. Qed.

Lemma remap_building_relocate b n :
  remap_building m b n
  = (relocate_building m b,
     n + sum_hits m
           ([Building.stack_unit_id b; Building.head_unit b;
             Building.transform_unit b; Building.pile_unit b]
            ++ (BuildingAnnex.unit_id <$> Building.annexes b))).
Proof.
  unfold remap_building.
  rewrite !remap_attr_relocate by (by intros []).
  rewrite remap_each_relocate by (by intros []).
  destruct b; simpl. unfold relocate_building; simpl.
  f_equal. lia.
Qed.

Lemma remap_creatable_relocate c n :
  remap_creatable m c n
  = (relocate_creatable m c,
     n + sum_hits m (TrainLocation.unit_id <$> Creatable.train_locations c)).
Proof.
  unfold remap_creatable.
  by rewrite remap_each_relocate by (by intros []).
Qed.

Lemma sum_hits_cons v l : sum_hits m (v :: l) = hits m v + sum_hits m l.
Proof. done. Qed.

(** The projectile's reference, behind [hasattr]. *)
Lemma remap_projectile_relocate p n :
  remap_attr_if_present m Projectile.projectile_unit_id
    Projectile.set_projectile_unit_id (p, n)
  = (relocate_projectile m p,
     n + default 0 (hits m <$> Projectile.projectile_unit_id p)).
Proof.
  destruct p as [pt [pu|]];
    unfold remap_attr_if_present, remap_attr, do, relocate_projectile,
      relocate, hits; simpl.
  - destruct (m !! pu); simpl; [done|]. by rewrite Z.add_0_r.
  - by rewrite Z.add_0_r.
Qed.

Lemma remap_unit_fields_relocate u :
  remap_unit_fields m u = (relocate_unit m u, hits_unit m u).
Proof.
  unfold remap_unit_fields, hits_unit, unit_id_refs.
  rewrite !remap_attr_relocate by (by intros []).
  destruct u as [i nm hp sg ci bi du bu [b|] [[pt [pu|]]|] [d|] [c|] t50];
    repeat (cbn -[remap_attr remap_attr_if_present remap_building
                  remap_creatable sum_hits];
            rewrite ?remap_building_relocate, ?remap_creatable_relocate,
              ?remap_projectile_relocate,
              ?remap_attr_relocate by (by intros []));
    (apply (f_equal2 pair); [reflexivity|]);
    repeat (rewrite ?fmap_app, ?fmap_cons, ?fmap_snd_imap, ?sum_hits_app,
              ?sum_hits_cons; cbn [fmap list_fmap snd app]);
    change (sum_hits m []) with 0; lia.
Qed.

End remap_walk.

Section relocate_facts.
Context (m : gmap Z Z).

Lemma annexes_rewritten l :
  Forall2 (annex_rewritten m) l (relocate_annex m <$> l).
Proof.
  induction l as [|a l IH]; constructor; [|done].
  repeat split. apply rewritten_relocate.
Qed.

Lemma train_locations_rewritten l :
  Forall2 (train_location_rewritten m) l (relocate_train_location m <$> l).
Proof.
  induction l as [|a l IH]; constructor; [|done].
  repeat split. apply rewritten_relocate.
Qed.

Lemma relocate_unit_rewritten u : unit_rewritten m u (relocate_unit m u).
Proof.
  unfold unit_rewritten, relocate_unit; simpl.
  repeat split; try apply rewritten_relocate.
  - destruct (Unit.building u) as [b|]; constructor.
    repeat split; try apply rewritten_relocate. apply annexes_rewritten.
  - destruct (Unit.projectile u) as [[pt [pu|]]|]; constructor.
    + split; [|done]. constructor. apply rewritten_relocate.
    + split; [|done]. constructor.
  - destruct (Unit.dead_fish u) as [d|]; constructor.
    repeat split. apply rewritten_relocate.
  - destruct (Unit.creatable u) as [c|]; constructor.
    repeat split. apply train_locations_rewritten.
Qed.

Lemma imap_relocate {A} (f : nat → string) (g : A → Z) (h : A → A) l :
  (∀ a, g (h a) = relocate m (g a)) →
  imap (λ i a, (f i, g a)) (h <$> l)
  = prod_map id (relocate m) <$> imap (λ i a, (f i, g a)) l.
Proof.
  intros Hgh. revert f. induction l as [|a l IH]; intros f; simpl; [done|].
  unfold prod_map at 1; simpl. rewrite Hgh. f_equal. apply (IH (f ∘ S)).
Qed.

(** The check walks the fields that the rewrite walks. *)
Lemma unit_id_refs_relocate u :
  unit_id_refs (relocate_unit m u)
  = prod_map id (relocate m) <$> unit_id_refs u.
Proof.
  unfold unit_id_refs, relocate_unit; simpl.
  destruct (Unit.building u) as [b|], (Unit.projectile u) as [[pt [pu|]]|],
    (Unit.dead_fish u) as [d|], (Unit.creatable u) as [c|]; simpl;
    rewrite ?fmap_app; simpl;
    rewrite ?(imap_relocate _ _ (relocate_annex m)),
      ?(imap_relocate _ _ (relocate_train_location m)) by done;
    reflexivity.
Qed.

Lemma relocate_id v : m !! v = None → relocate m v = v.
Proof. unfold relocate. by intros ->. Qed.

Lemma hits_0 v : m !! v = None → hits m v = 0.
Proof. unfold hits. by intros ->. Qed.

Lemma sum_hits_0 vs : Forall (λ v, m !! v = None) vs → sum_hits m vs = 0.
Proof.
  induction 1 as [|v vs Hv _ IH]; simpl; [done|]. by rewrite hits_0, IH.
Qed.

Lemma fmap_relocate_id {A} (get : A → Z) (set : Z → A → A) (l : list A) :
  (∀ y, set (get y) y = y) →
  Forall (λ v, m !! v = None) (get <$> l) →
  (λ a, set (relocate m (get a)) a) <$> l = l.
Proof.
  intros Hset. induction l as [|a l IH]; [done|].
  rewrite !fmap_cons. intros [Ha Hl]%Forall_cons.
  by rewrite relocate_id, Hset, IH.
Qed.

(** A unit none of whose reference fields is a key is left as it is. *)
Lemma relocate_unit_id u :
  Forall (λ v, m !! v = None) (unit_id_refs u).*2 →
  relocate_unit m u = u ∧ hits_unit m u = 0.
Proof.
  intros H. split; [|by apply sum_hits_0].
  revert H. unfold unit_id_refs, relocate_unit.
  destruct u as [i nm hp sg ci bi du bu b p d c t50]; simpl.
  rewrite !Forall_cons. intros (Hci & Hbi & Hdu & Hbu & H).
  rewrite !relocate_id by done.
  rewrite !fmap_app, !Forall_app in H. destruct H as (Hb & Hp & Hd & Hc).
  f_equal.
  - destruct b as [[cg su hu tu pu ti an]|]; simpl in *; [|done].
    rewrite !Forall_cons, fmap_snd_imap in Hb.
    destruct Hb as (? & ? & ? & ? & Han).
    unfold relocate_building; simpl. rewrite !relocate_id by done.
    do 2 f_equal.
    apply (fmap_relocate_id BuildingAnnex.unit_id BuildingAnnex.set_unit_id);
      [by intros []|done].
  - destruct p as [[pt [pu|]]|]; simpl in *; [|done|done].
    apply Forall_cons in Hp as [? _].
    unfold relocate_projectile; simpl. by rewrite relocate_id.
  - destruct d as [[wg tu tm]|]; simpl in *; [|done].
    apply Forall_cons in Hd as [? _].
    unfold relocate_dead_fish; simpl. by rewrite relocate_id.
  - destruct c as [[hm tl]|]; simpl in *; [|done].
    rewrite fmap_snd_imap in Hc.
    unfold relocate_creatable, Creatable.set_train_locations; simpl.
    do 2 f_equal.
    apply (fmap_relocate_id TrainLocation.unit_id TrainLocation.set_unit_id);
      [by intros []|done].
Qed.

End relocate_facts.

(** The relocation map of an implant is the offset map on the source
    range. *)
Lemma lookup_id_mapping_of S T K v :
  id_mapping_of S T K !! v
  = if bool_decide (S ≤ v < S + K) then Some (v + (T - S)) else None.
Proof.
  unfold id_mapping_of. case_bool_decide as Hv.
  - apply elem_of_list_to_map_1.
    + rewrite <- list_fmap_compose.
      apply NoDup_fmap_2; [|apply NoDup_seqZ].
      intros x y; simpl; lia.
    + apply list_elem_of_fmap. exists (v - S). split; [f_equal; lia|].
      apply elem_of_seqZ. lia.
  - apply not_elem_of_list_to_map_1. rewrite <- list_fmap_compose.
    intros (j & -> & Hj%elem_of_seqZ)%list_elem_of_fmap. simpl in Hv. lia.
Qed.

Lemma relocate_id_mapping_of S T K v :
  relocate (id_mapping_of S T K) v
  = if bool_decide (S ≤ v < S + K) then v + (T - S) else v.
Proof.
  unfold relocate. rewrite lookup_id_mapping_of. by case_bool_decide.
Qed.

(** ** Objects *)

Lemma remap_in_place l m s u :
  objs s !! l = Some u →
  _remap_unit_id_refs_in_unit l m s
  = Returned (hits_unit m u)
      (set_objs (<[l:=relocate_unit m u]> (objs s)) s).
Proof.
  intros Hl. unfold _remap_unit_id_refs_in_unit.
  rewrite (bind_returned _ _ s u s) by (unfold load; by rewrite Hl).
  by rewrite remap_unit_fields_relocate.
Qed.

(** ** Python lists and slots *)

Lemma py_index_nonneg {A} (l : list A) i :
  0 ≤ i < len l → py_index l i = Some (Z.to_nat i).
Proof. intros H. unfold py_index. by rewrite bool_decide_eq_true_2. Qed.

Lemma slot_lookup {A} (l : list A) i : 0 ≤ i → slot l i = l !! Z.to_nat i.
Proof. intros H. unfold slot. by rewrite bool_decide_eq_true_2. Qed.

Lemma slot_Some_lt {A} (l : list A) i x : slot l i = Some x → 0 ≤ i < len l.
Proof.
  unfold slot, len. case_bool_decide as H0; [|done].
  intros Hlt%lookup_lt_Some. lia.
Qed.

Lemma slot_is_Some {A} (l : list A) i : 0 ≤ i < len l → is_Some (slot l i).
Proof.
  intros H. rewrite slot_lookup by lia. apply lookup_lt_is_Some.
  unfold len in H. lia.
Qed.

Lemma slot_ge {A} (l : list A) i : len l ≤ i → slot l i = None.
Proof.
  intros H. unfold slot. case_bool_decide; [|done].
  apply lookup_ge_None. unfold len in H. lia.
Qed.

Lemma len_insert {A} (l : list A) k x : len (<[k:=x]> l) = len l.
Proof. unfold len. by rewrite length_insert. Qed.

Lemma slot_insert {A} (l : list A) j x i :
  0 ≤ j < len l →
  slot (<[Z.to_nat j:=x]> l) i = if bool_decide (i = j) then Some x else slot l i.
Proof.
  intros Hj. unfold slot. case_bool_decide as Hi.
  - case_bool_decide as Hij.
    + subst. apply list_lookup_insert_eq. unfold len in Hj. lia.
    + apply list_lookup_insert_ne. lia.
  - rewrite bool_decide_eq_false_2 by lia. done.
Qed.

Lemma getitem_slot {A} (l : list A) i x s :
  slot l i = Some x → getitem l i s = Returned x s.
Proof.
  intros H. pose proof (slot_Some_lt _ _ _ H) as Hi.
  unfold getitem. rewrite py_index_nonneg by done. simpl.
  rewrite slot_lookup in H by lia. by rewrite H.
Qed.

Lemma setitem_slot {A} (l : list A) i x s :
  0 ≤ i < len l → setitem l i x s = Returned (<[Z.to_nat i:=x]> l) s.
Proof. intros H. unfold setitem. by rewrite py_index_nonneg. Qed.

Lemma ensure_length_loop_replicate {A} fuel (lst : list A) n x :
  fuel = Z.to_nat (n - len lst) →
  ensure_length_loop fuel lst n x = lst ++ replicate fuel x.
Proof.
  revert lst. induction fuel as [|fuel IH]; intros lst Hf; simpl.
  - by rewrite app_nil_r.
  - rewrite bool_decide_eq_true_2 by lia.
    rewrite IH; [by rewrite <- app_assoc|].
    unfold len in *. rewrite length_app; simpl. lia.
Qed.

Lemma ensure_length_replicate {A} (lst : list A) n x :
  _ensure_length lst n x = lst ++ replicate (Z.to_nat (n - len lst)) x.
Proof. by apply ensure_length_loop_replicate. Qed.

Lemma len_ensure_length {A} (lst : list A) n x :
  len (_ensure_length lst n x) = Z.max (len lst) n.
Proof.
  rewrite ensure_length_replicate. unfold len.
  rewrite length_app, length_replicate. lia.
Qed.

Lemma slot_ensure_length {A} (lst : list A) n x i :
  slot (_ensure_length lst n x) i
  = if bool_decide (i < len lst) then slot lst i
    else if bool_decide (0 ≤ i < n) then Some x else None.
Proof.
  rewrite ensure_length_replicate. unfold slot, len.
  case_bool_decide as H0.
  - case_bool_decide as Hi.
    + apply lookup_app_l. lia.
    + rewrite lookup_app_r by lia. case_bool_decide as Hn.
      * apply lookup_replicate_2. lia.
      * apply lookup_replicate_None. lia.
  - case_bool_decide; [done|]. by rewrite bool_decide_eq_false_2 by lia.
Qed.

(** ** Loops *)

(** A loop all of whose iterations return maintains an invariant on what
    has been iterated over. *)
Lemma for_fold_inv {A B} (I : list A → B → state → Prop)
    (l : list A) (body : A → B → M B) acc s :
  I [] acc s →
  (∀ done x rest acc s,
     l = done ++ x :: rest → I done acc s →
     ∃ acc' s', body x acc s = Returned acc' s' ∧ I (done ++ [x]) acc' s') →
  ∃ acc' s', for_fold l body acc s = Returned acc' s' ∧ I l acc' s'.
Proof.
  intros H0 Hstep.
  cut (∀ todo done acc s, l = done ++ todo → I done acc s →
        ∃ acc' s', for_fold todo body acc s = Returned acc' s' ∧ I l acc' s').
  { intros H. by apply (H l []). }
  induction todo as [|x todo IH]; intros done acc1 s1 Hl HI.
  - rewrite app_nil_r in Hl. subst. simpl. eauto.
  - destruct (Hstep done x todo acc1 s1 Hl HI) as (acc2 & s2 & Hb & HI2).
    cbn [for_fold]. rewrite (bind_returned _ _ _ _ _ Hb).
    apply (IH (done ++ [x])); [by rewrite <- app_assoc|done].
Qed.

Lemma for_inv {A} (I : list A → state → Prop)
    (l : list A) (body : A → M unit) s :
  I [] s →
  (∀ done x rest s,
     l = done ++ x :: rest → I done s →
     ∃ s', body x s = Returned tt s' ∧ I (done ++ [x]) s') →
  ∃ s', for_ l body s = Returned tt s' ∧ I l s'.
Proof.
  intros H0 Hstep.
  destruct (for_fold_inv (λ done _ s, I done s) l (λ x _, body x) tt s)
    as ([] & s' & ? & ?); [done| |by eauto].
  intros done x rest [] s1 Hl HI.
  destruct (Hstep done x rest s1 Hl HI) as (s2 & ? & ?). by exists tt, s2.
Qed.

(** The iterations of [for i in range(n)]. *)
Lemma range_split n done x rest :
  range n = done ++ x :: rest →
  x = len done ∧ 0 ≤ x < n ∧ done = range x.
Proof.
  unfold range, len. intros H.
  assert (seqZ 0 n !! length done = Some x) as Hx.
  { rewrite H. by rewrite list_lookup_middle. }
  apply lookup_seqZ in Hx as [-> Hlt]. split; [lia|]. split; [lia|].
  apply list_eq. intros i.
  destruct (decide (i < length done)%nat) as [Hi|Hi].
  - rewrite Z.add_0_l, lookup_seqZ_lt by lia.
    assert (seqZ 0 n !! i = Some (0 + Z.of_nat i)) as Hs
      by (apply lookup_seqZ_lt; lia).
    rewrite H, lookup_app_l in Hs by done. done.
  - rewrite lookup_ge_None_2 by lia.
    symmetry. apply lookup_seqZ_ge. lia.
Qed.

Lemma range_snoc x : 0 ≤ x → range x ++ [x] = range (x + 1).
Proof.
  intros Hx. unfold range. rewrite (seqZ_app 0 x 1) by lia.
  f_equal. 
Qed.

(** ** Stores *)

Lemma allocated_unit_at os d c i l :
  allocated os d → unit_at d c i = Some l → (l < length os)%nat.
Proof.
  unfold allocated, unit_at. intros Ha H.
  destruct (slot (DatFile.civs d) c) as [civ|] eqn:Hc; [|done]. simpl in H.
  destruct (slot (Civ.units civ) i) as [o|] eqn:Hi; [|done]. simpl in H. subst.
  pose proof (slot_Some_lt _ _ _ Hc). pose proof (slot_Some_lt _ _ _ Hi).
  rewrite slot_lookup in Hc by lia. rewrite slot_lookup in Hi by lia.
  rewrite Forall_forall in Ha.
  specialize (Ha civ (list_elem_of_lookup_2 _ _ _ Hc)).
  rewrite Forall_forall in Ha.
  apply (Ha (Some l) (list_elem_of_lookup_2 _ _ _ Hi)).
Qed.

Lemma allocated_mono os os' d :
  (length os ≤ length os')%nat → allocated os d → allocated os' d.
Proof.
  intros Hle. unfold allocated. intros Ha.
  eapply Forall_impl; [exact Ha|]. intros civ Hciv. simpl in Hciv.
  eapply Forall_impl; [exact Hciv|]. intros [l|]; simpl; [lia|done].
Qed.

Lemma unit_at_plug d c j v c' j' civ :
  slot (DatFile.civs d) c = Some civ → 0 ≤ j < len (Civ.units civ) →
  unit_at (plug d c j v) c' j'
  = if bool_decide (c' = c ∧ j' = j) then v else unit_at d c' j'.
Proof.
  intros Hc Hj. pose proof (slot_Some_lt _ _ _ Hc) as Hc'.
  unfold unit_at, plug. rewrite Hc. simpl.
  rewrite slot_insert by done.
  destruct (decide (c' = c)) as [->|Hne].
  - rewrite bool_decide_eq_true_2 by done. simpl.
    rewrite slot_insert by done. rewrite Hc. simpl.
    destruct (decide (j' = j)) as [->|Hnej].
    + rewrite !bool_decide_eq_true_2 by done. done.
    + rewrite !bool_decide_eq_false_2 by (first [done | by intros [??]]). done.
  - rewrite !bool_decide_eq_false_2 by (first [done | by intros [??]]). done.
Qed.

Lemma civ_shape_plug d c j v : civ_shape (plug d c j v) = civ_shape d.
Proof.
  unfold civ_shape, plug.
  destruct (slot (DatFile.civs d) c) as [civ|] eqn:Hc; [|done]. simpl.
  pose proof (slot_Some_lt _ _ _ Hc) as Hc'. rewrite slot_lookup in Hc by lia.
  rewrite list_fmap_insert. apply list_insert_id.
  rewrite list_lookup_fmap, Hc. simpl. by rewrite len_insert.
Qed.

Lemma civ_shape_slot d d' c civ :
  civ_shape d' = civ_shape d → slot (DatFile.civs d) c = Some civ →
  ∃ civ', slot (DatFile.civs d') c = Some civ'
          ∧ Civ.name civ' = Civ.name civ
          ∧ len (Civ.units civ') = len (Civ.units civ).
Proof.
  unfold civ_shape. intros Hs Hc.
  pose proof (slot_Some_lt _ _ _ Hc) as Hc'.
  rewrite slot_lookup in Hc |- * by lia.
  assert (((λ civ, (Civ.name civ, len (Civ.units civ))) <$> DatFile.civs d')
            !! Z.to_nat c = Some (Civ.name civ, len (Civ.units civ))) as H.
  { rewrite Hs, list_lookup_fmap, Hc. done. }
  rewrite list_lookup_fmap in H.
  destruct (DatFile.civs d' !! Z.to_nat c) as [civ'|]; [|done].
  simpl in H. exists civ'. by simplify_eq.
Qed.

Lemma civ_shape_len d d' :
  civ_shape d' = civ_shape d → len (DatFile.civs d') = len (DatFile.civs d).
Proof.
  unfold civ_shape, len. intros H.
  apply (f_equal length) in H. rewrite !length_fmap in H. lia.
Qed.

Lemma set_target_unit_plug c j v s civ :
  slot (DatFile.civs (target_data s)) c = Some civ →
  0 ≤ j < len (Civ.units civ) →
  set_target_unit c j v s
  = Returned tt (set_target_data (plug (target_data s) c j v) s).
Proof.
  intros Hc Hj. pose proof (slot_Some_lt _ _ _ Hc) as Hc'.
  unfold set_target_unit, plug. rewrite Hc.
  unfold mbind, M_bind, gets; simpl.
  rewrite (getitem_slot _ _ civ) by done.
  rewrite setitem_slot by done. rewrite setitem_slot by done. done.
Qed.

Lemma source_unit_slot source_data copy_extra c src_idx s :
  0 ≤ c → 0 ≤ src_idx →
  source_unit source_data copy_extra c src_idx s
  = Returned (source_slot source_data copy_extra c src_idx) s.
Proof.
  intros Hc Hs. unfold source_unit, source_slot.
  assert (∀ civ : Civ.t, src_idx < len (Civ.units civ) →
            getitem (Civ.units civ) src_idx s
            = Returned (mjoin (slot (Civ.units civ) src_idx)) s) as Hget.
  { intros civ Hlt. destruct (slot_is_Some (Civ.units civ) src_idx) as [o Ho];
      [lia|]. rewrite Ho. simpl. by apply getitem_slot. }
  assert (
    (if copy_extra && bool_decide (len (DatFile.civs source_data) > 0)
     then civ0 ← getitem (DatFile.civs source_data) 0;
          if bool_decide (src_idx < len (Civ.units civ0))
          then getitem (Civ.units civ0) src_idx else mret None
     else mret None) s
    = Returned
        (if copy_extra then
           match DatFile.civs source_data with
           | civ0 :: _ => mjoin (slot (Civ.units civ0) src_idx)
           | [] => None
           end
         else None) s) as Hfb.
  { destruct copy_extra; [|done]. simpl.
    destruct (DatFile.civs source_data) as [|civ0 rest] eqn:Hcivs; [done|].
    rewrite bool_decide_eq_true_2 by (unfold len; simpl; lia).
    rewrite (bind_returned _ _ _ civ0 s) by (by apply getitem_slot).
    case_bool_decide as Hlt; [by apply Hget|].
    by rewrite slot_ge by lia. }
  destruct (slot (DatFile.civs source_data) c) as [civ|] eqn:Hciv.
  - pose proof (slot_Some_lt _ _ _ Hciv) as Hlt.
    erewrite bind_returned; cycle 1.
    { rewrite (bool_decide_eq_true_2 (c < _)) by lia.
      erewrite bind_returned by (by apply getitem_slot). reflexivity. }
    cbv beta. destruct (decide (src_idx < len (Civ.units civ))) as [Hown|Hown];
      [rewrite !(bool_decide_eq_true_2 _ Hown)
      |rewrite !(bool_decide_eq_false_2 _ Hown)].
    + rewrite (bind_returned _ _ _ civ s) by (by apply getitem_slot).
      by apply Hget.
    + apply Hfb.
  - assert (¬ c < len (DatFile.civs source_data)) as Hge.
    { intros Hlt. destruct (slot_is_Some (DatFile.civs source_data) c); [lia|].
      congruence. }
    erewrite bind_returned; cycle 1.
    { rewrite (bool_decide_eq_false_2 (c < _)) by done. reflexivity. }
    apply Hfb.
Qed.

Lemma load_lookup l u s : objs s !! l = Some u → load l s = Returned u s.
Proof. intros H. unfold load. by rewrite H. Qed.

Lemma insert_snoc {A} (l : list A) x y : <[length l:=x]> (l ++ [y]) = l ++ [x].
Proof.
  rewrite insert_app_r_alt by done. by rewrite Nat.sub_diag.
Qed.

Lemma source_slot_unit_at source_data copy_extra c src_idx u :
  source_slot source_data copy_extra c src_idx = Some u →
  ∃ c', unit_at source_data c' src_idx = Some u.
Proof.
  unfold source_slot, unit_at.
  assert ((if copy_extra then
             match DatFile.civs source_data with
             | civ0 :: _ => mjoin (slot (Civ.units civ0) src_idx)
             | [] => None
             end
           else None) = Some u →
          ∃ c', slot (DatFile.civs source_data) c'
                ≫= (λ civ, mjoin (slot (Civ.units civ) src_idx)) = Some u) as Hfb.
  { destruct copy_extra; [|done].
    destruct (DatFile.civs source_data) as [|civ0 rest]; [done|].
    intros H. exists 0. done. }
  destruct (slot (DatFile.civs source_data) c) as [civ|] eqn:Hciv.
  - case_bool_decide; [|done]. intros Hu. exists c. by rewrite Hciv.
  - done.
Qed.

(** One [deepcopy] / renumber / rewrite / plug round. *)
Lemma implant_unit_exec source_data copy_extra m src_idx tgt_idx c s civ :
  0 ≤ c → 0 ≤ src_idx →
  slot (DatFile.civs (target_data s)) c = Some civ →
  0 ≤ tgt_idx < len (Civ.units civ) →
  allocated (objs s) source_data →
  ∃ s', implant_unit source_data copy_extra m src_idx tgt_idx c s
        = Returned tt s'
    ∧ match source_slot source_data copy_extra c src_idx with
      | Some u =>
          ∃ us, objs s !! u = Some us
            ∧ s' = mkState
                (objs s ++ [relocate_unit m (Unit.set_id tgt_idx us)])
                (plug (target_data s) c tgt_idx (Some (length (objs s))))
                (stdout s)
      | None => s' = set_target_data (plug (target_data s) c tgt_idx None) s
      end.
Proof.
  intros Hc Hs Hciv Ht Halloc. unfold implant_unit.
  rewrite (bind_returned _ _ _ _ _ (source_unit_slot _ _ _ _ _ Hc Hs)).
  destruct (source_slot source_data copy_extra c src_idx) as [u|] eqn:Hu.
  - assert (is_Some (objs s !! u)) as [us Hus].
    { apply lookup_lt_is_Some.
      apply source_slot_unit_at in Hu as [c' Hu].
      by eapply allocated_unit_at. }
    eexists. split; [|exists us; split; [done|reflexivity]].
    erewrite bind_returned; cycle 1.
    { unfold deepcopy. rewrite (bind_returned _ _ _ _ _ (load_lookup _ _ _ Hus)).
      reflexivity. }
    erewrite bind_returned; cycle 1.
    { apply load_lookup. simpl. apply list_lookup_middle. done. }
    erewrite bind_returned by reflexivity.
    erewrite bind_returned; cycle 1.
    { apply remap_in_place. simpl. rewrite insert_snoc.
      apply list_lookup_middle. done. }
    erewrite set_target_unit_plug by (simpl; eauto).
    simpl. rewrite !insert_snoc. done.
  - eexists. split; [|reflexivity]. by eapply set_target_unit_plug.
Qed.

(** ** The copy loop of [implant_units_from_dat] *)

Lemma plug_unit_headers d c j v :
  DatFile.unit_headers (plug d c j v) = DatFile.unit_headers d.
Proof. unfold plug. by destruct (slot (DatFile.civs d) c). Qed.

Lemma plug_techs d c j v : DatFile.techs (plug d c j v) = DatFile.techs d.
Proof. unfold plug. by destruct (slot (DatFile.civs d) c). Qed.

Lemma plug_effects d c j v : DatFile.effects (plug d c j v) = DatFile.effects d.
Proof. unfold plug. by destruct (slot (DatFile.civs d) c). Qed.

Section copy_loop.
Context (source_data : DatFile.t) (copy_extra : bool).
Context (S T K : Z) (s0 : state).
Context (HS : 0 ≤ S) (HT : 0 ≤ T).
Context (Hsrc : allocated (objs s0) source_data).
Context (Hheaders : T + K ≤ len (DatFile.unit_headers (target_data s0))).
Context (Hunits : ∀ c civ, slot (DatFile.civs (target_data s0)) c = Some civ →
                    T + K ≤ len (Civ.units civ)).

Local Abbreviation inv := (implant_inv source_data copy_extra S T K s0).
Local Abbreviation m := (id_mapping_of S T K).

Lemma inv_init : inv (λ _ _, False) (λ _, False) s0.
Proof. split; try done. Qed.

Lemma inv_ext P P' PH PH' s :
  (∀ i c, P i c ↔ P' i c) → (∀ i, PH i ↔ PH' i) → inv P PH s → inv P' PH' s.
Proof.
  intros HP HPH [].
  split; try done; intros *; rewrite <- ?HP, <- ?HPH; eauto.
Qed.

Lemma implanted_mono s s' i c :
  implanted source_data copy_extra S T K s0 s i c →
  unit_at (target_data s') c (T + i) = unit_at (target_data s) c (T + i) →
  objs s `prefix_of` objs s' →
  implanted source_data copy_extra S T K s0 s' i c.
Proof.
  unfold implanted. intros H Hat Hpre.
  destruct (source_slot source_data copy_extra c (S + i)) as [u|].
  - destruct H as (l & us & ? & ? & ? & Hl). exists l, us.
    rewrite Hat. repeat split; try done.
    by eapply prefix_lookup_Some.
  - by rewrite Hat.
Qed.

Lemma implanted_lt s i c l :
  implanted source_data copy_extra S T K s0 s i c →
  unit_at (target_data s) c (T + i) = Some l →
  (length (objs s0) ≤ l < length (objs s))%nat.
Proof.
  unfold implanted. intros H Hat.
  destruct (source_slot source_data copy_extra c (S + i)) as [u|].
  - destruct H as (l' & us & Hat' & ? & ? & Hl). simplify_eq.
    apply lookup_lt_Some in Hl. lia.
  - congruence.
Qed.

Lemma inv_unit_step P PH s i c :
  inv P PH s → 0 ≤ i < K → 0 ≤ c < len (DatFile.civs (target_data s0)) →
  ¬ P i c →
  ∃ s', implant_unit source_data copy_extra m (S + i) (T + i) c s
        = Returned tt s'
    ∧ inv (λ i' c', P i' c' ∨ (i' = i ∧ c' = c)) PH s'.
Proof.
  intros Hinv Hi Hc HnP.
  destruct (slot_is_Some (DatFile.civs (target_data s0)) c) as [civ0 Hciv0];
    [done|].
  destruct (civ_shape_slot _ _ _ _ (inv_shape _ _ _ _ _ _ _ _ _ Hinv) Hciv0)
    as (civ & Hciv & _ & Hlen).
  pose proof (Hunits _ _ Hciv0) as Hlen0.
  pose proof (inv_objs _ _ _ _ _ _ _ _ _ Hinv) as Hpre.
  assert (allocated (objs s) source_data) as Halloc.
  { eapply allocated_mono; [|done]. by apply prefix_length. }
  destruct (implant_unit_exec source_data copy_extra m (S + i) (T + i) c s civ)
    as (s' & Hrun & Hs'); [lia|lia|done|lia|done|].
  exists s'. split; [done|].
  assert (∀ v c' j, unit_at (plug (target_data s) c (T + i) v) c' j
            = if bool_decide (c' = c ∧ j = T + i) then v
              else unit_at (target_data s) c' j) as Hplug.
  { intros. eapply unit_at_plug; [done|lia]. }
  assert (∀ s'' v,
    objs s `prefix_of` objs s'' →
    stdout s'' = stdout s →
    target_data s'' = plug (target_data s) c (T + i) v →
    implanted source_data copy_extra S T K s0 s'' i c →
    (∀ l, v = Some l → (length (objs s) ≤ l)%nat) →
    inv (λ i' c', P i' c' ∨ i' = i ∧ c' = c) PH s'') as Hgen.
  { intros s'' v Hpre' Hout Htgt Hnew Hfresh.
    destruct Hinv. split; rewrite ?Htgt, ?plug_unit_headers, ?plug_techs,
      ?plug_effects, ?civ_shape_plug; try done.
    - congruence.
    - by etrans.
    - intros c' j HnP'. rewrite Hplug.
      rewrite bool_decide_eq_false_2.
      + apply inv_frame0. intros HP. apply HnP'. by left.
      + intros [-> ->]. apply HnP'. right. split; [lia|done].
    - intros i' c' [HP|[-> ->]]; [|done].
      eapply implanted_mono; [by apply inv_clone0| |done].
      rewrite Htgt, Hplug. rewrite bool_decide_eq_false_2; [done|].
      intros [-> Heq]. assert (i' = i) as -> by lia. done.
    - intros i1 c1 i2 c2 l H1 H2. rewrite !Hplug.
      destruct H1 as [H1|[-> ->]], H2 as [H2|[-> ->]].
      + rewrite !bool_decide_eq_false_2.
        * by apply inv_inj0.
        * intros [-> Heq]. assert (i2 = i) as -> by lia. done.
        * intros [-> Heq]. assert (i1 = i) as -> by lia. done.
      + rewrite bool_decide_eq_false_2.
        2:{ intros [-> Heq]. assert (i1 = i) as -> by lia. done. }
        rewrite bool_decide_eq_true_2 by done.
        intros Hat ->. specialize (Hfresh _ eq_refl).
        pose proof (implanted_lt _ _ _ _ (inv_clone0 _ _ H1) Hat). lia.
      + rewrite bool_decide_eq_true_2 by done.
        rewrite bool_decide_eq_false_2.
        2:{ intros [-> Heq]. assert (i2 = i) as -> by lia. done. }
        intros -> Hat. specialize (Hfresh _ eq_refl).
        pose proof (implanted_lt _ _ _ _ (inv_clone0 _ _ H2) Hat). lia.
      + done. }
  unfold implanted in Hgen.
  destruct (source_slot source_data copy_extra c (S + i)) as [u|] eqn:Hu.
  - destruct Hs' as (us & Hus & ->).
    apply (Hgen _ (Some (length (objs s)))); simpl; try done.
    + by apply prefix_app_r.
    + exists (length (objs s)), us. rewrite Hplug.
      rewrite bool_decide_eq_true_2 by done.
      repeat split.
      * by apply prefix_length.
      * apply source_slot_unit_at in Hu as [c' Hu].
        pose proof (allocated_unit_at _ _ _ _ _ Hsrc Hu) as Hlt.
        destruct (lookup_lt_is_Some_2 _ _ Hlt) as [us0 Hus0].
        pose proof (prefix_lookup_Some _ _ _ _ Hus0 Hpre) as Hus0'.
        by simplify_eq.
      * apply list_lookup_middle. done.
    + intros l [= <-]. done.
  - subst s'. apply (Hgen _ None); simpl; try done.
    rewrite Hplug. by rewrite bool_decide_eq_true_2.
Qed.

Lemma header_exec s i :
  0 ≤ S + i → 0 ≤ T + i < len (DatFile.unit_headers (target_data s)) →
  (if bool_decide (S + i < len (DatFile.unit_headers source_data)) then
     h ← getitem (DatFile.unit_headers source_data) (S + i);
     set_target_header (T + i) h
   else set_target_header (T + i) _blank_unit_header) s
  = Returned tt
      (set_target_data
         (DatFile.set_unit_headers
            (<[Z.to_nat (T + i) := implanted_header source_data (S + i)]>
               (DatFile.unit_headers (target_data s)))
            (target_data s)) s).
Proof.
  intros Hsi Hti.
  assert (∀ h, set_target_header (T + i) h s
            = Returned tt
                (set_target_data
                   (DatFile.set_unit_headers
                      (<[Z.to_nat (T + i) := h]>
                         (DatFile.unit_headers (target_data s)))
                      (target_data s)) s)) as Hset.
  { intros h. unfold set_target_header.
    erewrite bind_returned by reflexivity.
    erewrite bind_returned by (apply setitem_slot; lia). done. }
  unfold implanted_header.
  destruct (decide (S + i < len (DatFile.unit_headers source_data))) as [Hlt|Hge].
  - rewrite bool_decide_eq_true_2 by done.
    destruct (slot_is_Some (DatFile.unit_headers source_data) (S + i))
      as [h Hh]; [lia|].
    erewrite bind_returned by (by apply getitem_slot).
    rewrite Hh. apply Hset.
  - rewrite bool_decide_eq_false_2 by done.
    rewrite slot_ge by lia. apply Hset.
Qed.

Lemma inv_header_step P PH s i :
  inv P PH s → 0 ≤ i < K →
  ∃ s',
    ((if bool_decide (S + i < len (DatFile.unit_headers source_data)) then
        h ← getitem (DatFile.unit_headers source_data) (S + i);
        set_target_header (T + i) h
      else set_target_header (T + i) _blank_unit_header) s
     = Returned tt s')
    ∧ inv P (λ i', PH i' ∨ i' = i) s'.
Proof.
  intros Hinv Hi.
  pose proof (inv_hlen _ _ _ _ _ _ _ _ _ Hinv) as Hlen.
  eexists. split; [apply header_exec; lia|].
  destruct Hinv. split; simpl; rewrite ?len_insert; try done.
  - intros i' [HP| ->]; rewrite slot_insert by lia.
    + case_bool_decide as Heq; [|by apply inv_hdone0].
      by assert (i' = i) as -> by lia.
    + by rewrite bool_decide_eq_true_2.
  - intros j Hn. rewrite slot_insert by lia.
    rewrite bool_decide_eq_false_2; [apply inv_hframe0; tauto|].
    intros ->. apply Hn. right. lia.
Qed.

(** The inner loop, over the civilisations of the target. *)
Lemma inv_inner_loop PH s x :
  let n := len (DatFile.civs (target_data s0)) in
  inv (λ i c, 0 ≤ i < x ∧ 0 ≤ c < n) PH s → 0 ≤ x < K →
  ∃ s',
    for_ (range n) (implant_unit source_data copy_extra m (S + x) (T + x)) s
    = Returned tt s'
    ∧ inv (λ i c, 0 ≤ i < x + 1 ∧ 0 ≤ c < n) PH s'.
Proof.
  intros n Hinv Hx.
  destruct (for_inv
    (λ done s, inv (λ i c, (0 ≤ i < x ∧ 0 ≤ c < n)
                           ∨ (i = x ∧ 0 ≤ c < len done)) PH s)
    (range n) (implant_unit source_data copy_extra m (S + x) (T + x)) s)
    as (s' & Hrun & Hinv').
  - eapply inv_ext; [| |exact Hinv]; [|done].
    intros i c. unfold len; simpl. lia.
  - intros done c rest s1 Hsplit Hinv1.
    apply range_split in Hsplit as (Hc & Hcn & _).
    destruct (inv_unit_step _ _ _ x c Hinv1) as (s2 & Hrun2 & Hinv2);
      [lia|lia|lia|].
    exists s2. split; [done|].
    eapply inv_ext; [| |exact Hinv2]; [|done].
    intros i c'. unfold len in *. rewrite length_app; simpl. lia.
  - exists s'. split; [done|].
    eapply inv_ext; [| |exact Hinv']; [|done].
    intros i c. unfold range, len in *. rewrite length_seqZ. lia.
Qed.

(** The loop of step 4. *)
Lemma inv_outer_loop :
  let n := len (DatFile.civs (target_data s0)) in
  0 ≤ K →
  ∃ s',
    for_ (range K) (λ i,
      (if bool_decide (S + i < len (DatFile.unit_headers source_data)) then
         h ← getitem (DatFile.unit_headers source_data) (S + i);
         set_target_header (T + i) h
       else set_target_header (T + i) _blank_unit_header);;
      for_ (range n)
        (implant_unit source_data copy_extra m (S + i) (T + i))) s0
    = Returned tt s'
    ∧ inv (λ i c, 0 ≤ i < K ∧ 0 ≤ c < n) (λ i, 0 ≤ i < K) s'.
Proof.
  intros n HK.
  match goal with |- ∃ s', for_ _ ?body _ = _ ∧ _ =>
    destruct (for_inv
      (λ done s, inv (λ i c, 0 ≤ i < len done ∧ 0 ≤ c < n)
                     (λ i, 0 ≤ i < len done) s)
      (range K) body s0) as (s' & Hrun & Hinv')
  end.
  - eapply inv_ext; [| |exact inv_init]; intros; unfold len; simpl; lia.
  - intros done x rest s1 Hsplit Hinv1.
    apply range_split in Hsplit as (Hx & HxK & _).
    destruct (inv_header_step _ _ _ x Hinv1) as (s2 & Hrun2 & Hinv2); [lia|].
    destruct (inv_inner_loop (λ i', 0 ≤ i' < len done ∨ i' = x) s2 x)
      as (s3 & Hrun3 & Hinv3); [|lia|].
    { eapply inv_ext; [| |exact Hinv2]; [|done]. intros; simpl. lia. }
    exists s3. split.
    + erewrite bind_returned by exact Hrun2. exact Hrun3.
    + eapply inv_ext; [| |exact Hinv3];
        intros; unfold len in *; rewrite length_app; simpl; lia.
  - exists s'. split; [done|].
    eapply inv_ext; [| |exact Hinv'];
      intros; unfold range, len; rewrite length_seqZ; lia.
Qed.

End copy_loop.

(** ** The range checks *)

Lemma range_error_dec n S e c : Decision (range_error n S e c).
Proof.
  unfold range_error.
  destruct c as [c|], e as [e|]; simpl.
  - destruct (decide (n ≤ S ∨ Z.min c (n - S) ≤ 0)) as [H|H];
      [left|right]; [tauto|]. intros [?|[[? _]|?]]; [tauto|done|tauto].
  - destruct (decide (n ≤ S ∨ Z.min c (n - S) ≤ 0)) as [H|H];
      [left|right]; [tauto|]. intros [?|[[? _]|?]]; [tauto|done|tauto].
  - destruct (decide (n ≤ S ∨ (e < S ∨ n ≤ e) ∨ e - S + 1 ≤ 0)) as [H|H];
      [left|right].
    + destruct H as [?|[?|?]]; [tauto| |tauto]. right. left. eauto.
    + intros [?|[(_ & e' & [= <-] & ?)|?]]; tauto.
  - destruct (decide (n ≤ S ∨ n - S ≤ 0)) as [H|H]; [left|right]; [tauto|].
    intros [?|[(_ & e' & ? & _)|?]]; [tauto|done|tauto].
Qed.

Lemma implant_range_raises n S e c s :
  range_error n S e c → implant_range n S e c s = Raised ValueError s.
Proof.
  unfold range_error, implant_range, selected_count. intros H.
  case_bool_decide as H1; [done|].
  destruct c as [c|]; simpl.
  - unfold mbind, M_bind, mret, M_ret.
    rewrite bool_decide_eq_true_2; [done|].
    destruct H as [?|[[? _]|?]]; [lia|done|done].
  - destruct e as [e|].
    + destruct H as [?|[(_ & e' & [= <-] & He)|?]]; [lia| |].
      * case_bool_decide; [done|]. rewrite bool_decide_eq_true_2 by lia. done.
      * rewrite bool_decide_eq_true_2 by lia. done.
    + destruct H as [?|[(_ & e' & ? & _)|?]]; [lia|done|lia].
Qed.

Lemma implant_range_returns n S e c s :
  ¬ range_error n S e c →
  implant_range n S e c s = Returned (selected_count n S e c) s
  ∧ 0 < selected_count n S e c ∧ S + selected_count n S e c ≤ n.
Proof.
  unfold range_error, implant_range, selected_count. intros H.
  rewrite bool_decide_eq_false_2 by (intros ?; apply H; left; lia).
  destruct c as [c|]; simpl.
  - unfold mbind, M_bind, mret, M_ret.
    rewrite bool_decide_eq_false_2 by (intros ?; apply H; tauto).
    split; [done|]. split; [|lia].
    destruct (decide (0 < Z.min c (n - S))); [done|]. exfalso. apply H. lia.
  - destruct e as [e|].
    + assert (¬ (e < S ∨ n ≤ e)) as He
        by (intros ?; apply H; right; left; eauto).
      rewrite bool_decide_eq_false_2 by lia.
      rewrite bool_decide_eq_false_2 by lia.
      unfold mbind, M_bind, mret, M_ret.
      rewrite bool_decide_eq_false_2 by (intros ?; apply H; tauto).
      split; [done|]. lia.
    + unfold mbind, M_bind, mret, M_ret.
      rewrite bool_decide_eq_false_2 by (intros ?; apply H; tauto).
      split; [done|].
      assert (¬ n ≤ S) by (intros ?; apply H; tauto). lia.
Qed.

(** ** Step 3: the overwrite scan *)

Lemma civs_occupied_spec civs idx s :
  0 ≤ idx →
  ∃ b, civs_occupied civs idx s = Returned b s
    ∧ (b = true ↔ ∃ civ l, civ ∈ civs ∧ slot (Civ.units civ) idx = Some (Some l)).
Proof.
  intros Hidx. induction civs as [|civ civs IH]; simpl.
  - exists false. split; [done|]. split; [done|].
    intros (civ & l & []%elem_of_nil & _).
  - destruct IH as (b & Hrun & Hb).
    destruct (decide (idx < len (Civ.units civ))) as [Hlt|Hge].
    + rewrite bool_decide_eq_true_2 by done.
      destruct (slot_is_Some (Civ.units civ) idx) as [o Ho]; [lia|].
      erewrite bind_returned by (by apply getitem_slot).
      destruct o as [l|].
      * exists true. split; [done|]. split; [|done]. intros _.
        exists civ, l. split; [left|done].
      * exists b. split; [done|]. rewrite Hb. split.
        -- intros (civ' & l & ? & ?). exists civ', l. split; [by right|done].
        -- intros (civ' & l & [->|?]%elem_of_cons & ?); [congruence|eauto].
    + rewrite bool_decide_eq_false_2 by done.
      exists b. split; [done|]. rewrite Hb. split.
      * intros (civ' & l & ? & ?). exists civ', l. split; [by right|done].
      * intros (civ' & l & [->|?]%elem_of_cons & Hl); [|eauto].
        apply slot_Some_lt in Hl. lia.
Qed.

Lemma unit_at_elem_of d j l :
  (∃ c, unit_at d c j = Some l)
  ↔ ∃ civ, civ ∈ DatFile.civs d ∧ slot (Civ.units civ) j = Some (Some l).
Proof.
  unfold unit_at. split.
  - intros (c & H).
    destruct (slot (DatFile.civs d) c) as [civ|] eqn:Hc; [|done]. simpl in H.
    destruct (slot (Civ.units civ) j) as [o|] eqn:Hj; [|done]. simpl in H.
    subst. exists civ. split; [|done].
    pose proof (slot_Some_lt _ _ _ Hc). rewrite slot_lookup in Hc by lia.
    by eapply list_elem_of_lookup_2.
  - intros (civ & [k Hk]%list_elem_of_lookup & Hj). exists (Z.of_nat k).
    rewrite slot_lookup by lia. rewrite Nat2Z.id, Hk. simpl. by rewrite Hj.
Qed.

Lemma some_unit_at_elem_of d j :
  (∃ c l, unit_at d c j = Some l)
  ↔ ∃ civ l, civ ∈ DatFile.civs d ∧ slot (Civ.units civ) j = Some (Some l).
Proof.
  split.
  - intros (c & l & H).
    destruct (proj1 (unit_at_elem_of d j l)) as (civ & ? & ?); eauto.
  - intros (civ & l & H).
    destruct (proj2 (unit_at_elem_of d j l)) as (c & ?); eauto.
Qed.

Lemma collect_overwritten_spec T K s :
  0 ≤ T → 0 ≤ K → T + K ≤ len (DatFile.unit_headers (target_data s)) →
  ∃ O, collect_overwritten T K s = Returned O s
    ∧ ∀ j, j ∈ O ↔ T ≤ j < T + K ∧ occupied (target_data s) j.
Proof.
  intros HT HK Hlen. unfold collect_overwritten.
  match goal with |- ∃ O, for_fold _ ?body _ _ = _ ∧ _ =>
    destruct (for_fold_inv
      (λ done (O : gset Z) s', s' = s ∧
         ∀ j, j ∈ O ↔ T ≤ j < T + len done ∧ occupied (target_data s) j)
      (range K) body ∅ s) as (O & s' & Hrun & -> & HO)
  end.
  - split; [done|]. intros j. unfold len; simpl. set_solver by lia.
  - intros done i rest O s1 Hsplit [-> HO].
    apply range_split in Hsplit as (Hi & HiK & _).
    assert (∀ O' : gset Z,
      (T + i ∈ O' ↔ occupied (target_data s) (T + i)) →
      (∀ j, j ≠ T + i → j ∈ O' ↔ j ∈ O) →
      ∀ j, j ∈ O' ↔ T ≤ j < T + len (done ++ [i]) ∧ occupied (target_data s) j)
      as Hgen.
    { intros O' Hnew Hold j. unfold len in *. rewrite length_app; simpl.
      destruct (decide (j = T + i)) as [->|Hne].
      - rewrite Hnew. split; [|tauto]. intros ?. split; [lia|done].
      - rewrite Hold, HO by done. split; intros [? ?]; split; try done; lia. }
    erewrite bind_returned by reflexivity. cbv beta.
    destruct (decide (T + i >= len (DatFile.unit_headers (target_data s))))
      as [Hge|Hlt].
    + lia.
    + rewrite bool_decide_eq_false_2 by done.
      destruct (slot_is_Some (DatFile.unit_headers (target_data s)) (T + i))
        as [h Hh]; [lia|].
      erewrite bind_returned by (by apply getitem_slot).
      unfold _is_blank_header.
      destruct (decide (UnitHeaders.exists_ h = 0)) as [Hblank|Hex].
      * rewrite bool_decide_eq_true_2 by done. simpl.
        destruct (civs_occupied_spec (DatFile.civs (target_data s)) (T + i) s)
          as (b & Hb & Hbiff); [lia|].
        erewrite bind_returned by exact Hb.
        eexists _, s. split; [reflexivity|]. split; [done|].
        apply Hgen.
        -- unfold occupied. rewrite some_unit_at_elem_of.
           destruct b.
           ++ split; [|set_solver]. intros _. right. by apply Hbiff.
           ++ split.
              ** intros [Hr _]%HO. unfold len in *. lia.
              ** intros [(h' & Hh' & Hex)|Hocc]; [congruence|].
                 apply Hbiff in Hocc. done.
        -- intros j Hne. destruct b; set_solver.
      * rewrite bool_decide_eq_false_2 by done. simpl.
        exists ({[T + i]} ∪ O), s. split; [done|]. split; [done|].
        apply Hgen; [|set_solver].
        split; [|set_solver]. intros _. left. eauto.
  - exists O. split; [done|]. intros j. rewrite HO.
    unfold range, len. rewrite length_seqZ. rewrite Z2Nat.id by done. done.
Qed.

(** ** Steps 1 and 2: the extension *)

Lemma extended_unit_headers d n :
  DatFile.unit_headers (extended d n)
  = _ensure_length (DatFile.unit_headers d) n _blank_unit_header.
Proof. done. Qed.

Lemma extended_civs d n :
  DatFile.civs (extended d n)
  = (λ civ, Civ.set_units (_ensure_length (Civ.units civ) n None) civ)
      <$> DatFile.civs d.
Proof. done. Qed.

Lemma slot_fmap {A B} (f : A → B) (l : list A) i :
  slot (f <$> l) i = f <$> slot l i.
Proof. unfold slot. case_bool_decide; [|done]. apply list_lookup_fmap. Qed.

Lemma len_fmap {A B} (f : A → B) (l : list A) : len (f <$> l) = len l.
Proof. unfold len. by rewrite length_fmap. Qed.

Lemma unit_at_extended d n c j : unit_at (extended d n) c j = unit_at d c j.
Proof.
  unfold unit_at. rewrite extended_civs, slot_fmap.
  destruct (slot (DatFile.civs d) c) as [civ|]; [|done]. simpl.
  rewrite slot_ensure_length.
  case_bool_decide as Hlt; [done|].
  rewrite (slot_ge (Civ.units civ)) by lia. by case_bool_decide.
Qed.

Lemma occupied_extended d n j : occupied (extended d n) j ↔ occupied d j.
Proof.
  unfold occupied. setoid_rewrite unit_at_extended.
  rewrite extended_unit_headers, slot_ensure_length.
  case_bool_decide as Hlt; [done|].
  rewrite (slot_ge (DatFile.unit_headers d)) by lia.
  split; (intros [(h & Hh & Hex)|?]; [|by right]); [|done].
  case_bool_decide; [|done]. by simplify_eq.
Qed.

Lemma extended_units_len d n c civ :
  slot (DatFile.civs (extended d n)) c = Some civ → n ≤ len (Civ.units civ).
Proof.
  rewrite extended_civs, slot_fmap.
  destruct (slot (DatFile.civs d) c) as [civ0|]; [|done].
  intros [= <-]. simpl. rewrite len_ensure_length. lia.
Qed.

(** ** [implant_units_from_dat], start to end *)

Lemma implant_units_run source_data S e c T warn copy_extra s :
  0 ≤ S → 0 ≤ T → allocated (objs s) source_data →
  ¬ range_error (n_unit_slots source_data) S e c →
  let K := selected_count (n_unit_slots source_data) S e c in
  ∃ (O : gset Z) s',
    implant_units_from_dat source_data S e c T warn copy_extra s
    = Returned K s'
    ∧ (∀ j, j ∈ O ↔ T ≤ j < T + K ∧ occupied (target_data s) j)
    ∧ implant_inv source_data copy_extra S T K
        (mkState (objs s) (extended (target_data s) (T + K))
           (stdout s
            ++ (if bool_decide (T + K > n_unit_slots (target_data s))
                then [NoteExtend (n_unit_slots (target_data s)) (T + K)]
                else [])
            ++ [NoteRange S K T]
            ++ (if bool_decide (O ≠ ∅) && warn
                then [NoteOverwrite (merge_sort Z.le (elements O))]
                else [])))
        (λ i c', 0 ≤ i < K ∧ 0 ≤ c' < len (DatFile.civs (target_data s)))
        (λ i, 0 ≤ i < K) s'.
Proof.
  intros HS HT Halloc Hrange K.
  destruct (implant_range_returns _ _ _ _ s Hrange) as (Hrun & HK & HSK).
  fold K in Hrun, HK, HSK.
  unfold implant_units_from_dat.
  erewrite bind_returned by exact Hrun.
  erewrite bind_returned by reflexivity. cbv beta.
  set (notes1 := if bool_decide (T + K > n_unit_slots (target_data s))
                 then [NoteExtend (n_unit_slots (target_data s)) (T + K)]
                 else []).
  erewrite (bind_returned _ _ s tt (set_stdout (stdout s ++ notes1) s));
    cycle 1.
  { unfold notes1, when. case_bool_decide; [done|].
    unfold mret, M_ret, set_stdout. destruct s; simpl. by rewrite app_nil_r. }
  erewrite bind_returned by reflexivity.
  erewrite bind_returned by reflexivity.
  erewrite bind_returned by reflexivity.
  set (s1 := mkState (objs s) (extended (target_data s) (T + K))
               (stdout s ++ notes1 ++ [NoteRange S K T])).
  destruct (collect_overwritten_spec T K s1) as (O & HO & HOiff);
    [done|lia| |].
  { simpl. rewrite len_ensure_length. lia. }
  exists O.
  erewrite (bind_returned _ _ _ O s1); cycle 1.
  { rewrite <- HO. f_equal. unfold s1, extended, set_stdout, set_target_data.
    simpl. by rewrite <- app_assoc. }
  set (notes2 := if bool_decide (O ≠ ∅) && warn
                 then [NoteOverwrite (merge_sort Z.le (elements O))] else []).
  set (s2 := mkState (objs s) (extended (target_data s) (T + K))
               (stdout s ++ notes1 ++ [NoteRange S K T] ++ notes2)).
  erewrite (bind_returned _ _ s1 tt s2); cycle 1.
  { unfold when, notes2, s2, s1.
    destruct (bool_decide (O ≠ ∅) && warn); simpl.
    - unfold print, modify, set_stdout. simpl.
      by rewrite <- !app_assoc.
    - reflexivity. }
  erewrite bind_returned by reflexivity. cbv beta.
  destruct (inv_outer_loop source_data copy_extra S T K s2) as (s' & Hloop & Hinv);
    try done.
  { simpl. rewrite len_ensure_length. lia. }
  { intros c0 civ. simpl. apply extended_units_len. }
  { lia. }
  exists s'. split; [|split].
  - erewrite bind_returned by exact Hloop. done.
  - intros j. rewrite HOiff. simpl. by rewrite occupied_extended.
  - simpl in Hinv. rewrite len_fmap in Hinv. exact Hinv.
Qed.

(** ** The global rewrite *)

Lemma split_slot {A} (l done : list A) x rest :
  l = done ++ x :: rest → slot l (len done) = Some x.
Proof.
  intros ->. rewrite slot_lookup by (unfold len; lia).
  unfold len. rewrite Nat2Z.id. apply list_lookup_middle. done.
Qed.

Lemma unit_at_split d dc civ rc du o ru :
  DatFile.civs d = dc ++ civ :: rc → Civ.units civ = du ++ o :: ru →
  unit_at d (len dc) (len du) = o.
Proof.
  intros Hc Hu. unfold unit_at.
  rewrite (split_slot _ _ _ _ Hc). simpl.
  by rewrite (split_slot _ _ _ _ Hu).
Qed.

Section global_remap.
Context (m : gmap Z Z) (s : state).
Context (Halloc : allocated (objs s) (target_data s)).

Local Abbreviation rinv := (remap_inv m s).

Lemma rinv_ext V V' total s' :
  (∀ c j, V c j → V' c j) →
  (∀ c j, V' c j → V c j ∨ unit_at (target_data s) c j = None) →
  rinv V total s' → rinv V' total s'.
Proof.
  intros HV HV' []. split; try done.
  intros l u Hl. destruct (rinv_objs0 l u Hl) as (k & ? & H1 & H0 & ?).
  exists k. repeat split; try done.
  - intros c j Hv Hat. destruct (HV' c j Hv) as [?|?]; [|congruence].
    by eapply H1.
  - intros Hn. apply H0. intros c j Hv. apply Hn. by apply HV.
Qed.

Lemma rinv_visit V total s' x j o :
  rinv V total s' → ¬ V x j → unit_at (target_data s) x j = o →
  ∃ total' s'',
    match o with
    | Some u => n ← _remap_unit_id_refs_in_unit u m; mret (total + n)
    | None => mret total
    end s' = Returned total' s''
    ∧ rinv (λ c j', V c j' ∨ (c = x ∧ j' = j)) total' s''.
Proof.
  intros Hinv HnV Hat. destruct o as [l0|].
  - pose proof (allocated_unit_at _ _ _ _ _ Halloc Hat) as Hlt.
    destruct (lookup_lt_is_Some_2 _ _ Hlt) as [u0 Hu0].
    destruct Hinv as [Ht Ho Hlen Hobjs Hset].
    destruct (Hobjs l0 u0 Hu0) as (k0 & Hk0 & Hk1 & Hk0' & Hksole).
    eexists _, _. split.
    { erewrite bind_returned by (by apply remap_in_place). reflexivity. }
    split; simpl; try done.
    + by rewrite length_insert.
    + intros l u Hl. destruct (decide (l = l0)) as [->|Hne].
      * simplify_eq. exists (Datatypes.S k0). split; [|split; [|split]].
        -- rewrite list_lookup_insert_eq by (by rewrite Hlen). done.
        -- intros; lia.
        -- intros Hn. exfalso. apply (Hn x j); [by right|done].
        -- intros c1 j1 Hsole. destruct Hsole as [_ Hsole].
           destruct (Hsole _ _ Hat) as [-> ->].
           rewrite Hk0'; [lia|].
           intros c2 j2 Hv Hat2.
           destruct (Hsole _ _ Hat2) as [-> ->]. done.
      * destruct (Hobjs l u Hl) as (k & Hk & H1 & H0 & Hsole).
        exists k. split; [|split; [|split]]; try done.
        -- by rewrite list_lookup_insert_ne.
        -- intros c1 j1 [Hv|[-> ->]] Hat1; [by eapply H1|congruence].
        -- intros Hn. apply H0. intros c1 j1 Hv. apply Hn. by left.
    + intros Hs. destruct (Hset Hs) as [-> Heq].
      rewrite Heq in Hk0 |- *.
      assert (Nat.iter k0 (relocate_unit m) u0 = u0) as Hcur by congruence.
      rewrite Hcur in *.
      destruct (Hs _ _ _ _ Hat Hu0) as [Hrel Hhits].
      rewrite Hrel, Hhits. split; [done|]. by apply list_insert_id.
  - exists total, s'. split; [done|].
    destruct Hinv as [Ht Ho Hlen Hobjs Hset]. split; try done.
    intros l u Hl. destruct (Hobjs l u Hl) as (k & Hk & H1 & H0 & Hsole).
    exists k. split; [|split; [|split]]; try done.
    + intros c1 j1 [Hv|[-> ->]] Hat1; [by eapply H1|congruence].
    + intros Hn. apply H0. intros c1 j1 Hv. apply Hn. by left.
Qed.

Lemma remap_global_run :
  ∃ total s',
    remap_unit_copy_base_ids_global m s = Returned total s'
    ∧ remap_inv m s (λ c j, 0 ≤ c ∧ 0 ≤ j) total
        (set_stdout (stdout s) s')
    ∧ stdout s'
      = stdout s ++ (if bool_decide (total ≠ 0) then [NoteGlobalRemap total]
                     else []).
Proof.
  unfold remap_unit_copy_base_ids_global.
  erewrite bind_returned by reflexivity. cbv beta.
  match goal with |- ∃ _ _, (for_fold _ ?body _ ≫= _) _ = _ ∧ _ =>
    destruct (for_fold_inv
      (λ done total s', rinv (λ c j, 0 ≤ c < len done ∧ 0 ≤ j) total s')
      (DatFile.civs (target_data s)) body 0 s) as (total & s' & Hrun & Hinv)
  end.
  - split; try done.
    intros l u Hl. exists 0%nat. split; [done|]. split; [|split].
    + unfold len; simpl. intros; lia.
    + done.
    + intros; lia.
  - intros dc civ rc total s1 Hc Hinv1.
    destruct (for_fold_inv
      (λ done total s',
         rinv (λ c j, (0 ≤ c < len dc ∧ 0 ≤ j)
                      ∨ (c = len dc ∧ 0 ≤ j < len done)) total s')
      (Civ.units civ)
      (λ u total,
         match u with
         | Some u => n ← _remap_unit_id_refs_in_unit u m; mret (total + n)
         | None => mret total
         end) total s1) as (total2 & s2 & Hrun2 & Hinv2).
    + eapply rinv_ext; [| |exact Hinv1]; intros c j; unfold len; simpl.
      * tauto.
      * intros [?|?]; [tauto|lia].
    + intros du o ru total3 s3 Hu Hinv3.
      destruct (rinv_visit _ _ _ (len dc) (len du) o Hinv3)
        as (total4 & s4 & Hrun4 & Hinv4).
      * unfold len. lia.
      * by eapply unit_at_split.
      * exists total4, s4. split; [done|].
        eapply rinv_ext; [| |exact Hinv4];
          intros c j; unfold len; rewrite length_app; simpl.
        -- intros [[?|?]|?]; [tauto|right; lia|right; lia].
        -- intros [?|[-> ?]]; [tauto|]. left.
           destruct (decide (j = Z.of_nat (length du))) as [->|]; [tauto|].
           left. right. lia.
    + exists total2, s2. split; [done|].
      eapply rinv_ext; [| |exact Hinv2];
        intros c j; unfold len; rewrite length_app; simpl.
      * intros [?|[-> ?]]; lia.
      * intros [? ?].
        destruct (decide (c = Z.of_nat (length dc))) as [->|]; [|left; left; lia].
        destruct (decide (j < len (Civ.units civ))) as [Hj|Hj].
        -- left. right. unfold len in Hj. lia.
        -- right. unfold unit_at.
           change (Z.of_nat (length dc)) with (len dc).
           rewrite (split_slot _ _ _ _ Hc). simpl.
           rewrite slot_ge by lia. done.
  - exists total,
      (set_stdout
         (stdout s' ++ (if bool_decide (total ≠ 0)
                        then [NoteGlobalRemap total] else [])) s').
    pose proof (rinv_stdout _ _ _ _ _ Hinv) as Hout.
    split; [|split].
    + erewrite bind_returned by exact Hrun. cbv beta.
      unfold when. case_bool_decide.
      * reflexivity.
      * unfold set_stdout. rewrite app_nil_r. by destruct s'.
    + apply (rinv_ext
               (λ c j, 0 ≤ c < len (DatFile.civs (target_data s)) ∧ 0 ≤ j));
        [| |destruct Hinv; split; done].
      * intros c j [? ?]. lia.
      * intros c j [Hc0 Hj0].
        destruct (decide (c < len (DatFile.civs (target_data s)))) as [Hlt|Hge].
        -- left. split; [lia|done].
        -- right. unfold unit_at. rewrite slot_ge by lia. done.
    + simpl. by rewrite Hout.
Qed.

End global_remap.

Lemma iter_relocate_id m k u :
  Unit.id (Nat.iter k (relocate_unit m) u) = Unit.id u.
Proof. induction k as [|k IH]; simpl; [done|]. exact IH. Qed.

(** After the global pass an object held by exactly one slot has been
    rewritten exactly once, and an object keeps its own id. *)
Lemma remap_global_sole m s c j l u total s' :
  allocated (objs s) (target_data s) →
  remap_unit_copy_base_ids_global m s = Returned total s' →
  sole_owner (target_data s) c j l → objs s !! l = Some u →
  objs s' !! l = Some (relocate_unit m u).
Proof.
  intros Halloc Hrun Hsole Hl.
  destruct (remap_global_run m s Halloc) as (total' & s'' & Hrun' & Hinv & _).
  rewrite Hrun in Hrun'. simplify_eq.
  destruct (rinv_objs _ _ _ _ _ Hinv l u Hl) as (k & Hk & H1 & _ & Hle).
  simpl in Hk. rewrite Hk. f_equal.
  pose proof (Hle _ _ Hsole) as Hk1.
  destruct Hsole as [Hat _].
  assert (0 ≤ c ∧ 0 ≤ j) as Hcj.
  { unfold unit_at in Hat.
    destruct (slot (DatFile.civs (target_data s)) c) as [civ|] eqn:Hc; [|done].
    simpl in Hat.
    destruct (slot (Civ.units civ) j) as [o|] eqn:Hj; [|done].
    apply slot_Some_lt in Hc, Hj. lia. }
  pose proof (H1 c j Hcj Hat).
  assert (k = 1%nat) as -> by lia. done.
Qed.

(** ** [fix_implanted_unit_self_ids] *)

Lemma fix_self_ids_run indices s :
  (∀ i, i ∈ indices → 0 ≤ i) →
  allocated (objs s) (target_data s) →
  ∃ n s',
    fix_implanted_unit_self_ids indices s = Returned n s'
    ∧ fix_inv indices s (set_stdout (stdout s) s')
    ∧ stdout s'
      = stdout s ++ (if bool_decide (n ≠ 0) then [NoteSelfIds n] else []).
Proof.
  intros Hpos Halloc. unfold fix_implanted_unit_self_ids.
  erewrite bind_returned by reflexivity. cbv beta.
  match goal with |- ∃ _ _, (for_fold _ ?body _ ≫= _) _ = _ ∧ _ =>
    destruct (for_fold_inv (λ _ (_ : Z) s', fix_inv indices s s')
      (DatFile.civs (target_data s)) body 0 s) as (n & s' & Hrun & Hinv)
  end.
  - split; try done. intros l u Hl. exists u. eauto.
  - intros dc civ rc n s1 Hc Hinv1.
    match goal with |- ∃ _ _, for_fold _ ?body _ _ = _ ∧ _ =>
      destruct (for_fold_inv (λ _ (_ : Z) s', fix_inv indices s s')
        (elements indices) body n s1) as (n2 & s2 & Hrun2 & Hinv2)
    end; [done| |by eauto].
    intros di i ri n3 s3 Hi Hinv3.
    assert (i ∈ indices) as Hin.
    { apply elem_of_elements. rewrite Hi. set_solver. }
    pose proof (Hpos _ Hin) as Hi0.
    destruct (decide (i < len (Civ.units civ))) as [Hlt|Hge].
    2:{ rewrite bool_decide_eq_false_2 by done. by exists n3, s3. }
    rewrite bool_decide_eq_true_2 by done.
    destruct (slot_is_Some (Civ.units civ) i) as [o Ho]; [lia|].
    erewrite bind_returned by (by apply getitem_slot).
    destruct o as [l0|]; [|by exists n3, s3].
    assert (unit_at (target_data s) (len dc) i = Some l0) as Hat.
    { unfold unit_at. rewrite (split_slot _ _ _ _ Hc). simpl. by rewrite Ho. }
    pose proof (allocated_unit_at _ _ _ _ _ Halloc Hat) as Hl0.
    destruct (lookup_lt_is_Some_2 _ _ Hl0) as [u0 Hu0].
    destruct Hinv3 as [Ht Ho' Hlen Hobjs].
    destruct (Hobjs l0 u0 Hu0) as (cur & Hcur & Hcases).
    erewrite bind_returned by (by apply load_lookup).
    destruct (decide (Unit.id cur = i)) as [Heq|Hne].
    { rewrite bool_decide_eq_false_2 by (by intros ?).
      exists n3, s3. by split. }
    rewrite bool_decide_eq_true_2 by done.
    eexists _, _. split; [reflexivity|].
    split; simpl; try done.
    + by rewrite length_insert.
    + intros l u Hl. destruct (decide (l = l0)) as [->|Hnel].
      * simplify_eq. exists (Unit.set_id i cur).
        split; [by rewrite list_lookup_insert_eq by (by rewrite Hlen)|].
        right. exists (len dc), i. split; [done|]. split; [done|].
        destruct Hcases as [->|(? & ? & _ & _ & ->)]; [done|].
        match goal with
        | |- Unit.set_id _ (Unit.set_id _ ?x) = _ => by destruct x
        end.
      * rewrite list_lookup_insert_ne by done. by apply Hobjs.
  - exists n,
      (set_stdout
         (stdout s' ++ (if bool_decide (n ≠ 0) then [NoteSelfIds n] else []))
         s').
    pose proof (finv_stdout _ _ _ Hinv) as Hout.
    split; [|split].
    + erewrite bind_returned by exact Hrun. cbv beta.
      unfold when. case_bool_decide.
      * reflexivity.
      * unfold set_stdout. rewrite app_nil_r. by destruct s'.
    + destruct Hinv. by split.
    + simpl. by rewrite Hout.
Qed.

(** ** What an implant leaves behind *)

Lemma allocated_iff os d :
  allocated os d ↔ ∀ c j l, unit_at d c j = Some l → (l < length os)%nat.
Proof.
  split; [intros H c j l; by apply allocated_unit_at|].
  intros H. unfold allocated. apply Forall_forall. intros civ Hciv.
  apply Forall_forall. intros [l|] Hl; simpl; [|done].
  apply list_elem_of_lookup in Hl as [k Hk].
  destruct (proj2 (unit_at_elem_of d (Z.of_nat k) l)) as (c & Hc);
    [|by eapply H].
  exists civ. split; [done|].
  rewrite slot_lookup by lia. by rewrite Nat2Z.id.
Qed.

Lemma unit_at_nonneg d c j l : unit_at d c j = Some l → 0 ≤ c ∧ 0 ≤ j.
Proof.
  unfold unit_at. intros Hat.
  destruct (slot (DatFile.civs d) c) as [civ|] eqn:Hc; [|done].
  simpl in Hat.
  destruct (slot (Civ.units civ) j) as [o|] eqn:Hj; [|done].
  apply slot_Some_lt in Hc, Hj. lia.
Qed.

Lemma unit_at_civ_lt d c j l :
  unit_at d c j = Some l → 0 ≤ c < len (DatFile.civs d).
Proof.
  unfold unit_at. intros Hat.
  destruct (slot (DatFile.civs d) c) as [civ|] eqn:Hc; [|done].
  by apply slot_Some_lt in Hc.
Qed.

Section implant_post.
Context (source_data : DatFile.t) (copy_extra : bool).
Context (S T K : Z) (s1 s' : state) (n : Z).
Context (Hn : n = len (DatFile.civs (target_data s1))).
Context (Hinv : implant_inv source_data copy_extra S T K s1
                  (λ i c, 0 ≤ i < K ∧ 0 ≤ c < n) (λ i, 0 ≤ i < K) s').

(** Outside the footprint every civilisation holds what it held. *)
Lemma post_frame c j :
  ¬ T ≤ j < T + K → unit_at (target_data s') c j = unit_at (target_data s1) c j.
Proof.
  intros Hj. apply (inv_frame _ _ _ _ _ _ _ _ _ Hinv). lia.
Qed.

(** Inside it, a slot that holds a unit holds a fresh object, numbered
    after the slot, that no other slot holds. *)
Lemma post_clone c j l :
  allocated (objs s1) (target_data s1) →
  T ≤ j < T + K → unit_at (target_data s') c j = Some l →
  (length (objs s1) ≤ l)%nat
  ∧ sole_owner (target_data s') c j l
  ∧ ∃ u, objs s' !! l = Some u ∧ Unit.id u = j.
Proof.
  intros Halloc Hj Hat.
  assert (0 ≤ c < n) as Hc.
  { apply unit_at_civ_lt in Hat.
    rewrite (civ_shape_len _ _ (inv_shape _ _ _ _ _ _ _ _ _ Hinv)) in Hat.
    lia. }
  assert (∀ c2 j2, T ≤ j2 < T + K →
            unit_at (target_data s') c2 j2 = Some l →
            (length (objs s1) ≤ l)%nat
            ∧ ∃ u, objs s' !! l = Some u ∧ Unit.id u = j2) as Hfresh.
  { intros c2 j2 Hj2 Hat2.
    assert (0 ≤ c2 < n) as Hc2.
    { apply unit_at_civ_lt in Hat2.
      rewrite (civ_shape_len _ _ (inv_shape _ _ _ _ _ _ _ _ _ Hinv)) in Hat2.
      lia. }
    pose proof (inv_clone _ _ _ _ _ _ _ _ _ Hinv (j2 - T) c2) as Hcl.
    unfold implanted in Hcl.
    replace (T + (j2 - T)) with j2 in Hcl by lia.
    destruct (source_slot source_data copy_extra c2 (S + (j2 - T))).
    - destruct Hcl as (l' & us & Hat' & ? & ? & Hl'); [lia|].
      simplify_eq. split; [done|]. eexists. split; [done|].
      simpl. lia.
    - rewrite Hcl in Hat2 by lia. done. }
  destruct (Hfresh c j Hj Hat) as [Hge Hu].
  split; [done|]. split; [|done]. split; [done|].
  intros c2 j2 Hat2.
  destruct (decide (T ≤ j2 < T + K)) as [Hj2|Hj2].
  - assert (0 ≤ c2 < n) as Hc2.
    { apply unit_at_civ_lt in Hat2.
      rewrite (civ_shape_len _ _ (inv_shape _ _ _ _ _ _ _ _ _ Hinv)) in Hat2.
      lia. }
    destruct (inv_inj _ _ _ _ _ _ _ _ _ Hinv (j - T) c (j2 - T) c2 l);
      try lia.
    + by replace (T + (j - T)) with j by lia.
    + by replace (T + (j2 - T)) with j2 by lia.
  - rewrite post_frame in Hat2 by done.
    pose proof (allocated_unit_at _ _ _ _ _ Halloc Hat2). lia.
Qed.

Lemma post_allocated :
  allocated (objs s1) (target_data s1) →
  allocated (objs s') (target_data s').
Proof.
  intros Halloc. apply allocated_iff. intros c j l Hat.
  pose proof (prefix_length _ _ (inv_objs _ _ _ _ _ _ _ _ _ Hinv)) as Hlen.
  destruct (decide (T ≤ j < T + K)) as [Hj|Hj].
  - destruct (post_clone c j l Halloc Hj Hat) as (_ & _ & u & Hu & _).
    by apply lookup_lt_Some in Hu.
  - rewrite post_frame in Hat by done.
    pose proof (allocated_unit_at _ _ _ _ _ Halloc Hat). lia.
Qed.

(** A record outside the footprint that no other slot held is still held
    by that slot alone. *)
Lemma post_sole_owner c j l :
  allocated (objs s1) (target_data s1) →
  ¬ T ≤ j < T + K → sole_owner (target_data s1) c j l →
  sole_owner (target_data s') c j l.
Proof.
  intros Halloc Hj [Hat Hsole]. split; [by rewrite post_frame|].
  intros c2 j2 Hat2.
  destruct (decide (T ≤ j2 < T + K)) as [Hj2|Hj2].
  - destruct (post_clone c2 j2 l Halloc Hj2 Hat2) as (Hge & _).
    pose proof (allocated_unit_at _ _ _ _ _ Halloc Hat). lia.
  - rewrite post_frame in Hat2 by done. by apply Hsole.
Qed.

End implant_post.

(** ** The claims about rewriting, alignment and footprint *)

(** The rewrite on the references that the object has.  The rewrite
    applied to a unit during an implant replaces each unit-ID reference
    field ([copy_id], [base_id], [dead_unit_id], [blood_unit_id], the four
    building fields, every annex, the tracked unit, every train location,
    and [projectile.projectile_unit_id] where the projectile object has
    that attribute) whose value is a key of the relocation map by the
    mapped value, which for the map of an implant is the old value plus
    the offset, and leaves the fields whose value is not a key, and every
    other field, [type_50] among them, as they were.  The unit is
    rewritten in place and nothing else of the state changes. *)
Lemma remap_rewrites_mapped_references m unit s u :
  objs s !! unit = Some u →
  ∃ u' n,
    _remap_unit_id_refs_in_unit unit m s
    = Returned n (set_objs (<[unit:=u']> (objs s)) s)
    ∧ unit_rewritten m u u'
    ∧ ∀ source_start target_start implant_count v,
        m = id_mapping_of source_start target_start implant_count →
        m !! v
        = if bool_decide (source_start ≤ v < source_start + implant_count)
          then Some (v + (target_start - source_start)) else None.
Proof.
  intros Hu. exists (relocate_unit m u), (hits_unit m u).
  split; [by apply remap_in_place|]. split; [apply relocate_unit_rewritten|].
  intros S T K v ->. apply lookup_id_mapping_of.
Qed.

Lemma remap_rewrites_mapped_references_witness :
  ∃ u' n,
    _remap_unit_id_refs_in_unit 1%nat (id_mapping_of 1 5 3) ex_state
    = Returned n (set_objs (<[1%nat:=u']> (objs ex_state)) ex_state)
    ∧ unit_rewritten (id_mapping_of 1 5 3) (ex_barracks 1) u'
    ∧ ∀ source_start target_start implant_count v,
        id_mapping_of 1 5 3
        = id_mapping_of source_start target_start implant_count →
        id_mapping_of 1 5 3 !! v
        = if bool_decide (source_start ≤ v < source_start + implant_count)
          then Some (v + (target_start - source_start)) else None.
Proof.
  apply (remap_rewrites_mapped_references (id_mapping_of 1 5 3) 1%nat
           ex_state (ex_barracks 1)).
  reflexivity.
Defined.

(** C1 fails on the code for the unit that a projectile-firing unit
    fires.  The rewrite looks for it behind
    [hasattr(projectile, "projectile_unit_id")]; on a unit as genieutils
    builds it the projectile object has no such attribute, the reference
    is [type_50.projectile_unit_id], and the rewrite never reads
    [type_50].  So, whatever the map, a projectile without the attribute
    and the combat data come back as they were.  On the barracks of the
    example, which fires unit 1, with the map of an implant of the units 1
    to 3 at 5, the rewrite counts the seven other references that are
    keys, and the barracks still fires unit 1, which the map moves to
    5. *)
Theorem remap_leaves_projectile_unit_stale :
  (∀ m u pt,
     Unit.type_50 (remap_unit_fields m u).1 = Unit.type_50 u
     ∧ Unit.projectile
         (remap_unit_fields m
            (Unit.set_projectile (Some (Projectile.mk pt None)) u)).1
       = Some (Projectile.mk pt None))
  ∧ ∃ u',
      _remap_unit_id_refs_in_unit 1%nat (id_mapping_of 1 5 3) ex_state
      = Returned 7 (set_objs (<[1%nat:=u']> (objs ex_state)) ex_state)
      ∧ Unit.copy_id u' = 5
      ∧ Unit.projectile u' = Some (Projectile.mk 0 None)
      ∧ Unit.type_50 u' = Some (Type50.mk 3 1)
      ∧ id_mapping_of 1 5 3 !! 1 = Some 5.
Proof.
  split.
  - intros m u pt. rewrite !remap_unit_fields_relocate. by split.
  - exists (relocate_unit (id_mapping_of 1 5 3) (ex_barracks 1)).
    split; [|by vm_compute].
    rewrite (remap_in_place 1%nat (id_mapping_of 1 5 3) ex_state
               (ex_barracks 1)) by done.
    f_equal.
Qed.

(** C2.  After an implant of [K] units at target start [T], and again
    after the finalisation pass over a set of slots, every unit stored at a
    target slot in [[T, T+K)] has its [id] equal to the slot index, in
    every civilisation. *)
Theorem implant_aligns_self_ids source_data S e c T warn copy_extra s
    m indices :
  0 ≤ S → 0 ≤ T →
  allocated (objs s) source_data → allocated (objs s) (target_data s) →
  ¬ range_error (n_unit_slots source_data) S e c →
  (∀ i, i ∈ indices → 0 ≤ i) →
  let K := selected_count (n_unit_slots source_data) S e c in
  ∃ s1 r s2,
    implant_units_from_dat source_data S e c T warn copy_extra s
    = Returned K s1
    ∧ finalize_unit_id_migration m indices s1 = Returned r s2
    ∧ ∀ civ j l u, T ≤ j < T + K →
        (unit_at (target_data s1) civ j = Some l → objs s1 !! l = Some u →
         Unit.id u = j)
        ∧ (unit_at (target_data s2) civ j = Some l → objs s2 !! l = Some u →
           Unit.id u = j).
Proof.
  intros HS HT Hsrc Htgt Hrange Hpos K.
  destruct (implant_units_run source_data S e c T warn copy_extra s HS HT
              Hsrc Hrange) as (O & s1 & Hrun & _ & Hinv).
  fold K in Hrun, Hinv.
  match type of Hinv with implant_inv _ _ _ _ _ ?x _ _ _ =>
    set (s0 := x) in * end.
  assert (allocated (objs s0) (target_data s0)) as Halloc0.
  { apply allocated_iff. intros c0 j l. simpl. rewrite unit_at_extended.
    by apply allocated_unit_at. }
  assert (len (DatFile.civs (target_data s))
          = len (DatFile.civs (target_data s0))) as Hn.
  { simpl. by rewrite len_fmap. }
  pose proof (post_allocated _ _ _ _ _ _ _ _ Hn Hinv Halloc0) as Halloc1.
  destruct (fix_self_ids_run indices s1 Hpos Halloc1)
    as (n_id & sf & Hfix & Hfinv & _).
  assert (allocated (objs sf) (target_data sf)) as Hallocf.
  { destruct Hfinv as [Ht _ Hl _]. simpl in Ht, Hl. rewrite Ht.
    eapply allocated_mono; [|exact Halloc1]. lia. }
  destruct (remap_global_run m sf Hallocf) as (n_refs & s2 & Hglob & Hrinv & _).
  exists s1, (n_id, n_refs), s2. split; [done|]. split.
  { unfold finalize_unit_id_migration.
    erewrite bind_returned by exact Hfix.
    erewrite bind_returned by exact Hglob. done. }
  intros civ j l u Hj.
  assert (∀ u1, unit_at (target_data s1) civ j = Some l →
                objs s1 !! l = Some u1 → Unit.id u1 = j) as H1.
  { intros u1 Hat Hl.
    destruct (post_clone _ _ _ _ _ _ _ _ Hn Hinv civ j l Halloc0 Hj Hat)
      as (_ & _ & u' & Hu' & Hid). by simplify_eq. }
  split; [apply H1|].
  intros Hat2 Hl2.
  destruct Hfinv as [Htf _ Hlenf Hobjsf]. simpl in Htf, Hlenf, Hobjsf.
  destruct Hrinv as [Htr _ Hlenr Hobjsr _]. simpl in Htr, Hlenr, Hobjsr.
  rewrite Htr, Htf in Hat2.
  destruct (post_clone _ _ _ _ _ _ _ _ Hn Hinv civ j l Halloc0 Hj Hat2)
    as (_ & [_ Hsole] & u1 & Hu1 & Hid1).
  destruct (Hobjsf l u1 Hu1) as (uf & Huf & Hcase).
  destruct (Hobjsr l uf Huf) as (k & Hk & _).
  rewrite Hk in Hl2. simplify_eq. rewrite iter_relocate_id.
  destruct Hcase as [->|(c2 & j2 & _ & Hat3 & ->)]; [done|].
  by destruct (Hsole _ _ Hat3) as [_ ->].
Qed.

Ltac solve_allocated := unfold allocated; repeat (constructor; simpl; try lia).

Ltac solve_no_range_error :=
  unfold range_error, selected_count, n_unit_slots, len; simpl;
  intros [?|[(? & ? & ? & ?)|?]]; simplify_eq; lia.

Lemma implant_aligns_self_ids_witness :
  ∃ s1 r s2,
    implant_units_from_dat ex_source 1 None (Some 2) 2 true true ex_state
    = Returned (selected_count (n_unit_slots ex_source) 1 None (Some 2)) s1
    ∧ finalize_unit_id_migration (id_mapping_of 1 2 2) {[2; 3]} s1
      = Returned r s2
    ∧ ∀ civ j l u,
        2 ≤ j < 2 + selected_count (n_unit_slots ex_source) 1 None (Some 2) →
        (unit_at (target_data s1) civ j = Some l → objs s1 !! l = Some u →
         Unit.id u = j)
        ∧ (unit_at (target_data s2) civ j = Some l → objs s2 !! l = Some u →
           Unit.id u = j).
Proof.
  apply (implant_aligns_self_ids ex_source 1 None (Some 2) 2 true true
           ex_state (id_mapping_of 1 2 2) {[2; 3]}).
  - lia.
  - lia.
  - solve_allocated.
  - solve_allocated.
  - solve_no_range_error.
  - intros i. rewrite elem_of_union, !elem_of_singleton. lia.
Defined.

(** C3.  A record outside the footprint of an implant, held by its slot
    alone, with a reference field whose value [v] lies in the relocated
    source range [[S, S+K)]: after the implant and its scoped rewrite the
    record is as it was, so the field still holds [v]; after the global
    pass with a map that extends the relocation map of the implant the
    field holds [v + (T - S)].  The reference fields are those that the
    rewrite walks: the projectile's unit is one of them only on an object
    that has the attribute [projectile_unit_id], and [type_50] is never
    touched. *)
Theorem global_pass_rewrites_outside_record source_data S e c T warn
    copy_extra s civ j l u :
  0 ≤ S → 0 ≤ T →
  allocated (objs s) source_data → allocated (objs s) (target_data s) →
  ¬ range_error (n_unit_slots source_data) S e c →
  let K := selected_count (n_unit_slots source_data) S e c in
  ¬ T ≤ j < T + K →
  sole_owner (target_data s) civ j l → objs s !! l = Some u →
  ∃ s1,
    implant_units_from_dat source_data S e c T warn copy_extra s
    = Returned K s1
    ∧ unit_at (target_data s1) civ j = Some l
    ∧ objs s1 !! l = Some u
    ∧ ∀ m, id_mapping_of S T K ⊆ m →
        ∃ total s2 u2,
          remap_unit_copy_base_ids_global m s1 = Returned total s2
          ∧ unit_at (target_data s2) civ j = Some l
          ∧ objs s2 !! l = Some u2
          ∧ unit_rewritten m u u2
          ∧ ∀ path v, (path, v) ∈ unit_id_refs u → S ≤ v < S + K →
              (path, v + (T - S)) ∈ unit_id_refs u2.
Proof.
  intros HS HT Hsrc Htgt Hrange K Hj Hsole Hl.
  destruct (implant_units_run source_data S e c T warn copy_extra s HS HT
              Hsrc Hrange) as (O & s1 & Hrun & _ & Hinv).
  fold K in Hrun, Hinv.
  match type of Hinv with implant_inv _ _ _ _ _ ?x _ _ _ =>
    set (s0 := x) in * end.
  assert (allocated (objs s0) (target_data s0)) as Halloc0.
  { apply allocated_iff. intros c0 j0 l0. simpl. rewrite unit_at_extended.
    by apply allocated_unit_at. }
  assert (len (DatFile.civs (target_data s))
          = len (DatFile.civs (target_data s0))) as Hn.
  { simpl. by rewrite len_fmap. }
  assert (sole_owner (target_data s0) civ j l) as Hsole0.
  { destruct Hsole as [Hat Hs]. split; simpl.
    - by rewrite unit_at_extended.
    - intros c' j'. rewrite unit_at_extended. apply Hs. }
  pose proof (post_allocated _ _ _ _ _ _ _ _ Hn Hinv Halloc0) as Halloc1.
  pose proof (post_sole_owner _ _ _ _ _ _ _ _ Hn Hinv civ j l Halloc0 Hj Hsole0)
    as Hsole1.
  assert (objs s1 !! l = Some u) as Hl1.
  { eapply prefix_lookup_Some; [exact Hl|].
    apply (inv_objs _ _ _ _ _ _ _ _ _ Hinv). }
  exists s1. split; [done|]. split; [apply Hsole1|]. split; [done|].
  intros m Hm.
  destruct (remap_global_run m s1 Halloc1) as (total & s2 & Hglob & Hrinv & _).
  exists total, s2, (relocate_unit m u). split; [done|].
  split; [|split; [|split]].
  - pose proof (rinv_target _ _ _ _ _ Hrinv) as Ht. simpl in Ht.
    rewrite Ht. apply Hsole1.
  - by eapply remap_global_sole.
  - apply relocate_unit_rewritten.
  - intros path v Hin Hv. rewrite unit_id_refs_relocate.
    apply list_elem_of_fmap. exists (path, v). split; [|done].
    unfold prod_map; simpl. f_equal.
    unfold relocate.
    assert (m !! v = Some (v + (T - S))) as ->; [|done].
    eapply lookup_weaken; [|exact Hm].
    rewrite lookup_id_mapping_of. by rewrite bool_decide_eq_true_2.
Qed.

Lemma global_pass_rewrites_outside_record_witness :
  ∃ s1,
    implant_units_from_dat ex_source 1 None (Some 2) 2 true true ex_state
    = Returned (selected_count (n_unit_slots ex_source) 1 None (Some 2)) s1
    ∧ unit_at (target_data s1) 0 0 = Some 6%nat
    ∧ objs s1 !! 6%nat = Some (ex_unit 0 1)
    ∧ ∀ m,
        id_mapping_of 1 2
          (selected_count (n_unit_slots ex_source) 1 None (Some 2)) ⊆ m →
        ∃ total s2 u2,
          remap_unit_copy_base_ids_global m s1 = Returned total s2
          ∧ unit_at (target_data s2) 0 0 = Some 6%nat
          ∧ objs s2 !! 6%nat = Some u2
          ∧ unit_rewritten m (ex_unit 0 1) u2
          ∧ ∀ path v, (path, v) ∈ unit_id_refs (ex_unit 0 1) →
              1 ≤ v < 1 + selected_count (n_unit_slots ex_source) 1 None
                            (Some 2) →
              (path, v + (2 - 1)) ∈ unit_id_refs u2.
Proof.
  apply (global_pass_rewrites_outside_record ex_source 1 None (Some 2) 2
           true true ex_state 0 0 6%nat (ex_unit 0 1)).
  - lia.
  - lia.
  - solve_allocated.
  - solve_allocated.
  - solve_no_range_error.
  - unfold selected_count, n_unit_slots, len; simpl. lia.
  - split; [reflexivity|].
    intros c' i' Hat. pose proof (unit_at_nonneg _ _ _ _ Hat) as [Hc Hi].
    unfold unit_at, slot in Hat.
    rewrite !bool_decide_eq_true_2 in Hat by done.
    destruct (Z.to_nat c') as [|[|[|?]]] eqn:Hc';
      destruct (Z.to_nat i') as [|[|?]] eqn:Hi'; simpl in Hat;
      try discriminate Hat.
    lia.
  - reflexivity.
Defined.

(** C4.  An implant with target start [T] and count [K] leaves every
    target slot that existed outside [[T, T+K)] as it was, in the unit
    headers and in the units of every civilisation, keeps the
    civilisations, techs and effects, and modifies no object that existed
    before it: the records of the source, and those the target holds
    outside the footprint, keep their contents. *)
Theorem implant_stays_in_footprint source_data S e c T warn copy_extra s :
  0 ≤ S → 0 ≤ T →
  allocated (objs s) source_data →
  ¬ range_error (n_unit_slots source_data) S e c →
  let K := selected_count (n_unit_slots source_data) S e c in
  ∃ s1,
    implant_units_from_dat source_data S e c T warn copy_extra s
    = Returned K s1
    ∧ (∀ j h, ¬ T ≤ j < T + K →
         slot (DatFile.unit_headers (target_data s)) j = Some h →
         slot (DatFile.unit_headers (target_data s1)) j = Some h)
    ∧ len (DatFile.civs (target_data s1)) = len (DatFile.civs (target_data s))
    ∧ (∀ i civ, slot (DatFile.civs (target_data s)) i = Some civ →
         ∃ civ1, slot (DatFile.civs (target_data s1)) i = Some civ1
           ∧ Civ.name civ1 = Civ.name civ
           ∧ ∀ j o, ¬ T ≤ j < T + K →
               slot (Civ.units civ) j = Some o →
               slot (Civ.units civ1) j = Some o)
    ∧ DatFile.techs (target_data s1) = DatFile.techs (target_data s)
    ∧ DatFile.effects (target_data s1) = DatFile.effects (target_data s)
    ∧ (∀ l u, objs s !! l = Some u → objs s1 !! l = Some u)
    ∧ (∀ i j l u, unit_at source_data i j = Some l →
         objs s !! l = Some u → objs s1 !! l = Some u).
Proof.
  intros HS HT Hsrc Hrange K.
  destruct (implant_units_run source_data S e c T warn copy_extra s HS HT
              Hsrc Hrange) as (O & s1 & Hrun & _ & Hinv).
  fold K in Hrun, Hinv.
  match type of Hinv with implant_inv _ _ _ _ _ ?x _ _ _ =>
    set (s0 := x) in * end.
  assert (∀ l u, objs s !! l = Some u → objs s1 !! l = Some u) as Hobjs.
  { intros l u Hl. eapply prefix_lookup_Some; [exact Hl|].
    apply (inv_objs _ _ _ _ _ _ _ _ _ Hinv). }
  pose proof (inv_shape _ _ _ _ _ _ _ _ _ Hinv) as Hshape.
  exists s1. split; [done|]. repeat split.
  - intros j h Hj Hh.
    rewrite (inv_hframe _ _ _ _ _ _ _ _ _ Hinv) by lia. simpl.
    rewrite slot_ensure_length.
    by rewrite bool_decide_eq_true_2 by (apply slot_Some_lt in Hh; lia).
  - rewrite (civ_shape_len _ _ Hshape). simpl. by rewrite len_fmap.
  - intros i civ Hciv.
    assert (slot (DatFile.civs (target_data s0)) i
            = Some (Civ.set_units
                      (_ensure_length (Civ.units civ) (T + K) None) civ))
      as Hciv0.
    { simpl. by rewrite slot_fmap, Hciv. }
    destruct (civ_shape_slot _ _ _ _ Hshape Hciv0) as (civ1 & Hciv1 & Hname & Hlen).
    exists civ1. split; [done|]. split; [done|].
    intros j o Hj Ho. pose proof (slot_Some_lt _ _ _ Ho) as Hjlt.
    simpl in Hlen. rewrite len_ensure_length in Hlen.
    destruct (slot_is_Some (Civ.units civ1) j) as [o1 Ho1]; [lia|].
    rewrite Ho1. f_equal.
    pose proof (inv_frame _ _ _ _ _ _ _ _ _ Hinv i j) as Hframe.
    simpl in Hframe. rewrite unit_at_extended in Hframe.
    unfold unit_at in Hframe. rewrite Hciv1, Hciv in Hframe. simpl in Hframe.
    rewrite Ho1, Ho in Hframe. simpl in Hframe. apply Hframe. lia.
  - by rewrite (inv_techs _ _ _ _ _ _ _ _ _ Hinv).
  - by rewrite (inv_effects _ _ _ _ _ _ _ _ _ Hinv).
  - done.
  - intros i j l u _. apply Hobjs.
Qed.

Lemma implant_stays_in_footprint_witness :
  ∃ s1,
    implant_units_from_dat ex_source 1 None (Some 2) 2 true true ex_state
    = Returned (selected_count (n_unit_slots ex_source) 1 None (Some 2)) s1
    ∧ (∀ j h,
         ¬ 2 ≤ j < 2 + selected_count (n_unit_slots ex_source) 1 None (Some 2) →
         slot (DatFile.unit_headers (target_data ex_state)) j = Some h →
         slot (DatFile.unit_headers (target_data s1)) j = Some h)
    ∧ len (DatFile.civs (target_data s1))
      = len (DatFile.civs (target_data ex_state))
    ∧ (∀ i civ, slot (DatFile.civs (target_data ex_state)) i = Some civ →
         ∃ civ1, slot (DatFile.civs (target_data s1)) i = Some civ1
           ∧ Civ.name civ1 = Civ.name civ
           ∧ ∀ j o,
               ¬ 2 ≤ j < 2 + selected_count (n_unit_slots ex_source) 1 None
                               (Some 2) →
               slot (Civ.units civ) j = Some o →
               slot (Civ.units civ1) j = Some o)
    ∧ DatFile.techs (target_data s1) = DatFile.techs (target_data ex_state)
    ∧ DatFile.effects (target_data s1) = DatFile.effects (target_data ex_state)
    ∧ (∀ l u, objs ex_state !! l = Some u → objs s1 !! l = Some u)
    ∧ (∀ i j l u, unit_at ex_source i j = Some l →
         objs ex_state !! l = Some u → objs s1 !! l = Some u).
Proof.
  apply (implant_stays_in_footprint ex_source 1 None (Some 2) 2 true true
           ex_state).
  - lia.
  - lia.
  - solve_allocated.
  - solve_no_range_error.
Defined.

(** C5, as the code has it.  For slot ids that are not negative, the unit
    implant either raises or returns.  It raises only [ValueError], with the
    state as it found it, and it does so exactly when [source_start] is at
    or beyond the source length, when no [count] is given and [source_end]
    is below [source_start] or at or beyond the source length, or when the
    resulting count is not positive; otherwise it returns the count. *)
Theorem implant_units_range_errors source_data S e c T warn copy_extra s :
  0 ≤ S → 0 ≤ T → allocated (objs s) source_data →
  let n := n_unit_slots source_data in
  match implant_units_from_dat source_data S e c T warn copy_extra s with
  | Raised ex s1 => ex = ValueError ∧ s1 = s ∧ range_error n S e c
  | Returned k s1 => k = selected_count n S e c ∧ ¬ range_error n S e c
  end.
Proof.
  intros HS HT Hsrc n.
  destruct (range_error_dec n S e c) as [Herr|Hrange].
  - unfold implant_units_from_dat.
    by erewrite bind_raised by (by apply implant_range_raises).
  - destruct (implant_units_run source_data S e c T warn copy_extra s HS HT
                Hsrc Hrange) as (O & s1 & Hrun & _).
    by rewrite Hrun.
Qed.

Lemma implant_units_range_errors_witness :
  match implant_units_from_dat ex_source 1 (Some 0) None 2 true true ex_state
  with
  | Raised ex s1 =>
      ex = ValueError ∧ s1 = ex_state
      ∧ range_error (n_unit_slots ex_source) 1 (Some 0) None
  | Returned k s1 =>
      k = selected_count (n_unit_slots ex_source) 1 (Some 0) None
      ∧ ¬ range_error (n_unit_slots ex_source) 1 (Some 0) None
  end.
Proof.
  apply (implant_units_range_errors ex_source 1 (Some 0) None 2 true true
           ex_state).
  - lia.
  - lia.
  - solve_allocated.
Defined.

(** C5 as stated fails: with [source_end] below [source_start] and a
    [count], the implant does not raise; it returns the count. *)
Lemma implant_units_end_before_start_returns :
  range_error_ignoring_precedence (n_unit_slots ex_source) 1 (Some 0) (Some 1)
  ∧ ∃ s1,
      implant_units_from_dat ex_source 1 (Some 0) (Some 1) 2 true true ex_state
      = Returned 1 s1.
Proof.
  split.
  - right. left. exists 0. split; [done|]. left. lia.
  - eexists. vm_compute. reflexivity.
Qed.

(** C6.  When [count] is given it decides the length of the range
    whatever [source_end] says, and the implant returns
    [min(count, source_length - source_start)]: a count beyond what the
    source holds is clamped. *)
Theorem count_wins_and_is_clamped source_data S e count T warn copy_extra s :
  0 ≤ S < n_unit_slots source_data → 0 ≤ T → 0 < count →
  allocated (objs s) source_data →
  (∃ s1,
     implant_units_from_dat source_data S e (Some count) T warn copy_extra s
     = Returned (Z.min count (n_unit_slots source_data - S)) s1)
  ∧ implant_units_from_dat source_data S e (Some count) T warn copy_extra s
    = implant_units_from_dat source_data S None (Some count) T warn
        copy_extra s.
Proof.
  intros HS HT Hc Hsrc. split; [|done].
  destruct (implant_units_run source_data S e (Some count) T warn copy_extra s)
    as (O & s1 & Hrun & _); try done; try lia.
  - unfold range_error. simpl. intros [?|[[? _]|?]]; [lia|done|lia].
  - exists s1. exact Hrun.
Qed.

Lemma count_wins_and_is_clamped_witness :
  (∃ s1,
     implant_units_from_dat ex_source 1 (Some 0) (Some 9) 2 true true ex_state
     = Returned (Z.min 9 (n_unit_slots ex_source - 1)) s1)
  ∧ implant_units_from_dat ex_source 1 (Some 0) (Some 9) 2 true true ex_state
    = implant_units_from_dat ex_source 1 None (Some 9) 2 true true ex_state.
Proof.
  apply (count_wins_and_is_clamped ex_source 1 (Some 0) 9 2 true true ex_state).
  - unfold n_unit_slots, len; simpl. lia.
  - lia.
  - lia.
  - solve_allocated.
Defined.

(** ** Idempotence of the global rewrite *)

Lemma relocate_settles m u :
  (∀ k v, m !! k = Some v → m !! v = None) →
  relocate_unit m (relocate_unit m u) = relocate_unit m u
  ∧ hits_unit m (relocate_unit m u) = 0.
Proof.
  intros Hdisj. apply relocate_unit_id.
  rewrite unit_id_refs_relocate, <- list_fmap_compose.
  apply Forall_fmap, Forall_forall. intros [path v] _. simpl.
  unfold relocate. destruct (m !! v) as [w|] eqn:Hv; simpl; [|done].
  by eapply Hdisj.
Qed.

(** C10.  When no mapped value of the relocation map is itself a key, the
    global rewrite is idempotent: run a second time with the same map on
    the store the first run left, it changes nothing, prints nothing and
    reports 0 rewritten references. *)
Theorem global_rewrite_idempotent m s :
  (∀ k v, m !! k = Some v → m !! v = None) →
  allocated (objs s) (target_data s) →
  ∃ total s1,
    remap_unit_copy_base_ids_global m s = Returned total s1
    ∧ remap_unit_copy_base_ids_global m s1 = Returned 0 s1.
Proof.
  intros Hdisj Halloc.
  destruct (remap_global_run m s Halloc) as (total & s1 & Hrun & Hinv & Hout).
  exists total, s1. split; [done|].
  destruct Hinv as [Ht _ Hlen Hobjs _]. simpl in Ht, Hlen, Hobjs.
  assert (allocated (objs s1) (target_data s1)) as Halloc1.
  { rewrite Ht. eapply allocated_mono; [|exact Halloc]. lia. }
  assert (settled m s1) as Hsettled.
  { intros c j l u1 Hat Hl1. rewrite Ht in Hat.
    pose proof (allocated_unit_at _ _ _ _ _ Halloc Hat) as Hlt.
    destruct (lookup_lt_is_Some_2 _ _ Hlt) as [u Hu].
    destruct (Hobjs l u Hu) as (k & Hk & H1 & _).
    pose proof (H1 c j (unit_at_nonneg _ _ _ _ Hat) Hat) as Hk1.
    destruct k as [|k]; [lia|]. simpl in Hk.
    rewrite Hk in Hl1. simplify_eq. by apply relocate_settles. }
  destruct (remap_global_run m s1 Halloc1)
    as (total2 & s2 & Hrun2 & Hinv2 & Hout2).
  destruct Hinv2 as [Ht2 _ _ _ Hset2]. simpl in Ht2, Hset2.
  destruct (Hset2 Hsettled) as [-> Heq].
  rewrite Hrun2. f_equal.
  rewrite bool_decide_eq_false_2 in Hout2 by (by intros ?).
  rewrite app_nil_r in Hout2.
  destruct s1, s2; simpl in *. by subst.
Qed.

Lemma global_rewrite_idempotent_witness :
  ∃ total s1,
    remap_unit_copy_base_ids_global (id_mapping_of 1 5 3) ex_state
    = Returned total s1
    ∧ remap_unit_copy_base_ids_global (id_mapping_of 1 5 3) s1
      = Returned 0 s1.
Proof.
  apply (global_rewrite_idempotent (id_mapping_of 1 5 3) ex_state).
  - intros k v. rewrite !lookup_id_mapping_of.
    case_bool_decide; [|done]. intros [= <-].
    by rewrite bool_decide_eq_false_2 by lia.
  - solve_allocated.
Defined.

(** ** The paths of the reference fields *)










(** ** The coherence check *)

(** A loop whose iterations only append to the accumulator. *)
Lemma for_fold_append {A B} (l : list A) (f : A → list B)
    (body : A → list B → M (list B)) acc s :
  (∀ x acc, x ∈ l → body x acc s = Returned (acc ++ f x) s) →
  for_fold l body acc s = Returned (acc ++ (l ≫= f)) s.
Proof.
  revert acc. induction l as [|x l IH]; intros acc Hbody; simpl.
  - by rewrite app_nil_r.
  - erewrite bind_returned by (apply Hbody; left).
    rewrite IH by (intros; apply Hbody; by right).
    by rewrite <- app_assoc.
Qed.

Lemma elem_of_enumerate {A} (l : list A) i x :
  (i, x) ∈ enumerate l ↔ slot l i = Some x.
Proof.
  unfold enumerate, range. rewrite elem_of_lookup_zip_with. split.
  - intros (k & i' & x' & [= <- <-] & [-> Hk]%lookup_seqZ & Hx).
    rewrite slot_lookup by lia. by rewrite Z.add_0_l, Nat2Z.id.
  - intros Hx. pose proof (slot_Some_lt _ _ _ Hx) as Hi.
    rewrite slot_lookup in Hx by lia.
    exists (Z.to_nat i), i, x. split; [done|]. split; [|done].
    apply lookup_seqZ. lia.
Qed.


Lemma check_refs_loop (stale : gset Z) ui civ_idx refs issues s :
  for_fold refs (λ '(path, val) (issues : list issue),
    if bool_decide (val ∈ stale)
    then mret (issues ++ [stale_ref_issue ui civ_idx path val])
    else mret issues) issues s
  = Returned
      (issues ++ ((λ pv, stale_ref_issue ui civ_idx pv.1 pv.2)
                    <$> filter (λ pv, pv.2 ∈ stale) refs)) s.
Proof.
  revert issues. induction refs as [|[path val] refs IH]; intros issues; simpl.
  - by rewrite app_nil_r.
  - rewrite filter_cons. simpl.
    destruct (decide (val ∈ stale)) as [Hin|Hout].
    + rewrite bool_decide_eq_true_2 by done.
      erewrite bind_returned by reflexivity.
      rewrite IH. simpl. by rewrite <- app_assoc.
    + rewrite bool_decide_eq_false_2 by done.
      erewrite bind_returned by reflexivity. by rewrite IH.
Qed.

Lemma check_run (indices stale : gset Z) s :
  (∀ i, i ∈ indices → 0 ≤ i) →
  allocated (objs s) (target_data s) →
  check_unit_id_coherence indices stale s
  = Returned
      (enumerate (DatFile.civs (target_data s)) ≫= λ '(civ_idx, _),
         elements indices ≫= λ ui,
           from_option (slot_issues stale ui civ_idx) []
             (slot_record s civ_idx ui)) s.
Proof.
  intros Hpos Halloc. unfold check_unit_id_coherence.
  erewrite bind_returned by reflexivity. cbv beta.
  rewrite (for_fold_append _
    (λ '(civ_idx, _), elements indices ≫= λ ui,
       from_option (slot_issues stale ui civ_idx) []
         (slot_record s civ_idx ui))); [done|].
  intros [civ_idx civ] acc Hciv%elem_of_enumerate.
  apply for_fold_append. intros ui acc' Hui%elem_of_elements.
  pose proof (Hpos _ Hui) as Hui0.
  unfold slot_record, unit_at. rewrite Hciv. simpl.
  destruct (decide (ui >= len (Civ.units civ))) as [Hge|Hlt].
  { rewrite bool_decide_eq_true_2 by done.
    rewrite slot_ge by lia. simpl. by rewrite app_nil_r. }
  rewrite bool_decide_eq_false_2 by done.
  destruct (slot_is_Some (Civ.units civ) ui) as [o Ho]; [lia|].
  erewrite bind_returned by (by apply getitem_slot).
  rewrite Ho. simpl. destruct o as [l|]; simpl.
  2:{ by rewrite app_nil_r. }
  assert (unit_at (target_data s) civ_idx ui = Some l) as Hat.
  { unfold unit_at. rewrite Hciv. simpl. by rewrite Ho. }
  pose proof (allocated_unit_at _ _ _ _ _ Halloc Hat) as Hl.
  destruct (lookup_lt_is_Some_2 _ _ Hl) as [u Hu]. rewrite Hu. simpl.
  erewrite bind_returned by (by apply load_lookup).
  erewrite bind_returned; cycle 1.
  { unfold _iter_unit_id_refs_for_check.
    erewrite bind_returned by (by apply load_lookup). reflexivity. }
  rewrite check_refs_loop. unfold slot_issues.
  case_bool_decide; by rewrite <- ?app_assoc.
Qed.






(** ** [implant_techs_from_dat] *)

Lemma for_print {A} (l : list A) (f : A → line) s :
  for_ l (λ x, print (f x)) s
  = Returned tt (set_stdout (stdout s ++ (f <$> l)) s).
Proof.
  unfold for_. revert s. induction l as [|x l IH]; intros s; simpl.
  - unfold set_stdout. rewrite app_nil_r. by destruct s.
  - erewrite bind_returned by reflexivity. rewrite IH. simpl.
    unfold set_stdout; simpl. by rewrite <- app_assoc.
Qed.

Lemma for_print_ext {A} (l : list A) (body : A → M unit) (f : A → line) s :
  (∀ x, body x = print (f x)) →
  for_ l body s = Returned tt (set_stdout (stdout s ++ (f <$> l)) s).
Proof.
  intros H. rewrite <- for_print. unfold for_. revert s.
  induction l as [|x l IH]; intros s; simpl; [done|].
  rewrite H. unfold mbind, M_bind.
  destruct (print (f x) s) as [[] s'|]; [apply IH|done].
Qed.

Lemma foldl_max_spec x l :
  let M := foldl Z.max x l in
  M ∈ x :: l ∧ ∀ y, y ∈ x :: l → y ≤ M.
Proof.
  revert x. induction l as [|z l IH]; intros x; simpl.
  - split; [left|]. intros y ?%list_elem_of_singleton. lia.
  - destruct (IH (Z.max x z)) as [Hin Hle]. split.
    + apply elem_of_cons in Hin as [->|Hin].
      * destruct (Z.max_spec x z) as [[_ ->]|[_ ->]];
          [right; left|left].
      * right. by right.
    + intros y Hy. apply elem_of_cons in Hy as [Hy|Hy].
      { subst y. specialize (Hle (Z.max x z)). etrans; [|apply Hle; left]. lia. }
      apply elem_of_cons in Hy as [Hy|Hy].
      { subst y. specialize (Hle (Z.max x z)). etrans; [|apply Hle; left]. lia. }
      apply Hle. by right.
Qed.

Lemma py_max_spec l s :
  l ≠ [] →
  ∃ M, py_max l s = Returned M s ∧ M ∈ l ∧ ∀ y, y ∈ l → y ≤ M.
Proof.
  destruct l as [|x l]; [done|]. intros _. eexists. split; [reflexivity|].
  apply foldl_max_spec.
Qed.

Lemma elem_of_migrated_effect_ids source_data S K j :
  j ∈ migrated_effect_ids source_data S K
  ↔ ∃ i tech, 0 ≤ i < K ∧ slot (DatFile.techs source_data) (S + i) = Some tech
              ∧ Tech.effect_id tech = j.
Proof.
  unfold migrated_effect_ids. rewrite elem_of_list_to_set, list_elem_of_omap.
  split.
  - intros (i & Hi%elem_of_seqZ & Hj).
    destruct (slot (DatFile.techs source_data) (S + i)) as [tech|] eqn:Ht;
      [|done].
    simpl in Hj. exists i, tech. split; [lia|]. split; [done|]. congruence.
  - intros (i & tech & Hi & Ht & Hj). exists i. split.
    + apply elem_of_seqZ. lia.
    + rewrite Ht. simpl. by rewrite Hj.
Qed.

Ltac if_ext :=
  match goal with
  | |- (if bool_decide ?P then _ else _) = (if bool_decide ?Q then _ else _) =>
      rewrite (bool_decide_ext P Q); [done|]
  end.

Section tech_loops.
Context (source_data : DatFile.t) (S T K : Z).
Context (HS : 0 ≤ S) (HT : 0 ≤ T).
Context (HSK : S + K ≤ len (DatFile.techs source_data)).

Local Abbreviation D := (T - S).
Local Abbreviation E := (migrated_effect_ids source_data S K).

Context (Hvalid : ∀ eid, eid ∈ E →
           0 ≤ eid < len (DatFile.effects source_data) ∧ 0 ≤ eid + D).

Lemma migrated_effect_ids_snoc x :
  0 ≤ x → ∀ tech, slot (DatFile.techs source_data) (S + x) = Some tech →
  {[Tech.effect_id tech]} ∪ migrated_effect_ids source_data S x
  = migrated_effect_ids source_data S (x + 1).
Proof.
  intros Hx tech Ht. apply set_eq. intros j.
  rewrite elem_of_union, elem_of_singleton, !elem_of_migrated_effect_ids.
  split.
  - intros [->|(i & t & Hi & Hs & Hj)].
    + exists x, tech. split; [lia|done].
    + exists i, t. split; [lia|done].
  - intros (i & t & Hi & Hs & Hj).
    destruct (decide (i = x)) as [->|Hne].
    + left. by simplify_eq.
    + right. exists i, t. split; [lia|done].
Qed.

Lemma migrated_effect_ids_mono x j :
  x ≤ K → j ∈ migrated_effect_ids source_data S x → j ∈ E.
Proof.
  rewrite !elem_of_migrated_effect_ids.
  intros Hx (i & t & Hi & Hs & Hj). exists i, t. split; [lia|done].
Qed.

(** The first loop: the effects the migrated techs refer to. *)
Lemma collect_effect_ids s :
  0 ≤ K →
  for_fold (range K) (λ i (acc : gset Z),
    tech ← getitem (DatFile.techs source_data) (S + i);
    let eid := Tech.effect_id tech in
    if bool_decide (eid < 0)
       || bool_decide (eid >= len (DatFile.effects source_data))
    then raise ValueError
    else mret ({[eid]} ∪ acc)) ∅ s
  = Returned E s.
Proof.
  intros HK.
  match goal with |- for_fold _ ?body _ _ = _ =>
    destruct (for_fold_inv
      (λ done (acc : gset Z) s',
         s' = s ∧ acc = migrated_effect_ids source_data S (len done))
      (range K) body ∅ s) as (acc & s' & Hrun & -> & ->)
  end.
  - split; [done|]. apply set_eq. intros j.
    rewrite elem_of_migrated_effect_ids. unfold len; simpl.
    split; [set_solver|]. intros (i & _ & ? & _). lia.
  - intros done x rest acc s1 Hsplit [-> ->].
    apply range_split in Hsplit as (Hx & HxK & _).
    destruct (slot_is_Some (DatFile.techs source_data) (S + x)) as [tech Ht];
      [lia|].
    erewrite bind_returned by (by apply getitem_slot). cbv zeta.
    assert (Tech.effect_id tech ∈ E) as Hin.
    { apply elem_of_migrated_effect_ids. exists x, tech. by split; [lia|]. }
    destruct (Hvalid _ Hin) as [Hrange _].
    rewrite !bool_decide_eq_false_2 by lia. simpl.
    eexists _, s. split; [reflexivity|]. split; [done|].
    unfold len in Hx |- *. rewrite length_app; simpl.
    replace (Z.of_nat (length done + 1)) with (x + 1) by lia.
    rewrite <- Hx. by apply migrated_effect_ids_snoc; [lia|].
  - rewrite Hrun. f_equal. unfold range, len. rewrite length_seqZ.
    by rewrite Z2Nat.id.
Qed.

(** The loop that records what the effect slots hold. *)
Lemma collect_overwritten_effects s :
  (∀ eid, eid ∈ E → eid + D < len (DatFile.effects (target_data s))) →
  ∃ oe : gmap Z string,
    for_fold (elements E) (λ eid (acc : gmap Z string),
      let tgt_idx := eid + D in
      target ← gets target_data;
      e ← getitem (DatFile.effects target) tgt_idx;
      mret (<[tgt_idx := Effect.name e]> acc)) ∅ s
    = Returned oe s
    ∧ ∀ j, oe !! j
           = if bool_decide (j - D ∈ E)
             then Effect.name <$> slot (DatFile.effects (target_data s)) j
             else None.
Proof.
  intros Hlen.
  match goal with |- ∃ _, for_fold _ ?body _ _ = _ ∧ _ =>
    destruct (for_fold_inv
      (λ done (acc : gmap Z string) s',
         s' = s ∧ ∀ j, acc !! j
           = if bool_decide (j - D ∈ done)
             then Effect.name <$> slot (DatFile.effects (target_data s)) j
             else None)
      (elements E) body ∅ s) as (oe & s' & Hrun & -> & Hoe)
  end.
  - split; [done|]. intros j. rewrite lookup_empty.
    by rewrite bool_decide_eq_false_2 by (by intros ?%elem_of_nil).
  - intros done eid rest acc s1 Hsplit [-> Hacc].
    assert (eid ∈ E) as Hin.
    { apply elem_of_elements. rewrite Hsplit. set_solver. }
    destruct (Hvalid _ Hin) as [_ Hpos]. pose proof (Hlen _ Hin) as Hlt.
    destruct (slot_is_Some (DatFile.effects (target_data s)) (eid + D))
      as [e He]; [lia|].
    cbv zeta. erewrite bind_returned by reflexivity.
    erewrite bind_returned by (by apply getitem_slot).
    eexists _, s. split; [reflexivity|]. split; [done|].
    intros j. destruct (decide (j = eid + D)) as [->|Hne].
    + rewrite lookup_insert_eq.
      rewrite bool_decide_eq_true_2 by (replace (eid + D - D) with eid by lia;
                                        set_solver).
      by rewrite He.
    + rewrite lookup_insert_ne by done. rewrite Hacc.
      if_ext. rewrite elem_of_app, list_elem_of_singleton.
      split; [tauto|]. intros [?|?]; [done|lia].
  - exists oe. split; [done|]. intros j. rewrite Hoe.
    if_ext. apply elem_of_elements.
Qed.

(** The loop that records what the tech slots hold. *)
Lemma collect_overwritten_techs s :
  T + K ≤ len (DatFile.techs (target_data s)) →
  for_fold (range K) (λ i (acc : list (Z * string)),
    let tgt_idx := T + i in
    target ← gets target_data;
    t ← getitem (DatFile.techs target) tgt_idx;
    mret (acc ++ [(tgt_idx, Tech.name t)])) [] s
  = Returned
      (range K ≫= λ i,
         from_option (λ t, [(T + i, Tech.name t)]) []
           (slot (DatFile.techs (target_data s)) (T + i))) s.
Proof.
  intros Hlen. rewrite (for_fold_append _
    (λ i, from_option (λ t, [(T + i, Tech.name t)]) []
            (slot (DatFile.techs (target_data s)) (T + i)))); [done|].
  intros i acc Hi%elem_of_seqZ. cbv zeta.
  destruct (slot_is_Some (DatFile.techs (target_data s)) (T + i)) as [t Ht];
    [lia|].
  erewrite bind_returned by reflexivity.
  erewrite bind_returned by (by apply getitem_slot).
  by rewrite Ht.
Qed.

(** The loop that copies the effects. *)
Lemma copy_effects s :
  (∀ eid, eid ∈ E → eid + D < len (DatFile.effects (target_data s))) →
  ∃ effects,
    for_ (elements E) (λ eid,
      let tgt_idx := eid + D in
      e ← getitem (DatFile.effects source_data) eid;
      target ← gets target_data;
      effects ← setitem (DatFile.effects target) tgt_idx e;
      modify_target (DatFile.set_effects effects)) s
    = Returned tt (set_target_data (DatFile.set_effects effects (target_data s)) s)
    ∧ len effects = len (DatFile.effects (target_data s))
    ∧ ∀ j, slot effects j
           = if bool_decide (j - D ∈ E)
             then slot (DatFile.effects source_data) (j - D)
             else slot (DatFile.effects (target_data s)) j.
Proof.
  intros Hlen.
  match goal with |- ∃ _, for_ _ ?body _ = _ ∧ _ =>
    destruct (for_inv
      (λ done s',
         ∃ effects,
           s' = set_target_data (DatFile.set_effects effects (target_data s)) s
           ∧ len effects = len (DatFile.effects (target_data s))
           ∧ ∀ j, slot effects j
                  = if bool_decide (j - D ∈ done)
                    then slot (DatFile.effects source_data) (j - D)
                    else slot (DatFile.effects (target_data s)) j)
      (elements E) body s) as (s' & Hrun & effects & -> & Hl & Heff)
  end.
  - exists (DatFile.effects (target_data s)). split; [|split; [done|]].
    + by destruct s as [? [] ?].
    + intros j. by rewrite bool_decide_eq_false_2 by (by intros ?%elem_of_nil).
  - intros done eid rest s1 Hsplit (effects & -> & Hl & Heff).
    assert (eid ∈ E) as Hin.
    { apply elem_of_elements. rewrite Hsplit. set_solver. }
    destruct (Hvalid _ Hin) as [Hsrc Hpos]. pose proof (Hlen _ Hin) as Hlt.
    destruct (slot_is_Some (DatFile.effects source_data) eid) as [e He];
      [lia|].
    cbv zeta. erewrite bind_returned by (by apply getitem_slot).
    erewrite bind_returned by reflexivity.
    erewrite bind_returned by (apply setitem_slot; simpl; lia).
    eexists. split; [reflexivity|].
    exists (<[Z.to_nat (eid + D) := e]> effects).
    split; [done|]. split; [by rewrite len_insert|].
    intros j. rewrite slot_insert by lia.
    destruct (decide (j = eid + D)) as [->|Hne].
    + rewrite bool_decide_eq_true_2 by done.
      rewrite bool_decide_eq_true_2 by (replace (eid + D - D) with eid by lia;
                                        set_solver).
      by replace (eid + D - D) with eid by lia.
    + rewrite bool_decide_eq_false_2 by done. rewrite Heff.
      if_ext. rewrite elem_of_app, list_elem_of_singleton.
      split; [tauto|]. intros [?|?]; [done|lia].
  - exists effects. split; [done|]. split; [done|].
    intros j. rewrite Heff. if_ext. apply elem_of_elements.
Qed.

(** The loop that copies the techs. *)
Lemma copy_techs s :
  0 ≤ K → T + K ≤ len (DatFile.techs (target_data s)) →
  ∃ techs,
    for_ (range K) (λ i,
      let src_idx := S + i in
      let tgt_idx := T + i in
      tech ← getitem (DatFile.techs source_data) src_idx;
      let tech := Tech.set_effect_id (Tech.effect_id tech + D) tech in
      let req := Tech.required_techs tech in
      let new_req :=
        (λ r, if bool_decide (S ≤ r ≤ S + K - 1) then r + D else r) <$> req in
      let tech := Tech.set_required_techs new_req tech in
      target ← gets target_data;
      techs ← setitem (DatFile.techs target) tgt_idx tech;
      modify_target (DatFile.set_techs techs)) s
    = Returned tt (set_target_data (DatFile.set_techs techs (target_data s)) s)
    ∧ len techs = len (DatFile.techs (target_data s))
    ∧ ∀ j, slot techs j
           = if bool_decide (T ≤ j < T + K)
             then rewritten_tech S K D
                    <$> slot (DatFile.techs source_data) (S + (j - T))
             else slot (DatFile.techs (target_data s)) j.
Proof.
  intros HK Hlen.
  match goal with |- ∃ _, for_ _ ?body _ = _ ∧ _ =>
    destruct (for_inv
      (λ done s',
         ∃ techs,
           s' = set_target_data (DatFile.set_techs techs (target_data s)) s
           ∧ len techs = len (DatFile.techs (target_data s))
           ∧ ∀ j, slot techs j
                  = if bool_decide (T ≤ j < T + len done)
                    then rewritten_tech S K D
                           <$> slot (DatFile.techs source_data) (S + (j - T))
                    else slot (DatFile.techs (target_data s)) j)
      (range K) body s) as (s' & Hrun & techs & -> & Hl & Htechs)
  end.
  - exists (DatFile.techs (target_data s)). split; [|split; [done|]].
    + by destruct s as [? [] ?].
    + intros j. by rewrite bool_decide_eq_false_2 by (unfold len; simpl; lia).
  - intros done x rest s1 Hsplit (techs & -> & Hl & Htechs).
    apply range_split in Hsplit as (Hx & HxK & _).
    destruct (slot_is_Some (DatFile.techs source_data) (S + x)) as [tech Ht];
      [lia|].
    cbv zeta. erewrite bind_returned by (by apply getitem_slot).
    erewrite bind_returned by reflexivity.
    erewrite bind_returned by (apply setitem_slot; simpl; lia).
    eexists. split; [reflexivity|].
    eexists. split; [reflexivity|]. split; [by rewrite len_insert|].
    intros j. cbn [DatFile.techs target_data set_target_data DatFile.set_techs].
    rewrite slot_insert by lia.
    unfold len. rewrite length_app; simpl. unfold len in Hx.
    destruct (decide (j = T + x)) as [->|Hne].
    + rewrite bool_decide_eq_true_2 by done.
      rewrite bool_decide_eq_true_2 by lia.
      replace (S + (T + x - T)) with (S + x) by lia. by rewrite Ht.
    + rewrite bool_decide_eq_false_2 by done. rewrite Htechs.
      if_ext. unfold len. lia.
  - exists techs. split; [done|]. split; [done|].
    intros j. rewrite Htechs. if_ext.
    unfold range, len. rewrite length_seqZ. lia.
Qed.

End tech_loops.

Lemma bind_singleton_fmap {A B} (l : list A) (f : A → option B) (g : A → B) :
  (∀ x, x ∈ l → f x = Some (g x)) →
  l ≫= (λ x, from_option (λ y, [y]) [] (f x)) = g <$> l.
Proof.
  induction l as [|x l IH]; intros H; simpl; [done|].
  rewrite (H x) by left. simpl. f_equal. apply IH. intros. apply H. by right.
Qed.

Ltac same_elem x :=
  match goal with
  | |- ?y ∈ _ => replace y with x by lia
  end.

Lemma implant_techs_run source_data S e c T warn s pe pt :
  0 ≤ S → 0 ≤ T →
  ¬ range_error (len (DatFile.techs source_data)) S e c →
  let K := selected_count (len (DatFile.techs source_data)) S e c in
  let D := T - S in
  let E := migrated_effect_ids source_data S K in
  (∀ eid, eid ∈ E →
     0 ≤ eid < len (DatFile.effects source_data) ∧ 0 ≤ eid + D) →
  slot (DatFile.effects (target_data s)) 0 = Some pe →
  slot (DatFile.techs (target_data s)) 0 = Some pt →
  ∃ need effects techs pre,
    let effects_ext :=
      _ensure_length (DatFile.effects (target_data s)) need pe in
    let techs_ext :=
      _ensure_length (DatFile.techs (target_data s)) (T + K) pt in
    implant_techs_from_dat source_data S e c T warn s
    = Returned K
        (mkState (objs s)
           (DatFile.set_techs techs
              (DatFile.set_effects effects (target_data s)))
           (stdout s ++ pre
            ++ (if warn then
                  tech_notice
                    ((λ idx, (idx, default ""
                                     (Effect.name <$> slot effects_ext idx)))
                       <$> merge_sort Z.le
                             (elements (set_map (λ eid, eid + D) E : gset Z)))
                    ((λ i, (T + i, default ""
                                     (Tech.name <$> slot techs_ext (T + i))))
                       <$> range K)
                else [])))
    ∧ (∃ eid, eid ∈ E ∧ need = eid + D + 1)
    ∧ (∀ eid, eid ∈ E → eid + D < need)
    ∧ Forall (λ l, is_overwrite_line l = false) pre
    ∧ len effects = len effects_ext
    ∧ (∀ j, slot effects j
            = if bool_decide (j - D ∈ E)
              then slot (DatFile.effects source_data) (j - D)
              else slot effects_ext j)
    ∧ len techs = len techs_ext
    ∧ (∀ j, slot techs j
            = if bool_decide (T ≤ j < T + K)
              then rewritten_tech S K D
                     <$> slot (DatFile.techs source_data) (S + (j - T))
              else slot techs_ext j).
Proof.
  intros HS HT Hrange K D E Hvalid Hpe Hpt.
  destruct (implant_range_returns _ _ _ _ s Hrange) as (Hrun & HK & HSK).
  fold K in Hrun, HK, HSK.
  unfold implant_techs_from_dat.
  erewrite bind_returned by reflexivity.
  erewrite bind_returned by reflexivity.
  erewrite bind_returned by exact Hrun. cbv zeta.
  fold K D.
  erewrite bind_returned
    by (apply (collect_effect_ids source_data S T K);
        first [exact Hvalid|lia]).
  fold E.
  (* the highest destination index *)
  assert (∃ eid0, eid0 ∈ E) as [eid0 Heid0].
  { destruct (slot_is_Some (DatFile.techs source_data) (S + 0)) as [t Ht];
      [lia|].
    exists (Tech.effect_id t). apply elem_of_migrated_effect_ids.
    exists 0, t. split; [lia|done]. }
  destruct (py_max_spec ((λ eid, eid + D) <$> elements E) s)
    as (Mx & Hmax & HMin & HMle).
  { intros Hnil. apply fmap_nil_inv in Hnil.
    apply elem_of_elements in Heid0. rewrite Hnil in Heid0.
    by apply elem_of_nil in Heid0. }
  erewrite bind_returned by exact Hmax.
  apply list_elem_of_fmap in HMin as (eidM & -> & HeidM%elem_of_elements).
  assert (∀ eid, eid ∈ E → eid + D < eidM + D + 1) as Hbound.
  { intros eid Hin. cut (eid + D ≤ eidM + D); [lia|]. apply HMle.
    apply list_elem_of_fmap. exists eid. split; [done|].
    by apply elem_of_elements. }
  erewrite bind_returned; cycle 1.
  { erewrite bind_returned by reflexivity. by apply getitem_slot. }
  erewrite bind_returned; cycle 1.
  { erewrite bind_returned by reflexivity. by apply getitem_slot. }
  set (need := eidM + D + 1).
  set (pre :=
    (if bool_decide (need > len (DatFile.effects (target_data s)))
     then [NoteExtendEffects (len (DatFile.effects (target_data s))) need]
     else [])
    ++ (if bool_decide (T + K > len (DatFile.techs (target_data s)))
        then [NoteExtendTechs (len (DatFile.techs (target_data s))) (T + K)]
        else [])
    ++ [NoteTechRange S K T D]).
  set (effects_ext :=
    _ensure_length (DatFile.effects (target_data s)) need pe).
  set (techs_ext :=
    _ensure_length (DatFile.techs (target_data s)) (T + K) pt).
  set (s1 := mkState (objs s)
               (DatFile.set_techs techs_ext
                  (DatFile.set_effects effects_ext (target_data s)))
               (stdout s ++ pre)).
  assert (∀ k : unit → M Z,
    (when (bool_decide (need > len (DatFile.effects (target_data s))))
       (print (NoteExtendEffects (len (DatFile.effects (target_data s))) need))
     ≫= λ _, when (bool_decide (T + K > len (DatFile.techs (target_data s))))
       (print (NoteExtendTechs (len (DatFile.techs (target_data s))) (T + K)))
     ≫= λ _, print (NoteTechRange S K T D)
     ≫= λ _, modify_target (λ d,
               DatFile.set_effects
                 (_ensure_length (DatFile.effects d) need pe) d)
     ≫= λ _, modify_target (λ d,
               DatFile.set_techs
                 (_ensure_length (DatFile.techs d) (T + K) pt) d)
     ≫= k) s = k tt s1) as Hstraight.
  { intros k. unfold s1, pre, when, print, modify_target, modify, mbind, M_bind,
      mret, M_ret, set_stdout, set_target_data.
    do 2 case_bool_decide; simpl; rewrite <- ?app_assoc; simpl;
      rewrite ?app_nil_r; reflexivity. }
  rewrite Hstraight. clear Hstraight.
  assert (∀ eid, eid ∈ E → eid + D < len (DatFile.effects (target_data s1)))
    as Hlen_e.
  { intros eid Hin. simpl. unfold effects_ext. rewrite len_ensure_length.
    pose proof (Hbound eid Hin). unfold need. lia. }
  assert (T + K ≤ len (DatFile.techs (target_data s1))) as Hlen_t.
  { simpl. unfold techs_ext. rewrite len_ensure_length. lia. }
  destruct (collect_overwritten_effects source_data S T K) with (s := s1)
    as (oe & Hoe & Hoe_lookup);
    try first [exact Hvalid|exact Hlen_e|exact HS|exact HT|exact HSK].
  erewrite bind_returned by exact Hoe.
  erewrite bind_returned
    by (apply collect_overwritten_techs; first [exact Hlen_t|lia]).
  assert (dom oe = set_map (λ eid, eid + D) E) as Hdom.
  { apply set_eq. intros j. rewrite elem_of_dom, Hoe_lookup, elem_of_map.
    split.
    - case_bool_decide as Hj; [|by intros [? ?]]. intros _.
      exists (j - D). split; [lia|done].
    - intros (eid & -> & Hin).
      rewrite bool_decide_eq_true_2
        by (by same_elem eid).
      simpl. destruct (Hvalid _ Hin) as [_ ?].
      destruct (slot_is_Some effects_ext (eid + D)) as [x Hx];
        [split; [lia|by apply Hlen_e]|].
      rewrite Hx. by eexists. }
  set (elines := (λ idx, (idx, default ""
                                 (Effect.name <$> slot effects_ext idx)))
                   <$> merge_sort Z.le
                         (elements (set_map (λ eid, eid + D) E : gset Z))).
  set (tlines := (λ i, (T + i, default ""
                                 (Tech.name <$> slot techs_ext (T + i))))
                   <$> range K).
  set (s2 := set_stdout
               (stdout s1 ++ (if warn then tech_notice elines tlines else []))
               s1).
  erewrite (bind_returned _ _ s1 tt s2); cycle 1.
  { assert (oe ≠ ∅) as Hne_oe.
    { intros ->. pose proof (Hoe_lookup (eid0 + D)) as Hl.
      rewrite lookup_empty in Hl.
      rewrite bool_decide_eq_true_2 in Hl by (by same_elem eid0).
      destruct (Hvalid _ Heid0) as [_ ?].
      destruct (slot_is_Some (DatFile.effects (target_data s1)) (eid0 + D))
        as [x Hx]; [split; [lia|by apply Hlen_e]|].
      rewrite Hx in Hl. done. }
    rewrite (bool_decide_eq_true_2 (oe ≠ ∅)) by done.
    assert (range K ≫= (λ i,
              from_option (λ t, [(T + i, Tech.name t)]) []
                (slot (DatFile.techs (target_data s1)) (T + i))) = tlines)
      as Htl.
    { unfold tlines. simpl.
      rewrite <- (bind_singleton_fmap (range K)
        (λ i, (λ t, (T + i, Tech.name t)) <$> slot techs_ext (T + i))).
      - apply list_bind_ext; [|done]. intros i.
        by destruct (slot techs_ext (T + i)).
      - intros i Hi%elem_of_seqZ.
        destruct (slot_is_Some techs_ext (T + i)) as [t Ht]; [simpl in *; lia|].
        by rewrite Ht. }
    rewrite Htl.
    assert (tlines ≠ []) as Hne_t.
    { unfold tlines, range. rewrite seqZ_cons by lia. done. }
    rewrite (bool_decide_eq_true_2 (tlines ≠ [])) by done.
    unfold s2. destruct warn; cbn [orb andb when].
    2:{ unfold set_stdout. rewrite app_nil_r. reflexivity. }
    erewrite bind_returned; cycle 1.
    { erewrite bind_returned by reflexivity.
      rewrite (for_print _ (λ idx, NoteEffectSlot idx (default "" (oe !! idx)))).
      reflexivity. }
    erewrite bind_returned by reflexivity.
    rewrite (for_print_ext tlines _ (uncurry NoteTechSlot)) by (by intros []).
    unfold tech_notice, set_stdout. simpl. f_equal. f_equal.
    assert ((λ idx, NoteEffectSlot idx (default "" (oe !! idx)))
              <$> merge_sort Z.le (elements (dom oe))
            = uncurry NoteEffectSlot <$> elines) as ->.
    { rewrite Hdom. unfold elines. rewrite <- list_fmap_compose.
      apply list_fmap_ext. intros k idx Hidx. simpl. f_equal.
      rewrite Hoe_lookup.
      apply list_elem_of_lookup_2 in Hidx.
      rewrite merge_sort_Permutation in Hidx.
      apply elem_of_elements, elem_of_map in Hidx as (eid & -> & Hin).
      by rewrite bool_decide_eq_true_2 by (by same_elem eid). }
    rewrite <- !app_assoc. done. }
  assert (∀ eid, eid ∈ E → eid + D < len (DatFile.effects (target_data s2)))
    as Hlen_e2 by exact Hlen_e.
  destruct (copy_effects source_data S T K) with (s := s2)
    as (effects & Hce & Hel & Hes);
    try first [exact Hvalid|exact Hlen_e2|exact HS|exact HT|exact HSK].
  erewrite bind_returned by exact Hce.
  set (s3' := set_target_data
                (DatFile.set_effects effects (target_data s2)) s2) in *.
  destruct (copy_techs source_data S T K) with (s := s3')
    as (techs & Hct & Htl & Hts);
    try first [exact Hlen_t|exact HS|exact HT|exact HSK|lia].
  erewrite bind_returned by exact Hct.
  exists need, effects, techs, pre. cbv zeta. split; [|split; [|split; [|split]]].
  - unfold mret, M_ret. f_equal. unfold s3', s2, s1, set_target_data,
      set_stdout; simpl. f_equal. by rewrite <- app_assoc.
  - by exists eidM.
  - exact Hbound.
  - unfold pre. repeat apply Forall_app_2; repeat case_bool_decide;
      repeat constructor.
  - split; [exact Hel|]. split; [exact Hes|]. split; [exact Htl|exact Hts].
Qed.

(** When every destination effect index is a slot, that is, not negative,
    each effect a migrated tech refers to is copied to effect slot
    [effect_id + D], the tech copy points there, and the effects store is
    long enough to hold it. *)
Lemma tech_implant_moves_effects source_data S e c T warn s pe pt :
  0 ≤ S → 0 ≤ T →
  ¬ range_error (len (DatFile.techs source_data)) S e c →
  let K := selected_count (len (DatFile.techs source_data)) S e c in
  let D := T - S in
  (∀ eid, eid ∈ migrated_effect_ids source_data S K →
     0 ≤ eid < len (DatFile.effects source_data) ∧ 0 ≤ eid + D) →
  slot (DatFile.effects (target_data s)) 0 = Some pe →
  slot (DatFile.techs (target_data s)) 0 = Some pt →
  ∃ s1,
    implant_techs_from_dat source_data S e c T warn s = Returned K s1
    ∧ ∀ i tech, 0 ≤ i < K →
        slot (DatFile.techs source_data) (S + i) = Some tech →
        slot (DatFile.techs (target_data s1)) (T + i)
        = Some (rewritten_tech S K D tech)
        ∧ Tech.effect_id (rewritten_tech S K D tech) = Tech.effect_id tech + D
        ∧ slot (DatFile.effects (target_data s1)) (Tech.effect_id tech + D)
          = slot (DatFile.effects source_data) (Tech.effect_id tech)
        ∧ Tech.effect_id tech + D < len (DatFile.effects (target_data s1)).
Proof.
  intros HS HT Hrange K D Hvalid Hpe Hpt.
  destruct (implant_techs_run source_data S e c T warn s pe pt HS HT Hrange
              Hvalid Hpe Hpt)
    as (need & effects & techs & pre & Hrun & _ & Hneed & _ & Hel & Hes
        & Htl & Hts).
  eexists. split; [exact Hrun|]. simpl.
  intros i tech Hi Ht.
  assert (Tech.effect_id tech ∈ migrated_effect_ids source_data S K) as Hin.
  { apply elem_of_migrated_effect_ids. by exists i, tech. }
  split; [|split; [done|split]].
  - rewrite Hts. rewrite bool_decide_eq_true_2 by lia.
    replace (S + (T + i - T)) with (S + i) by lia. by rewrite Ht.
  - rewrite Hes. rewrite bool_decide_eq_true_2 by (by same_elem (Tech.effect_id tech)).
    f_equal. lia.
  - rewrite Hel, len_ensure_length. pose proof (Hneed _ Hin). lia.
Qed.

(** C8 fails on the code when a destination effect index is negative.
    Moving the tech of source slot 1, whose [effect_id] is 0, to target
    slot 0 gives the offset -1: the effect is written to the last effect
    slot of the target (Python index -1), which held another effect, and
    the tech copy has [effect_id = -1]. *)
Theorem tech_implant_wraps_negative_effect_index :
  ∃ s1,
    implant_techs_from_dat ex_source 1 None (Some 1) 0 true ex_state
    = Returned 1 s1
    ∧ DatFile.effects (target_data ex_state)
      = [Effect.mk "empty" []; Effect.mk "line of sight" [4]]
    ∧ DatFile.effects (target_data s1)
      = [Effect.mk "empty" []; Effect.mk "carry more" [3]]
    ∧ DatFile.techs (target_data s1) = [Tech.mk "wheelbarrow" (-1) [0; 7] 75].
Proof.
  eexists. split; [vm_compute; reflexivity|]. by vm_compute.
Qed.

(** The notice of the unit implant.  It reports exactly the slots of the
    footprint that held a header that exists or a unit before the implant,
    in increasing order, and only when that set is not empty and
    [warn_overwrite] is set.  The notice is only printed: the implant goes
    on to write the reported slots and returns the count. *)
Lemma unit_overwrite_notice source_data S e c T warn copy_extra s :
  0 ≤ S → 0 ≤ T → allocated (objs s) source_data →
  ¬ range_error (n_unit_slots source_data) S e c →
  let Ku := selected_count (n_unit_slots source_data) S e c in
  ∃ (O : gset Z) s1 pre,
    implant_units_from_dat source_data S e c T warn copy_extra s
    = Returned Ku s1
    ∧ (∀ j, j ∈ O ↔ T ≤ j < T + Ku ∧ occupied (target_data s) j)
    ∧ (∀ j, j ∈ merge_sort Z.le (elements O) ↔ j ∈ O)
    ∧ Forall (λ l, is_overwrite_line l = false) pre
    ∧ stdout s1
      = stdout s ++ pre
        ++ (if bool_decide (O ≠ ∅) && warn
            then [NoteOverwrite (merge_sort Z.le (elements O))] else [])
    ∧ (∀ j, j ∈ O →
         slot (DatFile.unit_headers (target_data s1)) j
         = Some (implanted_header source_data (S + (j - T)))).
Proof.
  intros HS HT Hsrc Hru Ku.
  destruct (implant_units_run source_data S e c T warn copy_extra s HS HT
              Hsrc Hru) as (O & s1 & Hrun & HO & Hinv).
  fold Ku in Hrun, Hinv, HO.
  exists O, s1,
    ((if bool_decide (T + Ku > n_unit_slots (target_data s))
      then [NoteExtend (n_unit_slots (target_data s)) (T + Ku)] else [])
     ++ [NoteRange S Ku T]).
  split; [done|]. split; [done|]. split; [|split; [|split]].
  - intros j. rewrite merge_sort_Permutation. apply elem_of_elements.
  - apply Forall_app_2; [case_bool_decide|]; repeat constructor.
  - rewrite (inv_stdout _ _ _ _ _ _ _ _ _ Hinv). simpl.
    by rewrite <- !app_assoc.
  - intros j Hj%HO.
    pose proof (inv_hdone _ _ _ _ _ _ _ _ _ Hinv (j - T)) as Hh.
    simpl in Hh. replace (T + (j - T)) with j in Hh by lia.
    apply Hh. lia.
Qed.

(** The notice of the tech implant.  When [warn_overwrite] is set it
    reports every destination effect slot [effect_id + D] and every
    destination tech slot of [[T, T+K)], whether or not the slot existed
    before the implant, with the name that the slot holds once the target
    is extended; the implant goes on to write the slots and returns the
    count. *)
Lemma tech_overwrite_notice source_data S e c T warn s pe pt :
  0 ≤ S → 0 ≤ T →
  ¬ range_error (len (DatFile.techs source_data)) S e c →
  let Kt := selected_count (len (DatFile.techs source_data)) S e c in
  let D := T - S in
  let E := migrated_effect_ids source_data S Kt in
  (∀ eid, eid ∈ E →
     0 ≤ eid < len (DatFile.effects source_data) ∧ 0 ≤ eid + D) →
  slot (DatFile.effects (target_data s)) 0 = Some pe →
  slot (DatFile.techs (target_data s)) 0 = Some pt →
  ∃ s1 pre (effect_name tech_name : Z → string),
    implant_techs_from_dat source_data S e c T warn s = Returned Kt s1
    ∧ Forall (λ l, is_overwrite_line l = false) pre
    ∧ stdout s1
      = stdout s ++ pre
        ++ (if warn then
              tech_notice
                ((λ idx, (idx, effect_name idx))
                   <$> merge_sort Z.le
                         (elements (set_map (λ eid, eid + D) E : gset Z)))
                ((λ i, (T + i, tech_name (T + i))) <$> range Kt)
            else [])
    ∧ (∀ j, len (DatFile.techs (target_data s)) ≤ j →
         tech_name j = Tech.name pt)
    ∧ (∀ eid, eid ∈ E →
         slot (DatFile.effects (target_data s1)) (eid + D)
         = slot (DatFile.effects source_data) eid)
    ∧ (∀ i, 0 ≤ i < Kt →
         slot (DatFile.techs (target_data s1)) (T + i)
         = rewritten_tech S Kt D
             <$> slot (DatFile.techs source_data) (S + i)).
Proof.
  intros HS HT Hrt Kt D E Hvalid Hpe Hpt.
  destruct (implant_techs_run source_data S e c T warn s pe pt HS HT Hrt
              Hvalid Hpe Hpt)
    as (need & effects & techs & pre & Hrun & _ & _ & Hpre & _ & Hes
        & _ & Hts).
  eexists _, pre,
    (λ idx, default ""
              (Effect.name
                 <$> slot (_ensure_length
                             (DatFile.effects (target_data s)) need pe) idx)),
    (λ j, if bool_decide (len (DatFile.techs (target_data s)) ≤ j)
          then Tech.name pt
          else default ""
                 (Tech.name
                    <$> slot (_ensure_length
                                (DatFile.techs (target_data s)) (T + Kt) pt)
                          j)).
  split; [exact Hrun|]. split; [exact Hpre|]. split; [|split].
  - simpl. destruct warn; [|done]. fold Kt D E.
    match goal with
    | |- _ ++ _ ++ tech_notice ?es ?ts = _ ++ _ ++ tech_notice ?es ?ts' =>
        replace ts' with ts; [done|]
    end.
    apply list_fmap_ext. intros k i Hi%list_elem_of_lookup_2.
    apply elem_of_seqZ in Hi. f_equal.
    case_bool_decide as Hnew; [|done].
    rewrite slot_ensure_length.
    rewrite bool_decide_eq_false_2 by lia.
    by rewrite bool_decide_eq_true_2 by lia.
  - intros j Hj. by rewrite bool_decide_eq_true_2.
  - simpl. split.
    + intros eid Hin. rewrite Hes.
      rewrite bool_decide_eq_true_2 by (by same_elem eid).
      f_equal. lia.
    + intros i Hi. rewrite Hts. rewrite bool_decide_eq_true_2 by lia.
      do 2 f_equal. lia.
Qed.

(** C9 fails on the code for the tech implant.  Its notice announces the
    target slots that are about to be overwritten, with their original
    data, but the slots are collected after the target has been extended
    and without any test of what they hold: with one tech in the target,
    an implant at tech slot 1 reports slot 1 as overwritten, under the
    name of the placeholder (a copy of tech 0), although the target had no
    slot 1 before.  The unit implant on the same stores, at a slot that
    the target does not have, reports nothing. *)
Theorem tech_notice_reports_new_slot :
  (∃ s1,
     implant_techs_from_dat ex_source 1 None (Some 1) 1 true ex_state
     = Returned 1 s1
     ∧ len (DatFile.techs (target_data ex_state)) = 1
     ∧ slot (DatFile.techs (target_data ex_state)) 1 = None
     ∧ Tech.name <$> slot (DatFile.techs (target_data ex_state)) 0
       = Some "town watch"
     ∧ NoteTechSlot 1 "town watch" ∈ stdout s1)
  ∧ ∃ s2,
      implant_units_from_dat ex_source 1 None (Some 1) 2 true true ex_state
      = Returned 1 s2
      ∧ n_unit_slots (target_data ex_state) = 2
      ∧ Forall (λ l, is_overwrite_line l = false) (stdout s2).
Proof.
  split.
  - eexists. split; [vm_compute; reflexivity|].
    split; [done|]. split; [done|]. split; [done|].
    simpl. repeat first [by left | right].
  - eexists. split; [vm_compute; reflexivity|]. split; [done|].
    repeat constructor.
Qed.

(** * Further properties of the implanters and the finalisation passes *)

(** A loop whose iterations leave the state alone raises what one of its
    iterations raises. *)
Lemma for_fold_raises {A B} (l : list A) (body : A → B → M B) acc s e :
  (∀ x acc, x ∈ l →
     (∃ acc', body x acc s = Returned acc' s) ∨ body x acc s = Raised e s) →
  (∃ x, x ∈ l ∧ ∀ acc, body x acc s = Raised e s) →
  for_fold l body acc s = Raised e s.
Proof.
  revert acc. induction l as [|x0 l IH]; intros acc Hbody (x & Hx & Hbad).
  - by apply elem_of_nil in Hx.
  - cbn [for_fold].
    destruct (Hbody x0 acc) as [[acc' Hret]|Hraise]; [left| |].
    + apply elem_of_cons in Hx as [->|Hx].
      * by rewrite Hbad in Hret.
      * erewrite bind_returned by exact Hret.
        apply IH; [|by exists x]. intros; apply Hbody; by right.
    + by apply bind_raised.
Qed.

(** ** [implant_techs_from_dat]: what it rejects *)

Lemma collect_effect_ids_raises source_data S K s i tech :
  0 ≤ S → S + K ≤ len (DatFile.techs source_data) →
  0 ≤ i < K →
  slot (DatFile.techs source_data) (S + i) = Some tech →
  ¬ 0 ≤ Tech.effect_id tech < len (DatFile.effects source_data) →
  for_fold (range K) (λ i (acc : gset Z),
    tech ← getitem (DatFile.techs source_data) (S + i);
    let eid := Tech.effect_id tech in
    if bool_decide (eid < 0)
       || bool_decide (eid >= len (DatFile.effects source_data))
    then raise ValueError
    else mret ({[eid]} ∪ acc)) ∅ s
  = Raised ValueError s.
Proof.
  intros HS HSK Hi Ht Hbad. apply for_fold_raises.
  - intros x acc Hx%elem_of_seqZ.
    destruct (slot_is_Some (DatFile.techs source_data) (S + x)) as [t Hx'];
      [lia|].
    erewrite bind_returned by (by apply getitem_slot). cbv zeta.
    destruct (_ || _); [by right|left; by eexists].
  - exists i. split; [apply elem_of_seqZ; lia|]. intros acc.
    erewrite bind_returned by (by apply getitem_slot). cbv zeta.
    destruct (decide (Tech.effect_id tech < 0)).
    + by rewrite bool_decide_eq_true_2 by done.
    + rewrite bool_decide_eq_false_2 by done.
      by rewrite bool_decide_eq_true_2 by lia.
Qed.

(** The tech implant validates before it writes.  It raises [ValueError]
    exactly on a range error or when a tech of the range refers to an
    effect the source does not have, and [IndexError] exactly when the
    checks pass but the target has no effect 0 or no tech 0 to take the
    placeholder from; either way the target and the output are as they
    were.  Otherwise it returns the number of techs. *)
Theorem tech_implant_outcome source_data S e c T warn s :
  0 ≤ S → 0 ≤ T →
  let n := len (DatFile.techs source_data) in
  let K := selected_count n S e c in
  let E := migrated_effect_ids source_data S K in
  let valid :=
    ∀ eid, eid ∈ E → 0 ≤ eid < len (DatFile.effects source_data) in
  (∀ eid, eid ∈ E → 0 ≤ eid + (T - S)) →
  match implant_techs_from_dat source_data S e c T warn s with
  | Raised ex s1 =>
      s1 = s
      ∧ (ex = ValueError ∧ (range_error n S e c ∨ ¬ valid)
         ∨ ex = IndexError ∧ ¬ range_error n S e c ∧ valid
           ∧ (DatFile.effects (target_data s) = []
              ∨ DatFile.techs (target_data s) = []))
  | Returned k s1 =>
      k = K ∧ ¬ range_error n S e c ∧ valid
      ∧ DatFile.effects (target_data s) ≠ []
      ∧ DatFile.techs (target_data s) ≠ []
  end.
Proof.
  intros HS HT n K E valid Hdest.
  destruct (range_error_dec n S e c) as [Herr|Hrange].
  { unfold implant_techs_from_dat.
    erewrite bind_returned by reflexivity.
    erewrite bind_returned by reflexivity.
    erewrite bind_raised by (by apply implant_range_raises).
    split; [done|]. left. split; [done|by left]. }
  destruct (implant_range_returns _ _ _ _ s Hrange) as (Hrun & HK & HSK).
  fold n K in Hrun, HK, HSK.
  destruct (decide (set_Forall
              (λ eid, 0 ≤ eid < len (DatFile.effects source_data)) E))
    as [Hvalid|Hbad].
  2:{ apply not_set_Forall_Exists in Hbad; [|apply _].
      destruct Hbad as (eid & Hin & Hbad). simpl in Hbad.
      apply elem_of_migrated_effect_ids in Hin as (i & tech & Hi & Ht & <-).
      unfold implant_techs_from_dat.
      erewrite bind_returned by reflexivity.
      erewrite bind_returned by reflexivity.
      erewrite bind_returned by exact Hrun. cbv zeta.
      erewrite bind_raised
        by (by eapply (collect_effect_ids_raises source_data S K s i tech)).
      split; [done|]. left. split; [done|]. right. intros Hv.
      apply Hbad, Hv. apply elem_of_migrated_effect_ids. by exists i, tech. }
  assert (∀ eid, eid ∈ E →
            0 ≤ eid < len (DatFile.effects source_data) ∧ 0 ≤ eid + (T - S))
    as Hboth by (intros eid Hin; split; [by apply Hvalid|by apply Hdest]).
  destruct (DatFile.effects (target_data s)) as [|pe effs] eqn:Heffs;
    [|destruct (DatFile.techs (target_data s)) as [|pt tchs] eqn:Htchs].
  3:{ destruct (implant_techs_run source_data S e c T warn s pe pt HS HT Hrange
                  Hboth) as (need & effects & techs & pre & Hrun' & _).
      { by rewrite Heffs. }
      { by rewrite Htchs. }
      rewrite Hrun'. done. }
  all: unfold implant_techs_from_dat;
    erewrite bind_returned by reflexivity;
    erewrite bind_returned by reflexivity;
    erewrite bind_returned by exact Hrun; cbv zeta;
    erewrite bind_returned
      by (apply (collect_effect_ids source_data S T K);
          first [exact Hboth|lia]);
    fold E;
    assert (∃ eid0, eid0 ∈ E) as [eid0 Heid0]
      by (destruct (slot_is_Some (DatFile.techs source_data) (S + 0))
            as [t Ht]; [lia|];
          exists (Tech.effect_id t); apply elem_of_migrated_effect_ids;
          exists 0, t; split; [lia|done]);
    destruct (py_max_spec ((λ eid, eid + (T - S)) <$> elements E) s)
      as (Mx & Hmax & _);
    [intros Hnil; apply fmap_nil_inv in Hnil;
     apply elem_of_elements in Heid0; rewrite Hnil in Heid0;
     by apply elem_of_nil in Heid0|];
    erewrite bind_returned by exact Hmax.
  - erewrite bind_raised; cycle 1.
    { erewrite bind_returned by reflexivity. cbv beta. rewrite Heffs.
      reflexivity. }
    split; [done|]. right. split; [done|]. split; [done|]. split; [done|].
    by left.
  - erewrite bind_returned; cycle 1.
    { erewrite bind_returned by reflexivity. cbv beta. rewrite Heffs.
      reflexivity. }
    erewrite bind_raised; cycle 1.
    { erewrite bind_returned by reflexivity. cbv beta. rewrite Htchs.
      reflexivity. }
    split; [done|]. right. split; [done|]. split; [done|]. split; [done|].
    by right.
Qed.

(** Discharges the side condition on the effect ids of a one-tech implant
    from the example source. *)
Ltac solve_effect_ids :=
  let eid := fresh "eid" in
  let Hin := fresh "Hin" in
  let i := fresh "i" in
  let tech := fresh "tech" in
  let Hi := fresh "Hi" in
  let Ht := fresh "Ht" in
  intros eid Hin;
  apply elem_of_migrated_effect_ids in Hin as (i & tech & Hi & Ht & <-);
  unfold selected_count, len in Hi; simpl in Hi;
  assert (i = 0) as -> by lia; vm_compute in Ht;
  injection Ht as <-; simpl; unfold len; simpl; lia.

Lemma tech_implant_outcome_witness :
  match implant_techs_from_dat ex_source 1 None (Some 1) 1 true ex_state with
  | Raised ex s1 =>
      s1 = ex_state
      ∧ (ex = ValueError
         ∧ (range_error (len (DatFile.techs ex_source)) 1 None (Some 1)
            ∨ ¬ ∀ eid,
                  eid ∈ migrated_effect_ids ex_source 1
                          (selected_count (len (DatFile.techs ex_source)) 1
                             None (Some 1)) →
                  0 ≤ eid < len (DatFile.effects ex_source))
         ∨ ex = IndexError
           ∧ ¬ range_error (len (DatFile.techs ex_source)) 1 None (Some 1)
           ∧ (∀ eid,
                eid ∈ migrated_effect_ids ex_source 1
                        (selected_count (len (DatFile.techs ex_source)) 1
                           None (Some 1)) →
                0 ≤ eid < len (DatFile.effects ex_source))
           ∧ (DatFile.effects (target_data ex_state) = []
              ∨ DatFile.techs (target_data ex_state) = []))
  | Returned k s1 =>
      k = selected_count (len (DatFile.techs ex_source)) 1 None (Some 1)
      ∧ ¬ range_error (len (DatFile.techs ex_source)) 1 None (Some 1)
      ∧ (∀ eid,
           eid ∈ migrated_effect_ids ex_source 1
                   (selected_count (len (DatFile.techs ex_source)) 1
                      None (Some 1)) →
           0 ≤ eid < len (DatFile.effects ex_source))
      ∧ DatFile.effects (target_data ex_state) ≠ []
      ∧ DatFile.techs (target_data ex_state) ≠ []
  end.
Proof.
  apply (tech_implant_outcome ex_source 1 None (Some 1) 1 true ex_state).
  - lia.
  - lia.
  - solve_effect_ids.
Defined.

(** ** [implant_techs_from_dat]: what it writes *)

(** The tech implant changes nothing of the target but its techs and its
    effects.  The techs grow to [T + K] slots when they were fewer; a slot
    gained below [T] holds a copy of the target's tech 0, and a slot that
    existed outside [[T, T+K)] keeps its tech.  The effects grow to one
    past the highest destination index; a slot gained that is no
    destination holds a copy of the target's effect 0, and a slot that
    existed and is no destination keeps its effect. *)
Theorem tech_implant_frame source_data S e c T warn s pe pt :
  0 ≤ S → 0 ≤ T →
  ¬ range_error (len (DatFile.techs source_data)) S e c →
  let K := selected_count (len (DatFile.techs source_data)) S e c in
  let D := T - S in
  let E := migrated_effect_ids source_data S K in
  (∀ eid, eid ∈ E →
     0 ≤ eid < len (DatFile.effects source_data) ∧ 0 ≤ eid + D) →
  slot (DatFile.effects (target_data s)) 0 = Some pe →
  slot (DatFile.techs (target_data s)) 0 = Some pt →
  ∃ s1 top,
    implant_techs_from_dat source_data S e c T warn s = Returned K s1
    ∧ objs s1 = objs s
    ∧ DatFile.unit_headers (target_data s1)
      = DatFile.unit_headers (target_data s)
    ∧ DatFile.civs (target_data s1) = DatFile.civs (target_data s)
    ∧ len (DatFile.techs (target_data s1))
      = Z.max (len (DatFile.techs (target_data s))) (T + K)
    ∧ (∀ j, ¬ T ≤ j < T + K →
         slot (DatFile.techs (target_data s1)) j
         = if bool_decide (len (DatFile.techs (target_data s)) ≤ j < T)
           then Some pt else slot (DatFile.techs (target_data s)) j)
    ∧ top ∈ E ∧ (∀ eid, eid ∈ E → eid ≤ top)
    ∧ len (DatFile.effects (target_data s1))
      = Z.max (len (DatFile.effects (target_data s))) (top + D + 1)
    ∧ (∀ j, j - D ∉ E →
         slot (DatFile.effects (target_data s1)) j
         = if bool_decide
                (len (DatFile.effects (target_data s)) ≤ j < top + D + 1)
           then Some pe else slot (DatFile.effects (target_data s)) j).
Proof.
  intros HS HT Hrange K D E Hvalid Hpe Hpt.
  destruct (implant_techs_run source_data S e c T warn s pe pt HS HT Hrange
              Hvalid Hpe Hpt)
    as (need & effects & techs & pre & Hrun & (top & Htop & ->) & Hneed & _
        & Hel & Hes & Htl & Hts).
  destruct (implant_range_returns _ _ _ _ s Hrange) as (_ & HK & _).
  fold K in HK.
  eexists _, top. split; [exact Hrun|]. simpl.
  split; [done|]. split; [done|]. split; [done|]. split; [|split; [|split;
    [done|split; [|split]]]].
  - by rewrite Htl, len_ensure_length.
  - intros j Hj. rewrite Hts, bool_decide_eq_false_2 by done.
    rewrite slot_ensure_length.
    destruct (decide (j < len (DatFile.techs (target_data s)))) as [Hlt|Hge].
    + rewrite bool_decide_eq_true_2 by done.
      by rewrite bool_decide_eq_false_2 by lia.
    + rewrite bool_decide_eq_false_2 by done.
      pose proof (slot_Some_lt _ _ _ Hpt).
      destruct (decide (j < T)) as [HjT|HjT].
      * rewrite !bool_decide_eq_true_2; [done|lia|lia].
      * rewrite !bool_decide_eq_false_2; [|lia|lia].
        symmetry. apply slot_ge. lia.
  - intros eid Hin. pose proof (Hneed _ Hin). lia.
  - by rewrite Hel, len_ensure_length.
  - intros j Hj. rewrite Hes, bool_decide_eq_false_2 by done.
    rewrite slot_ensure_length.
    destruct (decide (j < len (DatFile.effects (target_data s)))) as [Hlt|Hge].
    + rewrite bool_decide_eq_true_2 by done.
      by rewrite bool_decide_eq_false_2 by lia.
    + rewrite bool_decide_eq_false_2 by done.
      pose proof (slot_Some_lt _ _ _ Hpe).
      destruct (decide (j < top + D + 1)) as [HjT|HjT].
      * rewrite !bool_decide_eq_true_2; [done|lia|lia].
      * rewrite !bool_decide_eq_false_2; [|lia|lia].
        symmetry. apply slot_ge. lia.
Qed.

Lemma tech_implant_frame_witness :
  ∃ s1 top,
    implant_techs_from_dat ex_source 1 None (Some 1) 3 true ex_state
    = Returned (selected_count (len (DatFile.techs ex_source)) 1 None (Some 1))
        s1
    ∧ objs s1 = objs ex_state
    ∧ DatFile.unit_headers (target_data s1)
      = DatFile.unit_headers (target_data ex_state)
    ∧ DatFile.civs (target_data s1) = DatFile.civs (target_data ex_state)
    ∧ len (DatFile.techs (target_data s1))
      = Z.max (len (DatFile.techs (target_data ex_state)))
          (3 + selected_count (len (DatFile.techs ex_source)) 1 None (Some 1))
    ∧ (∀ j,
         ¬ 3 ≤ j < 3 + selected_count (len (DatFile.techs ex_source)) 1 None
                         (Some 1) →
         slot (DatFile.techs (target_data s1)) j
         = if bool_decide (len (DatFile.techs (target_data ex_state)) ≤ j < 3)
           then Some (Tech.mk "town watch" 1 [] 25)
           else slot (DatFile.techs (target_data ex_state)) j)
    ∧ top ∈ migrated_effect_ids ex_source 1
              (selected_count (len (DatFile.techs ex_source)) 1 None (Some 1))
    ∧ (∀ eid,
         eid ∈ migrated_effect_ids ex_source 1
                 (selected_count (len (DatFile.techs ex_source)) 1 None
                    (Some 1)) →
         eid ≤ top)
    ∧ len (DatFile.effects (target_data s1))
      = Z.max (len (DatFile.effects (target_data ex_state)))
          (top + (3 - 1) + 1)
    ∧ (∀ j,
         j - (3 - 1) ∉ migrated_effect_ids ex_source 1
                         (selected_count (len (DatFile.techs ex_source)) 1
                            None (Some 1)) →
         slot (DatFile.effects (target_data s1)) j
         = if bool_decide
                (len (DatFile.effects (target_data ex_state)) ≤ j
                 < top + (3 - 1) + 1)
           then Some (Effect.mk "empty" [])
           else slot (DatFile.effects (target_data ex_state)) j).
Proof.
  apply (tech_implant_frame ex_source 1 None (Some 1) 3 true ex_state
           (Effect.mk "empty" []) (Tech.mk "town watch" 1 [] 25)).
  - lia.
  - lia.
  - solve_no_range_error.
  - solve_effect_ids.
  - reflexivity.
  - reflexivity.
Defined.

(** Each tech copy keeps the name and the research time of its source; a
    requirement on a tech of the migrated range [[S, S+K)] becomes a
    requirement on the slot that tech is copied to, and every other
    requirement ([-1] included) is kept. *)
Theorem tech_implant_keeps_dependencies source_data S e c T warn s pe pt :
  0 ≤ S → 0 ≤ T →
  ¬ range_error (len (DatFile.techs source_data)) S e c →
  let K := selected_count (len (DatFile.techs source_data)) S e c in
  let D := T - S in
  (∀ eid, eid ∈ migrated_effect_ids source_data S K →
     0 ≤ eid < len (DatFile.effects source_data) ∧ 0 ≤ eid + D) →
  slot (DatFile.effects (target_data s)) 0 = Some pe →
  slot (DatFile.techs (target_data s)) 0 = Some pt →
  ∃ s1,
    implant_techs_from_dat source_data S e c T warn s = Returned K s1
    ∧ ∀ i tech, 0 ≤ i < K →
        slot (DatFile.techs source_data) (S + i) = Some tech →
        ∃ tech',
          slot (DatFile.techs (target_data s1)) (T + i) = Some tech'
          ∧ Tech.name tech' = Tech.name tech
          ∧ Tech.research_time tech' = Tech.research_time tech
          ∧ length (Tech.required_techs tech')
            = length (Tech.required_techs tech)
          ∧ ∀ k r, Tech.required_techs tech !! k = Some r →
              Tech.required_techs tech' !! k
              = Some (if bool_decide (S ≤ r < S + K) then T + (r - S) else r).
Proof.
  intros HS HT Hrange K D Hvalid Hpe Hpt.
  destruct (implant_techs_run source_data S e c T warn s pe pt HS HT Hrange
              Hvalid Hpe Hpt)
    as (need & effects & techs & pre & Hrun & _ & _ & _ & _ & _ & _ & Hts).
  eexists. split; [exact Hrun|]. simpl.
  intros i tech Hi Ht. exists (rewritten_tech S K D tech).
  split; [|split; [done|split; [done|split]]].
  - rewrite Hts, bool_decide_eq_true_2 by lia.
    replace (S + (T + i - T)) with (S + i) by lia. by rewrite Ht.
  - unfold rewritten_tech; simpl. by rewrite length_fmap.
  - intros k r Hk. unfold rewritten_tech; simpl.
    rewrite list_lookup_fmap, Hk. simpl. f_equal.
    unfold D. destruct (decide (S ≤ r < S + K)).
    + rewrite !bool_decide_eq_true_2 by lia. lia.
    + by rewrite !bool_decide_eq_false_2 by lia.
Qed.

Lemma tech_implant_keeps_dependencies_witness :
  ∃ s1,
    implant_techs_from_dat ex_source 0 None None 1 true ex_state
    = Returned (selected_count (len (DatFile.techs ex_source)) 0 None None) s1
    ∧ ∀ i tech,
        0 ≤ i < selected_count (len (DatFile.techs ex_source)) 0 None None →
        slot (DatFile.techs ex_source) (0 + i) = Some tech →
        ∃ tech',
          slot (DatFile.techs (target_data s1)) (1 + i) = Some tech'
          ∧ Tech.name tech' = Tech.name tech
          ∧ Tech.research_time tech' = Tech.research_time tech
          ∧ length (Tech.required_techs tech')
            = length (Tech.required_techs tech)
          ∧ ∀ k r, Tech.required_techs tech !! k = Some r →
              Tech.required_techs tech' !! k
              = Some (if bool_decide
                           (0 ≤ r
                            < 0 + selected_count
                                    (len (DatFile.techs ex_source)) 0 None None)
                      then 1 + (r - 0) else r).
Proof.
  apply (tech_implant_keeps_dependencies ex_source 0 None None 1 true ex_state
           (Effect.mk "empty" []) (Tech.mk "town watch" 1 [] 25)).
  - lia.
  - lia.
  - solve_no_range_error.
  - intros eid Hin.
    apply elem_of_migrated_effect_ids in Hin as (i & tech & Hi & Ht & <-).
    unfold selected_count, len in Hi; simpl in Hi.
    assert (i = 0 ∨ i = 1) as [-> | ->] by lia; vm_compute in Ht;
      injection Ht as <-; simpl; unfold len; simpl; lia.
  - reflexivity.
  - reflexivity.
Defined.

Lemma rewritten_tech_in_place S K tech : rewritten_tech S K 0 tech = tech.
Proof.
  destruct tech as [nm eid req rt].
  unfold rewritten_tech, Tech.set_required_techs, Tech.set_effect_id; simpl.
  rewrite Z.add_0_r. f_equal.
  apply list_eq. intros k. rewrite list_lookup_fmap.
  destruct (req !! k) as [r|]; simpl; [|done].
  f_equal. case_bool_decide; lia.
Qed.

(** An implant at the position the techs have in the source
    ([target_tech_start = source_start]) copies them, and the effects they
    refer to, as they are: afterwards the target agrees with the source on
    the tech slots of the range and on those effect slots. *)
Theorem tech_implant_in_place source_data S e c warn s pe pt :
  0 ≤ S →
  ¬ range_error (len (DatFile.techs source_data)) S e c →
  let K := selected_count (len (DatFile.techs source_data)) S e c in
  (∀ eid, eid ∈ migrated_effect_ids source_data S K →
     0 ≤ eid < len (DatFile.effects source_data)) →
  slot (DatFile.effects (target_data s)) 0 = Some pe →
  slot (DatFile.techs (target_data s)) 0 = Some pt →
  ∃ s1,
    implant_techs_from_dat source_data S e c S warn s = Returned K s1
    ∧ (∀ j, S ≤ j < S + K →
         slot (DatFile.techs (target_data s1)) j
         = slot (DatFile.techs source_data) j)
    ∧ (∀ eid, eid ∈ migrated_effect_ids source_data S K →
         slot (DatFile.effects (target_data s1)) eid
         = slot (DatFile.effects source_data) eid).
Proof.
  intros HS Hrange K Hvalid Hpe Hpt.
  destruct (implant_techs_run source_data S e c S warn s pe pt HS HS Hrange)
    as (need & effects & techs & pre & Hrun & _ & _ & _ & _ & Hes & _ & Hts);
    [|done|done|].
  { intros eid Hin. pose proof (Hvalid eid Hin). lia. }
  eexists. split; [exact Hrun|]. simpl. split.
  - intros j Hj. rewrite Hts, bool_decide_eq_true_2 by done.
    replace (S + (j - S)) with j by lia. rewrite Z.sub_diag.
    destruct (slot (DatFile.techs source_data) j); simpl; [|done].
    by rewrite rewritten_tech_in_place.
  - intros eid Hin. rewrite Hes, Z.sub_diag, Z.sub_0_r.
    by rewrite bool_decide_eq_true_2.
Qed.

Lemma tech_implant_in_place_witness :
  ∃ s1,
    implant_techs_from_dat ex_source 0 (Some 0) None 0 true ex_state
    = Returned (selected_count (len (DatFile.techs ex_source)) 0 (Some 0) None)
        s1
    ∧ (∀ j,
         0 ≤ j < 0 + selected_count (len (DatFile.techs ex_source)) 0 (Some 0)
                       None →
         slot (DatFile.techs (target_data s1)) j
         = slot (DatFile.techs ex_source) j)
    ∧ (∀ eid,
         eid ∈ migrated_effect_ids ex_source 0
                 (selected_count (len (DatFile.techs ex_source)) 0 (Some 0)
                    None) →
         slot (DatFile.effects (target_data s1)) eid
         = slot (DatFile.effects ex_source) eid).
Proof.
  apply (tech_implant_in_place ex_source 0 (Some 0) None true ex_state
           (Effect.mk "empty" []) (Tech.mk "town watch" 1 [] 25)).
  - lia.
  - solve_no_range_error.
  - solve_effect_ids.
  - reflexivity.
  - reflexivity.
Defined.

(** ** The self-id pass *)

(** On a store whose indexed slots hold units numbered after their slot the
    pass has nothing to do. *)
Lemma fix_self_ids_aligned indices s :
  (∀ i, i ∈ indices → 0 ≤ i) →
  allocated (objs s) (target_data s) →
  (∀ c j l u, j ∈ indices → unit_at (target_data s) c j = Some l →
     objs s !! l = Some u → Unit.id u = j) →
  fix_implanted_unit_self_ids indices s = Returned 0 s.
Proof.
  intros Hpos Halloc Hal. unfold fix_implanted_unit_self_ids.
  erewrite bind_returned by reflexivity. cbv beta.
  match goal with |- (for_fold _ ?body _ ≫= _) _ = _ =>
    destruct (for_fold_inv (λ _ (n : Z) s', n = 0 ∧ s' = s)
      (DatFile.civs (target_data s)) body 0 s) as (n & s' & Hrun & -> & ->)
  end.
  - done.
  - intros dc civ rc n s1 Hc [-> ->].
    match goal with |- ∃ _ _, for_fold _ ?body _ _ = _ ∧ _ =>
      destruct (for_fold_inv (λ _ (n : Z) s', n = 0 ∧ s' = s)
        (elements indices) body 0 s) as (n2 & s2 & Hrun2 & Hinv2)
    end; [done| |by eauto].
    intros di i ri n3 s3 Hi [-> ->].
    assert (i ∈ indices) as Hin.
    { apply elem_of_elements. rewrite Hi. set_solver. }
    pose proof (Hpos _ Hin) as Hi0.
    destruct (decide (i < len (Civ.units civ))) as [Hlt|Hge].
    2:{ rewrite bool_decide_eq_false_2 by done. by exists 0, s. }
    rewrite bool_decide_eq_true_2 by done.
    destruct (slot_is_Some (Civ.units civ) i) as [o Ho]; [lia|].
    erewrite bind_returned by (by apply getitem_slot).
    destruct o as [l0|]; [|by exists 0, s].
    assert (unit_at (target_data s) (len dc) i = Some l0) as Hat.
    { unfold unit_at. rewrite (split_slot _ _ _ _ Hc). simpl. by rewrite Ho. }
    pose proof (allocated_unit_at _ _ _ _ _ Halloc Hat) as Hl0.
    destruct (lookup_lt_is_Some_2 _ _ Hl0) as [u0 Hu0].
    erewrite bind_returned by (by apply load_lookup).
    rewrite bool_decide_eq_false_2 by (intros Hne; by eapply Hne, Hal).
    by exists 0, s.
  - erewrite bind_returned by exact Hrun. cbv beta.
    rewrite bool_decide_eq_false_2 by (by intros ?). reflexivity.
Qed.

Lemma set_id_id j u : Unit.id u = j → Unit.set_id j u = u.
Proof. intros <-. by destruct u. Qed.

Lemma set_id_set_id j k u : Unit.set_id j (Unit.set_id k u) = Unit.set_id j u.
Proof. by destruct u. Qed.

Section fix_pass.
Context (indices : gset Z) (s : state).
Context (Hpos : ∀ i, i ∈ indices → 0 ≤ i).
Context (Halloc : allocated (objs s) (target_data s)).
Context (Hslots : ∀ c j c' j' l, j ∈ indices → j' ∈ indices →
           unit_at (target_data s) c j = Some l →
           unit_at (target_data s) c' j' = Some l → j = j').

Local Abbreviation aligned_inv := (aligned_inv indices s).

Lemma ainv_ext V V' s' :
  (∀ c j, V c j → V' c j) →
  (∀ c j l, V' c j → j ∈ indices → unit_at (target_data s) c j = Some l →
     V c j) →
  aligned_inv V s' → aligned_inv V' s'.
Proof.
  intros HVV' HV'V [Ht Ho Hlen Hobjs Hdone]. split; try done.
  - intros l u Hl. destruct (Hobjs l u Hl) as [?|(c & j & ? & ? & ? & ?)];
      [by left|]. right. exists c, j. eauto.
  - intros c j l u HV Hj Hat Hl. eapply Hdone; eauto.
Qed.

Lemma ainv_visit V s' c i n :
  i ∈ indices → 0 ≤ c →
  aligned_inv V s' →
  ∀ civ, slot (DatFile.civs (target_data s)) c = Some civ →
  ∃ n' s'',
    (if bool_decide (i < len (Civ.units civ)) then
       slot ← getitem (Civ.units civ) i;
       match slot with
       | Some u =>
           x ← load u;
           if bool_decide (Unit.id x ≠ i)
           then store u (Unit.set_id i x);; mret (n + 1)
           else mret n
       | None => mret n
       end
     else mret n) s' = Returned n' s''
    ∧ aligned_inv (λ c' j', V c' j' ∨ (c' = c ∧ j' = i)) s''.
Proof.
  intros Hin Hc0 Hinv civ Hciv. pose proof (Hpos _ Hin) as Hi0.
  assert (∀ s2, aligned_inv V s2 →
            unit_at (target_data s) c i = None →
            aligned_inv (λ c' j', V c' j' ∨ (c' = c ∧ j' = i)) s2) as Hskip.
  { intros s2 H2 Hnone. eapply ainv_ext; [| |exact H2].
    - intros; by left.
    - intros c' j' l [?|[-> ->]] _ Hat; [done|congruence]. }
  destruct (decide (i < len (Civ.units civ))) as [Hlt|Hge].
  2:{ rewrite bool_decide_eq_false_2 by done. exists n, s'.
      split; [done|]. apply Hskip; [done|].
      unfold unit_at. rewrite Hciv. simpl. by rewrite slot_ge by lia. }
  rewrite bool_decide_eq_true_2 by done.
  destruct (slot_is_Some (Civ.units civ) i) as [o Ho]; [lia|].
  erewrite bind_returned by (by apply getitem_slot).
  assert (unit_at (target_data s) c i = o) as Hat.
  { unfold unit_at. rewrite Hciv. simpl. by rewrite Ho. }
  destruct o as [l0|]; [|exists n, s'; split; [done|by apply Hskip]].
  pose proof (allocated_unit_at _ _ _ _ _ Halloc Hat) as Hl0.
  destruct (lookup_lt_is_Some_2 _ _ Hl0) as [u0 Hu0].
  destruct Hinv as [Ht Ho' Hlen Hobjs Hdone].
  assert (∃ cur, objs s' !! l0 = Some cur
                 ∧ ∀ k, Unit.set_id k cur = Unit.set_id k u0)
    as (cur & Hcur & Hset).
  { destruct (Hobjs l0 u0 Hu0) as [?|(c1 & j1 & _ & Hj1 & Hat1 & ?)];
      [by exists u0|].
    exists (Unit.set_id j1 u0). split; [done|]. intros k.
    apply set_id_set_id. }
  erewrite bind_returned by (by apply load_lookup).
  destruct (decide (Unit.id cur = i)) as [Heq|Hne].
  - rewrite bool_decide_eq_false_2 by (by intros ?).
    exists n, s'. split; [done|]. split; try done.
    + intros l u Hl. destruct (Hobjs l u Hl) as [?|(c1 & j1 & ? & ? & ? & ?)];
        [by left|]. right. exists c1, j1. eauto.
    + intros c1 j1 l u [HV|[-> ->]] Hj1 Hat1 Hl; [by eapply Hdone|].
      simplify_eq. rewrite Hcur. f_equal.
      rewrite <- (Hset (Unit.id cur)). symmetry. by apply set_id_id.
  - rewrite bool_decide_eq_true_2 by done.
    eexists _, _. split; [reflexivity|].
    split; unfold set_objs; cbn [objs target_data stdout]; try done.
    + by rewrite length_insert.
    + intros l u Hl. destruct (decide (l = l0)) as [->|Hnel].
      * simplify_eq. right. exists c, i. split; [by right|].
        split; [done|]. split; [done|].
        rewrite list_lookup_insert_eq by (by rewrite Hlen).
        by rewrite (Hset i).
      * rewrite list_lookup_insert_ne by done.
        destruct (Hobjs l u Hl) as [?|(c1 & j1 & ? & ? & ? & ?)];
          [by left|]. right. exists c1, j1. eauto.
    + intros c1 j1 l u HV Hj1 Hat1 Hl.
      destruct (decide (l = l0)) as [->|Hnel].
      * simplify_eq. rewrite list_lookup_insert_eq by (by rewrite Hlen).
        rewrite (Hset i). do 2 f_equal.
        destruct HV as [HV|[-> ->]]; [|done].
        by eapply (Hslots c i c1 j1).
      * rewrite list_lookup_insert_ne by done.
        destruct HV as [HV|[-> ->]]; [by eapply Hdone|congruence].
Qed.

Lemma fix_self_ids_aligns :
  ∃ n s',
    fix_implanted_unit_self_ids indices s = Returned n s'
    ∧ aligned_inv (λ c j, 0 ≤ c) (set_stdout (stdout s) s').
Proof.
  unfold fix_implanted_unit_self_ids.
  erewrite bind_returned by reflexivity. cbv beta.
  match goal with |- ∃ _ _, (for_fold _ ?body _ ≫= _) _ = _ ∧ _ =>
    destruct (for_fold_inv
      (λ done (_ : Z) s', aligned_inv (λ c j, 0 ≤ c < len done) s')
      (DatFile.civs (target_data s)) body 0 s) as (n & s' & Hrun & Hinv)
  end.
  - split; try done.
    + intros l u Hl. by left.
    + unfold len; simpl. intros; lia.
  - intros dc civ rc n s1 Hc Hinv1.
    match goal with |- ∃ _ _, for_fold _ ?body _ _ = _ ∧ _ =>
      destruct (for_fold_inv
        (λ done (_ : Z) s',
           aligned_inv (λ c j, 0 ≤ c < len dc ∨ (c = len dc ∧ j ∈ done)) s')
        (elements indices) body n s1) as (n2 & s2 & Hrun2 & Hinv2)
    end.
    + eapply ainv_ext; [| |exact Hinv1]; intros c j.
      * by left.
      * intros l [?|[_ ?%elem_of_nil]]; done.
    + intros di i ri n3 s3 Hi Hinv3.
      assert (i ∈ indices) as Hin.
      { apply elem_of_elements. rewrite Hi. set_solver. }
      destruct (ainv_visit
                  (λ c j, 0 ≤ c < len dc ∨ (c = len dc ∧ j ∈ di))
                  s3 (len dc) i n3 Hin) with (civ := civ)
        as (n4 & s4 & Hrun4 & Hinv4);
        [unfold len; lia|exact Hinv3|by eapply split_slot|].
      exists n4, s4. split; [exact Hrun4|].
      eapply ainv_ext; [| |exact Hinv4]; intros c j.
      * intros [[?|[-> ?]]|[-> ->]]; [by left|right|right];
          (split; [done|set_solver]).
      * intros l [?|[-> Hj]] _ _; [left; by left|].
        apply elem_of_app in Hj as [?|Hj]; [left; right; done|].
        apply list_elem_of_singleton in Hj as ->. by right.
    + exists n2, s2. split; [done|].
      eapply ainv_ext; [| |exact Hinv2];
        intros c j; unfold len; rewrite length_app; simpl.
      * intros [?|[-> ?]]; lia.
      * intros l [? ?] Hj _.
        destruct (decide (c = Z.of_nat (length dc))) as [->|]; [|left; lia].
        right. split; [done|]. by apply elem_of_elements.
  - exists n,
      (set_stdout
         (stdout s' ++ (if bool_decide (n ≠ 0) then [NoteSelfIds n] else []))
         s').
    split.
    + erewrite bind_returned by exact Hrun. cbv beta.
      unfold when. case_bool_decide.
      * reflexivity.
      * unfold set_stdout. rewrite app_nil_r. by destruct s'.
    + eapply (ainv_ext (λ c j, 0 ≤ c < len (DatFile.civs (target_data s)))).
      * intros c j [? ?]. lia.
      * intros c j l Hc _ Hat. apply unit_at_civ_lt in Hat. lia.
      * destruct Hinv; by split.
Qed.

End fix_pass.

(** The pass numbers the unit of every indexed slot after the slot and
    touches nothing else, provided no object sits in two indexed slots of
    different index: every unit in a slot of [indices] is afterwards its
    former self with [id] set to the slot index, every other object is as
    it was, the slots are as they were, and a second pass finds nothing to
    correct. *)
Theorem self_id_pass_aligns indices s :
  (∀ i, i ∈ indices → 0 ≤ i) →
  allocated (objs s) (target_data s) →
  (∀ c j c' j' l, j ∈ indices → j' ∈ indices →
     unit_at (target_data s) c j = Some l →
     unit_at (target_data s) c' j' = Some l → j = j') →
  ∃ n s1,
    fix_implanted_unit_self_ids indices s = Returned n s1
    ∧ target_data s1 = target_data s
    ∧ length (objs s1) = length (objs s)
    ∧ (∀ c j l u, j ∈ indices → unit_at (target_data s) c j = Some l →
         objs s !! l = Some u → objs s1 !! l = Some (Unit.set_id j u))
    ∧ (∀ l u, (∀ c j, j ∈ indices → unit_at (target_data s) c j ≠ Some l) →
         objs s !! l = Some u → objs s1 !! l = Some u)
    ∧ fix_implanted_unit_self_ids indices s1 = Returned 0 s1.
Proof.
  intros Hpos Halloc Hslots.
  destruct (fix_self_ids_aligns indices s Hpos Halloc Hslots)
    as (n & s1 & Hrun & [Ht _ Hlen Hobjs Hdone]).
  cbn [set_stdout objs target_data] in Ht, Hlen, Hobjs, Hdone.
  exists n, s1. split; [done|]. split; [done|]. split; [done|].
  split; [|split].
  - intros c j l u Hj Hat Hl.
    destruct (unit_at_nonneg _ _ _ _ Hat) as [Hc _].
    exact (Hdone c j l u Hc Hj Hat Hl).
  - intros l u Hnot Hl.
    destruct (Hobjs l u Hl) as [?|(c & j & _ & Hj & Hat & _)]; [done|].
    by destruct (Hnot c j Hj).
  - apply fix_self_ids_aligned; [done| |].
    + rewrite Ht. eapply allocated_mono; [|exact Halloc]. lia.
    + intros c j l u Hj Hat Hl. rewrite Ht in Hat.
      pose proof (allocated_unit_at _ _ _ _ _ Halloc Hat) as Hlt.
      destruct (lookup_lt_is_Some_2 _ _ Hlt) as [u0 Hu0].
      destruct (unit_at_nonneg _ _ _ _ Hat) as [Hc _].
      rewrite (Hdone c j l u0 Hc Hj Hat Hu0) in Hl. by simplify_eq.
Qed.

(** Decides which slot of the example target a unit reference sits in. *)
Ltac solve_unit_at Hat :=
  let Hc := fresh "Hc" in
  let Hj := fresh "Hj" in
  match type of Hat with
  | unit_at _ ?c ?j = _ =>
      pose proof (unit_at_nonneg _ _ _ _ Hat) as [Hc Hj];
      unfold unit_at, slot in Hat;
      rewrite !bool_decide_eq_true_2 in Hat by done;
      let ec := fresh "Hc" in
      let ej := fresh "Hj" in
      destruct (Z.to_nat c) as [|[|[|?]]] eqn:ec;
        destruct (Z.to_nat j) as [|[|?]] eqn:ej; simpl in Hat;
        try discriminate Hat
  end.

Lemma self_id_pass_aligns_witness :
  ∃ n s1,
    fix_implanted_unit_self_ids {[0; 1]} ex_state = Returned n s1
    ∧ target_data s1 = target_data ex_state
    ∧ length (objs s1) = length (objs ex_state)
    ∧ (∀ c j l u, j ∈ ({[0; 1]} : gset Z) →
         unit_at (target_data ex_state) c j = Some l →
         objs ex_state !! l = Some u →
         objs s1 !! l = Some (Unit.set_id j u))
    ∧ (∀ l u,
         (∀ c j, j ∈ ({[0; 1]} : gset Z) →
                 unit_at (target_data ex_state) c j ≠ Some l) →
         objs ex_state !! l = Some u → objs s1 !! l = Some u)
    ∧ fix_implanted_unit_self_ids {[0; 1]} s1 = Returned 0 s1.
Proof.
  apply (self_id_pass_aligns {[0; 1]} ex_state).
  - intros i. rewrite elem_of_union, !elem_of_singleton. lia.
  - solve_allocated.
  - intros c j c' j' l _ _ Hat Hat'.
    solve_unit_at Hat; solve_unit_at Hat'; simplify_eq; lia.
Defined.

(** ** What a unit implant leaves behind, in one place *)

Lemma implant_units_post source_data S e c T warn copy_extra s :
  0 ≤ S → 0 ≤ T →
  allocated (objs s) source_data → allocated (objs s) (target_data s) →
  ¬ range_error (n_unit_slots source_data) S e c →
  let K := selected_count (n_unit_slots source_data) S e c in
  ∃ s1,
    implant_units_from_dat source_data S e c T warn copy_extra s
    = Returned K s1
    ∧ 0 < K ∧ S + K ≤ n_unit_slots source_data
    ∧ allocated (objs s1) (target_data s1)
    ∧ objs s `prefix_of` objs s1
    ∧ civ_shape (target_data s1) = civ_shape (extended (target_data s) (T + K))
    ∧ len (DatFile.unit_headers (target_data s1))
      = Z.max (len (DatFile.unit_headers (target_data s))) (T + K)
    ∧ (∀ i, 0 ≤ i < K →
         slot (DatFile.unit_headers (target_data s1)) (T + i)
         = Some (implanted_header source_data (S + i)))
    ∧ (∀ j, ¬ T ≤ j < T + K →
         slot (DatFile.unit_headers (target_data s1)) j
         = slot (_ensure_length (DatFile.unit_headers (target_data s)) (T + K)
                   _blank_unit_header) j)
    ∧ (∀ c' j, ¬ T ≤ j < T + K →
         unit_at (target_data s1) c' j = unit_at (target_data s) c' j)
    ∧ (∀ i c', 0 ≤ i < K → 0 ≤ c' < len (DatFile.civs (target_data s)) →
         implanted source_data copy_extra S T K s s1 i c')
    ∧ (∀ c' j l, T ≤ j < T + K → unit_at (target_data s1) c' j = Some l →
         (length (objs s) ≤ l)%nat
         ∧ sole_owner (target_data s1) c' j l
         ∧ ∃ u, objs s1 !! l = Some u ∧ Unit.id u = j).
Proof.
  intros HS HT Hsrc Htgt Hrange K.
  destruct (implant_units_run source_data S e c T warn copy_extra s HS HT
              Hsrc Hrange) as (O & s1 & Hrun & _ & Hinv).
  destruct (implant_range_returns _ _ _ _ s Hrange) as (_ & HK & HSK).
  fold K in Hrun, Hinv, HK, HSK.
  match type of Hinv with implant_inv _ _ _ _ _ ?x _ _ _ =>
    set (s0 := x) in * end.
  assert (allocated (objs s0) (target_data s0)) as Halloc0.
  { apply allocated_iff. intros c0 j l. simpl. rewrite unit_at_extended.
    by apply allocated_unit_at. }
  assert (len (DatFile.civs (target_data s))
          = len (DatFile.civs (target_data s0))) as Hn.
  { simpl. by rewrite len_fmap. }
  exists s1. split; [done|]. split; [done|]. split; [done|].
  split; [by eapply post_allocated|].
  split; [apply (inv_objs _ _ _ _ _ _ _ _ _ Hinv)|].
  split; [apply (inv_shape _ _ _ _ _ _ _ _ _ Hinv)|].
  split.
  { rewrite (inv_hlen _ _ _ _ _ _ _ _ _ Hinv). simpl.
    apply len_ensure_length. }
  split; [intros i Hi; by apply (inv_hdone _ _ _ _ _ _ _ _ _ Hinv)|].
  split.
  { intros j Hj. rewrite (inv_hframe _ _ _ _ _ _ _ _ _ Hinv) by lia. done. }
  split.
  { intros c' j Hj. rewrite (inv_frame _ _ _ _ _ _ _ _ _ Hinv) by lia.
    simpl. apply unit_at_extended. }
  split.
  { intros i c' Hi Hc'.
    by apply (inv_clone _ _ _ _ _ _ _ _ _ Hinv i c'). }
  intros c' j l Hj Hat.
  by apply (post_clone _ _ _ _ _ _ _ _ Hn Hinv c' j l Halloc0 Hj Hat).
Qed.

(** An implant numbers its copies itself: the self-id pass over slots of
    the footprint, run right after the implant, finds nothing to correct,
    returns 0 and leaves the state as the implant left it. *)
Theorem self_id_pass_after_implant source_data S e c T warn copy_extra s
    indices :
  0 ≤ S → 0 ≤ T →
  allocated (objs s) source_data → allocated (objs s) (target_data s) →
  ¬ range_error (n_unit_slots source_data) S e c →
  let K := selected_count (n_unit_slots source_data) S e c in
  (∀ i, i ∈ indices → T ≤ i < T + K) →
  ∃ s1,
    implant_units_from_dat source_data S e c T warn copy_extra s
    = Returned K s1
    ∧ fix_implanted_unit_self_ids indices s1 = Returned 0 s1.
Proof.
  intros HS HT Hsrc Htgt Hrange K Hind.
  destruct (implant_units_post source_data S e c T warn copy_extra s HS HT
              Hsrc Htgt Hrange)
    as (s1 & Hrun & _ & _ & Halloc1 & _ & _ & _ & _ & _ & _ & _ & Hclone).
  exists s1. split; [done|].
  apply fix_self_ids_aligned; [|done|].
  - intros i Hi. pose proof (Hind i Hi). lia.
  - intros c' j l u Hj Hat Hl.
    destruct (Hclone c' j l (Hind j Hj) Hat) as (_ & _ & u' & Hu' & Hid).
    by simplify_eq.
Qed.

Lemma self_id_pass_after_implant_witness :
  ∃ s1,
    implant_units_from_dat ex_source 1 None (Some 2) 2 true true ex_state
    = Returned (selected_count (n_unit_slots ex_source) 1 None (Some 2)) s1
    ∧ fix_implanted_unit_self_ids {[2; 3]} s1 = Returned 0 s1.
Proof.
  apply (self_id_pass_after_implant ex_source 1 None (Some 2) 2 true true
           ex_state {[2; 3]}).
  - lia.
  - lia.
  - solve_allocated.
  - solve_allocated.
  - solve_no_range_error.
  - intros i. rewrite elem_of_union, !elem_of_singleton.
    unfold selected_count, n_unit_slots, len; simpl. lia.
Defined.

(** ** The check and the global pass after an implant *)

Lemma bind_nil_all {A B} (l : list A) (f : A → list B) :
  (∀ x, x ∈ l → f x = []) → l ≫= f = [].
Proof.
  induction l as [|x l IH]; intros H; simpl; [done|].
  rewrite (H x) by left. simpl. apply IH. intros; apply H; by right.
Qed.

Lemma slot_issues_nil (stale : gset Z) ui civ_idx u :
  Unit.id u = ui →
  Forall (λ v, v ∉ stale) (unit_id_refs u).*2 →
  slot_issues stale ui civ_idx u = [].
Proof.
  intros Hid Hrefs. unfold slot_issues.
  rewrite bool_decide_eq_false_2 by (by intros ?). simpl.
  assert (filter (λ pv, pv.2 ∈ stale) (unit_id_refs u) = []) as ->; [|done].
  induction (unit_id_refs u) as [|[p v] l IH]; [done|].
  rewrite fmap_cons in Hrefs. apply Forall_cons in Hrefs as [Hv Hl].
  rewrite filter_cons_False by done. by apply IH.
Qed.

(** When the source range and the footprint do not overlap, the coherence
    check over slots of the footprint, with stale ids taken from the
    source range, finds nothing to report right after the implant: every
    copy is numbered after its slot and no copy refers to a migrated id. *)
Theorem check_passes_after_implant source_data S e c T warn copy_extra s
    (indices stale : gset Z) :
  0 ≤ S → 0 ≤ T →
  allocated (objs s) source_data → allocated (objs s) (target_data s) →
  ¬ range_error (n_unit_slots source_data) S e c →
  let K := selected_count (n_unit_slots source_data) S e c in
  T + K ≤ S ∨ S + K ≤ T →
  (∀ i, i ∈ indices → T ≤ i < T + K) →
  (∀ v, v ∈ stale → S ≤ v < S + K) →
  ∃ s1,
    implant_units_from_dat source_data S e c T warn copy_extra s
    = Returned K s1
    ∧ check_unit_id_coherence indices stale s1 = Returned [] s1.
Proof.
  intros HS HT Hsrc Htgt Hrange K Hdisj Hind Hstale.
  destruct (implant_units_post source_data S e c T warn copy_extra s HS HT
              Hsrc Htgt Hrange)
    as (s1 & Hrun & _ & _ & Halloc1 & _ & Hshape & _ & _ & _ & _ & Himpl
        & Hclone).
  fold K in Hrun, Hshape, Himpl, Hclone.
  exists s1. split; [done|].
  rewrite check_run; [|intros i Hi; pose proof (Hind i Hi); lia|done].
  f_equal. apply bind_nil_all. intros [civ_idx civ] _.
  apply bind_nil_all. intros ui Hui%elem_of_elements.
  pose proof (Hind ui Hui) as Hfoot.
  unfold slot_record.
  destruct (unit_at (target_data s1) civ_idx ui) as [l|] eqn:Hat; [|done].
  simpl. destruct (objs s1 !! l) as [u|] eqn:Hl; [|done]. simpl.
  destruct (Hclone civ_idx ui l Hfoot Hat) as (_ & _ & u' & Hu' & Hid).
  rewrite Hl in Hu'. injection Hu' as <-.
  apply slot_issues_nil; [done|]. clear Hid.
  assert (0 ≤ civ_idx < len (DatFile.civs (target_data s))) as Hciv.
  { pose proof (unit_at_civ_lt _ _ _ _ Hat) as Hlt.
    rewrite (civ_shape_len _ _ Hshape) in Hlt.
    rewrite extended_civs, len_fmap in Hlt. done. }
  pose proof (Himpl (ui - T) civ_idx) as Hi. unfold implanted in Hi.
  replace (T + (ui - T)) with ui in Hi by lia.
  destruct (source_slot source_data copy_extra civ_idx (S + (ui - T)));
    [|rewrite Hi in Hat by lia; done].
  destruct Hi as (l' & us & Hat' & _ & _ & Hl'); [lia|done|].
  rewrite Hat in Hat'. injection Hat' as <-.
  rewrite Hl in Hl'. injection Hl' as ->.
  rewrite unit_id_refs_relocate.
  rewrite <- list_fmap_compose. apply Forall_fmap, Forall_forall.
  intros [p v] _. simpl. rewrite relocate_id_mapping_of.
  intros Hin%Hstale. case_bool_decide; lia.
Qed.

Lemma check_passes_after_implant_witness :
  ∃ s1,
    implant_units_from_dat ex_source 0 None (Some 2) 2 true true ex_state
    = Returned (selected_count (n_unit_slots ex_source) 0 None (Some 2)) s1
    ∧ check_unit_id_coherence {[2; 3]} {[0; 1]} s1 = Returned [] s1.
Proof.
  apply (check_passes_after_implant ex_source 0 None (Some 2) 2 true true
           ex_state {[2; 3]} {[0; 1]}).
  - lia.
  - lia.
  - solve_allocated.
  - solve_allocated.
  - solve_no_range_error.
  - unfold selected_count, n_unit_slots, len; simpl. lia.
  - intros i. rewrite elem_of_union, !elem_of_singleton.
    unfold selected_count, n_unit_slots, len; simpl. lia.
  - intros i. rewrite elem_of_union, !elem_of_singleton.
    unfold selected_count, n_unit_slots, len; simpl. lia.
Defined.

(** The global pass over a store none of whose units refers to a key of
    the map, the empty map for one, rewrites nothing: it returns 0, prints
    nothing and leaves every object as it was. *)
Theorem global_pass_without_matches m s :
  allocated (objs s) (target_data s) →
  (∀ c j l u, unit_at (target_data s) c j = Some l → objs s !! l = Some u →
     Forall (λ v, m !! v = None) (unit_id_refs u).*2) →
  remap_unit_copy_base_ids_global m s = Returned 0 s.
Proof.
  intros Halloc Hrefs.
  destruct (remap_global_run m s Halloc) as (total & s' & Hrun & Hinv & Hout).
  destruct Hinv as [Ht _ _ _ Hset].
  destruct Hset as [-> Hobjs].
  { intros c j l u Hat Hl. apply relocate_unit_id. by eapply Hrefs. }
  rewrite Hrun. f_equal.
  rewrite bool_decide_eq_false_2, app_nil_r in Hout by (by intros ?).
  destruct s, s'. simpl in *. by subst.
Qed.

Lemma global_pass_without_matches_witness :
  remap_unit_copy_base_ids_global ∅ ex_state = Returned 0 ex_state.
Proof.
  apply (global_pass_without_matches ∅ ex_state).
  - solve_allocated.
  - intros c j l u _ _. apply Forall_forall. intros v _. apply lookup_empty.
Defined.

(** ** What the footprint holds *)

Lemma implanted_copy_of source_data copy_extra S T K s s1 i c :
  objs s `prefix_of` objs s1 →
  implanted source_data copy_extra S T K s s1 i c →
  copy_of (id_mapping_of S T K) s s1
    (source_slot source_data copy_extra c (S + i)) c (T + i).
Proof.
  intros Hpre. unfold implanted, copy_of.
  destruct (source_slot source_data copy_extra c (S + i)) as [u0|]; [|done].
  intros (l & us & Hat & Hl & Hus & Hu').
  exists l, us, (relocate_unit (id_mapping_of S T K) (Unit.set_id (T + i) us)).
  split; [done|]. split; [done|]. split; [done|].
  split; [by eapply prefix_lookup_Some|]. split; [done|]. split; [done|].
  apply relocate_unit_rewritten.
Qed.

(** Every slot of the footprint of every target civilisation holds a copy
    of the source unit at the same offset: that of the same civilisation
    when the source has it and its unit list reaches that far, that of the
    first civilisation otherwise when [copy_extra_civs_from_first] is set,
    and nothing otherwise.  A copy is a new object, numbered after its
    slot, with its references rewritten by the offset map; the source
    object is not modified. *)
Theorem implant_copies_units source_data S e c T warn copy_extra s :
  0 ≤ S → 0 ≤ T →
  allocated (objs s) source_data → allocated (objs s) (target_data s) →
  ¬ range_error (n_unit_slots source_data) S e c →
  let K := selected_count (n_unit_slots source_data) S e c in
  ∃ s1,
    implant_units_from_dat source_data S e c T warn copy_extra s
    = Returned K s1
    ∧ ∀ i c', 0 ≤ i < K → 0 ≤ c' < len (DatFile.civs (target_data s)) →
        (∀ civ, slot (DatFile.civs source_data) c' = Some civ →
           S + i < len (Civ.units civ) →
           copy_of (id_mapping_of S T K) s s1
             (unit_at source_data c' (S + i)) c' (T + i))
        ∧ ((∀ civ, slot (DatFile.civs source_data) c' = Some civ →
              len (Civ.units civ) ≤ S + i) →
           copy_of (id_mapping_of S T K) s s1
             (if copy_extra then unit_at source_data 0 (S + i) else None)
             c' (T + i)).
Proof.
  intros HS HT Hsrc Htgt Hrange K.
  destruct (implant_units_post source_data S e c T warn copy_extra s HS HT
              Hsrc Htgt Hrange)
    as (s1 & Hrun & _ & _ & _ & Hpre & _ & _ & _ & _ & _ & Himpl & _).
  fold K in Hrun, Himpl.
  exists s1. split; [done|]. intros i c' Hi Hc'.
  pose proof (implanted_copy_of _ _ _ _ _ _ _ _ _ Hpre (Himpl i c' Hi Hc'))
    as Hcopy.
  assert ((if copy_extra then
             match DatFile.civs source_data with
             | civ0 :: _ => mjoin (slot (Civ.units civ0) (S + i))
             | [] => None
             end
           else None)
          = if copy_extra then unit_at source_data 0 (S + i) else None)
    as Hfb.
  { destruct copy_extra; [|done]. unfold unit_at.
    by destruct (DatFile.civs source_data). }
  split.
  - intros civ Hciv Hlen. unfold source_slot in Hcopy.
    rewrite Hciv, bool_decide_eq_true_2 in Hcopy by done.
    unfold unit_at. by rewrite Hciv.
  - intros Hshort. unfold source_slot in Hcopy. rewrite Hfb in Hcopy.
    destruct (slot (DatFile.civs source_data) c') as [civ|]; [|done].
    by rewrite bool_decide_eq_false_2 in Hcopy
      by (pose proof (Hshort civ eq_refl); lia).
Qed.

Lemma implant_copies_units_witness :
  ∃ s1,
    implant_units_from_dat ex_source 1 None (Some 2) 2 true true ex_state
    = Returned (selected_count (n_unit_slots ex_source) 1 None (Some 2)) s1
    ∧ ∀ i c',
        0 ≤ i < selected_count (n_unit_slots ex_source) 1 None (Some 2) →
        0 ≤ c' < len (DatFile.civs (target_data ex_state)) →
        (∀ civ, slot (DatFile.civs ex_source) c' = Some civ →
           1 + i < len (Civ.units civ) →
           copy_of
             (id_mapping_of 1 2
                (selected_count (n_unit_slots ex_source) 1 None (Some 2)))
             ex_state s1 (unit_at ex_source c' (1 + i)) c' (2 + i))
        ∧ ((∀ civ, slot (DatFile.civs ex_source) c' = Some civ →
              len (Civ.units civ) ≤ 1 + i) →
           copy_of
             (id_mapping_of 1 2
                (selected_count (n_unit_slots ex_source) 1 None (Some 2)))
             ex_state s1
             (if true then unit_at ex_source 0 (1 + i) else None)
             c' (2 + i)).
Proof.
  apply (implant_copies_units ex_source 1 None (Some 2) 2 true true ex_state).
  - lia.
  - lia.
  - solve_allocated.
  - solve_allocated.
  - solve_no_range_error.
Defined.

(** The implant makes room first: afterwards the unit headers, and the
    unit list of every civilisation, reach to the end of the footprint and
    are otherwise as long as they were.  A slot gained below the footprint
    holds the blank header ([exists = 0]) and no unit.  Header [T + i] is
    the source's header [S + i], or the blank header where the source has
    fewer headers than unit slots. *)
Theorem implant_extends_target source_data S e c T warn copy_extra s :
  0 ≤ S → 0 ≤ T →
  allocated (objs s) source_data → allocated (objs s) (target_data s) →
  ¬ range_error (n_unit_slots source_data) S e c →
  let K := selected_count (n_unit_slots source_data) S e c in
  ∃ s1,
    implant_units_from_dat source_data S e c T warn copy_extra s
    = Returned K s1
    ∧ len (DatFile.unit_headers (target_data s1))
      = Z.max (len (DatFile.unit_headers (target_data s))) (T + K)
    ∧ (∀ j, len (DatFile.unit_headers (target_data s)) ≤ j < T →
         slot (DatFile.unit_headers (target_data s1)) j
         = Some _blank_unit_header)
    ∧ (∀ i, 0 ≤ i < K →
         slot (DatFile.unit_headers (target_data s1)) (T + i)
         = Some (default _blank_unit_header
                   (slot (DatFile.unit_headers source_data) (S + i))))
    ∧ (∀ c' civ, slot (DatFile.civs (target_data s)) c' = Some civ →
         ∃ civ1,
           slot (DatFile.civs (target_data s1)) c' = Some civ1
           ∧ len (Civ.units civ1) = Z.max (len (Civ.units civ)) (T + K)
           ∧ ∀ j, len (Civ.units civ) ≤ j < T →
               slot (Civ.units civ1) j = Some None).
Proof.
  intros HS HT Hsrc Htgt Hrange K.
  destruct (implant_units_post source_data S e c T warn copy_extra s HS HT
              Hsrc Htgt Hrange)
    as (s1 & Hrun & HK & _ & _ & _ & Hshape & Hhlen & Hhdone & Hhframe
        & Hframe & _ & _).
  fold K in Hrun, HK, Hshape, Hhlen, Hhdone, Hhframe, Hframe.
  exists s1. split; [done|]. split; [done|]. split; [|split; [done|]].
  - intros j Hj. rewrite Hhframe by lia. rewrite slot_ensure_length.
    rewrite bool_decide_eq_false_2 by lia.
    by rewrite bool_decide_eq_true_2 by (unfold len in *; lia).
  - intros c' civ Hciv.
    assert (slot (DatFile.civs (extended (target_data s) (T + K))) c'
            = Some (Civ.set_units
                      (_ensure_length (Civ.units civ) (T + K) None) civ))
      as Hciv0.
    { by rewrite extended_civs, slot_fmap, Hciv. }
    destruct (civ_shape_slot _ _ _ _ Hshape Hciv0)
      as (civ1 & Hciv1 & _ & Hlen).
    simpl in Hlen. rewrite len_ensure_length in Hlen.
    exists civ1. split; [done|]. split; [done|].
    intros j Hj.
    destruct (slot_is_Some (Civ.units civ1) j) as [o Ho];
      [unfold len in *; lia|].
    rewrite Ho. f_equal.
    pose proof (Hframe c' j) as Hf. unfold unit_at in Hf.
    rewrite Hciv1, Hciv in Hf. simpl in Hf.
    rewrite Ho, slot_ge in Hf by lia. simpl in Hf. apply Hf. lia.
Qed.

Lemma implant_extends_target_witness :
  ∃ s1,
    implant_units_from_dat ex_source 1 None (Some 2) 3 true true ex_state
    = Returned (selected_count (n_unit_slots ex_source) 1 None (Some 2)) s1
    ∧ len (DatFile.unit_headers (target_data s1))
      = Z.max (len (DatFile.unit_headers (target_data ex_state)))
          (3 + selected_count (n_unit_slots ex_source) 1 None (Some 2))
    ∧ (∀ j, len (DatFile.unit_headers (target_data ex_state)) ≤ j < 3 →
         slot (DatFile.unit_headers (target_data s1)) j
         = Some _blank_unit_header)
    ∧ (∀ i,
         0 ≤ i < selected_count (n_unit_slots ex_source) 1 None (Some 2) →
         slot (DatFile.unit_headers (target_data s1)) (3 + i)
         = Some (default _blank_unit_header
                   (slot (DatFile.unit_headers ex_source) (1 + i))))
    ∧ (∀ c' civ, slot (DatFile.civs (target_data ex_state)) c' = Some civ →
         ∃ civ1,
           slot (DatFile.civs (target_data s1)) c' = Some civ1
           ∧ len (Civ.units civ1)
             = Z.max (len (Civ.units civ))
                 (3 + selected_count (n_unit_slots ex_source) 1 None (Some 2))
           ∧ ∀ j, len (Civ.units civ) ≤ j < 3 →
               slot (Civ.units civ1) j = Some None).
Proof.
  apply (implant_extends_target ex_source 1 None (Some 2) 3 true true
           ex_state).
  - lia.
  - lia.
  - solve_allocated.
  - solve_allocated.
  - solve_no_range_error.
Defined.

(** ** Implanting in place *)

Lemma fmap_fixed {A} (f : A → A) (l : list A) : (∀ a, f a = a) → f <$> l = l.
Proof.
  intros H. induction l as [|a l IH]; [done|]. by rewrite fmap_cons, H, IH.
Qed.

Lemma relocate_unit_fixed m u : (∀ v, relocate m v = v) → relocate_unit m u = u.
Proof.
  intros H. destruct u as [i nm hp sg ci bi du bu b p d c].
  unfold relocate_unit; simpl. rewrite !H. f_equal.
  - destruct b as [[cg su hu tu pu ti an]|]; simpl; [|done].
    unfold relocate_building; simpl. rewrite !H. do 2 f_equal.
    apply fmap_fixed. intros [uid mx my].
    unfold relocate_annex, BuildingAnnex.set_unit_id; simpl. by rewrite H.
  - destruct p as [[pt [pu|]]|]; simpl; [|done|done].
    unfold relocate_projectile; simpl. by rewrite H.
  - destruct d as [[wg tu tm]|]; simpl; [|done].
    unfold relocate_dead_fish, DeadFish.set_tracking_unit; simpl.
    by rewrite H.
  - destruct c as [[hm tl]|]; simpl; [|done].
    unfold relocate_creatable, Creatable.set_train_locations; simpl.
    do 2 f_equal. apply fmap_fixed. intros [tt uid bid].
    unfold relocate_train_location, TrainLocation.set_unit_id; simpl.
    by rewrite H.
Qed.

(** An implant at the position the units have in the source
    ([target_start = source_start]) rewrites no reference: the copy that a
    footprint slot receives is the source unit of that civilisation and
    slot with [id] set to the slot index and everything else as it is. *)
Theorem unit_implant_in_place source_data S e c warn copy_extra s :
  0 ≤ S →
  allocated (objs s) source_data → allocated (objs s) (target_data s) →
  ¬ range_error (n_unit_slots source_data) S e c →
  let K := selected_count (n_unit_slots source_data) S e c in
  ∃ s1,
    implant_units_from_dat source_data S e c S warn copy_extra s
    = Returned K s1
    ∧ ∀ j c' civ u0 us,
        S ≤ j < S + K → 0 ≤ c' < len (DatFile.civs (target_data s)) →
        slot (DatFile.civs source_data) c' = Some civ →
        slot (Civ.units civ) j = Some (Some u0) → objs s !! u0 = Some us →
        ∃ l, unit_at (target_data s1) c' j = Some l
             ∧ l ≠ u0
             ∧ objs s1 !! l = Some (Unit.set_id j us).
Proof.
  intros HS Hsrc Htgt Hrange K.
  destruct (implant_units_post source_data S e c S warn copy_extra s HS HS
              Hsrc Htgt Hrange)
    as (s1 & Hrun & _ & _ & _ & _ & _ & _ & _ & _ & _ & Himpl & _).
  fold K in Hrun, Himpl.
  exists s1. split; [done|]. intros j c' civ u0 us Hj Hc' Hciv Hu0 Hus.
  pose proof (Himpl (j - S) c') as Hi. unfold implanted, source_slot in Hi.
  replace (S + (j - S)) with j in Hi by lia.
  rewrite Hciv, bool_decide_eq_true_2, Hu0 in Hi
    by (apply slot_Some_lt in Hu0; lia).
  simpl in Hi. destruct Hi as (l & us' & Hat & Hl & Hus' & Hu'); [lia|done|].
  rewrite Hus in Hus'. injection Hus' as <-.
  exists l. split; [done|]. split.
  { apply lookup_lt_Some in Hus. lia. }
  rewrite Hu'. f_equal. apply relocate_unit_fixed.
  intros v. rewrite relocate_id_mapping_of. case_bool_decide; lia.
Qed.

Lemma unit_implant_in_place_witness :
  ∃ s1,
    implant_units_from_dat ex_source 1 None (Some 1) 1 true true ex_state
    = Returned (selected_count (n_unit_slots ex_source) 1 None (Some 1)) s1
    ∧ ∀ j c' civ u0 us,
        1 ≤ j < 1 + selected_count (n_unit_slots ex_source) 1 None (Some 1) →
        0 ≤ c' < len (DatFile.civs (target_data ex_state)) →
        slot (DatFile.civs ex_source) c' = Some civ →
        slot (Civ.units civ) j = Some (Some u0) →
        objs ex_state !! u0 = Some us →
        ∃ l, unit_at (target_data s1) c' j = Some l
             ∧ l ≠ u0
             ∧ objs s1 !! l = Some (Unit.set_id j us).
Proof.
  apply (unit_implant_in_place ex_source 1 None (Some 1) true true ex_state).
  - lia.
  - solve_allocated.
  - solve_allocated.
  - solve_no_range_error.
Defined.

(** ** Finalisation, then the check *)

Lemma unit_id_refs_iter m k u :
  (unit_id_refs (Nat.iter k (relocate_unit m) u)).*2
  = Nat.iter k (relocate m) <$> (unit_id_refs u).*2.
Proof.
  induction k as [|k IH].
  - cbn [Nat.iter nat_rect]. by rewrite list_fmap_id.
  - rewrite Nat.iter_succ, unit_id_refs_relocate.
    trans (relocate m <$> (unit_id_refs (Nat.iter k (relocate_unit m) u)).*2).
    { rewrite <- !list_fmap_compose. by apply list_fmap_ext; intros i [p v] _. }
    rewrite IH, <- list_fmap_compose. apply list_fmap_ext. intros i v _.
    reflexivity.
Qed.

Lemma relocate_not_stale m (stale : gset Z) v :
  (∀ v, v ∈ stale → is_Some (m !! v)) →
  (∀ v w, m !! v = Some w → w ∉ stale) →
  relocate m v ∉ stale.
Proof.
  intros Hdom Hval. unfold relocate.
  destruct (m !! v) as [w|] eqn:Hv; simpl; [by eapply Hval|].
  intros [w Hw]%Hdom. congruence.
Qed.

(** The two passes of the finalisation return, and so does the check
    after them; with a map that has every stale id as a key and none as a
    value, the check finds nothing. *)
Lemma finalize_then_check m (indices stale : gset Z) s :
  (∀ i, i ∈ indices → 0 ≤ i) →
  allocated (objs s) (target_data s) →
  (∀ c j c' j' l, j ∈ indices → j' ∈ indices →
     unit_at (target_data s) c j = Some l →
     unit_at (target_data s) c' j' = Some l → j = j') →
  ∃ r s2 issues,
    finalize_unit_id_migration m indices s = Returned r s2
    ∧ check_unit_id_coherence indices stale s2 = Returned issues s2
    ∧ ((∀ v, v ∈ stale → is_Some (m !! v)) →
       (∀ v w, m !! v = Some w → w ∉ stale) → issues = []).
Proof.
  intros Hpos Halloc Hslots.
  destruct (fix_self_ids_aligns indices s Hpos Halloc Hslots)
    as (n_id & sf & Hfix & [Htf _ Hlenf _ Hdonef]).
  cbn [set_stdout objs target_data] in Htf, Hlenf, Hdonef.
  assert (allocated (objs sf) (target_data sf)) as Hallocf.
  { rewrite Htf. eapply allocated_mono; [|exact Halloc]. lia. }
  destruct (remap_global_run m sf Hallocf)
    as (n_refs & s2 & Hglob & [Htr _ Hlenr Hobjsr _] & _).
  cbn [set_stdout objs target_data] in Htr, Hlenr, Hobjsr.
  eexists (n_id, n_refs), s2, _. split.
  { unfold finalize_unit_id_migration.
    erewrite bind_returned by exact Hfix.
    erewrite bind_returned by exact Hglob. done. }
  split.
  { rewrite check_run; [done|done|].
    rewrite Htr. eapply allocated_mono; [|exact Hallocf]. lia. }
  intros Hdom Hval.
  apply bind_nil_all. intros [civ_idx civ] _.
  apply bind_nil_all. intros ui Hui%elem_of_elements.
  unfold slot_record.
  destruct (unit_at (target_data s2) civ_idx ui) as [l|] eqn:Hat; [|done].
  simpl. destruct (objs s2 !! l) as [u|] eqn:Hl; [|done]. simpl.
  rewrite Htr in Hat.
  pose proof (allocated_unit_at _ _ _ _ _ Hallocf Hat) as Hlt.
  rewrite Hlenf in Hlt.
  destruct (lookup_lt_is_Some_2 _ _ Hlt) as [u0 Hu0].
  destruct (unit_at_nonneg _ _ _ _ Hat) as [Hc Hj].
  pose proof Hat as Hats. rewrite Htf in Hats.
  pose proof (Hdonef civ_idx ui l u0 Hc Hui Hats Hu0) as Huf.
  destruct (Hobjsr l _ Huf) as (k & Hk & Hk1 & _).
  rewrite Hl in Hk. injection Hk as ->.
  apply slot_issues_nil.
  - by rewrite iter_relocate_id.
  - rewrite unit_id_refs_iter. apply Forall_fmap, Forall_forall.
    intros v _. simpl.
    pose proof (Hk1 civ_idx ui (conj Hc Hj) Hat) as Hk'.
    destruct k as [|k]; [lia|]. rewrite Nat.iter_succ.
    by apply relocate_not_stale.
Qed.

(** The finalisation establishes what the coherence check verifies.  On a
    store where no object sits in two indexed slots of different index,
    with a map that has every stale id as a key and no stale id as a
    value, [finalize_unit_id_migration] followed by
    [check_unit_id_coherence] over the same slots reports nothing. *)
Theorem finalize_passes_check m (indices stale : gset Z) s :
  (∀ i, i ∈ indices → 0 ≤ i) →
  allocated (objs s) (target_data s) →
  (∀ c j c' j' l, j ∈ indices → j' ∈ indices →
     unit_at (target_data s) c j = Some l →
     unit_at (target_data s) c' j' = Some l → j = j') →
  (∀ v, v ∈ stale → is_Some (m !! v)) →
  (∀ v w, m !! v = Some w → w ∉ stale) →
  ∃ r s2,
    finalize_unit_id_migration m indices s = Returned r s2
    ∧ check_unit_id_coherence indices stale s2 = Returned [] s2.
Proof.
  intros Hpos Halloc Hslots Hdom Hval.
  destruct (finalize_then_check m indices stale s Hpos Halloc Hslots)
    as (r & s2 & issues & Hfin & Hcheck & Hnil).
  exists r, s2. split; [done|]. by rewrite <- (Hnil Hdom Hval).
Qed.

Lemma finalize_passes_check_witness :
  ∃ r s2,
    finalize_unit_id_migration (id_mapping_of 0 4 2) {[0; 1]} ex_state
    = Returned r s2
    ∧ check_unit_id_coherence {[0; 1]} {[0; 1]} s2 = Returned [] s2.
Proof.
  apply (finalize_passes_check (id_mapping_of 0 4 2) {[0; 1]} {[0; 1]}
           ex_state).
  - intros i. rewrite elem_of_union, !elem_of_singleton. lia.
  - solve_allocated.
  - intros c j c' j' l _ _ Hat Hat'.
    solve_unit_at Hat; solve_unit_at Hat'; simplify_eq; lia.
  - intros v. rewrite elem_of_union, !elem_of_singleton.
    rewrite lookup_id_mapping_of. intros Hv.
    rewrite bool_decide_eq_true_2 by lia. by eexists.
  - intros v w. rewrite lookup_id_mapping_of.
    case_bool_decide; [|done]. intros [= <-].
    rewrite elem_of_union, !elem_of_singleton. lia.
Defined.

(** * [tools/dat_implant_graphics.py] *)

Lemma sbind_done {St A B} (m : SM St A) (k : A → SM St B) s a s' :
  m s = Done a s' → (m ≫= k) s = k a s'.
Proof. unfold mbind, SM_bind. by intros ->. Qed.

Lemma sbind_fail {St A B} (m : SM St A) (k : A → SM St B) s e s' :
  m s = Fail e s' → (m ≫= k) s = Fail e s'.
Proof. unfold mbind, SM_bind. by intros ->. Qed.

Lemma sfor_fold_inv {St A B} (I : list A → B → St → Prop)
    (l : list A) (body : A → B → SM St B) acc s :
  I [] acc s →
  (∀ done x rest acc s,
     l = done ++ x :: rest → I done acc s →
     ∃ acc' s', body x acc s = Done acc' s' ∧ I (done ++ [x]) acc' s') →
  ∃ acc' s', sfor_fold l body acc s = Done acc' s' ∧ I l acc' s'.
Proof.
  intros H0 Hstep.
  cut (∀ todo done acc s, l = done ++ todo → I done acc s →
        ∃ acc' s', sfor_fold todo body acc s = Done acc' s' ∧ I l acc' s').
  { intros H. by apply (H l []). }
  induction todo as [|x todo IH]; intros done acc1 s1 Hl HI.
  - rewrite app_nil_r in Hl. subst. simpl. eauto.
  - destruct (Hstep done x todo acc1 s1 Hl HI) as (acc2 & s2 & Hb & HI2).
    cbn [sfor_fold]. rewrite (sbind_done _ _ _ _ _ Hb).
    apply (IH (done ++ [x])); [by rewrite <- app_assoc|done].
Qed.

Lemma sfor_inv {St A} (I : list A → St → Prop)
    (l : list A) (body : A → SM St unit) s :
  I [] s →
  (∀ done x rest s,
     l = done ++ x :: rest → I done s →
     ∃ s', body x s = Done tt s' ∧ I (done ++ [x]) s') →
  ∃ s', sfor l body s = Done tt s' ∧ I l s'.
Proof.
  intros H0 Hstep.
  destruct (sfor_fold_inv (λ done _ s, I done s) l (λ x _, body x) tt s)
    as ([] & s' & ? & ?); [done| |by eauto].
  intros done x rest [] s1 Hl HI.
  destruct (Hstep done x rest s1 Hl HI) as (s2 & ? & ?). by exists tt, s2.
Qed.

Lemma sgetitem_slot {St A} (l : list A) i x (s : St) :
  slot l i = Some x → sgetitem l i s = Done x s.
Proof.
  intros H. pose proof (slot_Some_lt _ _ _ H) as Hi.
  unfold sgetitem. rewrite py_index_nonneg by done. simpl.
  rewrite slot_lookup in H by lia. by rewrite H.
Qed.

Lemma ssetitem_slot {St A} (l : list A) i x (s : St) :
  0 ≤ i < len l → ssetitem l i x s = Done (<[Z.to_nat i:=x]> l) s.
Proof. intros H. unfold ssetitem. by rewrite py_index_nonneg. Qed.

Lemma held_graphics_snoc gs t x :
  0 ≤ x →
  held_graphics gs t (x + 1)
  = held_graphics gs t x
    ++ from_option (λ g, [(t + x, Graphic.name g)]) []
         (mjoin (slot gs (t + x))).
Proof.
  intros Hx. unfold held_graphics.
  rewrite <- range_snoc by done. rewrite omap_app. f_equal. simpl.
  by destruct (mjoin (slot gs (t + x))).
Qed.

(** The comprehension reads the slots of the footprint and changes
    nothing. *)
Lemma overwritten_graphics_run t K s :
  0 ≤ t → 0 ≤ K → t + K ≤ len (graphics s) →
  overwritten_graphics t K s = Done (held_graphics (graphics s) t K) s.
Proof.
  intros Ht HK Hlen. unfold overwritten_graphics.
  match goal with |- sfor_fold _ ?body _ _ = _ =>
    destruct (sfor_fold_inv
      (λ done (acc : list (Z * string)) s',
         s' = s ∧ acc = held_graphics (graphics s) t (len done))
      (range K) body [] s) as (acc & s' & Hrun & -> & ->)
  end.
  - done.
  - intros done x rest acc s1 Hsplit [-> ->].
    apply range_split in Hsplit as (Hx & HxK & _).
    erewrite sbind_done by reflexivity.
    destruct (slot_is_Some (graphics s) (t + x)) as [g Hg]; [lia|].
    erewrite sbind_done by (by apply sgetitem_slot).
    assert (len (done ++ [x]) = x + 1) as Hlen'.
    { unfold len in *. rewrite length_app; simpl. lia. }
    rewrite Hlen', held_graphics_snoc, <- Hx, Hg by lia.
    destruct g as [g|]; simpl.
    + erewrite sbind_done by reflexivity.
      erewrite sbind_done by (by apply sgetitem_slot).
      by eexists _, _.
    + rewrite app_nil_r. by eexists _, _.
  - rewrite Hrun. do 2 f_equal. unfold range, len. rewrite length_seqZ. lia.
Qed.

(** The copy loop writes the footprint and nothing else. *)
Lemma copy_graphics_run src S t K s :
  0 ≤ S → 0 ≤ t → 0 ≤ K → S + K ≤ len src → t + K ≤ len (graphics s) →
  ∃ gs,
    sfor (range K) (λ i,
      g ← sgetitem src (S + i);
      gs ← sgets graphics;
      gs ← ssetitem gs (t + i) g;
      smodify (set_graphics gs)) s
    = Done tt (set_graphics gs s)
    ∧ len gs = len (graphics s)
    ∧ ∀ j, slot gs j
           = if bool_decide (t ≤ j < t + K) then slot src (S + (j - t))
             else slot (graphics s) j.
Proof.
  intros HS Ht HK HSK HtK.
  match goal with |- ∃ _, sfor _ ?body _ = _ ∧ _ =>
    destruct (sfor_inv
      (λ done s',
         gout s' = gout s ∧ len (graphics s') = len (graphics s)
         ∧ ∀ j, slot (graphics s') j
                = if bool_decide (t ≤ j < t + len done)
                  then slot src (S + (j - t)) else slot (graphics s) j)
      (range K) body s) as (s' & Hrun & Hout & Hlen & Hslots)
  end.
  - split; [done|]. split; [done|]. intros j.
    by rewrite bool_decide_eq_false_2 by (unfold len; simpl; lia).
  - intros done x rest s1 Hsplit (Hout & Hlen & Hslots).
    apply range_split in Hsplit as (Hx & HxK & _).
    destruct (slot_is_Some src (S + x)) as [g Hg]; [lia|].
    erewrite sbind_done by (by apply sgetitem_slot).
    erewrite sbind_done by reflexivity.
    erewrite sbind_done by (apply ssetitem_slot; lia).
    eexists. split; [reflexivity|]. simpl.
    split; [done|]. split; [by rewrite len_insert|].
    intros j. rewrite slot_insert by lia.
    assert (len (done ++ [x]) = x + 1) as ->.
    { unfold len in *. rewrite length_app; simpl. lia. }
    destruct (decide (j = t + x)) as [->|Hne].
    + rewrite bool_decide_eq_true_2 by done.
      rewrite bool_decide_eq_true_2 by lia.
      by replace (S + (t + x - t)) with (S + x) by lia.
    + rewrite bool_decide_eq_false_2 by done. rewrite Hslots, <- Hx.
      if_ext. lia.
  - exists (graphics s'). split; [|split; [done|]].
    + rewrite Hrun. f_equal. destruct s, s'. simpl in *. by subst.
    + intros j. rewrite Hslots. unfold range, len. rewrite length_seqZ.
      by rewrite Z2Nat.id by lia.
Qed.

Lemma graphics_range_error_dec n S e : Decision (graphics_range_error n S e).
Proof.
  unfold graphics_range_error.
  destruct (decide (n ≤ S)); [left; by left|].
  destruct e as [e|].
  - destruct (decide (e < S ∨ n ≤ e)).
    + left. right. by exists e.
    + right. intros [?|(e' & [= <-] & ?)]; done.
  - right. intros [?|(e' & ? & _)]; done.
Qed.

Lemma sfor_gprint (l : list (Z * string)) s :
  sfor l (λ '(idx, name), gprint (GNoteSlot idx name)) s
  = Done tt (mkGState (graphics s) (gout s ++ (uncurry GNoteSlot <$> l))).
Proof.
  unfold sfor. revert s. induction l as [|[idx name] l IH]; intros s; simpl.
  - rewrite app_nil_r. by destruct s.
  - erewrite sbind_done by reflexivity. rewrite IH. simpl.
    by rewrite <- app_assoc.
Qed.

Lemma held_graphics_ensure gs n t K :
  0 ≤ t →
  held_graphics (_ensure_length gs n None) t K = held_graphics gs t K.
Proof.
  intros Ht. unfold held_graphics. apply list_omap_ext, Forall_Forall2_diag.
  apply Forall_forall. intros i Hi%elem_of_seqZ. rewrite slot_ensure_length.
  destruct (decide (t + i < len gs)).
  - by rewrite bool_decide_eq_true_2.
  - rewrite bool_decide_eq_false_2, (slot_ge gs) by lia.
    by case_bool_decide.
Qed.

Lemma implant_graphics_run src S e T warn s :
  0 ≤ S → (∀ t, T = Some t → 0 ≤ t) →
  ¬ graphics_range_error (len src) S e →
  let K := default (len src - 1) e - S + 1 in
  let t := default S T in
  let held := held_graphics (graphics s) t K in
  ∃ gs,
    implant_graphics_from_dat src S e T warn s
    = Done K
        (mkGState gs
           (gout s ++ (if bool_decide (held ≠ []) && warn
                       then graphics_notice held else [])))
    ∧ 0 < K
    ∧ len gs = Z.max (len (graphics s)) (t + K)
    ∧ ∀ j, slot gs j
           = if bool_decide (t ≤ j < t + K) then slot src (S + (j - t))
             else slot (_ensure_length (graphics s) (t + K) None) j.
Proof.
  intros HS HT Hrange K t held. unfold implant_graphics_from_dat.
  rewrite bool_decide_eq_false_2 by (intros ?; apply Hrange; left; lia).
  assert (S ≤ default (len src - 1) e < len src) as Hlast.
  { destruct e as [e|]; simpl.
    - destruct (decide (e < S ∨ len src ≤ e)); [|lia].
      exfalso. apply Hrange. right. by exists e.
    - destruct (decide (len src ≤ S)); [|lia]. exfalso. apply Hrange. by left. }
  erewrite (sbind_done _ _ s (default (len src - 1) e) s); cycle 1.
  { destruct e as [e|]; simpl in *; [|done].
    by rewrite !bool_decide_eq_false_2 by lia. }
  fold K.
  assert (0 < K) as HK by (unfold K; lia).
  assert (0 ≤ t) as Ht.
  { unfold t. destruct T as [t0|]; simpl; [by apply HT|done]. }
  set (s1 := set_graphics (_ensure_length (graphics s) (t + K) None) s).
  assert (∀ k : Z * list (Z * string) → SM gstate Z,
    (match T with
     | Some target_start =>
         smodify (λ s,
           set_graphics
             (_ensure_length (graphics s) (target_start + K) None) s)
         ≫= λ _, overwritten_graphics target_start K
         ≫= λ overwritten, mret (target_start, overwritten)
     | None =>
         smodify (λ s,
           set_graphics
             (_ensure_length (graphics s)
                (default (len src - 1) e + 1) None) s)
         ≫= λ _, overwritten_graphics S K
         ≫= λ overwritten, mret (S, overwritten)
     end ≫= k) s = k (t, held) s1) as Hfirst.
  { intros k. unfold t, held, s1.
    destruct T as [t0|]; simpl.
    - erewrite sbind_done; [reflexivity|].
      erewrite sbind_done by reflexivity.
      erewrite sbind_done; [reflexivity|].
      rewrite overwritten_graphics_run; simpl;
        rewrite ?len_ensure_length; [|by apply HT|lia|lia].
      by rewrite held_graphics_ensure by (by apply HT).
    - replace (default (len src - 1) e + 1) with (S + K) by (unfold K; lia).
      erewrite sbind_done; [reflexivity|].
      erewrite sbind_done by reflexivity.
      erewrite sbind_done; [reflexivity|].
      rewrite overwritten_graphics_run; simpl;
        rewrite ?len_ensure_length; [|done|lia|lia].
      by rewrite held_graphics_ensure by done. }
  rewrite Hfirst. clear Hfirst.
  set (notice := if bool_decide (held ≠ []) && warn
                 then graphics_notice held else []).
  set (s2 := mkGState (graphics s1) (gout s1 ++ notice)).
  erewrite (sbind_done _ _ s1 tt s2); cycle 1.
  { unfold s2, notice. destruct (bool_decide (held ≠ []) && warn); simpl.
    - erewrite sbind_done by reflexivity.
      erewrite sbind_done by apply sfor_gprint.
      unfold graphics_notice. simpl.
      case_bool_decide; unfold gprint, smodify, mret, SM_ret; simpl;
        do 2 f_equal; rewrite <- !app_assoc; simpl; by rewrite ?app_nil_r.
    - unfold mret, SM_ret, s1, set_graphics; simpl. by rewrite app_nil_r. }
  destruct (copy_graphics_run src S t K s2) as (gs & Hcopy & Hlen & Hslots);
    [done|done|lia|lia| |].
  { simpl. rewrite len_ensure_length. lia. }
  erewrite sbind_done by exact Hcopy.
  exists gs. split; [done|]. split; [done|]. split; [|done].
  rewrite Hlen. simpl. apply len_ensure_length.
Qed.

Lemma elem_of_held_graphics gs t K idx name :
  (idx, name) ∈ held_graphics gs t K
  ↔ t ≤ idx < t + K
    ∧ ∃ g, slot gs idx = Some (Some g) ∧ Graphic.name g = name.
Proof.
  unfold held_graphics. rewrite list_elem_of_omap. split.
  - intros (i & Hi%elem_of_seqZ & Hg).
    destruct (slot gs (t + i)) as [[g|]|] eqn:Hs; simpl in Hg; try done.
    injection Hg as <- <-. split; [lia|]. by exists g.
  - intros (Hidx & g & Hs & <-). exists (idx - t). split.
    + apply elem_of_seqZ. lia.
    + replace (t + (idx - t)) with idx by lia. by rewrite Hs.
Qed.

Lemma held_graphics_sorted gs t K :
  StronglySorted Z.lt (held_graphics gs t K).*1.
Proof.
  destruct (decide (0 ≤ K)) as [HK|HK].
  2:{ unfold held_graphics, range. rewrite seqZ_nil by lia. constructor. }
  rewrite <- (Z2Nat.id K) by done.
  induction (Z.to_nat K) as [|n IH]; [constructor|].
  rewrite Nat2Z.inj_succ, <- Z.add_1_r, held_graphics_snoc, fmap_app by lia.
  apply StronglySorted_app_2; [|done|].
  - intros x1 x2 ([i1 n1] & -> & [H1 _]%elem_of_held_graphics)%list_elem_of_fmap.
    intros ([i2 n2] & -> & H2)%list_elem_of_fmap. simpl.
    destruct (mjoin (slot gs (t + Z.of_nat n))); simpl in H2;
      [|by apply elem_of_nil in H2].
    apply list_elem_of_singleton in H2 as [= -> _]. lia.
  - destruct (mjoin (slot gs (t + Z.of_nat n))); simpl; repeat constructor.
Qed.

(** [implant_graphics_from_dat] raises, always [ValueError] and before it
    touches the target or prints, exactly when [source_start] is at or
    beyond the number of source graphics or a given [source_end] is below
    [source_start] or at or beyond that number.  Otherwise it returns
    [source_end - source_start + 1], with the last source graphic for
    [source_end] when none is given. *)
Theorem graphics_implant_outcome src S e T warn s :
  0 ≤ S → (∀ t, T = Some t → 0 ≤ t) →
  match implant_graphics_from_dat src S e T warn s with
  | Fail ex s1 =>
      ex = ValueError ∧ s1 = s ∧ graphics_range_error (len src) S e
  | Done k s1 =>
      ¬ graphics_range_error (len src) S e
      ∧ k = default (len src - 1) e - S + 1 ∧ 0 < k
  end.
Proof.
  intros HS HT.
  destruct (graphics_range_error_dec (len src) S e) as [Herr|Hrange].
  - unfold implant_graphics_from_dat.
    destruct (decide (len src ≤ S)) as [Hn|Hn].
    { by rewrite bool_decide_eq_true_2 by lia. }
    rewrite bool_decide_eq_false_2 by lia.
    pose proof Herr as Herr'.
    destruct Herr as [?|(e' & -> & He')]; [done|].
    erewrite (sbind_fail _ _ s ValueError s); [done|].
    destruct (decide (e' < S)).
    + by rewrite bool_decide_eq_true_2.
    + rewrite bool_decide_eq_false_2 by done.
      by rewrite bool_decide_eq_true_2 by lia.
  - destruct (implant_graphics_run src S e T warn s HS HT Hrange)
      as (gs & Hrun & HK & _).
    by rewrite Hrun.
Qed.

Lemma graphics_implant_outcome_witness :
  match implant_graphics_from_dat ex_graphics_source 1 (Some 0) None true
          ex_gstate with
  | Fail ex s1 =>
      ex = ValueError ∧ s1 = ex_gstate
      ∧ graphics_range_error (len ex_graphics_source) 1 (Some 0)
  | Done k s1 =>
      ¬ graphics_range_error (len ex_graphics_source) 1 (Some 0)
      ∧ k = default (len ex_graphics_source - 1) (Some 0) - 1 + 1 ∧ 0 < k
  end.
Proof.
  apply (graphics_implant_outcome ex_graphics_source 1 (Some 0) None true
           ex_gstate).
  - lia.
  - intros t [=].
Defined.

(** A graphics implant writes source graphic [source_start + i] (or
    [None] where the source has none) to slot [t + i], where [t] is
    [target_start], or [source_start] when no [target_start] is given.
    The target's graphics grow to [t + count] slots when they were fewer;
    a slot gained below the footprint holds [None], and every slot that
    existed outside the footprint keeps what it held. *)
Theorem graphics_implant_writes_footprint src S e T warn s :
  0 ≤ S → (∀ t, T = Some t → 0 ≤ t) →
  ¬ graphics_range_error (len src) S e →
  let K := default (len src - 1) e - S + 1 in
  let t := default S T in
  ∃ s1,
    implant_graphics_from_dat src S e T warn s = Done K s1
    ∧ len (graphics s1) = Z.max (len (graphics s)) (t + K)
    ∧ (∀ i, 0 ≤ i < K → slot (graphics s1) (t + i) = slot src (S + i))
    ∧ (∀ j, ¬ t ≤ j < t + K → j < len (graphics s) →
         slot (graphics s1) j = slot (graphics s) j)
    ∧ (∀ j, len (graphics s) ≤ j < t → slot (graphics s1) j = Some None).
Proof.
  intros HS HT Hrange K t.
  destruct (implant_graphics_run src S e T warn s HS HT Hrange)
    as (gs & Hrun & HK & Hlen & Hslots).
  fold K t in Hrun, HK, Hlen, Hslots.
  eexists. split; [exact Hrun|]. simpl. split; [done|]. split; [|split].
  - intros i Hi. rewrite Hslots, bool_decide_eq_true_2 by lia.
    f_equal. lia.
  - intros j Hj Hlt. rewrite Hslots, bool_decide_eq_false_2 by done.
    rewrite slot_ensure_length. by rewrite bool_decide_eq_true_2.
  - intros j Hj. rewrite Hslots, bool_decide_eq_false_2 by lia.
    rewrite slot_ensure_length. rewrite bool_decide_eq_false_2 by lia.
    by rewrite bool_decide_eq_true_2 by (unfold len in *; lia).
Qed.

Lemma graphics_implant_writes_footprint_witness :
  ∃ s1,
    implant_graphics_from_dat ex_graphics_source 1 None (Some 3) true
      ex_gstate
    = Done (default (len ex_graphics_source - 1) None - 1 + 1) s1
    ∧ len (graphics s1)
      = Z.max (len (graphics ex_gstate))
          (default 1 (Some 3)
           + (default (len ex_graphics_source - 1) None - 1 + 1))
    ∧ (∀ i, 0 ≤ i < default (len ex_graphics_source - 1) None - 1 + 1 →
         slot (graphics s1) (default 1 (Some 3) + i)
         = slot ex_graphics_source (1 + i))
    ∧ (∀ j,
         ¬ default 1 (Some 3) ≤ j
           < default 1 (Some 3)
             + (default (len ex_graphics_source - 1) None - 1 + 1) →
         j < len (graphics ex_gstate) →
         slot (graphics s1) j = slot (graphics ex_gstate) j)
    ∧ (∀ j, len (graphics ex_gstate) ≤ j < default 1 (Some 3) →
         slot (graphics s1) j = Some None).
Proof.
  apply (graphics_implant_writes_footprint ex_graphics_source 1 None (Some 3)
           true ex_gstate).
  - lia.
  - intros t [= <-]. lia.
  - unfold graphics_range_error, len; simpl.
    intros [?|(e' & [=] & _)]. lia.
Defined.

(** The overwrite notice of the graphics implant is printed exactly when
    [warn_overwrite] is set and some slot of the footprint held a graphic
    before the implant.  It names those slots, and no slot that the
    extension created, in increasing order with the name of the graphic
    each held; after the first twenty it gives only the total. *)
Theorem graphics_notice_exact src S e T warn s :
  0 ≤ S → (∀ t, T = Some t → 0 ≤ t) →
  ¬ graphics_range_error (len src) S e →
  let K := default (len src - 1) e - S + 1 in
  let t := default S T in
  ∃ s1 held,
    implant_graphics_from_dat src S e T warn s = Done K s1
    ∧ (∀ idx name,
         (idx, name) ∈ held
         ↔ t ≤ idx < t + K
           ∧ ∃ g, slot (graphics s) idx = Some (Some g)
                  ∧ Graphic.name g = name)
    ∧ StronglySorted Z.lt held.*1
    ∧ gout s1
      = gout s
        ++ (if bool_decide (held ≠ []) && warn
            then [GNoteHeader] ++ (uncurry GNoteSlot <$> take 20 held)
                 ++ (if bool_decide (len held > 20)
                     then [GNoteMore (len held)] else [])
            else []).
Proof.
  intros HS HT Hrange K t.
  destruct (implant_graphics_run src S e T warn s HS HT Hrange)
    as (gs & Hrun & _).
  fold K t in Hrun.
  eexists _, (held_graphics (graphics s) t K).
  split; [exact Hrun|]. split; [|split; [|done]].
  - intros idx name. apply elem_of_held_graphics.
  - apply held_graphics_sorted.
Qed.

Lemma graphics_notice_exact_witness :
  ∃ s1 held,
    implant_graphics_from_dat ex_graphics_source 0 None None true ex_gstate
    = Done (default (len ex_graphics_source - 1) None - 0 + 1) s1
    ∧ (∀ idx name,
         (idx, name) ∈ held
         ↔ default 0 None ≤ idx
           < default 0 None
             + (default (len ex_graphics_source - 1) None - 0 + 1)
           ∧ ∃ g, slot (graphics ex_gstate) idx = Some (Some g)
                  ∧ Graphic.name g = name)
    ∧ StronglySorted Z.lt held.*1
    ∧ gout s1
      = gout ex_gstate
        ++ (if bool_decide (held ≠ []) && true
            then [GNoteHeader] ++ (uncurry GNoteSlot <$> take 20 held)
                 ++ (if bool_decide (len held > 20)
                     then [GNoteMore (len held)] else [])
            else []).
Proof.
  apply (graphics_notice_exact ex_graphics_source 0 None None true ex_gstate).
  - lia.
  - intros t [=].
  - unfold graphics_range_error, len; simpl.
    intros [?|(e' & [=] & _)]. lia.
Defined.

(** * The scenario tools *)

Lemma foldl_snoc_map {A B} (f : A → B) (c : A → Z)
    (body : list B * Z → A → list B * Z) l d0 n0 :
  (∀ d n x, body (d, n) x = (d ++ [f x], n + c x)) →
  foldl body (d0, n0) l = (d0 ++ (f <$> l), n0 + total c l).
Proof.
  intros Hbody. revert d0 n0.
  induction l as [|x l IH]; intros d0 n0; simpl.
  - by rewrite app_nil_r, Z.add_0_r.
  - rewrite Hbody, IH, <- app_assoc. simpl. f_equal. lia.
Qed.

Lemma foldl_count {A} (c : A → Z) (body : Z → A → Z) l n0 :
  (∀ n x, body n x = n + c x) → foldl body n0 l = n0 + total c l.
Proof.
  intros Hbody. revert n0. induction l as [|x l IH]; intros n0; simpl.
  - lia.
  - rewrite Hbody, IH. lia.
Qed.

Lemma total_ext {A} (c1 c2 : A → Z) l :
  (∀ x, x ∈ l → c1 x = c2 x) → total c1 l = total c2 l.
Proof.
  induction l as [|x l IH]; intros H; simpl; [done|].
  rewrite (H x) by left. rewrite IH; [done|]. intros; apply H; by right.
Qed.

Lemma total_fmap {A B} (f : A → B) (c : B → Z) l :
  total c (f <$> l) = total (c ∘ f) l.
Proof.
  induction l as [|x l IH]; [done|].
  rewrite fmap_cons. cbn [total foldr]. f_equal. exact IH.
Qed.

Lemma map_unit_const_set old new u :
  (if bool_decide (MapUnit.unit_const u = old)
   then MapUnit.set_unit_const new u else u)
  = map_unit_const (rename_type (λ _, true) old new) u.
Proof.
  unfold map_unit_const, rename_type, MapUnit.set_unit_const. simpl.
  case_bool_decide; [done|]. by destruct u.
Qed.

Lemma count_map_units_total units k :
  _count_map_units_by_const units k
  = total (total (λ u, hit (λ _, true) k (MapUnit.unit_const u))) units.
Proof.
  unfold _count_map_units_by_const.
  set (c := λ u, hit (λ _, true) k (MapUnit.unit_const u)).
  rewrite (foldl_count (total c) _ units 0); [lia|].
  intros n pu. rewrite (foldl_count c); [done|].
  intros n' u. unfold c, hit. simpl. case_bool_decide; lia.
Qed.

Lemma apply_map_unit_id_run scenario old new :
  apply_map_unit_id_in_scenario scenario old new
  = (Scenario.mk (Scenario.triggers scenario)
       ((λ player_units : list MapUnit.t,
           map_unit_const (rename_type (λ _, true) old new) <$> player_units)
          <$> Scenario.units scenario),
     total (total (λ u, hit (λ _, true) old (MapUnit.unit_const u)))
       (Scenario.units scenario)).
Proof.
  unfold apply_map_unit_id_in_scenario.
  set (f := map_unit_const (rename_type (λ _, true) old new)).
  set (c := λ u, hit (λ _, true) old (MapUnit.unit_const u)).
  erewrite (foldl_snoc_map (λ pu : list MapUnit.t, f <$> pu) (total c) _
              (Scenario.units scenario) [] 0).
  - simpl. by rewrite Z.add_0_l.
  - intros d n pu.
    rewrite (foldl_snoc_map f c).
    + done.
    + intros d' n' u. unfold c, hit, f. simpl.
      rewrite <- map_unit_const_set. case_bool_decide; f_equal; lia.
Qed.

(** [apply_map_unit_id_in_scenario] changes the type of the map units of
    type [old_unit_id] and nothing else: every unit stays where it is in
    its player's list with its reference id, position and garrison, the
    triggers are untouched, and the number returned is the number of map
    units that had the type, as [_count_map_units_by_const] counts them
    beforehand. *)
Theorem map_unit_replacement scenario old_unit_id new_unit_id :
  apply_map_unit_id_in_scenario scenario old_unit_id new_unit_id
  = (Scenario.mk (Scenario.triggers scenario)
       ((λ player_units : list MapUnit.t,
           map_unit_const
             (λ x, if bool_decide (x = old_unit_id) then new_unit_id else x)
             <$> player_units)
          <$> Scenario.units scenario),
     _count_map_units_by_const (Scenario.units scenario) old_unit_id).
Proof.
  rewrite apply_map_unit_id_run, count_map_units_total. done.
Qed.

Section trigger_replacement.
Context (valid : Z → bool).

Lemma replace_attr_rename {A} (get : A → Z) (set : Z → A → A) old new x n :
  replace_unit_type_attr valid get set old new (x, n)
  = (if valid (get x) && bool_decide (get x = old) then set new x else x,
     n + hit valid old (get x)).
Proof.
  unfold replace_unit_type_attr, hit.
  destruct (valid (get x) && bool_decide (get x = old)); f_equal; lia.
Qed.

Lemma replace_effects_run effects old new :
  _replace_unit_type_in_effects valid effects old new
  = (map_effect (rename_type valid old new) <$> effects,
     total (effect_hits valid old) effects).
Proof.
  unfold _replace_unit_type_in_effects.
  rewrite (foldl_snoc_map (map_effect (rename_type valid old new))
             (effect_hits valid old)); [done|].
  intros d n e. rewrite !replace_attr_rename.
  destruct e as [et u1 u2 te fr lt lo so].
  unfold map_effect, rename_type, effect_hits; simpl.
  destruct (valid u1 && bool_decide (u1 = old)); simpl;
    destruct (valid u2 && bool_decide (u2 = old)); simpl; f_equal;
    first [lia|done].
Qed.

Lemma replace_conditions_run conditions old new :
  _replace_unit_type_in_conditions valid conditions old new
  = (map_condition (rename_type valid old new) <$> conditions,
     total (condition_hits valid old) conditions).
Proof.
  unfold _replace_unit_type_in_conditions.
  rewrite (foldl_snoc_map (map_condition (rename_type valid old new))
             (condition_hits valid old)); [done|].
  intros d n c. rewrite !replace_attr_rename.
  destruct c as [ct ol te lt uo].
  unfold map_condition, rename_type, condition_hits; simpl.
  destruct (valid ol && bool_decide (ol = old)); simpl; f_equal;
    first [lia|done].
Qed.

Lemma count_effects_total effects k :
  _count_unit_type_in_effects valid effects k
  = total (effect_hits valid k) effects.
Proof.
  unfold _count_unit_type_in_effects.
  rewrite (foldl_count (effect_hits valid k)); [lia|].
  intros n e. unfold count_unit_type_attr, effect_hits, hit.
  destruct (valid _ && _), (valid _ && _); lia.
Qed.

Lemma count_conditions_total conditions k :
  _count_unit_type_in_conditions valid conditions k
  = total (condition_hits valid k) conditions.
Proof.
  unfold _count_unit_type_in_conditions.
  rewrite (foldl_count (condition_hits valid k)); [lia|].
  intros n c. unfold count_unit_type_attr, condition_hits, hit.
  destruct (valid _ && _); lia.
Qed.

Lemma foldl_snoc_map2 {A B} (f : A → B) (c1 c2 : A → Z)
    (body : list B * Z * Z → A → list B * Z * Z) l d0 n0 m0 :
  (∀ d n m x, body (d, n, m) x = (d ++ [f x], n + c1 x, m + c2 x)) →
  foldl body (d0, n0, m0) l
  = (d0 ++ (f <$> l), n0 + total c1 l, m0 + total c2 l).
Proof.
  intros Hbody. revert d0 n0 m0.
  induction l as [|x l IH]; intros d0 n0 m0; simpl.
  - by rewrite app_nil_r, !Z.add_0_r.
  - rewrite Hbody, IH, <- app_assoc. simpl. f_equal; [f_equal|]; lia.
Qed.

Lemma apply_unit_id_run scenario old new in_conditions :
  apply_unit_id_in_scenario valid scenario old new in_conditions
  = (Scenario.mk
       (map_trigger (rename_type valid old new) in_conditions
          <$> Scenario.triggers scenario)
       (Scenario.units scenario),
     (total (λ t, total (effect_hits valid old) (Trigger.effects t))
        (Scenario.triggers scenario),
      if in_conditions
      then total (λ t, total (condition_hits valid old) (Trigger.conditions t))
             (Scenario.triggers scenario)
      else 0)).
Proof.
  unfold apply_unit_id_in_scenario.
  rewrite (foldl_snoc_map2
             (map_trigger (rename_type valid old new) in_conditions)
             (λ t, total (effect_hits valid old) (Trigger.effects t))
             (λ t, if in_conditions
                   then total (condition_hits valid old) (Trigger.conditions t)
                   else 0)).
  - simpl. rewrite !Z.add_0_l. do 2 f_equal.
    destruct in_conditions; [done|].
    induction (Scenario.triggers scenario) as [|t l IH]; simpl; [done|].
    by rewrite IH.
  - intros d n m t. rewrite replace_effects_run.
    unfold map_trigger. destruct in_conditions.
    + by rewrite replace_conditions_run.
    + repeat f_equal. lia.
Qed.

End trigger_replacement.

(** [apply_unit_id_in_scenario] replaces the unit type [old_unit_id] in
    the two unit-type attributes of every effect and, when asked, in
    [object_list] of every condition, wherever [value_is_valid] accepts the
    value read.  It changes nothing else: the unit instance references of
    effects and conditions ([location_object_reference],
    [selected_object_ids], [unit_object]), their tech attributes and the
    map units are as they were.  The two numbers returned are the
    occurrences that the counting functions find beforehand. *)
Theorem trigger_unit_replacement value_is_valid scenario old_unit_id
    new_unit_id replace_in_conditions :
  apply_unit_id_in_scenario value_is_valid scenario old_unit_id new_unit_id
    replace_in_conditions
  = (Scenario.mk
       ((λ t,
           Trigger.mk (Trigger.name t)
             (map_effect
                (λ x, if value_is_valid x && bool_decide (x = old_unit_id)
                      then new_unit_id else x)
                <$> Trigger.effects t)
             (if replace_in_conditions
              then map_condition
                     (λ x, if value_is_valid x && bool_decide (x = old_unit_id)
                           then new_unit_id else x)
                     <$> Trigger.conditions t
              else Trigger.conditions t))
          <$> Scenario.triggers scenario)
       (Scenario.units scenario),
     (total
        (λ t, _count_unit_type_in_effects value_is_valid (Trigger.effects t)
                old_unit_id)
        (Scenario.triggers scenario),
      if replace_in_conditions
      then total
             (λ t, _count_unit_type_in_conditions value_is_valid
                     (Trigger.conditions t) old_unit_id)
             (Scenario.triggers scenario)
      else 0)).
Proof.
  rewrite apply_unit_id_run. f_equal. f_equal.
  - apply total_ext. intros t _. by rewrite count_effects_total.
  - destruct replace_in_conditions; [|done].
    apply total_ext. intros t _. by rewrite count_conditions_total.
Qed.

(** ** Applying a whole mapping *)

Lemma dict_get_Some m k v : dict_get m k = Some v → (k, v) ∈ m.
Proof.
  induction m as [|[k' v'] m IH]; simpl; [done|].
  case_bool_decide as Hk.
  - intros [= ->]. subst. left.
  - intros H. right. by apply IH.
Qed.

Lemma dict_get_None m k : k ∉ m.*1 → dict_get m k = None.
Proof.
  induction m as [|[k' v'] m IH]; simpl; [done|].
  rewrite not_elem_of_cons. intros [Hne Hm].
  rewrite bool_decide_eq_false_2 by done. by apply IH.
Qed.

Lemma chain_free_cons k v m :
  chain_free ((k, v) :: m) →
  chain_free m ∧ ∀ k' v', (k', v') ∈ m → k ≠ v → k' ≠ v' → v ≠ k'.
Proof.
  intros H. split.
  - intros i j k1 v1 k2 v2 Hij Hi Hj.
    apply (H (S i) (S j) k1 v1 k2 v2); [lia|done|done].
  - intros k' v' [j Hj]%list_elem_of_lookup.
    apply (H 0%nat (S j) k v k' v'); [lia|done|done].
Qed.

Lemma rename_type_other valid k v x : x ≠ k → rename_type valid k v x = x.
Proof.
  intros H. unfold rename_type.
  rewrite (bool_decide_eq_false_2 (x = k)) by done. by rewrite andb_false_r.
Qed.

Lemma seq_rename_fixed valid m x :
  (∀ k v, (k, v) ∈ m → k ≠ v → x ≠ k) → seq_rename valid m x = x.
Proof.
  unfold seq_rename. induction m as [|[k v] m IH]; intros H; simpl; [done|].
  case_bool_decide.
  - apply IH. intros k' v' ? ?. apply (H k' v'); [by right|done].
  - rewrite rename_type_other by (apply (H k v); [left|done]).
    apply IH. intros k' v' ? ?. apply (H k' v'); [by right|done].
Qed.

Lemma seq_rename_invalid valid m x :
  valid x = false → seq_rename valid m x = x.
Proof.
  intros Hv. unfold seq_rename.
  induction m as [|[k v] m IH]; simpl; [done|].
  unfold rename_type. rewrite Hv. simpl. by case_bool_decide.
Qed.

(** Without chains, one entry after the other is all entries at once. *)
Lemma seq_rename_at_once valid m x :
  NoDup m.*1 → chain_free m →
  seq_rename valid m x = if valid x then renamed m x else x.
Proof.
  revert x. induction m as [|[k v] m IH]; intros x Hnd Hcf.
  { unfold renamed. simpl. by destruct (valid x). }
  rewrite fmap_cons in Hnd. apply NoDup_cons in Hnd as [Hk Hnd].
  apply chain_free_cons in Hcf as [Hcf Hhead].
  change (seq_rename valid ((k, v) :: m) x)
    with (seq_rename valid m
            (if bool_decide (k = v) then x else rename_type valid k v x)).
  unfold renamed. simpl.
  destruct (decide (k = v)) as [->|Hkv].
  - rewrite bool_decide_eq_true_2 by done. rewrite IH by done.
    unfold renamed. case_bool_decide as Hx; [|done].
    subst. by rewrite dict_get_None.
  - rewrite bool_decide_eq_false_2 by done.
    unfold rename_type at 1. destruct (valid x) eqn:Hv; simpl.
    + case_bool_decide as Hx.
      * subst x. rewrite bool_decide_eq_true_2 by done. simpl.
        apply seq_rename_fixed. intros k' v' Hin Hne. by eapply Hhead.
      * rewrite bool_decide_eq_false_2 by done.
        rewrite IH, Hv by done. done.
    + by apply seq_rename_invalid.
Qed.

Lemma map_scenario_id f g s :
  (∀ x, f x = x) → (∀ x, g x = x) → map_scenario f g s = s.
Proof.
  intros Hf Hg. destruct s as [ts us]. unfold map_scenario; simpl. f_equal.
  - apply fmap_fixed. intros [nm es cs]. unfold map_trigger; simpl. f_equal.
    + apply fmap_fixed. intros []. unfold map_effect; simpl. by rewrite !Hf.
    + apply fmap_fixed. intros []. unfold map_condition; simpl. by rewrite !Hf.
  - apply fmap_fixed. intros pu. apply fmap_fixed.
    intros []. unfold map_unit_const; simpl. by rewrite Hg.
Qed.

Lemma map_scenario_compose f g f' g' s :
  map_scenario f g (map_scenario f' g' s)
  = map_scenario (f ∘ f') (g ∘ g') s.
Proof.
  unfold map_scenario; simpl. f_equal.
  - rewrite <- list_fmap_compose. apply list_fmap_ext. intros i t _.
    unfold map_trigger; simpl. f_equal; by rewrite <- list_fmap_compose.
  - rewrite <- list_fmap_compose. apply list_fmap_ext. intros i pu _.
    simpl. by rewrite <- list_fmap_compose.
Qed.

Lemma map_scenario_ext f g f' g' s :
  (∀ x, f x = f' x) → (∀ x, g x = g' x) →
  map_scenario f g s = map_scenario f' g' s.
Proof.
  intros Hf Hg. unfold map_scenario. f_equal.
  - apply list_fmap_ext. intros i t _. unfold map_trigger. f_equal.
    + apply list_fmap_ext. intros j e _. unfold map_effect. by rewrite !Hf.
    + apply list_fmap_ext. intros j c _. unfold map_condition. by rewrite !Hf.
  - apply list_fmap_ext. intros i pu _. apply list_fmap_ext.
    intros j u _. unfold map_unit_const. by rewrite Hg.
Qed.

Lemma hit_rename valid k v k' x :
  k ≠ k' → v ≠ k' → hit valid k' (rename_type valid k v x) = hit valid k' x.
Proof.
  intros Hk Hv. unfold hit, rename_type.
  destruct (valid x) eqn:Hx; simpl; [|by rewrite Hx].
  case_bool_decide as Hxk.
  - subst x. rewrite (bool_decide_eq_false_2 (v = k')) by done.
    rewrite (bool_decide_eq_false_2 (k = k')) by done.
    by rewrite andb_false_r.
  - by rewrite Hx.
Qed.

Lemma scenario_hits_rename valid k v k' s :
  k ≠ k' → v ≠ k' →
  scenario_hits valid k'
    (map_scenario (rename_type valid k v) (rename_type (λ _, true) k v) s)
  = scenario_hits valid k' s.
Proof.
  intros Hk Hv. unfold scenario_hits, map_scenario; simpl.
  rewrite !total_fmap. f_equal; [f_equal|].
  - apply total_ext. intros t _. simpl. rewrite total_fmap.
    apply total_ext. intros e _. unfold effect_hits; simpl.
    by rewrite !hit_rename.
  - apply total_ext. intros t _. simpl. rewrite total_fmap.
    apply total_ext. intros c _. unfold condition_hits; simpl.
    by rewrite !hit_rename.
  - apply total_ext. intros pu _. simpl. rewrite total_fmap.
    apply total_ext. intros u _. simpl. by rewrite hit_rename.
Qed.

Lemma unit_mapping_fold valid m s (report : list unit_report) :
  NoDup m.*1 → chain_free m →
  foldl (λ '(scenario, report) '(old_id, new_id),
    if bool_decide (old_id = new_id) then (scenario, report) else
    let '(scenario, (eff, cond)) :=
      apply_unit_id_in_scenario valid scenario old_id new_id true in
    let '(scenario, map_count) :=
      apply_map_unit_id_in_scenario scenario old_id new_id in
    if bool_decide (eff > 0) || bool_decide (cond > 0)
       || bool_decide (map_count > 0)
    then (scenario, report ++ [(old_id, new_id, eff, cond, map_count)])
    else (scenario, report)) (s, report) m
  = (map_scenario (seq_rename valid m) (seq_rename (λ _, true) m) s,
     report ++ omap (report_entry valid s) m).
Proof.
  revert s report. induction m as [|[k v] m IH]; intros s report Hnd Hcf.
  { simpl. rewrite app_nil_r. by rewrite map_scenario_id. }
  rewrite fmap_cons in Hnd. apply NoDup_cons in Hnd as [Hk Hnd].
  apply chain_free_cons in Hcf as [Hcf Hhead].
  cbn [foldl]. destruct (decide (k = v)) as [->|Hkv].
  { rewrite bool_decide_eq_true_2 by done. rewrite IH by done.
    f_equal.
    - apply map_scenario_ext; intros x; unfold seq_rename; simpl;
        by rewrite bool_decide_eq_true_2.
    - simpl. by rewrite bool_decide_eq_true_2. }
  rewrite bool_decide_eq_false_2 by done.
  pose (entry := report_entry valid s (k, v)).
  assert (omap (report_entry valid s) ((k, v) :: m)
          = from_option (λ r, [r]) [] entry ++ omap (report_entry valid s) m)
    as ->.
  { unfold entry. cbn [omap list_omap].
    by destruct (report_entry valid s (k, v)). }
  rewrite apply_unit_id_run, apply_map_unit_id_run. simpl.
  change (Scenario.mk
            (map_trigger (rename_type valid k v) true <$> Scenario.triggers s)
            ((λ player_units : list MapUnit.t,
                map_unit_const (rename_type (λ _, true) k v) <$> player_units)
               <$> Scenario.units s))
    with (map_scenario (rename_type valid k v)
            (rename_type (λ _, true) k v) s).
  set (s1 := map_scenario (rename_type valid k v)
               (rename_type (λ _, true) k v) s).
  assert (omap (report_entry valid s1) m = omap (report_entry valid s) m)
    as Hentries.
  { apply list_omap_ext, Forall_Forall2_diag, Forall_forall.
    intros [k' v'] Hin. unfold report_entry.
    case_bool_decide as Hkv'; [done|].
    unfold s1. rewrite scenario_hits_rename; [done| |by eapply Hhead].
    intros ->. apply Hk. apply list_elem_of_fmap. by exists (k', v'). }
  assert (map_scenario (seq_rename valid m) (seq_rename (λ _, true) m) s1
          = map_scenario (seq_rename valid ((k, v) :: m))
              (seq_rename (λ _, true) ((k, v) :: m)) s) as Hscen.
  { unfold s1. rewrite map_scenario_compose.
    apply map_scenario_ext; intros x; unfold seq_rename; simpl;
      by rewrite bool_decide_eq_false_2. }
  unfold entry, report_entry, scenario_hits.
  rewrite (bool_decide_eq_false_2 (k = v)) by done.
  match goal with
  | |- context [bool_decide (?a > 0) || bool_decide (?b > 0)
                || bool_decide (?c > 0)] =>
      destruct (bool_decide (a > 0) || bool_decide (b > 0)
                || bool_decide (c > 0)) eqn:Hany
  end; rewrite IH by done; rewrite Hentries, Hscen; simpl.
  - by rewrite <- app_assoc.
  - done.
Qed.

(** [apply_scenario_unit_mapping] applies the entries of the mapping one
    after the other.  When the mapping has no chains (no value of an
    entry is the key of a later one) and no key twice, that is the same
    as renaming at once: every map unit whose type is a key gets the
    mapped type, every unit-type attribute of a trigger that
    [value_is_valid] accepts and that is a key gets the mapped value, and
    everything else is as it was.  The report has one line, in the order
    of the mapping, for each entry that changes its id and whose old id
    occurs in the scenario as loaded, with the three numbers of
    occurrences; the summary printed is the report, or a line that says
    there was nothing to replace. *)
Theorem scenario_unit_mapping_at_once value_is_valid scenario unit_mapping
    print_summary :
  NoDup unit_mapping.*1 → chain_free unit_mapping →
  let report := omap (report_entry value_is_valid scenario) unit_mapping in
  apply_scenario_unit_mapping value_is_valid scenario unit_mapping
    print_summary
  = (map_scenario
       (λ x, if value_is_valid x then renamed unit_mapping x else x)
       (renamed unit_mapping) scenario,
     report,
     if print_summary then
       SNoteUnitsHeader
       :: (if bool_decide (report ≠ []) then SNoteUnitLine <$> report
           else [SNoteNoUnits])
     else []).
Proof.
  intros Hnd Hcf report. unfold apply_scenario_unit_mapping.
  rewrite unit_mapping_fold by done. cbn [app].
  fold report. do 2 f_equal.
  apply map_scenario_ext; intros x; by rewrite seq_rename_at_once.
Qed.

(** Decides that a short literal mapping has no chains. *)
Ltac solve_chain_free :=
  let i := fresh "i" in
  let j := fresh "j" in
  let Hij := fresh "Hij" in
  let Hi := fresh "Hi" in
  let Hj := fresh "Hj" in
  intros i j ? ? ? ? Hij Hi Hj ? ?;
  repeat (destruct i as [|i]; simpl in Hi; [|try discriminate Hi]);
  try discriminate Hi;
  repeat (destruct j as [|j]; simpl in Hj; [|try discriminate Hj]);
  try discriminate Hj;
  simplify_eq; lia.

Lemma scenario_unit_mapping_at_once_witness :
  let report :=
    omap (report_entry (λ x, bool_decide (x ≠ -1)) ex_scenario)
      [(2601, 3201); (2602, 3202); (46, 46)] in
  apply_scenario_unit_mapping (λ x, bool_decide (x ≠ -1)) ex_scenario
    [(2601, 3201); (2602, 3202); (46, 46)] true
  = (map_scenario
       (λ x, if bool_decide (x ≠ -1)
             then renamed [(2601, 3201); (2602, 3202); (46, 46)] x else x)
       (renamed [(2601, 3201); (2602, 3202); (46, 46)]) ex_scenario,
     report,
     if true then
       SNoteUnitsHeader
       :: (if bool_decide (report ≠ []) then SNoteUnitLine <$> report
           else [SNoteNoUnits])
     else []).
Proof.
  apply (scenario_unit_mapping_at_once (λ x, bool_decide (x ≠ -1))
           ex_scenario [(2601, 3201); (2602, 3202); (46, 46)] true).
  - simpl. repeat constructor; set_solver.
  - solve_chain_free.
Defined.

(** ** [build_unit_id_mapping] *)

Lemma dict_set_fresh m k v : k ∉ m.*1 → dict_set m k v = m ++ [(k, v)].
Proof.
  induction m as [|[k' v'] m IH]; simpl; [done|].
  rewrite not_elem_of_cons. intros [Hne Hm].
  rewrite bool_decide_eq_false_2 by done. by rewrite IH.
Qed.

Lemma foldl_dict_set_fresh (f : Z → Z) l acc :
  NoDup l → (∀ k, k ∈ l → k ∉ acc.*1) →
  foldl (λ mapping i, dict_set mapping i (f i)) acc l
  = acc ++ ((λ i, (i, f i)) <$> l).
Proof.
  revert acc. induction l as [|i l IH]; intros acc Hnd Hfresh; simpl.
  - by rewrite app_nil_r.
  - apply NoDup_cons in Hnd as [Hi Hnd].
    rewrite dict_set_fresh by (apply Hfresh; left).
    rewrite IH, <- app_assoc; [done|done|].
    intros k Hk. rewrite fmap_app, elem_of_app. simpl.
    intros [Hin|Hin%list_elem_of_singleton].
    + by apply (Hfresh k); [right|].
    + by subst.
Qed.

Lemma build_unit_id_mapping_items data :
  build_unit_id_mapping data
  = ((λ i, (i, i + 600)) <$> seqZ 2601 (n_unit_slots data - 2601))
    ++ [(46, 46); (557, 557)].
Proof.
  unfold build_unit_id_mapping, range2, UNIT_OFFSET.
  rewrite (foldl_dict_set_fresh (λ i, i + 600));
    [|apply NoDup_seqZ|intros k _; simpl; apply not_elem_of_nil].
  simpl.
  assert (∀ k, k < 2601 →
            k ∉ ((λ i, (i, i + 600))
                   <$> seqZ 2601 (n_unit_slots data - 2601)).*1) as Hlow.
  { intros k Hk. rewrite <- list_fmap_compose.
    intros (i & -> & Hi%elem_of_seqZ)%list_elem_of_fmap. simpl in Hk. lia. }
  rewrite (dict_set_fresh _ 46 46) by (apply Hlow; lia).
  rewrite dict_set_fresh.
  - by rewrite <- app_assoc.
  - rewrite fmap_app, elem_of_app. simpl.
    intros [Hin|Hin%list_elem_of_singleton]; [|done].
    by apply (Hlow 557).
Qed.

Lemma dict_get_app m1 m2 k :
  dict_get (m1 ++ m2) k
  = match dict_get m1 k with Some v => Some v | None => dict_get m2 k end.
Proof.
  induction m1 as [|[k' v'] m1 IH]; simpl; [done|].
  by case_bool_decide.
Qed.

Lemma dict_get_offset_range (f : Z → Z) a n k :
  dict_get ((λ i, (i, f i)) <$> seqZ a n) k
  = if bool_decide (a ≤ k < a + n) then Some (f k) else None.
Proof.
  destruct (decide (0 ≤ n)) as [Hn|Hn].
  2:{ rewrite seqZ_nil by lia. simpl. by rewrite bool_decide_eq_false_2 by lia. }
  rewrite <- (Z2Nat.id n) by done. clear Hn. revert a.
  induction (Z.to_nat n) as [|n' IH]; intros a.
  - simpl. by rewrite bool_decide_eq_false_2 by lia.
  - rewrite Nat2Z.inj_succ, seqZ_cons by lia. simpl.
    replace (Z.pred (Z.succ (Z.of_nat n'))) with (Z.of_nat n') by lia.
    rewrite IH. destruct (decide (a = k)) as [->|Hne].
    + rewrite bool_decide_eq_true_2 by done.
      by rewrite bool_decide_eq_true_2 by lia.
    + rewrite bool_decide_eq_false_2 by done. if_ext. lia.
Qed.

(** The unit mapping for the scenarios: every id from 2601 up to the last
    unit slot of the old mod moves up by [UNIT_OFFSET] = 600, in increasing
    order, then 46 and 557 map to themselves; no id is a key twice and no
    other id is mapped.  The mapping has no chains, so that applying its
    entries one after the other moves no id twice, exactly when the old
    mod has at most 3201 unit slots. *)
Theorem unit_id_mapping_items data :
  let n := n_unit_slots data in
  build_unit_id_mapping data
  = ((λ i, (i, i + 600)) <$> seqZ 2601 (n - 2601)) ++ [(46, 46); (557, 557)]
  ∧ NoDup (build_unit_id_mapping data).*1
  ∧ (∀ k, dict_get (build_unit_id_mapping data) k
          = if bool_decide (2601 ≤ k < n) then Some (k + 600)
            else if bool_decide (k = 46 ∨ k = 557) then Some k else None)
  ∧ (chain_free (build_unit_id_mapping data) ↔ n ≤ 3201).
Proof.
  intros n. pose proof (build_unit_id_mapping_items data) as Hitems.
  fold n in Hitems. split; [done|]. rewrite Hitems. split; [|split].
  - rewrite fmap_app, <- list_fmap_compose. apply NoDup_app. split; [|split].
    + apply NoDup_fmap_2; [|apply NoDup_seqZ]. by intros x y.
    + intros k (i & -> & Hi%elem_of_seqZ)%list_elem_of_fmap. simpl.
      rewrite !elem_of_cons, elem_of_nil. lia.
    + simpl. repeat constructor; set_solver.
  - intros k. rewrite dict_get_app, (dict_get_offset_range (λ i, i + 600)).
    destruct (decide (2601 ≤ k < n)).
    + rewrite !bool_decide_eq_true_2 by lia. done.
    + rewrite !bool_decide_eq_false_2 by lia. simpl.
      destruct (decide (k = 46)) as [->|?]; [done|].
      rewrite (bool_decide_eq_false_2 (46 = k)) by done.
      destruct (decide (k = 557)) as [->|?]; [done|].
      rewrite (bool_decide_eq_false_2 (557 = k)) by done.
      by rewrite bool_decide_eq_false_2 by lia.
  - assert (∀ i k v,
      (((λ i, (i, i + 600)) <$> seqZ 2601 (n - 2601))
         ++ [(46, 46); (557, 557)]) !! i = Some (k, v) →
      k ≠ v →
      v = k + 600 ∧ k = 2601 + Z.of_nat i ∧ 2601 ≤ k < n) as Hentry.
    { intros i k v Hi Hkv. apply lookup_app_Some in Hi as [Hi|[_ Hi]].
      - rewrite list_lookup_fmap in Hi.
        destruct (seqZ 2601 (n - 2601) !! i) as [x|] eqn:Hx; [|done].
        apply lookup_seqZ in Hx as [-> ?]. simpl in Hi.
        injection Hi as <- <-. lia.
      - destruct (i - _)%nat as [|[|?]]; simpl in Hi; by simplify_eq. }
    split.
    + intros Hcf. destruct (decide (n ≤ 3201)) as [|Hn]; [done|]. exfalso.
      assert (∀ i : nat, (i < 601)%nat →
        (((λ i, (i, i + 600)) <$> seqZ 2601 (n - 2601))
           ++ [(46, 46); (557, 557)]) !! i
        = Some (2601 + Z.of_nat i, 2601 + Z.of_nat i + 600)) as Hat.
      { intros i Hi. rewrite lookup_app_l
          by (rewrite length_fmap, length_seqZ; lia).
        rewrite list_lookup_fmap, lookup_seqZ_lt by lia. done. }
      apply (Hcf 0%nat 600%nat 2601 3201 3201 3801);
        [lia|by rewrite Hat by lia|by rewrite Hat by lia|done|done|done].
    + intros Hn i j k v k' v' Hij Hi Hj Hkv Hkv'.
      destruct (Hentry i k v Hi Hkv) as (-> & _ & ?).
      destruct (Hentry j k' v' Hj Hkv') as (_ & _ & ?). lia.
Qed.

(** ** The scenario sync with the mapping of [build_unit_id_mapping] *)

Lemma unit_mapping_fold_scenario valid m s (report : list unit_report) :
  (foldl (λ '(scenario, report) '(old_id, new_id),
     if bool_decide (old_id = new_id) then (scenario, report) else
     let '(scenario, (eff, cond)) :=
       apply_unit_id_in_scenario valid scenario old_id new_id true in
     let '(scenario, map_count) :=
       apply_map_unit_id_in_scenario scenario old_id new_id in
     if bool_decide (eff > 0) || bool_decide (cond > 0)
        || bool_decide (map_count > 0)
     then (scenario, report ++ [(old_id, new_id, eff, cond, map_count)])
     else (scenario, report)) (s, report) m).1
  = map_scenario (seq_rename valid m) (seq_rename (λ _, true) m) s.
Proof.
  revert s report. induction m as [|[k v] m IH]; intros s report.
  { simpl. by rewrite map_scenario_id. }
  cbn [foldl]. destruct (decide (k = v)) as [->|Hkv].
  { rewrite bool_decide_eq_true_2 by done. rewrite IH.
    apply map_scenario_ext; intros x; unfold seq_rename; simpl;
      by rewrite bool_decide_eq_true_2. }
  rewrite bool_decide_eq_false_2 by done.
  rewrite apply_unit_id_run, apply_map_unit_id_run. simpl.
  change (Scenario.mk
            (map_trigger (rename_type valid k v) true <$> Scenario.triggers s)
            ((λ player_units : list MapUnit.t,
                map_unit_const (rename_type (λ _, true) k v) <$> player_units)
               <$> Scenario.units s))
    with (map_scenario (rename_type valid k v)
            (rename_type (λ _, true) k v) s).
  match goal with
  | |- context [bool_decide (?a > 0) || bool_decide (?b > 0)
                || bool_decide (?c > 0)] =>
      destruct (bool_decide (a > 0) || bool_decide (b > 0)
                || bool_decide (c > 0))
  end; rewrite IH, map_scenario_compose;
    apply map_scenario_ext; intros x; unfold seq_rename; simpl;
    by rewrite bool_decide_eq_false_2.
Qed.

(** Where a type id ends when the ids from [a] on move up by 600 one
    after the other: at the first [y + 600 * j] past the range. *)
Lemma seq_rename_offset_range valid a (cnt : nat) y :
  (∀ x, a ≤ x → valid x = true) →
  seq_rename valid ((λ i, (i, i + 600)) <$> seqZ a (Z.of_nat cnt)) y
  = if bool_decide (a ≤ y < a + Z.of_nat cnt)
    then y + 600 * ((a + Z.of_nat cnt - y + 599) / 600) else y.
Proof.
  revert a y. induction cnt as [|cnt IH]; intros a y Hvalid.
  { simpl. by rewrite bool_decide_eq_false_2 by lia. }
  rewrite Nat2Z.inj_succ, seqZ_cons by lia.
  replace (Z.pred (Z.succ (Z.of_nat cnt))) with (Z.of_nat cnt) by lia.
  rewrite fmap_cons.
  change (seq_rename valid ((a, a + 600) :: ?m) y)
    with (seq_rename valid m
            (if bool_decide (a = a + 600) then y
             else rename_type valid a (a + 600) y)).
  rewrite (bool_decide_eq_false_2 (a = a + 600)) by lia.
  assert (∀ x, Z.succ a ≤ x → valid x = true) as Hvalid'
    by (intros x ?; apply Hvalid; lia).
  unfold rename_type. destruct (decide (y = a)) as [->|Hne].
  - rewrite Hvalid by lia. rewrite bool_decide_eq_true_2 by done. simpl.
    rewrite IH by done.
    rewrite (bool_decide_eq_true_2 (a ≤ a < _)) by lia.
    case_bool_decide.
    + replace (Z.succ a + Z.of_nat cnt - (a + 600) + 599)
        with (Z.of_nat cnt) by lia.
      replace (a + Z.succ (Z.of_nat cnt) - a + 599)
        with (Z.of_nat cnt + 1 * 600) by lia.
      rewrite Z.div_add by lia. lia.
    + replace (a + Z.succ (Z.of_nat cnt) - a + 599)
        with (Z.of_nat cnt + 1 * 600) by lia.
      rewrite Z.div_add by lia.
      rewrite Z.div_small by lia. lia.
  - rewrite (bool_decide_eq_false_2 (y = a)) by done.
    rewrite andb_false_r, IH by done.
    replace (Z.succ a + Z.of_nat cnt) with (a + Z.succ (Z.of_nat cnt)) by lia.
    if_ext. lia.
Qed.

Lemma seq_rename_app valid m1 m2 x :
  seq_rename valid (m1 ++ m2) x = seq_rename valid m2 (seq_rename valid m1 x).
Proof. unfold seq_rename. by rewrite foldl_app. Qed.

Lemma seq_rename_unit_id_mapping valid data x :
  (∀ x, 2601 ≤ x → valid x = true) →
  seq_rename valid (build_unit_id_mapping data) x
  = if bool_decide (2601 ≤ x < n_unit_slots data)
    then x + 600 * ((n_unit_slots data - x + 599) / 600) else x.
Proof.
  intros Hvalid. rewrite build_unit_id_mapping_items, seq_rename_app.
  change (seq_rename valid [(46, 46); (557, 557)] ?y) with y.
  destruct (decide (2601 ≤ n_unit_slots data)) as [Hn|Hn].
  - rewrite <- (Z2Nat.id (n_unit_slots data - 2601)) by lia.
    rewrite seq_rename_offset_range by done.
    rewrite Z2Nat.id by lia.
    replace (2601 + (n_unit_slots data - 2601)) with (n_unit_slots data)
      by lia.
    done.
  - rewrite seqZ_nil by lia. simpl.
    by rewrite bool_decide_eq_false_2 by lia.
Qed.

(** The scenario sync with the mapping built from the old mod, where
    [value_is_valid] accepts every id from 2601 on (it rejects -1 and the
    like).  The entries are applied one after the other in increasing
    order of the old id, so an id that has been moved onto a later key
    moves again: with [n] unit slots in the old mod, each map unit type
    and each unit-type attribute of a trigger in [2601, n) ends at the
    first of [x + 600], [x + 1200], ... that is not below [n]; all other
    ids and everything else in the scenario are as they were.  With at
    most 3201 slots that is [x + 600], the slot the unit implant copies
    the unit to; with more, type 2601 ends at 3801 or beyond. *)
Theorem scenario_sync_unit_types value_is_valid data scenario print_summary :
  (∀ x, 2601 ≤ x → value_is_valid x = true) →
  let n := n_unit_slots data in
  let moved x :=
    if bool_decide (2601 ≤ x < n) then x + 600 * ((n - x + 599) / 600)
    else x in
  (apply_scenario_unit_mapping value_is_valid scenario
     (build_unit_id_mapping data) print_summary).1.1
  = map_scenario moved moved scenario
  ∧ (n ≤ 3201 →
     ∀ x, moved x = if bool_decide (2601 ≤ x < n) then x + 600 else x)
  ∧ (3201 < n → 3801 ≤ moved 2601).
Proof.
  intros Hvalid n moved. split; [|split].
  - unfold apply_scenario_unit_mapping.
    match goal with
    | |- context [foldl ?f ?a ?l] =>
        pose proof (unit_mapping_fold_scenario value_is_valid l scenario [])
          as Hrun;
        destruct (foldl f a l) as [scenario' report] eqn:Hfold
    end.
    simpl in Hrun. simpl. rewrite Hrun.
    apply map_scenario_ext; intros x.
    + by rewrite seq_rename_unit_id_mapping.
    + by rewrite seq_rename_unit_id_mapping.
  - intros Hn x. unfold moved. case_bool_decide as Hx; [|done].
    replace (n - x + 599) with ((n - x - 1) + 1 * 600) by lia.
    rewrite Z.div_add by lia. rewrite Z.div_small by lia. lia.
  - intros Hn. unfold moved. rewrite bool_decide_eq_true_2 by lia.
    assert (2 ≤ (n - 2601 + 599) / 600); [|lia].
    apply Z.div_le_lower_bound; lia.
Qed.

Lemma scenario_sync_unit_types_witness :
  let n := n_unit_slots ex_old_mod in
  let moved x :=
    if bool_decide (2601 ≤ x < n) then x + 600 * ((n - x + 599) / 600)
    else x in
  (apply_scenario_unit_mapping (λ x, bool_decide (x ≠ -1)) ex_scenario
     (build_unit_id_mapping ex_old_mod) true).1.1
  = map_scenario moved moved ex_scenario
  ∧ (n ≤ 3201 →
     ∀ x, moved x = if bool_decide (2601 ≤ x < n) then x + 600 else x)
  ∧ (3201 < n → 3801 ≤ moved 2601).
Proof.
  apply (scenario_sync_unit_types (λ x, bool_decide (x ≠ -1)) ex_old_mod
           ex_scenario true).
  intros x Hx. apply bool_decide_eq_true_2. lia.
Defined.

(** ** [run_dat_sync]: the units *)

Lemma implant_units_raises source_data S e c T warn copy_extra s :
  range_error (n_unit_slots source_data) S e c →
  implant_units_from_dat source_data S e c T warn copy_extra s
  = Raised ValueError s.
Proof.
  intros Herr. unfold implant_units_from_dat.
  by erewrite bind_raised by (by apply implant_range_raises).
Qed.

(** What the later stages need of an implant: the footprint holds objects
    of its own, the other slots are as they were. *)
Lemma implant_units_stage source_data S e c T warn s :
  0 ≤ S → 0 ≤ T →
  allocated (objs s) source_data → allocated (objs s) (target_data s) →
  ¬ range_error (n_unit_slots source_data) S e c →
  let K := selected_count (n_unit_slots source_data) S e c in
  ∃ s1,
    implant_units_from_dat source_data S e c T warn true s = Returned K s1
    ∧ allocated (objs s1) source_data
    ∧ allocated (objs s1) (target_data s1)
    ∧ (∀ c' j, ¬ T ≤ j < T + K →
         unit_at (target_data s1) c' j = unit_at (target_data s) c' j)
    ∧ (∀ c' j l, T ≤ j < T + K → unit_at (target_data s1) c' j = Some l →
         sole_owner (target_data s1) c' j l).
Proof.
  intros HS HT Hsrc Htgt Hrange K.
  destruct (implant_units_post source_data S e c T warn true s HS HT
              Hsrc Htgt Hrange)
    as (s1 & Hrun & _ & _ & Halloc1 & Hpre & _ & _ & _ & _ & Hframe & _
        & Hclone).
  exists s1. split; [done|]. split; [|split; [done|split; [done|]]].
  - eapply allocated_mono; [|exact Hsrc]. by apply prefix_length.
  - intros c' j l Hj Hat. by destruct (Hclone c' j l Hj Hat) as (_ & ? & _).
Qed.

Lemma lookup_unit_id_map n v :
  (list_to_map ((λ i, (i, i + UNIT_OFFSET)) <$> range2 2601 n) : gmap Z Z)
    !! v
  = if bool_decide (2601 ≤ v < n) then Some (v + 600) else None.
Proof.
  unfold range2, UNIT_OFFSET. case_bool_decide as Hv.
  - apply elem_of_list_to_map_1.
    + rewrite <- list_fmap_compose.
      apply NoDup_fmap_2; [|apply NoDup_seqZ]. by intros x y.
    + apply list_elem_of_fmap. exists v. split; [done|].
      apply elem_of_seqZ. lia.
  - apply not_elem_of_list_to_map_1. rewrite <- list_fmap_compose.
    intros (i & -> & Hi%elem_of_seqZ)%list_elem_of_fmap. simpl in Hv. lia.
Qed.

(** The units of the sync, end to end.  With an old mod of at most 557
    unit slots the stage raises [ValueError], from the implant of slot 46
    or of slot 557.  Otherwise the three implants, the finalisation and
    the check all return, and with at most 3201 slots, so that no unit
    moves onto an id that is itself migrated, the check finds the target
    coherent: the list of issues is empty. *)
Theorem run_dat_sync_units_outcome source_data warn_overwrite s :
  allocated (objs s) source_data → allocated (objs s) (target_data s) →
  let n := n_unit_slots source_data in
  match run_dat_sync_units source_data warn_overwrite s with
  | Raised e _ => e = ValueError ∧ n ≤ 557
  | Returned issues _ => 557 < n ∧ (n ≤ 3201 → issues = [])
  end.
Proof.
  intros Hsrc Htgt n. unfold run_dat_sync_units. fold n.
  set (ranged := bool_decide (n > 2601)).
  (* the mod's own units *)
  assert (∃ sA,
    when ranged
      (implant_units_from_dat source_data 2601 (Some (n - 1)) None
         (2601 + UNIT_OFFSET) warn_overwrite true;; mret tt) s
    = Returned tt sA
    ∧ allocated (objs sA) source_data
    ∧ allocated (objs sA) (target_data sA)
    ∧ (∀ c' j l, ranged = true → 3201 ≤ j < n + 600 →
         unit_at (target_data sA) c' j = Some l →
         sole_owner (target_data sA) c' j l))
    as (sA & HrunA & HsrcA & HtgtA & HownA).
  { unfold ranged. case_bool_decide as Hn; simpl.
    - destruct (implant_units_stage source_data 2601 (Some (n - 1)) None
                  (2601 + UNIT_OFFSET) warn_overwrite s)
        as (sA & Hrun & ? & ? & _ & Hown); try done.
      { fold n. unfold range_error, selected_count.
        intros [?|[(_ & e & [= <-] & ?)|?]]; lia. }
      exists sA. split; [by erewrite bind_returned by exact Hrun|].
      split; [done|]. split; [done|].
      intros c' j l _ Hj. apply Hown. fold n.
      unfold selected_count, UNIT_OFFSET. lia.
    - exists s. by repeat split. }
  erewrite bind_returned by exact HrunA.
  (* slot 46 *)
  destruct (decide (n ≤ 46)) as [Hn46|Hn46].
  { erewrite bind_raised
      by (apply implant_units_raises; fold n; left; lia).
    split; [done|lia]. }
  destruct (implant_units_stage source_data 46 None (Some 1) 46
              warn_overwrite sA)
    as (sB & HrunB & HsrcB & HtgtB & HframeB & HownB); try done.
  { fold n. unfold range_error, selected_count.
    intros [?|[(? & _)|?]]; [lia|done|lia]. }
  fold n in HrunB, HframeB, HownB.
  replace (selected_count n 46 None (Some 1)) with 1
    in HrunB, HframeB, HownB by (unfold selected_count; lia).
  erewrite bind_returned by exact HrunB.
  (* slot 557 *)
  destruct (decide (n ≤ 557)) as [Hn557|Hn557].
  { erewrite bind_raised
      by (apply implant_units_raises; fold n; left; lia).
    split; [done|lia]. }
  destruct (implant_units_stage source_data 557 None (Some 1) 557
              warn_overwrite sB)
    as (sC & HrunC & HsrcC & HtgtC & HframeC & HownC); try done.
  { fold n. unfold range_error, selected_count.
    intros [?|[(? & _)|?]]; [lia|done|lia]. }
  fold n in HrunC, HframeC, HownC.
  replace (selected_count n 557 None (Some 1)) with 1
    in HrunC, HframeC, HownC by (unfold selected_count; lia).
  erewrite bind_returned by exact HrunC.
  (* the finalisation and the check *)
  match goal with
  | |- context [finalize_unit_id_migration ?m ?idx] =>
      set (unit_id_map := m); set (indices := idx)
  end.
  match goal with
  | |- context [check_unit_id_coherence _ ?st] => set (stale := st)
  end.
  assert (∀ j, j ∈ indices →
            j = 46 ∨ j = 557 ∨ (ranged = true ∧ 3201 ≤ j < n + 600))
    as Hindices.
  { intros j. unfold indices, ranged, range2, UNIT_OFFSET.
    case_bool_decide.
    - rewrite !elem_of_union, !elem_of_singleton, elem_of_list_to_set,
        elem_of_seqZ. lia.
    - rewrite !elem_of_union, !elem_of_singleton. lia. }
  destruct (finalize_then_check unit_id_map indices stale sC)
    as (r & s2 & issues & Hfin & Hcheck & Hnil); [| done |  |].
  { intros j [->|[->|[_ ?]]]%Hindices; lia. }
  { assert (∀ c j c' j' l, j ∈ indices → j' ∈ indices → j ≠ 557 →
              unit_at (target_data sC) c j = Some l →
              unit_at (target_data sC) c' j' = Some l → j = j') as Hhalf.
    { intros c j c' j' l Hj Hj' Hne Hat Hat'.
      destruct (decide (j' = 557)) as [->|Hne'].
      { destruct (HownC c' 557 l) as [_ Hsole]; [lia|done|].
        by destruct (Hsole c j Hat). }
      rewrite HframeC in Hat, Hat' by lia.
      destruct (decide (j = 46)) as [->|Hj46].
      { destruct (HownB c 46 l) as [_ Hsole]; [lia|done|].
        by destruct (Hsole c' j' Hat'). }
      destruct (decide (j' = 46)) as [->|Hj46'].
      { destruct (HownB c' 46 l) as [_ Hsole]; [lia|done|].
        by destruct (Hsole c j Hat). }
      rewrite HframeB in Hat, Hat' by lia.
      destruct (Hindices j Hj) as [?|[?|[Hr Hjr]]]; [done|done|].
      destruct (HownA c j l Hr Hjr Hat) as [_ Hsole].
      by destruct (Hsole c' j' Hat'). }
    intros c j c' j' l Hj Hj' Hat Hat'.
    destruct (decide (j = 557)) as [->|Hne].
    - destruct (decide (j' = 557)) as [->|Hne']; [done|].
      symmetry. by eapply (Hhalf c' j' c 557 l).
    - by eapply (Hhalf c j c' j' l). }
  erewrite bind_returned by exact Hfin. rewrite Hcheck.
  split; [lia|]. intros Hn. apply Hnil.
  - intros v. unfold stale, unit_id_map, ranged.
    case_bool_decide; [|by rewrite elem_of_empty].
    rewrite lookup_unit_id_map. unfold range2.
    rewrite elem_of_list_to_set, elem_of_seqZ. intros Hv.
    rewrite bool_decide_eq_true_2 by lia. by eexists.
  - intros v w. unfold stale, unit_id_map, ranged.
    case_bool_decide; [|by rewrite lookup_empty].
    rewrite lookup_unit_id_map. case_bool_decide; [|done].
    intros [= <-]. unfold range2.
    rewrite elem_of_list_to_set, elem_of_seqZ. lia.
Qed.

Lemma run_dat_sync_units_outcome_witness :
  let n := n_unit_slots ex_old_mod in
  match run_dat_sync_units ex_old_mod true ex_state with
  | Raised e _ => e = ValueError ∧ n ≤ 557
  | Returned issues _ => 557 < n ∧ (n ≤ 3201 → issues = [])
  end.
Proof.
  apply (run_dat_sync_units_outcome ex_old_mod true ex_state).
  - unfold allocated, ex_old_mod. cbn [DatFile.civs].
    constructor; [|done]. cbn [Civ.units]. by apply Forall_replicate.
  - solve_allocated.
Defined.

(** * [tools/batch_replace_trigger_tech_id.py] *)

(** ** Dicts of counts *)

Lemma dict_get_set d k v k' :
  dict_get (dict_set d k v) k'
  = if bool_decide (k = k') then Some v else dict_get d k'.
Proof.
  induction d as [|[k0 v0] d IH]; simpl.
  - done.
  - destruct (decide (k0 = k)) as [->|Hne].
    + rewrite bool_decide_eq_true_2 by done. simpl. by case_bool_decide.
    + rewrite bool_decide_eq_false_2 by done. simpl. rewrite IH.
      repeat case_bool_decide; congruence.
Qed.

Lemma dict_set_keys d k v :
  (dict_set d k v).*1 = if bool_decide (k ∈ d.*1) then d.*1 else d.*1 ++ [k].
Proof.
  induction d as [|[k0 v0] d IH].
  - done.
  - cbn [dict_set]. destruct (decide (k0 = k)) as [->|Hne].
    + rewrite bool_decide_eq_true_2 by done. rewrite !fmap_cons.
      by rewrite bool_decide_eq_true_2 by left.
    + rewrite bool_decide_eq_false_2 by done. rewrite !fmap_cons, IH.
      cbn [fst]. destruct (decide (k ∈ d.*1)).
      * rewrite !bool_decide_eq_true_2; [done|by right|done].
      * rewrite !bool_decide_eq_false_2; [done| |done].
        rewrite elem_of_cons. intros [?|?]; [congruence|done].
Qed.

Lemma elem_of_dict_set d k v k' v' :
  (k', v') ∈ dict_set d k v → (k' = k ∧ v' = v) ∨ (k', v') ∈ d.
Proof.
  induction d as [|[k0 v0] d IH]; simpl.
  - intros [=]%list_elem_of_singleton. by left.
  - case_bool_decide.
    + intros [[=]|?]%elem_of_cons; [by left|right; by right].
    + intros [[=]|[?|?]%IH]%elem_of_cons.
      * right. subst. left.
      * by left.
      * right. by right.
Qed.

Lemma dict_get_elem_of d k v : NoDup d.*1 → (k, v) ∈ d → dict_get d k = Some v.
Proof.
  induction d as [|[k0 v0] d IH]; simpl; [by intros _ ?%elem_of_nil|].
  intros [Hk0 Hnd]%NoDup_cons [[= -> ->]|Hin]%elem_of_cons.
  - by rewrite bool_decide_eq_true_2.
  - rewrite bool_decide_eq_false_2; [by apply IH|].
    intros ->. apply Hk0. apply list_elem_of_fmap. by exists (k, v).
Qed.

Lemma dict_get_is_Some d k : is_Some (dict_get d k) ↔ k ∈ d.*1.
Proof.
  split.
  - intros [v Hv]. apply dict_get_Some in Hv.
    apply list_elem_of_fmap. by exists (k, v).
  - induction d as [|[k0 v0] d IH]; simpl; [by intros ?%elem_of_nil|].
    intros [->|Hin]%elem_of_cons.
    + rewrite bool_decide_eq_true_2 by done. by eexists.
    + case_bool_decide; [by eexists|by apply IH].
Qed.

Lemma count_dict_nil : count_dict [].
Proof. split; [constructor|by intros k v ?%elem_of_nil]. Qed.

Lemma count_of_nonneg d k : count_dict d → 0 ≤ count_of d k.
Proof.
  intros [_ Hpos]. unfold count_of.
  destruct (dict_get d k) as [v|] eqn:Hv; simpl; [|done].
  apply dict_get_Some in Hv. apply Hpos in Hv. lia.
Qed.

Lemma count_dict_key d k : count_dict d → k ∈ d.*1 ↔ 0 < count_of d k.
Proof.
  intros [Hnd Hpos]. rewrite <- dict_get_is_Some. unfold count_of. split.
  - intros [v Hv]. rewrite Hv. simpl. apply dict_get_Some in Hv. eauto.
  - destruct (dict_get d k); [by eexists|simpl; lia].
Qed.

Lemma count_of_add d k n k' :
  count_of (dict_add d k n) k'
  = count_of d k' + (if bool_decide (k' = k) then n else 0).
Proof.
  unfold count_of, dict_add. rewrite dict_get_set.
  destruct (decide (k = k')) as [->|Hne].
  - rewrite !bool_decide_eq_true_2 by done. done.
  - rewrite !bool_decide_eq_false_2 by congruence. lia.
Qed.

Lemma count_dict_add d k n : count_dict d → 0 < n → count_dict (dict_add d k n).
Proof.
  intros Hd Hn. pose proof (count_of_nonneg d k Hd) as Hk.
  destruct Hd as [Hnd Hpos]. unfold dict_add. split.
  - rewrite dict_set_keys. case_bool_decide; [done|].
    apply NoDup_app. split; [done|]. split; [|apply NoDup_singleton].
    intros x Hx ->%list_elem_of_singleton. done.
  - intros k' v' [[-> ->]|Hin]%elem_of_dict_set; [|by eapply Hpos].
    unfold count_of in Hk. lia.
Qed.

(** [for k, v in b.items(): d[k] = d.get(k, 0) + v]. *)
Lemma count_dict_merge d b :
  count_dict d → count_dict b →
  count_dict (foldl (λ d '(k, v), dict_add d k v) d b)
  ∧ ∀ k, count_of (foldl (λ d '(k, v), dict_add d k v) d b) k
         = count_of d k + count_of b k.
Proof.
  revert d. induction b as [|[k0 v0] b IH]; intros d Hd [Hnd Hpos]; simpl.
  { split; [done|]. intros k. unfold count_of at 3. simpl. lia. }
  rewrite fmap_cons in Hnd. apply NoDup_cons in Hnd as [Hk0 Hnd].
  destruct (IH (dict_add d k0 v0)) as [Hwf Hcnt].
  - apply count_dict_add; [done|]. apply (Hpos k0 v0). left.
  - split; [done|]. intros k v Hin. apply (Hpos k v). by right.
  - split; [done|]. intros k. rewrite Hcnt, count_of_add.
    assert (count_of ((k0, v0) :: b) k
            = (if bool_decide (k = k0) then v0 else 0) + count_of b k) as ->;
      [|lia].
    unfold count_of. simpl. destruct (decide (k = k0)) as [->|Hne].
    + rewrite !bool_decide_eq_true_2 by done.
      rewrite dict_get_None by done. simpl. lia.
    + rewrite !bool_decide_eq_false_2 by congruence. lia.
Qed.

(** ** One object, one list of objects *)

Lemma effect_attrs_run valid m e total d :
  count_dict d →
  ∃ d',
    foldl (λ '(obj, total, by_old_id) attr,
      let '(obj, old_id) := _get_tech_val_and_set valid attr m obj in
      match old_id with
      | Some old_id => (obj, total + 1, dict_add by_old_id old_id 1)
      | None => (obj, total, by_old_id)
      end) (e, total, d) EFFECT_TECH_ATTRS
    = (map_effect_tech (retech valid m) e,
       total
       + (tech_replaced valid m (Some (TriggerEffect.technology e))
          + tech_replaced valid m
              (Some (TriggerEffect.force_research_technology e))
          + tech_replaced valid m (TriggerEffect.local_technology e)),
       d')
    ∧ count_dict d'
    ∧ ∀ k, count_of d' k
           = count_of d k
             + (tech_hit valid m k (Some (TriggerEffect.technology e))
                + tech_hit valid m k
                    (Some (TriggerEffect.force_research_technology e))
                + tech_hit valid m k (TriggerEffect.local_technology e)).
Proof.
  intros Hd. destruct e as [ty u1 u2 t f l r ids].
  unfold EFFECT_TECH_ATTRS, _get_tech_val_and_set, map_effect_tech, retech,
    renamed, tech_hit, tech_replaced.
  destruct l as [l|]; simpl;
    repeat match goal with
    | |- context [valid ?x] => destruct (valid x) eqn:?; simpl
    | |- context [dict_get m ?x] => destruct (dict_get m x) eqn:?; simpl
    end;
    (eexists; split;
       [apply (f_equal2 pair);
          [apply (f_equal2 pair); first [done|lia]|reflexivity]|]);
    (split; [repeat (apply count_dict_add; [|lia]); done|]);
    intros k; rewrite ?count_of_add;
    rewrite ?(bool_decide_eq_true_2 (is_Some (Some _))) by (by eexists);
    rewrite ?(bool_decide_eq_false_2 (is_Some None)) by (by intros [? ?]);
    repeat case_bool_decide; try lia; congruence.
Qed.

Lemma condition_attrs_run valid m c total d :
  count_dict d →
  ∃ d',
    foldl (λ '(obj, total, by_old_id) attr,
      let '(obj, old_id) := _get_tech_val_and_set valid attr m obj in
      match old_id with
      | Some old_id => (obj, total + 1, dict_add by_old_id old_id 1)
      | None => (obj, total, by_old_id)
      end) (c, total, d) CONDITION_TECH_ATTRS
    = (map_condition_tech (retech valid m) c,
       total
       + (tech_replaced valid m (Some (TriggerCondition.technology c))
          + tech_replaced valid m (TriggerCondition.local_technology c)),
       d')
    ∧ count_dict d'
    ∧ ∀ k, count_of d' k
           = count_of d k
             + (tech_hit valid m k (Some (TriggerCondition.technology c))
                + tech_hit valid m k (TriggerCondition.local_technology c)).
Proof.
  intros Hd. destruct c as [ty ol t l uo].
  unfold CONDITION_TECH_ATTRS, _get_tech_val_and_set, map_condition_tech,
    retech, renamed, tech_hit, tech_replaced.
  destruct l as [l|]; simpl;
    repeat match goal with
    | |- context [valid ?x] => destruct (valid x) eqn:?; simpl
    | |- context [dict_get m ?x] => destruct (dict_get m x) eqn:?; simpl
    end;
    (eexists; split;
       [apply (f_equal2 pair);
          [apply (f_equal2 pair); first [done|lia]|reflexivity]|]);
    (split; [repeat (apply count_dict_add; [|lia]); done|]);
    intros k; rewrite ?count_of_add;
    rewrite ?(bool_decide_eq_true_2 (is_Some (Some _))) by (by eexists);
    rewrite ?(bool_decide_eq_false_2 (is_Some None)) by (by intros [? ?]);
    repeat case_bool_decide; try lia; congruence.
Qed.

(** The loop over the objects, given what the loop over the attributes
    does to one object. *)
Lemma apply_tech_mapping_in_run {A} valid (attrs : list (tech_attr A)) m
    (F : A → A) (R : A → Z) (H : Z → A → Z) :
  (∀ obj total d, count_dict d →
     ∃ d',
       foldl (λ '(obj, total, by_old_id) attr,
         let '(obj, old_id) := _get_tech_val_and_set valid attr m obj in
         match old_id with
         | Some old_id => (obj, total + 1, dict_add by_old_id old_id 1)
         | None => (obj, total, by_old_id)
         end) (obj, total, d) attrs
       = (F obj, total + R obj, d')
       ∧ count_dict d'
       ∧ ∀ k, count_of d' k = count_of d k + H k obj) →
  ∀ objects,
    ∃ by_old_id,
      apply_tech_mapping_in valid attrs objects m
      = (F <$> objects, (total R objects, by_old_id))
      ∧ count_dict by_old_id
      ∧ ∀ k, count_of by_old_id k = total (H k) objects.
Proof.
  intros Hstep objects. unfold apply_tech_mapping_in.
  assert (∀ done tot d, count_dict d →
    ∃ d',
      foldl (λ '(done, total, by_old_id) obj,
        let '(obj, total, by_old_id) :=
          foldl (λ '(obj, total, by_old_id) attr,
            let '(obj, old_id) := _get_tech_val_and_set valid attr m obj in
            match old_id with
            | Some old_id => (obj, total + 1, dict_add by_old_id old_id 1)
            | None => (obj, total, by_old_id)
            end) (obj, total, by_old_id) attrs in
        (done ++ [obj], total, by_old_id)) (done, tot, d) objects
      = (done ++ (F <$> objects), tot + total R objects, d')
      ∧ count_dict d'
      ∧ ∀ k, count_of d' k = count_of d k + total (H k) objects) as Hloop.
  { induction objects as [|obj objects IH]; intros done tot d Hd.
    - exists d. simpl. rewrite app_nil_r, Z.add_0_r.
      split; [done|]. split; [done|]. intros k. lia.
    - cbn [foldl]. destruct (Hstep obj tot d Hd) as (d1 & E1 & Hd1 & C1).
      rewrite E1. destruct (IH (done ++ [F obj]) (tot + R obj) d1 Hd1)
        as (d2 & E2 & Hd2 & C2).
      exists d2. rewrite E2. split.
      + rewrite <- app_assoc. simpl. do 2 f_equal. lia.
      + split; [done|]. intros k. rewrite C2, C1. simpl. lia. }
  destruct (Hloop [] 0 [] count_dict_nil) as (d' & E & Hd' & C).
  exists d'. rewrite E. simpl. split; [|split; [done|]].
  - by rewrite Z.add_0_l.
  - intros k. rewrite C. unfold count_of at 1. simpl. lia.
Qed.

(** ** The scenario *)

Lemma sorted_nodup_lt (l : list Z) :
  StronglySorted Z.le l → NoDup l → StronglySorted Z.lt l.
Proof.
  induction 1 as [|x l Hl IH Hx]; intros Hnd; [constructor|].
  apply NoDup_cons in Hnd as [Hin Hnd]. constructor; [by apply IH|].
  rewrite Forall_forall in Hx |- *. intros y Hy.
  pose proof (Hx y Hy). assert (x ≠ y) by (by intros ->). lia.
Qed.

Lemma sorted_elements (X : gset Z) :
  StronglySorted Z.lt (merge_sort Z.le (elements X)).
Proof.
  apply sorted_nodup_lt.
  - apply (StronglySorted_merge_sort Z.le).
  - rewrite merge_sort_Permutation. apply NoDup_elements.
Qed.

Lemma tech_triggers_run valid m triggers done te tc eb cb :
  count_dict eb → count_dict cb →
  ∃ eb' cb',
    foldl (λ '(done, total_effect, total_condition, effect_by_id,
               condition_by_id) trigger,
      let '(effects, (te, be)) :=
        _apply_tech_mapping_in_effects valid (Trigger.effects trigger) m in
      let '(conditions, (tc, bc)) :=
        _apply_tech_mapping_in_conditions valid (Trigger.conditions trigger)
          m in
      (done ++ [Trigger.mk (Trigger.name trigger) effects conditions],
       total_effect + te, total_condition + tc,
       foldl (λ d '(k, v), dict_add d k v) effect_by_id be,
       foldl (λ d '(k, v), dict_add d k v) condition_by_id bc))
      (done, te, tc, eb, cb) triggers
    = (done
       ++ ((λ t, Trigger.mk (Trigger.name t)
                   (map_effect_tech (retech valid m) <$> Trigger.effects t)
                   (map_condition_tech (retech valid m)
                      <$> Trigger.conditions t)) <$> triggers),
       te + effect_techs (tech_replaced valid m) (Scenario.mk triggers []),
       tc + condition_techs (tech_replaced valid m) (Scenario.mk triggers []),
       eb', cb')
    ∧ count_dict eb' ∧ count_dict cb'
    ∧ (∀ k, count_of eb' k
            = count_of eb k
              + effect_techs (tech_hit valid m k) (Scenario.mk triggers []))
    ∧ (∀ k, count_of cb' k
            = count_of cb k
              + condition_techs (tech_hit valid m k)
                  (Scenario.mk triggers [])).
Proof.
  revert done te tc eb cb.
  induction triggers as [|t triggers IH]; intros done te tc eb cb Heb Hcb.
  { exists eb, cb. unfold effect_techs, condition_techs. simpl.
    rewrite app_nil_r, !Z.add_0_r.
    split; [done|]. split; [done|]. split; [done|]. split; intros k; lia. }
  cbn [foldl].
  destruct (apply_tech_mapping_in_run valid EFFECT_TECH_ATTRS m _ _ _
              (effect_attrs_run valid m) (Trigger.effects t))
    as (be & Ee & Hbe & Cbe).
  destruct (apply_tech_mapping_in_run valid CONDITION_TECH_ATTRS m _ _ _
              (condition_attrs_run valid m) (Trigger.conditions t))
    as (bc & Ec & Hbc & Cbc).
  fold (_apply_tech_mapping_in_effects valid (Trigger.effects t) m) in Ee.
  fold (_apply_tech_mapping_in_conditions valid (Trigger.conditions t) m)
    in Ec.
  rewrite Ee, Ec.
  destruct (count_dict_merge eb be Heb Hbe) as [Heb1 Ceb1].
  destruct (count_dict_merge cb bc Hcb Hbc) as [Hcb1 Ccb1].
  destruct (IH (done ++ [Trigger.mk (Trigger.name t)
                           (map_effect_tech (retech valid m)
                              <$> Trigger.effects t)
                           (map_condition_tech (retech valid m)
                              <$> Trigger.conditions t)])
              (te + total (λ e,
                       tech_replaced valid m (Some (TriggerEffect.technology e))
                       + tech_replaced valid m
                           (Some (TriggerEffect.force_research_technology e))
                       + tech_replaced valid m
                           (TriggerEffect.local_technology e))
                     (Trigger.effects t))
              (tc + total (λ c,
                       tech_replaced valid m
                         (Some (TriggerCondition.technology c))
                       + tech_replaced valid m
                           (TriggerCondition.local_technology c))
                     (Trigger.conditions t))
              _ _ Heb1 Hcb1)
    as (eb' & cb' & E & Heb' & Hcb' & Ceb' & Ccb').
  exists eb', cb'. rewrite E.
  unfold effect_techs, condition_techs in *. simpl in *.
  split; [|split; [done|split; [done|split]]].
  - rewrite <- app_assoc. simpl.
    repeat match goal with
    | |- (_, _) = (_, _) => apply (f_equal2 pair)
    end; first [done|lia].
  - intros k. rewrite Ceb', Ceb1, Cbe. lia.
  - intros k. rewrite Ccb', Ccb1, Cbc. lia.
Qed.

Lemma tech_mapping_run value_is_valid scenario tech_id_mapping :
  ∃ detail,
    apply_tech_mapping_in_scenario value_is_valid scenario tech_id_mapping
    = (map_scenario_tech (retech value_is_valid tech_id_mapping) scenario,
       (effect_techs (tech_replaced value_is_valid tech_id_mapping) scenario,
        condition_techs (tech_replaced value_is_valid tech_id_mapping)
          scenario,
        detail))
    ∧ StronglySorted Z.lt detail.*1
    ∧ ∀ k e c,
        (k, (e, c)) ∈ detail
        ↔ e = effect_techs (tech_hit value_is_valid tech_id_mapping k)
                scenario
          ∧ c = condition_techs (tech_hit value_is_valid tech_id_mapping k)
                  scenario
          ∧ 0 < e + c.
Proof.
  unfold apply_tech_mapping_in_scenario.
  destruct (tech_triggers_run value_is_valid tech_id_mapping
              (Scenario.triggers scenario) [] 0 0 [] []
              count_dict_nil count_dict_nil)
    as (eb & cb & E & Heb & Hcb & Ceb & Ccb).
  rewrite E. clear E.
  assert (∀ c, effect_techs c (Scenario.mk (Scenario.triggers scenario) [])
               = effect_techs c scenario) as He by done.
  assert (∀ c, condition_techs c (Scenario.mk (Scenario.triggers scenario) [])
               = condition_techs c scenario) as Hc by done.
  rewrite He, Hc.
  eexists. split; [by rewrite !Z.add_0_l|]. split.
  - rewrite <- list_fmap_compose.
    match goal with
    | |- StronglySorted _ (_ <$> ?l) =>
        replace (_ <$> l) with (id <$> l)
          by (apply list_fmap_ext; by intros)
    end.
    rewrite list_fmap_id. apply sorted_elements.
  - intros k e c. rewrite list_elem_of_fmap.
    pose proof (count_of_nonneg eb k Heb) as Hek.
    pose proof (count_of_nonneg cb k Hcb) as Hck.
    pose proof (count_dict_key eb k Heb) as Hekey.
    pose proof (count_dict_key cb k Hcb) as Hckey.
    pose proof (Ceb k) as Cek. pose proof (Ccb k) as Cck.
    rewrite He in Cek. rewrite Hc in Cck.
    unfold count_of in Cek, Cck, Hek, Hck, Hekey, Hckey.
    simpl in Cek, Cck.
    split.
    + intros (k' & [= <- -> ->] & Hin).
      rewrite merge_sort_Permutation, elem_of_elements, elem_of_union,
        !elem_of_list_to_set in Hin.
      split; [lia|]. split; [lia|].
      destruct Hin as [Hin%Hekey|Hin%Hckey]; lia.
    + intros (-> & -> & Hpos). exists k. split.
      * f_equal. f_equal; lia.
      * rewrite merge_sort_Permutation, elem_of_elements, elem_of_union,
          !elem_of_list_to_set.
        rewrite Hekey, Hckey. lia.
Qed.

(** [apply_tech_mapping_in_scenario] replaces all entries at once: every
    tech attribute of an effect ([technology],
    [force_research_technology], [local_technology]) and of a condition
    ([technology], [local_technology]) that the format has, that
    [value_is_valid] accepts and that is a key of the mapping gets the
    mapped id, whatever the mapping, and nothing else changes (a mapped
    id that is itself a key is not mapped again).  The totals count the
    attributes replaced.  The detail has, in increasing order and once
    each, the old ids that were replaced somewhere, each with the numbers
    of its replacements in effects and in conditions. *)
Theorem tech_mapping_at_once value_is_valid scenario tech_id_mapping :
  ∃ detail,
    apply_tech_mapping_in_scenario value_is_valid scenario tech_id_mapping
    = (map_scenario_tech (retech value_is_valid tech_id_mapping) scenario,
       (effect_techs (tech_replaced value_is_valid tech_id_mapping) scenario,
        condition_techs (tech_replaced value_is_valid tech_id_mapping)
          scenario,
        detail))
    ∧ StronglySorted Z.lt detail.*1
    ∧ ∀ k e c,
        (k, (e, c)) ∈ detail
        ↔ e = effect_techs (tech_hit value_is_valid tech_id_mapping k)
                scenario
          ∧ c = condition_techs (tech_hit value_is_valid tech_id_mapping k)
                  scenario
          ∧ 0 < e + c.
Proof. apply tech_mapping_run. Qed.

(** ** The summary *)

Lemma total_zero {A} (c : A → Z) l : (∀ x, x ∈ l → c x = 0) → total c l = 0.
Proof.
  induction l as [|x l IH]; intros H; simpl; [done|].
  rewrite (H x) by left. rewrite IH; [done|]. intros; apply H; by right.
Qed.

Lemma tech_hit_key valid m k x :
  ¬ is_Some (dict_get m k) → tech_hit valid m k x = 0.
Proof.
  intros Hk. unfold tech_hit, tech_replaced. destruct x as [v|]; [|done].
  case_bool_decide as Hv; [|done]. subst v.
  rewrite (bool_decide_eq_false_2 (is_Some _)) by done.
  by rewrite andb_false_r.
Qed.

(** An id that has been replaced somewhere is a key of the mapping. *)
Lemma tech_hits_key valid m k s :
  0 < effect_techs (tech_hit valid m k) s
      + condition_techs (tech_hit valid m k) s →
  is_Some (dict_get m k).
Proof.
  intros Hpos. destruct (decide (is_Some (dict_get m k))) as [|Hk]; [done|].
  exfalso. unfold effect_techs, condition_techs in Hpos.
  rewrite !total_zero in Hpos; [lia| |].
  - intros t _. apply total_zero. intros c _.
    by rewrite !tech_hit_key.
  - intros t _. apply total_zero. intros e _.
    by rewrite !tech_hit_key.
Qed.

Lemma detail_get_elem_of (d : tech_detail) k v :
  NoDup d.*1 → (k, v) ∈ d → detail_get d k = Some v.
Proof.
  induction d as [|[k0 v0] d IH]; simpl; [by intros _ ?%elem_of_nil|].
  intros [Hk0 Hnd]%NoDup_cons [[= -> ->]|Hin]%elem_of_cons.
  - by rewrite bool_decide_eq_true_2.
  - rewrite bool_decide_eq_false_2; [by apply IH|].
    intros ->. apply Hk0. apply list_elem_of_fmap. by exists (k, v).
Qed.

Lemma sorted_lt_nodup (l : list Z) : StronglySorted Z.lt l → NoDup l.
Proof.
  induction 1 as [|x l Hl IH Hx]; constructor; [|done].
  intros Hin. rewrite Forall_forall in Hx. pose proof (Hx x Hin). lia.
Qed.

Lemma merge_sort_sorted (l : list Z) :
  StronglySorted Z.lt l → merge_sort Z.le l = l.
Proof.
  intros Hl. apply (StronglySorted_unique Z.le).
  - apply (StronglySorted_merge_sort Z.le).
  - rewrite <- (list_fmap_id l).
    apply (StronglySorted_fmap id Z.lt Z.le); [|exact Hl].
    intros x y. unfold id. lia.
  - apply merge_sort_Permutation.
Qed.

Lemma mapM_fmap_Some {A B C} (f : A → option B) (g : C → A) (h : C → B) l :
  (∀ x, x ∈ l → f (g x) = Some (h x)) → mapM f (g <$> l) = Some (h <$> l).
Proof.
  induction l as [|x l IH]; intros H; [done|].
  rewrite !fmap_cons. cbn [mapM]. rewrite (H x) by left.
  rewrite IH by (intros; apply H; by right). done.
Qed.

(** The summary never fails on a detail whose old ids are in increasing
    order and are keys of the mapping: it has the totals, then one line
    for each entry of the detail, in order, with the id the mapping
    gives. *)
Lemma tech_summary_run te tc (detail : tech_detail) m :
  StronglySorted Z.lt detail.*1 →
  (∀ k v, (k, v) ∈ detail → is_Some (dict_get m k)) →
  tech_summary te tc detail m
  = Some (SNoteTechTotals te tc
          :: (if bool_decide (detail ≠ [])
              then SNoteTechsHeader
                   :: ((λ '(k, (e, c)), SNoteTechLine k (renamed m k) e c)
                         <$> detail)
              else [SNoteNoTechs])).
Proof.
  intros Hsorted Hkeys. unfold tech_summary.
  case_bool_decide as Hne; [|done].
  rewrite merge_sort_sorted by done.
  erewrite (mapM_fmap_Some _ fst
              (λ '(k, (e, c)), SNoteTechLine k (renamed m k) e c)); [done|].
  intros [k [e c]] Hin. simpl.
  rewrite (detail_get_elem_of detail k (e, c)); [|by apply sorted_lt_nodup|done].
  simpl. destruct (Hkeys k (e, c) Hin) as [new_id Hnew].
  unfold renamed. by rewrite Hnew.
Qed.

(** [apply_scenario_tech_mapping] never fails with a [KeyError].  It
    leaves the scenario as [apply_tech_mapping_in_scenario] does, returns
    the two totals and, when asked to, prints them followed by one line
    for each old id that was replaced, in increasing order, with its new
    id and its two counts, or by the line that says that nothing was
    replaced. *)
Theorem scenario_tech_mapping_summary value_is_valid scenario tech_mapping
    print_summary :
  ∃ detail,
    apply_scenario_tech_mapping value_is_valid scenario tech_mapping
      print_summary
    = Some
        (map_scenario_tech (retech value_is_valid tech_mapping) scenario,
         (effect_techs (tech_replaced value_is_valid tech_mapping) scenario,
          condition_techs (tech_replaced value_is_valid tech_mapping)
            scenario),
         if print_summary then
           SNoteTechTotals
             (effect_techs (tech_replaced value_is_valid tech_mapping)
                scenario)
             (condition_techs (tech_replaced value_is_valid tech_mapping)
                scenario)
           :: (if bool_decide (detail ≠ [])
               then SNoteTechsHeader
                    :: ((λ '(k, (e, c)),
                           SNoteTechLine k (renamed tech_mapping k) e c)
                          <$> detail)
               else [SNoteNoTechs])
         else [])
    ∧ StronglySorted Z.lt detail.*1
    ∧ ∀ k e c,
        (k, (e, c)) ∈ detail
        ↔ e = effect_techs (tech_hit value_is_valid tech_mapping k) scenario
          ∧ c = condition_techs (tech_hit value_is_valid tech_mapping k)
                  scenario
          ∧ 0 < e + c.
Proof.
  destruct (tech_mapping_run value_is_valid scenario tech_mapping)
    as (detail & Hrun & Hsorted & Hdetail).
  exists detail. split; [|done].
  unfold apply_scenario_tech_mapping. rewrite Hrun.
  destruct print_summary; [|done].
  rewrite tech_summary_run; [done|done|].
  intros k [e c] (-> & -> & Hpos)%Hdetail. by eapply tech_hits_key.
Qed.

(** ** [mod_sync_to_official.apply_scenario_mappings] *)

(** Renaming unit types leaves the tech attributes as they are. *)
Lemma effect_techs_map_scenario c f g s :
  effect_techs c (map_scenario f g s) = effect_techs c s.
Proof.
  unfold effect_techs, map_scenario. simpl. rewrite total_fmap.
  apply total_ext. intros t _. simpl. rewrite total_fmap.
  by apply total_ext.
Qed.

Lemma condition_techs_map_scenario c f g s :
  condition_techs c (map_scenario f g s) = condition_techs c s.
Proof.
  unfold condition_techs, map_scenario. simpl. rewrite total_fmap.
  apply total_ext. intros t _. simpl. rewrite total_fmap.
  by apply total_ext.
Qed.

(** [apply_scenario_mappings] on a unit mapping without chains or
    repeated keys, and any tech mapping: it never fails with a
    [KeyError]; the scenario that results has every mapped unit type and
    every mapped tech id replaced at once; the unit report and the tech
    totals are those of the scenario as loaded, the unit replacement
    having no influence on the tech counts; the summary is the one of
    the units followed by the one of the techs. *)
Theorem scenario_mappings_at_once value_is_valid scenario unit_mapping
    tech_mapping print_summary :
  NoDup unit_mapping.*1 → chain_free unit_mapping →
  let report := omap (report_entry value_is_valid scenario) unit_mapping in
  let total_effect :=
    effect_techs (tech_replaced value_is_valid tech_mapping) scenario in
  let total_condition :=
    condition_techs (tech_replaced value_is_valid tech_mapping) scenario in
  ∃ detail,
    apply_scenario_mappings value_is_valid scenario unit_mapping tech_mapping
      print_summary
    = Some
        (map_scenario_tech (retech value_is_valid tech_mapping)
           (map_scenario
              (λ x, if value_is_valid x then renamed unit_mapping x else x)
              (renamed unit_mapping) scenario),
         (report, (total_effect, total_condition)),
         if print_summary then
           SNoteUnitsHeader
           :: (if bool_decide (report ≠ []) then SNoteUnitLine <$> report
               else [SNoteNoUnits])
           ++ SNoteTechTotals total_effect total_condition
              :: (if bool_decide (detail ≠ [])
                  then SNoteTechsHeader
                       :: ((λ '(k, (e, c)),
                              SNoteTechLine k (renamed tech_mapping k) e c)
                             <$> detail)
                  else [SNoteNoTechs])
         else [])
    ∧ StronglySorted Z.lt detail.*1
    ∧ ∀ k e c,
        (k, (e, c)) ∈ detail
        ↔ e = effect_techs (tech_hit value_is_valid tech_mapping k) scenario
          ∧ c = condition_techs (tech_hit value_is_valid tech_mapping k)
                  scenario
          ∧ 0 < e + c.
Proof.
  intros Hnd Hcf report total_effect total_condition.
  unfold apply_scenario_mappings.
  rewrite unit_mapping_fold by done. cbn [app]. fold report.
  set (s1 := map_scenario (seq_rename value_is_valid unit_mapping)
               (seq_rename (λ _, true) unit_mapping) scenario).
  assert (s1 = map_scenario
                 (λ x, if value_is_valid x then renamed unit_mapping x else x)
                 (renamed unit_mapping) scenario) as Hs1.
  { apply map_scenario_ext; intros x; by rewrite seq_rename_at_once. }
  destruct (tech_mapping_run value_is_valid s1 tech_mapping)
    as (detail & Hrun & Hsorted & Hdetail).
  assert (∀ c, effect_techs c s1 = effect_techs c scenario) as He
    by (intros c; apply effect_techs_map_scenario).
  assert (∀ c, condition_techs c s1 = condition_techs c scenario) as Hc
    by (intros c; apply condition_techs_map_scenario).
  rewrite He, Hc in Hrun. setoid_rewrite He in Hdetail.
  setoid_rewrite Hc in Hdetail.
  exists detail. split; [|done].
  rewrite Hrun, Hs1. fold total_effect total_condition.
  destruct print_summary; [|done].
  rewrite tech_summary_run; [done|done|].
  intros k [e c] (-> & -> & Hpos)%Hdetail. by eapply tech_hits_key.
Qed.

Lemma scenario_mappings_at_once_witness :
  let report :=
    omap (report_entry (λ x, bool_decide (x ≠ -1)) ex_scenario)
      [(2601, 3201); (2602, 3202); (46, 46)] in
  let total_effect :=
    effect_techs (tech_replaced (λ x, bool_decide (x ≠ -1))
                    build_tech_id_mapping) ex_scenario in
  let total_condition :=
    condition_techs (tech_replaced (λ x, bool_decide (x ≠ -1))
                       build_tech_id_mapping) ex_scenario in
  ∃ detail,
    apply_scenario_mappings (λ x, bool_decide (x ≠ -1)) ex_scenario
      [(2601, 3201); (2602, 3202); (46, 46)] build_tech_id_mapping true
    = Some
        (map_scenario_tech
           (retech (λ x, bool_decide (x ≠ -1)) build_tech_id_mapping)
           (map_scenario
              (λ x, if bool_decide (x ≠ -1)
                    then renamed [(2601, 3201); (2602, 3202); (46, 46)] x
                    else x)
              (renamed [(2601, 3201); (2602, 3202); (46, 46)]) ex_scenario),
         (report, (total_effect, total_condition)),
         if true then
           SNoteUnitsHeader
           :: (if bool_decide (report ≠ []) then SNoteUnitLine <$> report
               else [SNoteNoUnits])
           ++ SNoteTechTotals total_effect total_condition
              :: (if bool_decide (detail ≠ [])
                  then SNoteTechsHeader
                       :: ((λ '(k, (e, c)),
                              SNoteTechLine k
                                (renamed build_tech_id_mapping k) e c)
                             <$> detail)
                  else [SNoteNoTechs])
         else [])
    ∧ StronglySorted Z.lt detail.*1
    ∧ ∀ k e c,
        (k, (e, c)) ∈ detail
        ↔ e = effect_techs
                (tech_hit (λ x, bool_decide (x ≠ -1)) build_tech_id_mapping k)
                ex_scenario
          ∧ c = condition_techs
                  (tech_hit (λ x, bool_decide (x ≠ -1)) build_tech_id_mapping
                     k) ex_scenario
          ∧ 0 < e + c.
Proof.
  apply (scenario_mappings_at_once (λ x, bool_decide (x ≠ -1)) ex_scenario
           [(2601, 3201); (2602, 3202); (46, 46)] build_tech_id_mapping true).
  - simpl. repeat constructor; set_solver.
  - solve_chain_free.
Defined.

(** * [run_dat_sync]: the techs *)

(** The two tech implants of the sync one after the other, on a source
    with the techs 490 and 904 to 912 whose effect ids are in range, and a
    target with an effect 0 and a tech 0.  Both return.  Afterwards tech
    490 of the target is the source's, the techs 1504 to 1512 are the
    source's 904 to 912 with their effect id moved up by 600 and their
    required techs moved where they lie in 904 to 912, and every other
    tech the target had is as it was.  The effect of each of the nine
    techs sits 600 above its source index.  The effect of tech 490 sits at
    its source index, unless one of the nine effects has landed on that
    index: the second implant writes last.  Every other effect the target
    had is as it was. *)
Theorem run_dat_sync_techs_writes source_data warn_overwrite s pe pt :
  912 < len (DatFile.techs source_data) →
  let E490 := migrated_effect_ids source_data 490 1 in
  let E := migrated_effect_ids source_data 904 9 in
  (∀ eid, eid ∈ E490 ∪ E → 0 ≤ eid < len (DatFile.effects source_data)) →
  slot (DatFile.effects (target_data s)) 0 = Some pe →
  slot (DatFile.techs (target_data s)) 0 = Some pt →
  ∃ s2,
    run_dat_sync_techs source_data warn_overwrite s = Returned tt s2
    ∧ slot (DatFile.techs (target_data s2)) 490
      = slot (DatFile.techs source_data) 490
    ∧ (∀ i, 0 ≤ i < 9 →
         slot (DatFile.techs (target_data s2)) (1504 + i)
         = rewritten_tech 904 9 600
             <$> slot (DatFile.techs source_data) (904 + i))
    ∧ (∀ j, j ≠ 490 → ¬ 1504 ≤ j < 1513 →
         j < len (DatFile.techs (target_data s)) →
         slot (DatFile.techs (target_data s2)) j
         = slot (DatFile.techs (target_data s)) j)
    ∧ (∀ eid, eid ∈ E →
         slot (DatFile.effects (target_data s2)) (eid + 600)
         = slot (DatFile.effects source_data) eid)
    ∧ (∀ eid, eid ∈ E490 →
         slot (DatFile.effects (target_data s2)) eid
         = if bool_decide (eid - 600 ∈ E)
           then slot (DatFile.effects source_data) (eid - 600)
           else slot (DatFile.effects source_data) eid)
    ∧ (∀ j, j ∉ E490 → j - 600 ∉ E →
         j < len (DatFile.effects (target_data s)) →
         slot (DatFile.effects (target_data s2)) j
         = slot (DatFile.effects (target_data s)) j).
Proof.
  intros Hlen E490 E Hvalid Hpe Hpt.
  (* tech 490, in place *)
  destruct (implant_techs_run source_data 490 (Some 490) None 490
              warn_overwrite s pe pt)
    as (need1 & effects1 & techs1 & pre1 & Hrun1 & _ & _ & _ & Hel1 & Hes1
        & Htl1 & Hts1); [lia|lia| | |done|done|].
  { unfold range_error, selected_count.
    intros [?|[(_ & e & [= <-] & ?)|?]]; lia. }
  { intros eid Hin. cbn [selected_count] in Hin.
    replace (490 - 490 + 1) with 1 in Hin by lia.
    pose proof (Hvalid eid) as Hv. rewrite elem_of_union in Hv.
    specialize (Hv (or_introl Hin)). lia. }
  cbn [selected_count] in Hrun1, Hes1, Hts1, Htl1.
  replace (490 - 490 + 1) with 1 in Hrun1, Hes1, Hts1, Htl1 by lia.
  replace (490 - 490) with 0 in Hes1, Hts1 by lia.
  fold E490 in Hes1.
  match type of Hrun1 with _ = Returned _ ?x => set (s1 := x) in * end.
  (* the techs 904 to 912 *)
  assert (is_Some (slot (DatFile.effects (target_data s1)) 0))
    as [pe1 Hpe1].
  { cbn. rewrite Hes1. case_bool_decide as H0.
    - apply slot_is_Some. replace (0 - 0) with 0 in * by lia.
      apply Hvalid. rewrite elem_of_union. by left.
    - rewrite slot_ensure_length.
      pose proof (slot_Some_lt _ _ _ Hpe).
      rewrite bool_decide_eq_true_2 by lia. by rewrite Hpe. }
  assert (slot (DatFile.techs (target_data s1)) 0 = Some pt) as Hpt1.
  { cbn. rewrite Hts1, bool_decide_eq_false_2 by lia.
    rewrite slot_ensure_length.
    pose proof (slot_Some_lt _ _ _ Hpt).
    by rewrite bool_decide_eq_true_2 by lia. }
  destruct (implant_techs_run source_data 904 (Some 912) None
              (904 + TECH_OFFSET) warn_overwrite s1 pe1 pt)
    as (need2 & effects2 & techs2 & pre2 & Hrun2 & _ & _ & _ & Hel2 & Hes2
        & Htl2 & Hts2); [lia|unfold TECH_OFFSET; lia| | |done|done|].
  { unfold range_error, selected_count.
    intros [?|[(_ & e & [= <-] & ?)|?]]; lia. }
  { intros eid Hin. cbn [selected_count] in Hin.
    replace (912 - 904 + 1) with 9 in Hin by lia.
    pose proof (Hvalid eid) as Hv. rewrite elem_of_union in Hv.
    specialize (Hv (or_intror Hin)). unfold TECH_OFFSET. lia. }
  cbn [selected_count] in Hrun2, Hes2, Hts2, Htl2.
  replace (912 - 904 + 1) with 9 in Hrun2, Hes2, Hts2, Htl2 by lia.
  unfold TECH_OFFSET in Hrun2, Hes2, Hts2, Hel2, Htl2.
  replace (904 + 600 - 904) with 600 in Hes2, Hts2 by lia.
  replace (904 + 600) with 1504 in Hrun2, Hts2, Htl2 by lia.
  fold E in Hes2.
  cbn [target_data s1 DatFile.techs DatFile.effects DatFile.set_techs
       DatFile.set_effects] in Hes2, Hts2.
  eexists. split.
  { unfold run_dat_sync_techs.
    erewrite bind_returned by exact Hrun1.
    unfold TECH_OFFSET. replace (904 + 600) with 1504 by lia.
    erewrite bind_returned by exact Hrun2. done. }
  cbn [target_data DatFile.techs DatFile.effects DatFile.set_techs
       DatFile.set_effects].
  assert (∀ j, j < len techs1 →
            slot (_ensure_length techs1 (1504 + 9) pt) j = slot techs1 j)
    as Hkeep_t.
  { intros j Hj. rewrite slot_ensure_length.
    by rewrite bool_decide_eq_true_2 by done. }
  assert (∀ j, j < len effects1 →
            slot (_ensure_length effects1 need2 pe1) j = slot effects1 j)
    as Hkeep_e.
  { intros j Hj. rewrite slot_ensure_length.
    by rewrite bool_decide_eq_true_2 by done. }
  rewrite len_ensure_length in Htl1. rewrite len_ensure_length in Hel1.
  split; [|split; [|split; [|split; [|split]]]].
  - rewrite Hts2, bool_decide_eq_false_2 by lia.
    rewrite Hkeep_t by lia.
    rewrite Hts1, bool_decide_eq_true_2 by lia.
    replace (490 + (490 - 490)) with 490 by lia.
    destruct (slot (DatFile.techs source_data) 490); [|done].
    simpl. by rewrite rewritten_tech_in_place.
  - intros i Hi. rewrite Hts2, bool_decide_eq_true_2 by lia.
    by replace (904 + (1504 + i - 1504)) with (904 + i) by lia.
  - intros j Hj490 Hj Hlt. rewrite Hts2, bool_decide_eq_false_2 by lia.
    rewrite Hkeep_t by lia.
    rewrite Hts1, bool_decide_eq_false_2 by lia.
    rewrite slot_ensure_length. by rewrite bool_decide_eq_true_2 by done.
  - intros eid Hin. rewrite Hes2.
    replace (eid + 600 - 600) with eid by lia.
    by rewrite bool_decide_eq_true_2 by done.
  - intros eid Hin. rewrite Hes2. case_bool_decide; [done|].
    assert (0 ≤ eid < len (DatFile.effects source_data)) as Heid
      by (apply Hvalid; rewrite elem_of_union; by left).
    assert (slot effects1 eid = slot (DatFile.effects source_data) eid)
      as Hat.
    { rewrite Hes1. replace (eid - 0) with eid by lia.
      by rewrite bool_decide_eq_true_2 by done. }
    rewrite Hkeep_e; [done|].
    destruct (slot_is_Some (DatFile.effects source_data) eid Heid) as [x Hx].
    rewrite Hx in Hat. apply slot_Some_lt in Hat. lia.
  - intros j Hj1 Hj2 Hlt. rewrite Hes2, bool_decide_eq_false_2 by done.
    rewrite Hkeep_e by lia.
    rewrite Hes1. replace (j - 0) with j by lia.
    rewrite bool_decide_eq_false_2 by done.
    rewrite slot_ensure_length. by rewrite bool_decide_eq_true_2 by done.
Qed.

Lemma run_dat_sync_techs_writes_witness :
  let E490 := migrated_effect_ids ex_tech_mod 490 1 in
  let E := migrated_effect_ids ex_tech_mod 904 9 in
  ∃ s2,
    run_dat_sync_techs ex_tech_mod true ex_state = Returned tt s2
    ∧ slot (DatFile.techs (target_data s2)) 490
      = slot (DatFile.techs ex_tech_mod) 490
    ∧ (∀ i, 0 ≤ i < 9 →
         slot (DatFile.techs (target_data s2)) (1504 + i)
         = rewritten_tech 904 9 600
             <$> slot (DatFile.techs ex_tech_mod) (904 + i))
    ∧ (∀ j, j ≠ 490 → ¬ 1504 ≤ j < 1513 →
         j < len (DatFile.techs (target_data ex_state)) →
         slot (DatFile.techs (target_data s2)) j
         = slot (DatFile.techs (target_data ex_state)) j)
    ∧ (∀ eid, eid ∈ E →
         slot (DatFile.effects (target_data s2)) (eid + 600)
         = slot (DatFile.effects ex_tech_mod) eid)
    ∧ (∀ eid, eid ∈ E490 →
         slot (DatFile.effects (target_data s2)) eid
         = if bool_decide (eid - 600 ∈ E)
           then slot (DatFile.effects ex_tech_mod) (eid - 600)
           else slot (DatFile.effects ex_tech_mod) eid)
    ∧ (∀ j, j ∉ E490 → j - 600 ∉ E →
         j < len (DatFile.effects (target_data ex_state)) →
         slot (DatFile.effects (target_data s2)) j
         = slot (DatFile.effects (target_data ex_state)) j).
Proof.
  apply (run_dat_sync_techs_writes ex_tech_mod true ex_state
           (Effect.mk "empty" []) (Tech.mk "town watch" 1 [] 25)).
  - unfold ex_tech_mod, len. cbn [DatFile.techs].
    rewrite length_replicate. lia.
  - intros eid
      [(i & tech & _ & Hat & <-)%elem_of_migrated_effect_ids
      |(i & tech & _ & Hat & <-)%elem_of_migrated_effect_ids]%elem_of_union;
      unfold ex_tech_mod, slot in Hat; cbn [DatFile.techs] in Hat;
      (case_bool_decide; [|done]);
      apply lookup_replicate in Hat as [-> _]; by vm_compute.
  - reflexivity.
  - reflexivity.
Defined.

(** * The scenario sync on a scenario without the old ids *)

Lemma total_nonneg {A} (c : A → Z) l : (∀ x, 0 ≤ c x) → 0 ≤ total c l.
Proof.
  intros Hc. induction l as [|x l IH]; simpl; [done|].
  pose proof (Hc x). lia.
Qed.

Lemma total_zero_inv {A} (c : A → Z) l :
  (∀ x, 0 ≤ c x) → total c l = 0 → ∀ x, x ∈ l → c x = 0.
Proof.
  intros Hc. induction l as [|y l IH]; simpl; intros Hsum x Hx.
  - by apply elem_of_nil in Hx.
  - pose proof (Hc y). pose proof (total_nonneg c l Hc).
    apply elem_of_cons in Hx as [->|Hx]; [lia|]. apply IH; [lia|done].
Qed.

Lemma hit_nonneg valid k x : 0 ≤ hit valid k x.
Proof. unfold hit. by destruct (valid x && bool_decide (x = k)). Qed.

Lemma hit_zero_rename valid k v x :
  hit valid k x = 0 → rename_type valid k v x = x.
Proof.
  unfold hit, rename_type.
  by destruct (valid x && bool_decide (x = k)).
Qed.

Lemma fmap_fixed_elem {A} (f : A → A) (l : list A) :
  (∀ x, x ∈ l → f x = x) → f <$> l = l.
Proof.
  intros H. rewrite <- (list_fmap_id l) at 2.
  apply list_fmap_ext. intros i x Hx. apply H.
  by eapply list_elem_of_lookup_2.
Qed.

(** Replacing an id that does not occur changes nothing. *)
Lemma no_hits_rename valid k v s :
  scenario_hits valid k s = (0, 0, 0) →
  map_scenario (rename_type valid k v) (rename_type (λ _, true) k v) s = s.
Proof.
  unfold scenario_hits. intros [= He Hc Hu].
  destruct s as [ts us]. unfold map_scenario. simpl in *. f_equal.
  - apply fmap_fixed_elem. intros [nm es cs] Ht.
    unfold map_trigger. simpl. f_equal.
    + apply fmap_fixed_elem. intros e Hin.
      pose proof (total_zero_inv _ _
        (λ t, total_nonneg (effect_hits valid k) (Trigger.effects t)
                (λ e, Z.add_nonneg_nonneg _ _ (hit_nonneg _ _ _)
                        (hit_nonneg _ _ _))) He _ Ht) as Het.
      simpl in Het.
      pose proof (total_zero_inv (effect_hits valid k) es
        (λ e, Z.add_nonneg_nonneg _ _ (hit_nonneg _ _ _) (hit_nonneg _ _ _))
        Het e Hin) as Hz.
      unfold effect_hits in Hz.
      pose proof (hit_nonneg valid k (TriggerEffect.object_list_unit_id e)).
      pose proof (hit_nonneg valid k (TriggerEffect.object_list_unit_id_2 e)).
      destruct e. unfold map_effect. simpl in *.
      rewrite !hit_zero_rename by lia. done.
    + apply fmap_fixed_elem. intros c Hin.
      pose proof (total_zero_inv _ _
        (λ t, total_nonneg (condition_hits valid k) (Trigger.conditions t)
                (λ c, hit_nonneg _ _ _)) Hc _ Ht) as Hct.
      simpl in Hct.
      pose proof (total_zero_inv (condition_hits valid k) cs
        (λ c, hit_nonneg _ _ _) Hct c Hin) as Hz.
      unfold condition_hits in Hz.
      destruct c. unfold map_condition. simpl in *.
      rewrite hit_zero_rename by done. done.
  - apply fmap_fixed_elem. intros pu Hpu.
    apply fmap_fixed_elem. intros u Hin.
    pose proof (total_zero_inv _ _
      (λ pu, total_nonneg (λ u, hit (λ _, true) k (MapUnit.unit_const u)) pu
               (λ u, hit_nonneg _ _ _)) Hu _ Hpu) as Hpz.
    simpl in Hpz.
    pose proof (total_zero_inv _ pu (λ u, hit_nonneg _ _ _) Hpz u Hin) as Hz.
    simpl in Hz. destruct u. unfold map_unit_const. simpl in *.
    rewrite hit_zero_rename by done. done.
Qed.

Lemma unit_mapping_fold_fixed valid m s (report : list unit_report) :
  (∀ k v, (k, v) ∈ m → k ≠ v → scenario_hits valid k s = (0, 0, 0)) →
  foldl (λ '(scenario, report) '(old_id, new_id),
    if bool_decide (old_id = new_id) then (scenario, report) else
    let '(scenario, (eff, cond)) :=
      apply_unit_id_in_scenario valid scenario old_id new_id true in
    let '(scenario, map_count) :=
      apply_map_unit_id_in_scenario scenario old_id new_id in
    if bool_decide (eff > 0) || bool_decide (cond > 0)
       || bool_decide (map_count > 0)
    then (scenario, report ++ [(old_id, new_id, eff, cond, map_count)])
    else (scenario, report)) (s, report) m
  = (s, report).
Proof.
  induction m as [|[k v] m IH]; intros Hfree; [done|].
  cbn [foldl]. destruct (decide (k = v)) as [->|Hkv].
  { rewrite bool_decide_eq_true_2 by done. apply IH.
    intros k' v' Hin. apply Hfree. by right. }
  rewrite bool_decide_eq_false_2 by done.
  pose proof (Hfree k v (list_elem_of_here _ _) Hkv) as Hzero.
  rewrite apply_unit_id_run, apply_map_unit_id_run. simpl.
  change (Scenario.mk
            (map_trigger (rename_type valid k v) true <$> Scenario.triggers s)
            ((λ player_units : list MapUnit.t,
                map_unit_const (rename_type (λ _, true) k v) <$> player_units)
               <$> Scenario.units s))
    with (map_scenario (rename_type valid k v)
            (rename_type (λ _, true) k v) s).
  rewrite (no_hits_rename valid k v s Hzero).
  unfold scenario_hits in Hzero. injection Hzero as -> -> ->. simpl.
  apply IH. intros k' v' Hin. apply Hfree. by right.
Qed.

(** A scenario in which no old id of the mapping occurs (as a unit-type
    attribute of a trigger that [value_is_valid] accepts, or as the type
    of a map unit) comes back unchanged from
    [apply_scenario_unit_mapping]: the report is empty and the summary
    says that nothing was replaced. *)
Theorem scenario_unit_mapping_without_occurrences value_is_valid scenario
    unit_mapping print_summary :
  (∀ old_id new_id, (old_id, new_id) ∈ unit_mapping → old_id ≠ new_id →
     scenario_hits value_is_valid old_id scenario = (0, 0, 0)) →
  apply_scenario_unit_mapping value_is_valid scenario unit_mapping
    print_summary
  = (scenario, [],
     if print_summary then [SNoteUnitsHeader; SNoteNoUnits] else []).
Proof.
  intros Hfree. unfold apply_scenario_unit_mapping.
  rewrite unit_mapping_fold_fixed by done. by destruct print_summary.
Qed.

Lemma scenario_unit_mapping_without_occurrences_witness :
  apply_scenario_unit_mapping (λ x, bool_decide (x ≠ -1)) ex_scenario
    [(3201, 3801); (46, 46); (-1, 5)] true
  = (ex_scenario, [], if true then [SNoteUnitsHeader; SNoteNoUnits] else []).
Proof.
  apply (scenario_unit_mapping_without_occurrences
           (λ x, bool_decide (x ≠ -1)) ex_scenario
           [(3201, 3801); (46, 46); (-1, 5)] true).
  intros old_id new_id Hin Hne.
  rewrite !elem_of_cons, elem_of_nil in Hin.
  destruct Hin as [[= -> ->]|[[= -> ->]|[[= -> ->]|[]]]];
    first [done|by vm_compute].
Defined.

(** ** The sync of a scenario, run twice *)

Lemma moved_out_of_range n x :
  let y := if bool_decide (2601 ≤ x < n) then x + 600 * ((n - x + 599) / 600)
           else x in
  ¬ 2601 ≤ y < n.
Proof.
  simpl. case_bool_decide as Hx; [|done].
  pose proof (Z.div_mod (n - x + 599) 600).
  pose proof (Z.mod_pos_bound (n - x + 599) 600). lia.
Qed.

(** Running the scenario sync on its own result changes nothing, whatever
    the number of unit slots of the old mod: no unit type is left in the
    range that the mapping moves, so the second run reports no
    replacement. *)
Theorem scenario_sync_idempotent value_is_valid data scenario print_summary
    print_summary' :
  (∀ x, 2601 ≤ x → value_is_valid x = true) →
  let synced :=
    (apply_scenario_unit_mapping value_is_valid scenario
       (build_unit_id_mapping data) print_summary).1.1 in
  apply_scenario_unit_mapping value_is_valid synced
    (build_unit_id_mapping data) print_summary'
  = (synced, [],
     if print_summary' then [SNoteUnitsHeader; SNoteNoUnits] else []).
Proof.
  intros Hvalid synced.
  set (n := n_unit_slots data).
  set (moved x := if bool_decide (2601 ≤ x < n)
                  then x + 600 * ((n - x + 599) / 600) else x).
  assert (synced = map_scenario moved moved scenario) as ->.
  { unfold synced, apply_scenario_unit_mapping.
    match goal with
    | |- context [foldl ?f ?a ?l] =>
        pose proof (unit_mapping_fold_scenario value_is_valid l scenario [])
          as Hrun;
        destruct (foldl f a l) as [scenario' report] eqn:Hfold
    end.
    simpl in Hrun. simpl. rewrite Hrun.
    apply map_scenario_ext; intros x; by rewrite seq_rename_unit_id_mapping. }
  unfold apply_scenario_unit_mapping.
  rewrite unit_mapping_fold_fixed; [by destruct print_summary'|].
  intros k v Hin Hkv.
  assert (2601 ≤ k < n) as Hk.
  { rewrite build_unit_id_mapping_items in Hin.
    apply elem_of_app in Hin as [Hin|Hin].
    - apply list_elem_of_fmap in Hin as (i & [= -> ->] & Hi%elem_of_seqZ).
      fold n in Hi. lia.
    - rewrite !elem_of_cons, elem_of_nil in Hin.
      destruct Hin as [[= -> ->]|[[= -> ->]|[]]]; done. }
  assert (∀ valid x, hit valid k (moved x) = 0) as Hhit.
  { intros valid x. unfold hit.
    rewrite (bool_decide_eq_false_2 (moved x = k)); [by rewrite andb_false_r|].
    intros Heq. apply (moved_out_of_range n x). fold (moved x). lia. }
  unfold scenario_hits, map_scenario. simpl. rewrite !total_fmap.
  rewrite !total_zero; [done| | |].
  - intros pu _. simpl. rewrite total_fmap. apply total_zero.
    intros u _. simpl. apply Hhit.
  - intros t _. simpl. rewrite total_fmap. apply total_zero.
    intros c _. unfold condition_hits. simpl. apply Hhit.
  - intros t _. simpl. rewrite total_fmap. apply total_zero.
    intros e _. unfold effect_hits. simpl. by rewrite !Hhit.
Qed.

Lemma scenario_sync_idempotent_witness :
  let synced :=
    (apply_scenario_unit_mapping (λ x, bool_decide (x ≠ -1)) ex_scenario
       (build_unit_id_mapping ex_old_mod) true).1.1 in
  apply_scenario_unit_mapping (λ x, bool_decide (x ≠ -1)) synced
    (build_unit_id_mapping ex_old_mod) true
  = (synced, [], if true then [SNoteUnitsHeader; SNoteNoUnits] else []).
Proof.
  apply (scenario_sync_idempotent (λ x, bool_decide (x ≠ -1)) ex_old_mod
           ex_scenario true true).
  intros x Hx. apply bool_decide_eq_true_2. lia.
Defined.
